(* ===== verification/_CoqProject ===== *)
-Q . S2P
Prelude.v
Order.v
GoStr.v
Decimal.v
F64.v
F64Bound.v
GoTime.v
Message.v
Config.v
Store.v
BlockEvents.v
BlockPath.v
Engine.v
Expr.v
Debug.v
Builder.v
Ownership.v
Composites.v
Address.v
Split.v
Sha256.v
KV.v
Group.v
Aggregate.v
Folding.v
Rejoin.v
Contend.v
Cache.v
Persist.v
Pool.v
Registry.v
BoundFlow.v
Leases.v
Queues.v
Dotenv.v
Env.v
Merge.v
Transcript.v
AgentRun.v
Base64.v
MemoryStore.v
AgentMemory.v
AgentSession.v
Attachments.v
AgentTurn.v
Agent.v
AgentBuild.v
Triples.v
Replay.v
AgentGate.v
AgentAccept.v
AgentResume.v
Series.v
Stats.v
Verdict.v
Metrics.v
Conditions.v
Coalesce.v
Watch.v
AlertState.v
Judgement.v
Cost.v
Catalogue.v
Trace.v
Fold.v
FoldStore.v
RedisMaps.v
FoldRefine.v
FoldOnce.v
Ingest.v
RuntimeVersion.v
Slug.v
EnvPorts.v
Deployment.v
DeployLaws.v
Reconciled.v
DeployMem.v
DeployLife.v
