(* ===== verification/Prelude.v ===== *)
(** * octo: a verification of the flow runtime, of the observability service
    and of deployments

    octo runs integrations written as YAML: a flow is a source and a chain of
    blocks, some of which (the composites) hold chains of their own.  This
    library models the parts of the Go code that decide what a flow does with a
    message, the parts of the observability service that price and fold what a
    run reports and decide when a watch alerts, and the part of the orchestrator
    that deploys an integration and sweeps up after it, and proves what makes
    them correct.  Every definition is a
    translation of the Go function the manifest maps it to; names are the
    source's where Rocq allows it (a type prefix is added where two methods
    share a name).

    ** The runtime ([src/runtime])

    - [GoStr], [F64], [GoTime]: the standard library as the code uses it:
      strings, [strconv], [%q], [float64] as IEEE 754 binary64 (the executable
      [spec_float] of the Standard Library), instants and durations in
      nanoseconds.
    - [Message]: [types/message.go], [variables.go], [bodycopy.go].  A body is a
      tree of [any]; a JSON round trip on it is [json_norm], which turns every
      number into a float64.
    - [Config]: [types/flow.go]: blocks and flows and their decoding from JSON.
    - [Store]: the world a run happens in.  Messages are shared by pointer, so a
      message is a location of a heap; beside it are a clock, a supply of random
      ids, the state of the services a block talks to ([usr]) and the record of
      what observers were told ([obs]).  A Go method that mutates and may fail is
      a function [M U A = world U -> world U * res A]: state survives an error.
    - [BlockEvents]: [core/blockevents.go]: the dispatcher of block events,
      listeners that panic included.
    - [BlockPath], [Engine]: [core/blockpath.go], [blockerror.go],
      [continuation.go], [engine/flow.go], [engine/continuation.go]: the loop
      that runs a chain and the continuations handed to the blocks that take a
      flow over.
    - [Debug]: [core/spy.go], [mock.go], [breakpoint.go] and the wrapper blocks
      of [engine]: spies, mocks and the breakpoint.
    - [Builder]: the build of a chain from its configuration (the second half of
      [engine/flow.go]).  Go's recursion is on fuel here; what stands at the end
      of the fuel is a parameter, and [build_terminates] says how much fuel
      makes it irrelevant.
    - [Expr]: [expr.EvalCondition].  CEL is third-party code: a compiled program
      is an arbitrary function of the message it reads.
    - [Ownership]: the discipline that makes sharing messages by pointer sound: a
      processor is [Local] when it touches only the message it was handed and
      those it allocated, and hands on one of them.
    - [Composites]: [blocks/controlflow/composites.go], [validate.go],
      [filter.go], [takeover.go]: handle-errors, fork, if, switch, foreach,
      enrich and validate, each as the [Process] of a built block and as the
      factory that builds it.  The pool a fork scatters its branches over is a
      parameter, the order in which it ran them.
    - [Split]: [blocks/controlflow/split.go]: the block that takes a flow over
      to run one element at a time through the rest of it.  A source of elements
      is the state of the closure that yields them.
    - [Address]: [core/runtime/address.go], [mock.go], [spy.go],
      [breakpoint.go]: the path language that names a block of a config, and the
      rewriting of the addressed block.
    - [KV]: [core/services.go] and [services/standalone/kv.go]: the key-value
      contract as a type class with its laws, the namespaces and their tiers, and
      the in-memory store that is its instance.  [Sha256] is the hash the keys of
      groups and cache entries go through.
    - [Group], [Aggregate]: [blocks/controlflow/aggregate.go]: the state of a
      group, the fold of one message into it, and the block around them: the
      optimistic loop against the store, the index of open groups and the cap on
      their number, release, restore and the sweep.  [Folding] compares a run of
      folds with lists of messages, [Rejoin] puts split and aggregate together,
      [Contend] lets other replicas write between the reads and the writes.
    - [Cache]: [blocks/controlflow/cache.go].
    - [Persist]: [services/standalone/persist.go] and the flusher of [kv.go]: the
      store, its directory and the background writer as a transition system.
    - [Pool]: [core/internal/pool/pool.go] and the workers, [resume] and [stop] of
      [core/runtime/boundflow.go], as a transition system of goroutines.
    - [Registry], [BoundFlow]: [core/eventbus.go], [core/runtime/flowregistry.go],
      [implicitsource.go], [capacity.go], [run] of [boundflow.go] and the flow-ref
      block of [blocks/builtin/flowref.go]: calling one flow from another.
    - [Leases], [Queues]: [core/lease.go], [queues.go], [topics.go] and their
      in-process implementations in [services/standalone].
    - [Dotenv], [Env], [Merge]: [core/dotenv/dotenv.go], [core/runtime/env.go] and
      [config.go]: from the bytes of .env files and the node trees of documents to
      one typed config.

    - [Transcript]: [core/llm.go], [blocks/ai/contextmeter.go] and the pruning of
      [agentmemory.go]: conversations, how they are sized, and how they are cut.
    - [AgentRun]: [agentsignals.go], [agentclaim.go]: a live run, the registry of
      the runs of a process, and the deliveries that reach one.
    - [Base64], [MemoryStore], [AgentMemory]: [core/agentmemory.go] as a type
      class, the in-process store of [services/standalone/agentmemorymem.go] as
      its instance, and the transcripts an agent keeps in the key-value store.
    - [AgentSession], [Attachments], [AgentTurn], [Agent]: the rest of the
      ai-agent block: what it remembers, what it reports, one turn with its
      tools, the loop, and one invocation from joining a run to closing it.
    - [AgentBuild]: the settings of the block and its factory.
    - [Triples]: postconditions of the two monads the agent is written in;
      [Replay], [AgentGate], [AgentAccept], [AgentResume] are the theorems about
      the loop.

    The engine runs what the builder builds; the builder calls the factories of
    [Debug] and [Composites] through a registry; [Address] rewrites the
    configuration before it is built, which [Merge] produced.  The aggregate and
    the cache see a store only through the class of [KV].  A bound flow runs an
    engine chain and publishes its outcome; the registry turns the outcome into
    the answer a flow-ref waits for.

    ** The alert evaluator ([src/observability/internal/alerting])

    - [Series], [Stats]: [series.go], [stats.go]: windows over a grid of
      buckets, gaps preserved, and the robust statistics, on binary64.
    - [Verdict]: the three-valued verdicts of [alerting.go].
    - [Metrics]: [metric.go], [query.go]: the catalogue of metrics and the
      queries that are fetched, with the key that makes two queries one fetch.
    - [Conditions]: [condition.go], [threshold.go], [spike.go], [absence.go].
      Go's interface [Condition] is a type class with an instance per kind and
      one for the value of any kind.
    - [Coalesce]: a condition judges a wider series as its own.
    - [Watch]: [watch.go]: validation, the plan of fetches and the evaluation,
      written against the class.  A fetch is a function from queries.
    - [Judgement]: what conditions conclude from silence and from zeros.
    - [AlertState]: [state.go]: the machine that turns evaluations into
      episodes.  A history is a list of evaluations, newest first.

    ** The cost of model calls ([src/observability/internal/cost])

    - [Order]: sorting by a comparison function, stable, for orders with ties;
      [F64Bound]: sums and products of prices stay non-negative and never become
      a NaN; [Decimal]: numbers written and read back.
    - [Cost]: [rate.go], [table.go], [price.go], [pricer.go]: which rate of a
      card a model id resolves to, and what a call costs by it.
    - [Catalogue]: [helicone.go], [openrouter.go], [diff.go], [refresher.go],
      [store.go]: the feeds, what has changed in them, the table of prices with
      its history, and the cards in force.

    ** Trace ingestion ([src/observability/internal/fold] and [ingest])

    - [Trace]: [ingest/trace.go], [log.go]: the records, and their decoding.
    - [Fold]: [fold/fold.go]: a run of near-identical records, what is kept of it
      and the one record that stands for it.
    - [FoldStore]: [fold/store.go], [scripts.go]: the runs in Redis.  The commands
      are a class with their documented effect as laws; a script is a function of
      the state.  [RedisMaps] is an instance of the class.
    - [FoldRefine]: the store against runs held in memory; [FoldOnce]: where each
      record of a history ends up.
    - [Ingest]: [ingest/traceconsumer.go]: the writer, from a delivered message to
      the batches that are inserted.  The lookup of an integration and the clock
      are answers that come with the message.

    ** Deployments ([src/orchestrator/internal])

    - [RuntimeVersion]: [runtimeversion/*.go]; [Slug]: [slugify] and
      [allocateSlug]; [EnvPorts]: [deployment/envports.go], against the parser of
      [Dotenv].
    - [Deployment]: [deployment/service.go], [types.go], [errors.go],
      [reconcile.go]: every operation of the service and the sweep.  The database
      and the cluster are one state, and what the service calls on them is a
      class; [meanwhile] stands for what other requests do between two calls.
    - [DeployLaws]: what a database and a cluster owe the service, and the
      invariant of rows, workloads and addresses, with [Deploy] keeping it;
      [Reconciled]: the other operations and the sweep.
    - [DeployMem]: [deployment/repo.go] on rows and a cluster in memory, which
      keep those laws; [DeployLife]: requests one after another, a sweep beside
      other requests, and histories that compute.

    ** What the theorems show

    - Running: a continuation is the rest of its flow; observation changes
      nothing; events bracket the blocks that ran; an error names its block.
    - Composites: what each hands on, in terms of what its chains did; all of
      them keep the ownership discipline.
    - Splitting: what the continuation of a split receives, element by element.
    - Aggregating: folding messages through the store is appending them to
      lists; split and aggregate are inverse; no writer overwrites what it did
      not read; a full block follows its policy; an entry of the cache is
      replayed until it expires.
    - Services: what was written is on disk or still marked to be; a restart
      reads back what was written; a flow that stops has drained; a call is
      answered by the first outcome of its own invocation, which is what running
      the flow comes to; a name has one holder; a queue hands every message on
      once and in order; topic subscribers do not wait for each other.
    - Configuration: .env files read back; substitution touches what the format
      says; a variable's value has one source; a merge is a concatenation or an
      error that names the two files.
    - Building: built chains mirror configured ones; building ends when refs do
      not loop.
    - Debugging: mocks answer, spies record without changing, a breakpoint
      stops; a collector numbers its records in one order.
    - Addresses: reading undoes spelling; a rewrite touches its target only.
    - Agents: every conversation sent to a model is one a provider accepts; a
      gated tool runs only on a person's word; an accepted message is put to the
      model or reported; a saved transcript is what the next run opens with; a
      block that builds has what its settings need; pruning keeps whole
      exchanges; the meter stays within its bounds; a listing pages through
      every row once.
    - Alerts: combining verdicts claims exactly what is known; sharing fetches
      is invisible; silence does not fire; the phase of a watch is characterised
      by its history, and episodes close on evidence.
    - Cost: a call is priced by the most specific rate of the card, whatever order
      the card is in; its cost is a non-negative number with each token billed
      once; a refresh leaves one open row for each entry and rewrites no history.
    - Folding and ingestion: a run reads as one text whatever order its records
      came in; the scripts keep the arithmetic of the runs in memory; every
      record taken is written, or is in a run that is open or was written.
    - Deployments: an allocated address is a free label; no two deployments have
      one; a deploy that fails leaves nothing; the sweep brings rows and cluster
      together and then rests, and takes down nothing that a row names, whatever
      happens beside it; the names counted as provided are those the runtime will
      read; a pin never runs ahead of the install.
    - What the code does not do as its comments say is stated as theorems too:
      [spied_takeover_never_builds], [spied_error_label],
      [aliased_mock_escapes_check], [unique_label_ambiguous],
      [self_reference_never_builds], [quiet_spend_spikes],
      [held_incident_orphaned], [completed_twice], [version_restarts],
      [fork_in_a_tail], [aliased_literal_kept], [halted_run_drops_text],
      [one_number_loses_a_record], [two_deploys_take_one_name],
      [one_integration_one_subdomain_twice], and the line limit in
      [dotenv_round_trip].

    ** Bounds and approximations

    - Go's [int] and [int64] are [Z] with [wrap64] where the code computes on
      them without a bound in sight.
    - Go iterates over maps in random order; where that order can be observed
      the theorem quantifies over it or the definition says which order it
      takes.
    - encoding/json is modelled on values, not bytes; keys match exactly.
    - Logging is left out, and contexts, except where an operation selects on
      one: there its end is an argument.  Goroutines are modelled where a theorem
      is about them ([Pool], [Persist], [Registry], [Leases], [Queues]): as steps
      of a transition system, or as operations that may come between two others.
    - The optimistic loops of the aggregate have the attempts of the code as
      fuel; scanners and substitutions have the length of their text, of which
      each round takes a part.
    - gob is a faithful encoding; writing a file is one outcome: written, or
      failed before or after the rename.  What a run does to the pool is a tree
      of work; everything else it does takes no step of that system.
    - JSON texts that a model or a tool writes are strings; parsing and printing
      them is a type class with the round trip as its law where one is used.
    - An agent runs beside the senders of signals.  Between two operations on its
      lock anything may be delivered, and a wait ends on an answer, the clock or
      the end of the run: a run is given a list of beats that says so.  Parallel
      tools interleave by whole calls, in an order that is a parameter.
    - Search in agent memory lower-cases ASCII; sorting keeps the order of ties.
    - A YAML document is its tree of nodes; the parser and the typed decoder are
      functions a theorem holds for all of.

    - [ToLower] and [ToUpper] are those of ASCII; [slugify] has the two letters
      outside it that lower-case into it.  [ParseFloat] reads decimal notation.
    - A Redis script and a SQL statement are one step each.  A number in a script
      is exact below 2^53, which the theorems suppose of counts and caps.
    - The settings and metadata of a deployment are records: their JSON columns
      keep them.  A read is a function of the state and changes nothing.
    - [addresses_never_shared] and [reconcile_settles] are about requests one
      after another; [sweep_spares_the_living] lets anything happen between the
      calls of a sweep that does not bring back an id.
    - Fuel: the thousand candidates of an allocation and the ten passes of a sweep
      over folds are the code's own; everything else there recurses on a list.

    ** Not modelled

    The start-up of the runtime and the schema validation of a config;
    connectors, the AI blocks other than the agent and the expression language;
    agent memory on disk and the services that talk to a cluster; the runner and
    SQL of the alerts; the queries of the observability service, the resolver and
    the log consumer of its ingestion; the cluster client of the orchestrator, its
    HTTP handlers and its other services; the identity service and the command
    lines.  These are I/O, generated code, wiring, or glue around third-party
    libraries (CEL, Kubernetes, the provider SDKs) whose behaviour a model would
    have to make up. *)
From stdpp Require Export prelude gmap strings relations.
From Stdlib Require Export ZArith Lia.

#[global] Open Scope Z_scope.

Create HintDb octo.
Create Rewrite HintDb octo.

(** ** Go errors

    [ErrMsg s] is [errors.New(s)] and an [fmt.Errorf] without [%w];
    [ErrWrap pre e post] is [fmt.Errorf("pre%wpost", e)]; [ErrBlock l e] is
    [&core.BlockError{Label: l, Err: e}]; [ErrBoth e1 sep e2] is
    [fmt.Errorf("%wsep%w", e1, e2)]. *)
Inductive goerr : Type :=
  | ErrMsg (s : string)
  | ErrWrap (pre : string) (e : goerr) (post : string)
  | ErrBlock (label : string) (e : goerr)
  | ErrBoth (e1 : goerr) (sep : string) (e2 : goerr).

#[global] Instance goerr_eq_dec : EqDecision goerr.
Proof. solve_decision. Defined.

(** The [(T, error)] pair of a Go function that returns one or the other. *)
Inductive res (A : Type) : Type :=
  | Ok (a : A)
  | Err (e : goerr).
Arguments Ok {A} a.
Arguments Err {A} e.

#[global] Instance res_eq_dec {A} `{EqDecision A} : EqDecision (res A).
Proof. solve_decision. Defined.
#[global] Instance res_ret : MRet res := fun A a => Ok a.
#[global] Instance res_bind : MBind res := fun A B f m =>
  match m with Ok a => f a | Err e => Err e end.
#[global] Instance res_fmap : FMap res := fun A B f m =>
  match m with Ok a => Ok (f a) | Err e => Err e end.

Definition is_ok {A} (r : res A) : bool :=
  match r with Ok _ => true | Err _ => false end.

(** [if err != nil { return ..., fmt.Errorf("pre: %w", err) }] *)
Definition wrap_err {A} (pre : string) (r : res A) : res A :=
  match r with Ok a => Ok a | Err e => Err (ErrWrap pre e "") end.

Lemma res_bind_ok {A B} (m : res A) (f : A -> res B) b :
  m ≫= f = Ok b <-> exists a, m = Ok a /\ f a = Ok b.
Proof. destruct m; naive_solver. Qed.

Lemma mapM_res_ok {A B} (f : A -> res B) (l : list A) (k : list B) :
  mapM f l = Ok k <-> Forall2 (fun x y => f x = Ok y) l k.
Proof.
  revert k. induction l as [|x l IH]; intros k; simpl.
  - split; [by intros [= <-]; constructor|]. by intros ->%Forall2_nil_inv_l.
  - rewrite res_bind_ok. setoid_rewrite res_bind_ok. split.
    + intros (y & Hx & k' & Hl & [= <-]). constructor; [done|]. by apply IH.
    + intros (y & k' & Hy & Hk & ->)%Forall2_cons_inv_l.
      apply IH in Hk. eauto.
Qed.

Lemma mapM_res_err {A B} (f : A -> res B) l e : mapM f l = Err e -> exists x, x ∈ l /\ f x = Err e.
Proof.
  induction l as [|x l IH]; cbn; [done|]. destruct (f x) eqn:E; cbn; [|intros [= ->]; exists x; set_solver].
  destruct (mapM f l); [done|]. cbn. intros [= ->]. destruct (IH eq_refl) as (y & ? & ?). exists y. set_solver.
Qed.

(** ** Step relations *)
Section runs.
Context {S : Type} (R : relation S).

Lemma run_invariant (I : S -> Prop) s s' :
  (forall x y, I x -> R x y -> I y) -> rtc R s s' -> I s -> I s'.
Proof. intros Hstep. induction 1; eauto. Qed.

(** Every run from a state that satisfies [I] ends, and ends in [P], when each
    step lowers a measure and only states of [P] have no step. *)
Lemma run_settles (I P : S -> Prop) (measure : S -> nat) s :
  (forall x y, I x -> R x y -> I y /\ (measure y < measure x)%nat) -> (forall x, I x -> P x \/ red R x) -> I s ->
  sn R s /\ forall s', rtc R s s' -> nf R s' -> P s'.
Proof.
  intros Hstep Hred Hs. split.
  - remember (measure s) as n eqn:Hn. revert s Hn Hs. induction (lt_wf n) as [n _ IH]. intros s -> Hs.
    constructor. intros y Hy. destruct (Hstep s y Hs Hy) as [Hy' Hlt]. by eapply IH.
  - intros s' Hrun Hnf. assert (I s') as Hs' by (eapply run_invariant; [|done..]; intros x y Hx Hxy; by apply (Hstep x)).
    destruct (Hred s' Hs'); [done|]. by destruct Hnf.
Qed.
End runs.

Lemma filter_none {A} (P : A -> Prop) `{forall x, Decision (P x)} (l : list A) :
  (forall x, x ∈ l -> ~ P x) -> filter P l = [].
Proof.
  induction l as [|x l IH]; [done|]. intros Hl.
  rewrite filter_cons_False by (apply Hl; left). apply IH. intros y Hy. apply Hl. by right.
Qed.

Lemma filter_all {A} (P : A -> Prop) `{forall x, Decision (P x)} (l : list A) :
  (forall x, x ∈ l -> P x) -> filter P l = l.
Proof.
  induction l as [|x l IH]; [done|]. intros Hl.
  rewrite filter_cons_True by (apply Hl; left). f_equal. apply IH. intros y Hy. apply Hl. by right.
Qed.

Lemma filter_agree {A} (P Q : A -> Prop) `{forall x, Decision (P x)} `{forall x, Decision (Q x)} (l : list A) :
  (forall x, x ∈ l -> P x <-> Q x) -> filter P l = filter Q l.
Proof.
  induction l as [|x l IH]; intros Hl; [done|]. rewrite !filter_cons, IH by (intros y Hy; apply Hl; by right).
  pose proof (Hl x ltac:(left)). destruct (decide (P x)), (decide (Q x)); naive_solver.
Qed.

(** Induction on a list two elements at a time. *)
Lemma list_pair_ind {A} (P : list A -> Prop) :
  P [] -> (forall x, P [x]) -> (forall x y l, P l -> P (x :: y :: l)) -> forall l, P l.
Proof.
  intros H0 H1 H2 l. cut (P l /\ forall x, P (x :: l)); [tauto|].
  induction l as [|x l [IH1 IH2]]; [by split|]. split; [apply IH2|]. intros y. by apply H2.
Qed.

(** ** State and errors

    A Go function that mutates shared state and may fail.  The state survives
    an error: what was mutated before the failing return stays mutated. *)
Definition SM (S A : Type) : Type := S -> S * res A.

Section state_monad.
Context {S : Type}.
#[global] Instance SM_ret : MRet (SM S) := fun A a s => (s, Ok a).
#[global] Instance SM_bind : MBind (SM S) := fun A B f m s =>
  match m s with
  | (s', Ok a) => f a s'
  | (s', Err e) => (s', Err e)
  end.
Definition fail {A} (e : goerr) : SM S A := fun s => (s, Err e).
Definition get_st : SM S S := fun s => (s, Ok s).
Definition put_st (s' : S) : SM S unit := fun _ => (s', Ok tt).
Definition modify (f : S -> S) : SM S unit := fun s => (f s, Ok tt).
Definition lift {A} (r : res A) : SM S A := fun s => (s, r).
(** [v, err := m(); ...]: run [m] and look at both outcomes. *)
Definition attempt {A} (m : SM S A) : SM S (res A) := fun s =>
  let '(s', r) := m s in (s', Ok r).
Definition wrapping {A} (pre : string) (m : SM S A) : SM S A := fun s =>
  let '(s', r) := m s in (s', wrap_err pre r).
End state_monad.

Lemma SM_bind_ok {S A B} (m : SM S A) (f : A -> SM S B) s s' a :
  m s = (s', Ok a) -> (m ≫= f) s = f a s'.
Proof. intros H. unfold mbind, SM_bind. by rewrite H. Qed.

Lemma attempt_run {S A} (m : SM S A) s s' r : m s = (s', r) -> attempt m s = (s', Ok r).
Proof. intros H. unfold attempt. by rewrite H. Qed.
Lemma wrapping_run {S A} pre (m : SM S A) s s' r : m s = (s', r) -> wrapping pre m s = (s', wrap_err pre r).
Proof. intros H. unfold wrapping. by rewrite H. Qed.
Lemma bind_attempt {S A B} (m : SM S A) (f : res A -> SM S B) s s' r :
  m s = (s', r) -> (attempt m ≫= f) s = f r s'.
Proof. intros H. by rewrite (SM_bind_ok _ _ _ _ _ (attempt_run m s s' r H)). Qed.
Lemma bind_wrapping {S A B} pre (m : SM S A) (f : A -> SM S B) s s' a :
  m s = (s', Ok a) -> (wrapping pre m ≫= f) s = f a s'.
Proof. intros H. by rewrite (SM_bind_ok _ _ _ _ _ (wrapping_run pre m s s' _ H)). Qed.

Lemma SM_bind_err {S A B} (m : SM S A) (f : A -> SM S B) s s' e :
  m s = (s', Err e) -> (m ≫= f) s = (s', Err e).
Proof. intros H. unfold mbind, SM_bind. by rewrite H. Qed.

Lemma SM_bind_inv_ok {S A B} (m : SM S A) (f : A -> SM S B) s s' b :
  (m ≫= f) s = (s', Ok b) -> exists s1 a, m s = (s1, Ok a) /\ f a s1 = (s', Ok b).
Proof. unfold mbind, SM_bind. destruct (m s) as [s1 [a|e]]; naive_solver. Qed.
(** A run taken apart at a bind. *)
Lemma bind_split {S A B} (m : SM S A) (f : A -> SM S B) s s' r : (m ≫= f) s = (s', r) ->
  (exists s1 a, m s = (s1, Ok a) /\ f a s1 = (s', r)) \/ (exists e, m s = (s', Err e) /\ r = Err e).
Proof. unfold mbind, SM_bind. destruct (m s) as [s1 [a|e]]; [intros H; left; by exists s1, a|intros [= <- <-]; right; by exists e]. Qed.
Lemma attempt_split {S A B} (m : SM S A) (f : res A -> SM S B) s s' r : (attempt m ≫= f) s = (s', r) ->
  exists s1 a, m s = (s1, a) /\ f a s1 = (s', r).
Proof. unfold mbind, SM_bind, attempt. destruct (m s) as [s1 a]. intros H. by exists s1, a. Qed.

(** ** Fixed-width integers: Go's [int]/[int64] are 64-bit two's complement. *)
Definition int64_min : Z := - 2 ^ 63.
Definition int64_max : Z := 2 ^ 63 - 1.
Definition wrap64 (z : Z) : Z := (z + 2 ^ 63) `mod` 2 ^ 64 - 2 ^ 63.
Definition in_int64 (z : Z) : Prop := int64_min ≤ z ≤ int64_max.

Lemma wrap64_id z : in_int64 z -> wrap64 z = z.
Proof.
  unfold in_int64, int64_min, int64_max, wrap64. intros H.
  rewrite Z.mod_small; lia.
Qed.

Lemma wrap64_range z : in_int64 (wrap64 z).
Proof.
  unfold in_int64, int64_min, int64_max, wrap64.
  pose proof (Z.mod_pos_bound (z + 2 ^ 63) (2 ^ 64)). lia.
Qed.

Definition u32 (z : Z) : Z := z `mod` 2 ^ 32.
