(* ===== verification/Order.v ===== *)
(** Sorting by a [less] function, as [sort.Slice] and [sort.SliceStable] do, and
    the orders they are given: strict weak orders, and lexicographic chains of
    comparisons. *)
From S2P Require Import Prelude.
From stdpp Require Import sorting.

#[local] Open Scope Z_scope.

(** Rows the order does not tell apart keep the order they came in. *)
Fixpoint insert_by {A} (less : A -> A -> bool) (x : A) (l : list A) : list A :=
  match l with
  | [] => [x]
  | y :: l' => if less y x then y :: insert_by less x l' else x :: l
  end.
Definition sort_by {A} (less : A -> A -> bool) : list A -> list A := foldr (insert_by less) [].

Lemma insert_by_perm {A} (less : A -> A -> bool) x l : insert_by less x l ≡ₚ x :: l.
Proof. induction l as [|y l IH]; cbn; [done|]. destruct (less y x); [|done]. by rewrite IH, Permutation_swap. Qed.
Lemma sort_by_perm {A} (less : A -> A -> bool) l : sort_by less l ≡ₚ l.
Proof. induction l as [|x l IH]; cbn; [done|]. unfold sort_by in IH. by rewrite insert_by_perm, IH. Qed.

(** ** Strict weak orders, on the elements that satisfy [P] *)
Record weak_order {A} (P : A -> Prop) (less : A -> A -> bool) : Prop := {
  wo_asym : forall a b, P a -> P b -> less a b = true -> less b a = false;
  wo_split : forall a b c, P a -> P b -> P c -> less a b = true -> less a c = true \/ less c b = true }.

Section weak_order.
Context {A : Type} (P : A -> Prop) (less : A -> A -> bool) (H : weak_order P less).

Definition not_after (a b : A) : Prop := less b a = false.

Lemma not_after_trans a b c : P a -> P b -> P c -> not_after a b -> not_after b c -> not_after a c.
Proof.
  unfold not_after. intros Ha Hb Hc Hab Hbc. destruct (less c a) eqn:Hca; [|done].
  destruct (wo_split _ _ H c a b Hc Ha Hb Hca); congruence.
Qed.

Lemma insert_by_sorted x l : P x -> Forall P l -> StronglySorted not_after l -> StronglySorted not_after (insert_by less x l).
Proof.
  intros Hx Hl Hs. induction Hs as [|y l Hs IH Hy]; cbn; [by repeat constructor|].
  apply Forall_cons in Hl as [HPy Hl]. destruct (less y x) eqn:Hyx.
  - constructor; [by apply IH|]. apply Forall_forall. intros z Hz. rewrite insert_by_perm in Hz.
    apply elem_of_cons in Hz as [->|Hz]; [by apply (wo_asym _ _ H)|]. by eapply Forall_forall in Hy.
  - constructor; [by constructor|]. constructor; [done|]. rewrite Forall_forall in Hy, Hl |- *.
    intros z Hz. eapply (not_after_trans x y z); eauto.
Qed.

Lemma sort_by_sorted l : Forall P l -> StronglySorted not_after (sort_by less l).
Proof.
  induction l as [|x l IH]; intros Hl; [constructor|]. apply Forall_cons in Hl as [Hx Hl].
  apply insert_by_sorted; [done| |by apply IH]. change (Forall P (sort_by less l)). by rewrite sort_by_perm.
Qed.

(** The order of the input shows only in what [less] does not tell apart. *)
Lemma sort_by_agree l l' : Forall P l -> l ≡ₚ l' ->
  (forall a b, a ∈ l -> b ∈ l -> not_after a b -> not_after b a -> a = b) -> sort_by less l = sort_by less l'.
Proof.
  intros Hl Hp Ht. assert (Forall P l') as Hl' by by rewrite <-Hp.
  apply (StronglySorted_unique_strong not_after); [|by apply sort_by_sorted..|by rewrite !sort_by_perm].
  intros a b Ha Hb. rewrite sort_by_perm in Ha, Hb. rewrite <-Hp in Hb. by apply Ht.
Qed.
End weak_order.

(** The first element of a sorted list that passes a test comes before every
    other one that does. *)
Lemma sorted_find {A} (R : A -> A -> Prop) (test : A -> bool) l : StronglySorted R l ->
  match List.find test l with
  | Some x => x ∈ l /\ test x = true /\ forall y, y ∈ l -> test y = true -> y = x \/ R x y
  | None => forall y, y ∈ l -> test y = false
  end.
Proof.
  induction 1 as [|x l Hs IH Hx]; cbn; [by intros y ?%elem_of_nil|]. destruct (test x) eqn:Ht.
  - split_and!; [by left|done|]. intros y [->|Hy]%elem_of_cons _; [by left|right]. by eapply Forall_forall in Hx.
  - destruct (List.find test l) as [z|].
    + destruct IH as (Hz & Htz & IH). split_and!; [by right|done|]. intros y [->|Hy]%elem_of_cons Hty; [congruence|by apply IH].
    + intros y [->|Hy]%elem_of_cons; [done|by apply IH].
Qed.

(** ** Chains of comparisons: the next one decides what this one leaves open *)
Definition then_by {A} (first rest : A -> A -> bool) (a b : A) : bool :=
  first a b || (negb (first b a) && rest a b).

Lemma then_by_order {A} (P : A -> Prop) (first rest : A -> A -> bool) :
  weak_order P first -> weak_order P rest -> weak_order P (then_by first rest).
Proof.
  intros [Fa Fs] [Ra Rs]. unfold then_by. split.
  - intros a b Ha Hb [H|[H1 H2]%andb_prop]%orb_prop.
    + rewrite (Fa a b), H by done. done.
    + apply negb_true_iff in H1. rewrite H1, (Ra a b) by done. by rewrite andb_false_r.
  - intros a b c Ha Hb Hc [H|[H1 H2]%andb_prop]%orb_prop.
    + destruct (Fs a b c Ha Hb Hc H) as [->| ->]; auto.
    + apply negb_true_iff in H1. destruct (first c a) eqn:Hca.
      { destruct (Fs c a b Hc Ha Hb Hca) as [->|?]; [by right|congruence]. }
      destruct (first b c) eqn:Hbc.
      { destruct (Fs b c a Hb Hc Ha Hbc) as [?| ->]; [congruence|by left]. }
      destruct (Rs a b c Ha Hb Hc H2) as [-> | ->]; [left|right]; by rewrite ?orb_true_r.
Qed.

(** What a chain leaves open, every comparison in it leaves open. *)
Lemma then_by_tie {A} (first rest : A -> A -> bool) a b :
  then_by first rest a b = false -> then_by first rest b a = false ->
  first a b = false /\ first b a = false /\ rest a b = false /\ rest b a = false.
Proof. unfold then_by. destruct (first a b), (first b a), (rest a b), (rest b a); cbn; intuition congruence. Qed.

Lemma by_key_order {A K} (P : A -> Prop) (Q : K -> Prop) (key : A -> K) (less : K -> K -> bool) :
  (forall a, P a -> Q (key a)) -> weak_order Q less -> weak_order P (fun a b => less (key a) (key b)).
Proof. intros Hk [Ha Hs]. split; intros; [by apply Ha; auto|by apply Hs; auto]. Qed.

Lemma Z_order {Q} : weak_order Q Z.ltb.
Proof. split; intros *; rewrite ?Z.ltb_lt, ?Z.ltb_ge; lia. Qed.
Lemma Z_down_order {Q} : weak_order Q (fun x y => y <? x).
Proof. split; intros *; rewrite ?Z.ltb_lt, ?Z.ltb_ge; lia. Qed.
Lemma bool_order {Q} : weak_order Q (fun x y => x && negb y).
Proof. split; [by intros [] []|intros [] [] []; cbn; auto]. Qed.

Lemma ltb_compare x y : String.ltb x y = true <-> String.compare x y = Lt.
Proof. unfold String.ltb. by destruct (String.compare x y). Qed.
Lemma ascii_compare_lt a b : Ascii.compare a b = Lt <-> (Ascii.N_of_ascii a < Ascii.N_of_ascii b)%N.
Proof. apply N.compare_lt_iff. Qed.
Lemma ascii_compare_eq a b : Ascii.compare a b = Eq <-> a = b.
Proof.
  unfold Ascii.compare. rewrite N.compare_eq_iff. split; [|by intros ->].
  intros H. by rewrite <-(Ascii.ascii_N_embedding a), H, Ascii.ascii_N_embedding.
Qed.

Lemma string_split x y z : String.compare x y = Lt -> String.compare x z = Lt \/ String.compare z y = Lt.
Proof.
  revert y z. induction x as [|a x IH]; intros [|b y] [|c z]; cbn; try done; try by auto.
  destruct (Ascii.compare a b) eqn:Hab; [|intros _|done].
  - apply ascii_compare_eq in Hab as <-. intros Hxy. rewrite (Ascii.compare_antisym c a).
    destruct (Ascii.compare a c) eqn:Hac; cbn; [by apply IH|by left|by right].
  - destruct (Ascii.compare a c) eqn:Hac; [|by left|].
    + apply ascii_compare_eq in Hac as <-. rewrite Hab. by right.
    + right. enough (Ascii.compare c b = Lt) as -> by done.
      assert (Ascii.compare c a = Lt) as Hca by by rewrite Ascii.compare_antisym, Hac.
      apply ascii_compare_lt in Hca, Hab. apply ascii_compare_lt. by etransitivity.
Qed.
Lemma string_order {Q} : weak_order Q String.ltb.
Proof.
  split.
  - intros a b _ _ H%ltb_compare. unfold String.ltb. by rewrite String.compare_antisym, H.
  - intros a b c _ _ _ H%ltb_compare. rewrite !ltb_compare. by apply string_split.
Qed.
Lemma string_irrefl x : String.ltb x x = false.
Proof. unfold String.ltb. pose proof (String.compare_antisym x x) as H. by destruct (String.compare x x). Qed.
Lemma string_tie x y : String.ltb x y = false -> String.ltb y x = false -> x = y.
Proof.
  unfold String.ltb. rewrite (String.compare_antisym y x). destruct (String.compare x y) eqn:H; try done.
  intros _ _. by apply String.compare_eq_iff.
Qed.
