(* ===== verification/GoStr.v ===== *)
(** Go strings: the operations of [strings], [strconv] and [fmt]'s [%q] that
    the program uses, on byte strings. *)
From S2P Require Import Prelude.
From Stdlib Require Import Ascii String.
From stdpp Require Import pretty.
#[local] Open Scope string_scope.
#[local] Open Scope Z_scope.

Definition code (a : ascii) : Z := Z.of_nat (nat_of_ascii a).

(** [strings.IndexByte(s, c)], [None] for -1. *)
Fixpoint index_byte (s : string) (c : ascii) : option nat :=
  match s with
  | EmptyString => None
  | String a r => if Ascii.eqb a c then Some 0%nat else S <$> index_byte r c
  end.

(** [strings.ContainsRune(s, c)] for an ASCII [c]. *)
Fixpoint contains_byte (s : string) (c : ascii) : bool :=
  match s with
  | EmptyString => false
  | String a r => Ascii.eqb a c || contains_byte r c
  end.

(** [strings.ContainsAny(s, cs)] for ASCII [cs]. *)
Definition contains_any (s : string) (cs : list ascii) : bool :=
  existsb (contains_byte s) cs.

(** [strings.HasSuffix(s, string(c))]. *)
Fixpoint ends_with (s : string) (c : ascii) : bool :=
  match s with
  | EmptyString => false
  | String a EmptyString => Ascii.eqb a c
  | String _ r => ends_with r c
  end.

(** [s[:n]] and [s[n:]]. *)
Fixpoint str_take (n : nat) (s : string) : string :=
  match n, s with
  | O, _ | _, EmptyString => ""
  | S n', String a r => String a (str_take n' r)
  end.
Fixpoint str_drop (n : nat) (s : string) : string :=
  match n, s with
  | O, _ => s
  | _, EmptyString => ""
  | S n', String _ r => str_drop n' r
  end.

(** [strings.Split(s, string(c))]: always at least one piece. *)
Fixpoint split_on (c : ascii) (s : string) : list string :=
  match s with
  | EmptyString => [""]
  | String a r =>
      if Ascii.eqb a c then "" :: split_on c r
      else match split_on c r with
           | [] => [String a ""]
           | p :: ps => String a p :: ps
           end
  end.

(** [strings.Join(parts, sep)]. *)
Fixpoint join (sep : string) (parts : list string) : string :=
  match parts with
  | [] => ""
  | [p] => p
  | p :: ps => p ++ sep ++ join sep ps
  end.

(** [strings.HasPrefix(s, p)]. *)
Fixpoint has_prefix (s p : string) : bool :=
  match p, s with
  | EmptyString, _ => true
  | String a p', String b s' => Ascii.eqb a b && has_prefix s' p'
  | String _ _, EmptyString => false
  end.

(** [strings.Cut(s, sep)]: the text around the first occurrence of [sep], or
    [None] when there is none. *)
Fixpoint cut (s sep : string) : option (string * string) :=
  if has_prefix s sep then Some ("", str_drop (String.length sep) s)
  else match s with
       | EmptyString => None
       | String a r =>
           match cut r sep with
           | Some (b, t) => Some (String a b, t)
           | None => None
           end
       end.

Definition ascii_space (a : ascii) : bool :=
  let n := code a in ((9 <=? n) && (n <=? 13)) || (n =? 32).

(** [strings.TrimSpace(s) == ""]: every rune of [s] is white space in the
    sense of [unicode.IsSpace], multi-byte ones included. *)
Fixpoint is_blank (s : string) : bool :=
  match s with
  | EmptyString => true
  | String a r =>
      if ascii_space a then is_blank r
      else match r with
        | EmptyString => false
        | String b r1 =>
            if (code a =? 194) && ((code b =? 133) || (code b =? 160))
            then is_blank r1
            else match r1 with
              | EmptyString => false
              | String c r2 =>
                  let x := code a in let y := code b in let z := code c in
                  if ((x =? 225) && (y =? 154) && (z =? 128))
                     || ((x =? 226) && (y =? 128)
                         && (((128 <=? z) && (z <=? 138)) || (z =? 168)
                             || (z =? 169) || (z =? 175)))
                     || ((x =? 226) && (y =? 129) && (z =? 159))
                     || ((x =? 227) && (y =? 128) && (z =? 128))
                  then is_blank r2 else false
              end
        end
  end.

(** [strings.ToLower] and [strings.ToUpper], on ASCII letters; the bytes of other
    runes are left as they are. *)
Definition lower_ascii (a : ascii) : ascii :=
  if (65 <=? code a) && (code a <=? 90) then ascii_of_nat (nat_of_ascii a + 32) else a.
Definition upper_ascii (a : ascii) : ascii :=
  if (97 <=? code a) && (code a <=? 122) then ascii_of_nat (nat_of_ascii a - 32) else a.
Fixpoint ToLower (s : string) : string :=
  match s with EmptyString => "" | String a r => String (lower_ascii a) (ToLower r) end.
Fixpoint ToUpper (s : string) : string :=
  match s with EmptyString => "" | String a r => String (upper_ascii a) (ToUpper r) end.

(** [strings.Contains]. *)
Definition contains (s sub : string) : bool :=
  match cut s sub with Some _ => true | None => false end.

(** [strings.TrimSpace] *)
(** The encodings of the runes [unicode.IsSpace] holds for. *)
Definition white_space : list (list ascii) :=
  map (map ascii_of_nat)
    ([[9]; [10]; [11]; [12]; [13]; [32]; [194; 133]; [194; 160]; [225; 154; 128]; [226; 128; 168]; [226; 128; 169];
      [226; 128; 175]; [226; 129; 159]; [227; 128; 128]]
     ++ map (fun z => [226; 128; z]) (seq 128 11))%nat%list.

#[global] Arguments white_space : simpl never.

Fixpoint drop_prefix (p l : list ascii) : option (list ascii) :=
  match p, l with
  | [], _ => Some l
  | a :: p, b :: l => if Ascii.eqb a b then drop_prefix p l else None
  | _ :: _, [] => None
  end.
Fixpoint strip_any (seps : list (list ascii)) (l : list ascii) : option (list ascii) :=
  match seps with
  | [] => None
  | p :: seps => match drop_prefix p l with Some r => Some r | None => strip_any seps l end
  end.
Fixpoint trim_front (fuel : nat) (seps : list (list ascii)) (l : list ascii) : list ascii :=
  match fuel with
  | O => l
  | S fuel => match strip_any seps l with Some r => trim_front fuel seps r | None => l end
  end.
(** Trimming front and back; each step takes a byte at least. *)
Definition trim_list (l : list ascii) : list ascii :=
  let front := trim_front (List.length l) white_space l in
  rev (trim_front (List.length front) (map (@rev ascii) white_space) (rev front)).
Definition TrimSpace (s : string) : string := string_of_list_ascii (trim_list (list_ascii_of_string s)).

(** [strings.TrimSuffix(s, string(c))]. *)
Fixpoint trim_suffix_byte (s : string) (c : ascii) : string :=
  match s with
  | EmptyString => ""
  | String a EmptyString => if Ascii.eqb a c then "" else s
  | String a r => String a (trim_suffix_byte r c)
  end.

(** [strings.HasSuffix] and [strings.TrimSuffix]. *)
Definition HasSuffix (s suffix : string) : bool :=
  Nat.leb (String.length suffix) (String.length s) &&
  String.eqb (str_drop (String.length s - String.length suffix) s) suffix.
Definition TrimSuffix (s suffix : string) : string :=
  if HasSuffix s suffix then str_take (String.length s - String.length suffix) s else s.

(** [strconv.Itoa]. *)
Definition itoa (z : Z) : string := pretty z.

Definition digit (a : ascii) : option Z :=
  let n := code a in
  if (48 <=? n) && (n <=? 57) then Some (n - 48) else None.

Fixpoint digits (s : string) (acc : Z) : option Z :=
  match s with
  | EmptyString => Some acc
  | String a r => d ← digit a; digits r (10 * acc + d)
  end.

(** [strconv.Atoi]: an optional sign, at least one decimal digit, and a value
    that fits 64 bits; [None] is its error. *)
Definition atoi (s : string) : option Z :=
  let ranged z := if (int64_min <=? z) && (z <=? int64_max) then Some z else None in
  match s with
  | EmptyString => None
  | String a r =>
      if Ascii.eqb a "-" then
        match r with EmptyString => None | _ => digits r 0 ≫= fun z => ranged (- z) end
      else if Ascii.eqb a "+" then
        match r with EmptyString => None | _ => digits r 0 ≫= ranged end
      else digits s 0 ≫= ranged
  end.

Definition hex_digit (z : Z) : ascii :=
  ascii_of_nat (Z.to_nat (if z <? 10 then 48 + z else 87 + z)).

(** The [%q] verb (strconv.Quote) for text whose non-ASCII bytes form
    printable UTF-8, which Quote leaves as they are. *)
Fixpoint quote_body (s : string) : string :=
  match s with
  | EmptyString => ""
  | String a r =>
      let n := code a in
      (if n =? 34 then "\" ++ String a ""
       else if n =? 92 then "\\"
       else if n =? 7 then "\a" else if n =? 8 then "\b"
       else if n =? 12 then "\f" else if n =? 10 then "\n"
       else if n =? 13 then "\r" else if n =? 9 then "\t"
       else if n =? 11 then "\v"
       else if (n <? 32) || (n =? 127) then
         "\x" ++ String (hex_digit (n / 16)) (String (hex_digit (n `mod` 16)) "")
       else String a "") ++ quote_body r
  end.
Definition dquote : string := String (ascii_of_nat 34) "".
Definition quote (s : string) : string := dquote ++ quote_body s ++ dquote.

(** [err.Error()]. *)
Fixpoint error_text (e : goerr) : string :=
  match e with
  | ErrMsg s => s
  | ErrWrap pre e post => pre ++ error_text e ++ post
  | ErrBlock l e => "block " ++ quote l ++ ": " ++ error_text e
  | ErrBoth e1 sep e2 => error_text e1 ++ sep ++ error_text e2
  end.

(** [errors.Is(err, target)] for a sentinel [target]. *)
Fixpoint error_is (e target : goerr) : bool :=
  if decide (e = target) then true
  else match e with
       | ErrMsg _ => false
       | ErrWrap _ e' _ | ErrBlock _ e' => error_is e' target
       | ErrBoth e1 _ e2 => error_is e1 target || error_is e2 target
       end.

(** [sort.Strings]: byte order. *)
Fixpoint insert_string (x : string) (l : list string) : list string :=
  match l with
  | [] => [x]
  | y :: l' => if String.leb x y then x :: l else y :: insert_string x l'
  end.
Fixpoint sort_strings (l : list string) : list string :=
  match l with [] => [] | x :: l' => insert_string x (sort_strings l') end.

Lemma insert_string_perm x l : insert_string x l ≡ₚ x :: l.
Proof.
  induction l as [|y l IH]; simpl; [done|].
  destruct (String.leb x y); [done|]. rewrite IH. apply Permutation_swap.
Qed.
Lemma sort_strings_perm l : sort_strings l ≡ₚ l.
Proof. induction l as [|x l IH]; simpl; [done|]. by rewrite insert_string_perm, IH. Qed.

(** ** Lemmas on splitting *)
Lemma contains_byte_app s1 s2 c : contains_byte (s1 ++ s2) c = contains_byte s1 c || contains_byte s2 c.
Proof. induction s1 as [|a s1 IH]; simpl; [done|]. rewrite IH. by rewrite orb_assoc. Qed.

Lemma index_byte_none s c : contains_byte s c = false -> index_byte s c = None.
Proof.
  induction s as [|a s IH]; simpl; [done|]. intros [H1 H2]%orb_false_elim.
  by rewrite H1, IH.
Qed.

Lemma index_byte_app s c r :
  contains_byte s c = false -> index_byte (s ++ String c r) c = Some (String.length s).
Proof.
  induction s as [|a s IH]; simpl; [by rewrite Ascii.eqb_refl|].
  intros [H1 H2]%orb_false_elim. by rewrite H1, IH.
Qed.

Lemma split_on_nonempty c s : split_on c s ≠ [].
Proof. destruct s as [|a s]; simpl; [done|]. by destruct (Ascii.eqb a c), (split_on c s). Qed.

Lemma split_on_none c s : contains_byte s c = false -> split_on c s = [s].
Proof.
  induction s as [|a s IH]; simpl; [done|]. intros [H1 H2]%orb_false_elim.
  by rewrite H1, IH.
Qed.

Lemma split_on_app c s1 s2 : split_on c (s1 ++ String c s2) = (split_on c s1 ++ split_on c s2)%list.
Proof.
  induction s1 as [|a s1 IH]; simpl; [by rewrite Ascii.eqb_refl|].
  rewrite IH. destruct (Ascii.eqb a c); [done|].
  pose proof (split_on_nonempty c s1). by destruct (split_on c s1).
Qed.

Lemma ends_with_app s c : ends_with (s ++ String c "") c = true.
Proof.
  induction s as [|a s IH]; simpl; [by rewrite Ascii.eqb_refl|].
  destruct (s ++ String c "")%string eqn:E; [by destruct s|done].
Qed.

Lemma str_drop_app s r : str_drop (String.length s) (s ++ r) = r.
Proof. induction s as [|a s IH]; simpl; [by destruct r|done]. Qed.
Lemma str_take_app s r : str_take (String.length s) (s ++ r) = s.
Proof. induction s as [|a s IH]; simpl; [by destruct r|by rewrite IH]. Qed.
Lemma length_app_str s r : String.length (s ++ r) = (String.length s + String.length r)%nat.
Proof. induction s as [|a s IH]; simpl; [done|by rewrite IH]. Qed.
Lemma app_str_assoc s1 s2 s3 : ((s1 ++ s2) ++ s3 = s1 ++ (s2 ++ s3))%string.
Proof. induction s1 as [|a s1 IH]; [done|]. exact (f_equal (String a) IH). Qed.

Lemma app_str_nil_r s : (s ++ "")%string = s.
Proof. induction s as [|a s IH]; [done|exact (f_equal (String a) IH)]. Qed.
Lemma cons_app a s t : (String a s ++ t = String a (s ++ t))%string.
Proof. done. Qed.
Lemma nil_app t : ("" ++ t = t)%string.
Proof. done. Qed.

Lemma HasSuffix_app s suffix : HasSuffix (s ++ suffix)%string suffix = true.
Proof.
  unfold HasSuffix. rewrite length_app_str. apply andb_true_iff. split; [apply Nat.leb_le; lia|].
  rewrite Nat.add_sub, str_drop_app. apply String.eqb_refl.
Qed.
Lemma TrimSuffix_app s suffix : TrimSuffix (s ++ suffix)%string suffix = s.
Proof. unfold TrimSuffix. rewrite HasSuffix_app, length_app_str, Nat.add_sub. apply str_take_app. Qed.

(** A full stop is not white space. *)
Lemma is_blank_dot s : contains_byte s "." = true -> is_blank s = false.
Proof.
  remember (String.length s) as n eqn:Hn. revert s Hn.
  induction n as [n IH] using lt_wf_ind. intros s -> H.
  assert (forall t, (String.length t < String.length s)%nat -> contains_byte t "." = true ->
    is_blank t = false) as IH' by (intros; by eapply IH). clear IH.
  destruct s as [|a s]; [done|]. cbn [is_blank contains_byte] in *.
  destruct (ascii_space a) eqn:Ha.
  { apply IH'; [simpl; lia|]. destruct (Ascii.eqb_spec a "."); [by subst|done]. }
  destruct s as [|b s]; [done|]. cbn [contains_byte] in H.
  destruct ((code a =? 194) && ((code b =? 133) || (code b =? 160))) eqn:H2.
  { apply IH'; [simpl; lia|].
    destruct (Ascii.eqb_spec a "."); [by subst|]. destruct (Ascii.eqb_spec b "."); [by subst; rewrite andb_false_r in H2|done]. }
  destruct s as [|c s]; [done|]. cbn [contains_byte] in H. cbv zeta.
  match goal with |- (if ?x then _ else _) = _ => destruct x eqn:H3 end; [|done].
  apply IH'; [simpl; lia|].
  destruct (Ascii.eqb_spec a "."); [by subst|].
  destruct (Ascii.eqb_spec b "."); [subst b; exfalso; revert H3; by destruct (code a =? 225), (code a =? 226), (code a =? 227)|].
  destruct (Ascii.eqb_spec c "."); [subst c; exfalso; revert H3; by destruct (code a =? 225), (code a =? 226), (code a =? 227), (code b =? 154), (code b =? 128), (code b =? 129)|done].
Qed.

Lemma has_prefix_app s p : has_prefix s p = true <-> exists r, s = (p ++ r)%string.
Proof.
  revert s. induction p as [|a p IH]; intros s.
  - split; [by exists s|by destruct s].
  - destruct s as [|b s]; simpl; [split; [done|by intros [r [=]]]|].
    rewrite andb_true_iff, IH. split.
    + intros [->%Ascii.eqb_eq [r ->]]. by exists r.
    + intros [r [= -> ->]]. split; [apply Ascii.eqb_refl|by exists r].
Qed.
