(* ===== verification/Decimal.v ===== *)
(** [strconv.Atoi] reads what [strconv.Itoa] writes. *)
From S2P Require Import Prelude GoStr.
From stdpp Require Import pretty.
From Stdlib Require Import String Ascii.
#[local] Open Scope string_scope.
#[local] Open Scope Z_scope.

Lemma digit_char (x : N) : (x < 10)%N -> digit (pretty_N_char x) = Some (Z.of_N x).
Proof.
  intros H. assert (x = 0 ∨ x = 1 ∨ x = 2 ∨ x = 3 ∨ x = 4 ∨ x = 5 ∨ x = 6 ∨ x = 7 ∨ x = 8 ∨ x = 9)%N as Hx by lia.
  by destruct_or?; subst.
Qed.
Lemma digits_go (x : N) s : digits (pretty_N_go x s) 0 = digits s (Z.of_N x).
Proof.
  revert s. induction (N.lt_wf_0 x) as [x _ IH]; intros s. destruct (decide (x = 0)%N) as [->|Hx]; [done|].
  rewrite pretty_N_go_step by lia. rewrite IH by (apply N.div_lt; lia). cbn [digits].
  rewrite digit_char by (apply N.mod_lt; lia). cbn. f_equal. pose proof (N.div_mod x 10 ltac:(lia)). lia.
Qed.
Lemma digits_pretty (x : N) : digits (pretty x) 0 = Some (Z.of_N x).
Proof. unfold pretty, pretty_N. destruct (decide (x = 0)%N) as [->|]; [done|]. by rewrite digits_go. Qed.

Lemma pretty_digit_first (x : N) : exists a r, pretty x = String a r /\ is_Some (digit a).
Proof.
  pose proof (digits_pretty x) as H. destruct (pretty x) as [|a r] eqn:E.
  - cbn in H. injection H as H. assert (x = 0%N) as -> by lia. done.
  - exists a, r. split; [done|]. cbn in H. destruct (digit a); [by eexists|done].
Qed.

Lemma atoi_itoa z : in_int64 z -> atoi (itoa z) = Some z.
Proof.
  intros Hz. unfold itoa, atoi. assert (forall n, in_int64 n -> (if (int64_min <=? n) && (n <=? int64_max) then Some n else None) = Some n) as Hr.
  { intros n [H1 H2]. apply Z.leb_le in H1, H2. by rewrite H1, H2. }
  destruct z as [|p|p].
  - done.
  - change (pretty (Z.pos p)) with (pretty (N.pos p)). pose proof (digits_pretty (N.pos p)) as Hd.
    destruct (pretty_digit_first (N.pos p)) as (a & r & Hp & Ha). rewrite Hp in *.
    destruct (Ascii.eqb_spec a "-") as [->|]; [by destruct Ha|]. destruct (Ascii.eqb_spec a "+") as [->|]; [by destruct Ha|].
    rewrite Hd. cbn. by apply Hr.
  - change (pretty (Z.neg p)) with ("-" ++ pretty (N.pos p)). rewrite cons_app, nil_app. cbn [Ascii.eqb Bool.eqb].
    pose proof (digits_pretty (N.pos p)) as Hd. destruct (pretty_digit_first (N.pos p)) as (a & r & Hp & Ha). rewrite Hp in *. rewrite Hd. cbn.
    by apply Hr.
Qed.
