(* ===== verification/F64.v ===== *)
(** IEEE 754 binary64, as Go's [float64]: the executable [spec_float] of the
    Standard Library at precision 53 and exponent bound 1024, with the
    operations of package [math] the program calls. *)
From S2P Require Import Prelude Order.
From Stdlib Require Import Floats.SpecFloat.

Definition f64 : Type := spec_float.

#[global] Instance f64_eq_dec : EqDecision f64.
Proof. unfold f64. solve_decision. Defined.

Definition prec : Z := 53.
Definition emax : Z := 1024.

(** [float64(n)] for an integer [n]: round to nearest, ties to even. *)
Definition f_of_Z (z : Z) : f64 := binary_normalize prec emax z 0 false.

(** The literal [a/b], correctly rounded. *)
Definition f_add : f64 -> f64 -> f64 := SFadd prec emax.
Definition f_sub : f64 -> f64 -> f64 := SFsub prec emax.
Definition f_mul : f64 -> f64 -> f64 := SFmul prec emax.
Definition f_div : f64 -> f64 -> f64 := SFdiv prec emax.
Definition f_sqrt : f64 -> f64 := SFsqrt prec emax.
Definition f_neg : f64 -> f64 := SFopp.
Definition f_abs : f64 -> f64 := SFabs.
Definition f_lit (a b : Z) : f64 := f_div (f_of_Z a) (f_of_Z b).

Definition f_zero : f64 := S754_zero false.
Definition f_one : f64 := f_of_Z 1.

(** The comparison operators [<], [<=], [==]: false on NaN. *)
Definition f_lt (x y : f64) : bool := SFltb x y.
Definition f_le (x y : f64) : bool := SFleb x y.
Definition f_eq (x y : f64) : bool := SFeqb x y.
Definition f_gt (x y : f64) : bool := f_lt y x.
Definition f_ge (x y : f64) : bool := f_le y x.

Definition is_nan (x : f64) : bool :=
  match x with S754_nan => true | _ => false end.

(** [math.IsInf(x, 0)]. *)
Definition is_inf (x : f64) : bool :=
  match x with S754_infinity _ => true | _ => false end.

(** [math.Max] and [math.Min]: infinities first, then NaN, then signed zeros. *)
Definition math_max (x y : f64) : f64 :=
  match x, y with
  | S754_infinity false, _ | _, S754_infinity false => S754_infinity false
  | S754_nan, _ | _, S754_nan => S754_nan
  | S754_zero s, S754_zero s' => if s then S754_zero s' else S754_zero s
  | _, _ => if f_gt x y then x else y
  end.
Definition math_min (x y : f64) : f64 :=
  match x, y with
  | S754_infinity true, _ | _, S754_infinity true => S754_infinity true
  | S754_nan, _ | _, S754_nan => S754_nan
  | S754_zero s, S754_zero s' => if s then S754_zero s else S754_zero s'
  | _, _ => if f_lt x y then x else y
  end.

(** [int(f)] on amd64: truncation toward zero, and the least int64 when the
    value does not fit (or is not a number). *)
Definition f_trunc (x : f64) : option Z :=
  match x with
  | S754_zero _ => Some 0
  | S754_finite s m e =>
      let a := match e with
               | Zpos p => Zpos m * 2 ^ Zpos p
               | Z0 => Zpos m
               | Zneg p => Zpos m / 2 ^ Zpos p
               end in
      Some (if s then - a else a)
  | _ => None
  end.
Definition f_to_int (x : f64) : Z :=
  match f_trunc x with
  | Some z => if (int64_min <=? z) && (z <=? int64_max) then z else int64_min
  | None => int64_min
  end.

(** [math.Round]: to the nearest integer, halves away from zero. *)
Definition math_round (x : f64) : f64 :=
  match x with
  | S754_finite s m (Zneg p) =>
      let a := (2 * Zpos m + 2 ^ Zpos p) / 2 ^ (Zpos p + 1) in
      if a =? 0 then S754_zero s else f_of_Z (if s then - a else a)
  | _ => x
  end.

(** [sort.Float64s]: ascending, NaNs first. *)
Definition sort_less (x y : f64) : bool :=
  f_lt x y || (is_nan x && negb (is_nan y)).
Fixpoint sort_insert (x : f64) (l : list f64) : list f64 :=
  match l with
  | [] => [x]
  | y :: l' => if sort_less y x then y :: sort_insert x l' else x :: l
  end.
Fixpoint sort_floats (l : list f64) : list f64 :=
  match l with [] => [] | x :: l' => sort_insert x (sort_floats l') end.

Definition sum_floats (l : list f64) : f64 := foldl f_add f_zero l.

(** ** Lemmas *)
Lemma f_lt_irrefl x : f_lt x x = false.
Proof.
  unfold f_lt, SFltb, SFcompare. destruct x as [[]|[]| |[] m e]; try done.
  all: by rewrite Z.compare_refl, Pos.compare_cont_refl.
Qed.

Lemma f_not_nan_refl x : is_nan x = false -> f_le x x = true.
Proof.
  unfold f_le, SFleb, SFcompare. destruct x as [[]|[]| |[] m e]; try done.
  all: by rewrite Z.compare_refl, Pos.compare_cont_refl.
Qed.

Lemma f_lt_le x y : f_lt x y = true -> f_le x y = true.
Proof. unfold f_lt, f_le, SFltb, SFleb. by destruct (SFcompare x y) as [[]|]. Qed.

Lemma f_gt_nan_l x y : is_nan x = true -> f_lt x y = false /\ f_lt y x = false.
Proof. destruct x, y; done. Qed.

Lemma sort_insert_perm x l : sort_insert x l ≡ₚ x :: l.
Proof.
  induction l as [|y l IH]; simpl; [done|].
  destruct (sort_less y x); [|done]. rewrite IH. apply Permutation_swap.
Qed.

Lemma sort_floats_perm l : sort_floats l ≡ₚ l.
Proof. induction l as [|x l IH]; simpl; [done|]. by rewrite sort_insert_perm, IH. Qed.

(** ** Signs: rounding keeps the sign of what is rounded *)
Definition is_finite (x : f64) : bool := match x with S754_zero _ | S754_finite _ _ _ => true | _ => false end.
(** Not negative, and a number. *)
Definition f_nonneg (x : f64) : bool := f_le f_zero x.
Definition signed (s : bool) (x : f64) : Prop :=
  match x with S754_zero s' | S754_infinity s' | S754_finite s' _ _ => s' = s | S754_nan => False end.

Lemma shr_nonneg n mrs : 0 <= shr_m mrs -> 0 <= shr_m (iter_pos shr_1 n mrs).
Proof.
  assert (forall r, 0 <= shr_m r -> 0 <= shr_m (shr_1 r)) as H1.
  { intros [m r s]. cbn. destruct m as [|[]|[]]; cbn; lia. }
  revert mrs. induction n as [n IH|n IH|]; intros mrs H; cbn; auto.
Qed.

Lemma shr_fexp_nonneg m e l : 0 <= m -> 0 <= shr_m (shr_fexp prec emax m e l).1.
Proof.
  intros H. unfold shr_fexp, shr. assert (0 <= shr_m (shr_record_of_loc m l)) as H0 by by destruct l as [|[]].
  destruct (_ - _); cbn; [done|by apply shr_nonneg|done].
Qed.

Lemma round_signed s m e l : 0 <= m -> signed s (binary_round_aux prec emax s m e l).
Proof.
  intros H. unfold binary_round_aux. pose proof (shr_fexp_nonneg m e l H) as H1.
  destruct (shr_fexp _ _ m e l) as [mrs e1]. cbn in H1.
  assert (0 <= round_nearest_even (shr_m mrs) (loc_of_shr_record mrs)) as H2
    by (unfold round_nearest_even; destruct (loc_of_shr_record mrs) as [|[]]; try destruct (Z.even _); lia).
  pose proof (shr_fexp_nonneg _ e1 loc_Exact H2) as H3. destruct (shr_fexp _ _ (round_nearest_even _ _) e1 _) as [mrs' e2].
  cbn in H3. destruct (shr_m mrs') as [|p|p]; cbn; [done|by destruct (_ <=? _)|lia].
Qed.

Lemma signed_nonneg x : signed false x -> f_nonneg x = true.
Proof. by destruct x as [[]|[]| |[] m e]. Qed.
Lemma nonneg_not_nan x : f_nonneg x = true -> is_nan x = false.
Proof. by destruct x as [[]|[]| |[] m e]. Qed.
Lemma nonneg_not_negative x : f_nonneg x = true -> f_lt x f_zero = false.
Proof. by destruct x as [[]|[]| |[] m e]. Qed.

Lemma f_mul_number x y : is_finite x = true -> is_finite y = true -> is_nan (f_mul x y) = false.
Proof.
  destruct x as [| | |s1 m1 e1], y as [| | |s2 m2 e2]; try done. intros _ _. cbn.
  pose proof (round_signed (xorb s1 s2) (Z.pos (m1 * m2)) (e1 + e2) loc_Exact ltac:(lia)) as H. by destruct (binary_round_aux _ _ _ _ _ _).
Qed.

Lemma f_mul_const x s m e : is_nan x = false -> is_nan (f_mul x (S754_finite s m e)) = false.
Proof. intros Hx. destruct x as [b|b| |b m1 e1]; [done..|]. by apply f_mul_number. Qed.

Lemma f_mul_nonneg x y : f_nonneg x = true -> f_nonneg y = true -> is_finite x = true -> is_finite y = true ->
  f_nonneg (f_mul x y) = true.
Proof.
  destruct x as [| | |[] m1 e1], y as [| | |[] m2 e2]; try done. intros _ _ _ _. by apply signed_nonneg, round_signed.
Qed.

Lemma div_core_nonneg m1 e1 m2 e2 :
  0 <= (let '(q, _, _) := SFdiv_core_binary prec emax (Z.pos m1) e1 (Z.pos m2) e2 in q).
Proof.
  unfold SFdiv_core_binary. match goal with |- context [Z.div_eucl ?a _] => assert (0 <= a) as Ha end.
  { destruct (_ - _); [lia|rewrite Z.shiftl_nonneg; lia|lia]. }
  match goal with |- context [Z.div_eucl ?a ?b] => pose proof (Z.div_pos a b Ha ltac:(lia)) as Hq; unfold Z.div in Hq; destruct (Z.div_eucl a b) end.
  done.
Qed.

Lemma f_div_pos x m e : is_nan x = false -> is_nan (f_div x (S754_finite false m e)) = false.
Proof.
  destruct x as [| | |s m1 e1]; try done. intros _. cbn.
  pose proof (div_core_nonneg m1 e1 m e) as Hd. destruct (SFdiv_core_binary _ _ _ _ _ _) as [[q ex] l].
  pose proof (round_signed (xorb s false) q ex l Hd) as H. by destruct (binary_round_aux _ _ _ _ _ _).
Qed.

Lemma f_div_nonneg x m e : f_nonneg x = true -> f_nonneg (f_div x (S754_finite false m e)) = true.
Proof.
  destruct x as [|[]| |[] m1 e1]; try done. intros _. unfold f_div. cbn [SFdiv].
  pose proof (div_core_nonneg m1 e1 m e) as Hd. destruct (SFdiv_core_binary _ _ _ _ _ _) as [[q ex] l].
  by apply signed_nonneg, round_signed.
Qed.

Lemma binary_round_signed s m e : signed s (binary_round prec emax s m e).
Proof. unfold binary_round. destruct (shl_align _ _ _). apply round_signed. lia. Qed.

Lemma f_of_Z_nonneg z : 0 <= z -> f_nonneg (f_of_Z z) = true.
Proof. intros H. unfold f_of_Z, binary_normalize. destruct z; [done| |lia]. by apply signed_nonneg, binary_round_signed. Qed.
Lemma f_of_Z_number z : is_nan (f_of_Z z) = false.
Proof.
  unfold f_of_Z, binary_normalize. destruct z as [|p|p]; [done| |];
    match goal with |- is_nan (binary_round _ _ ?s _ _) = _ => pose proof (binary_round_signed s p 0) as H end; by destruct (binary_round _ _ _ _ _).
Qed.

Lemma f_add_nonneg x y : f_nonneg x = true -> f_nonneg y = true -> f_nonneg (f_add x y) = true.
Proof.
  destruct x as [[]|[]| |[] m1 e1], y as [[]|[]| |[] m2 e2]; try done. intros _ _. unfold f_add. cbn [SFadd cond_Zopp].
  by apply signed_nonneg, binary_round_signed.
Qed.

Lemma math_round_number x : is_nan x = false -> is_nan (math_round x) = false.
Proof. destruct x as [| | |s m [|p|p]]; cbn; try done. intros _. destruct (_ =? 0); [done|apply f_of_Z_number]. Qed.

(** ** The order of the numbers that are not negative *)
Lemma f_lt_order : weak_order (fun x => f_nonneg x = true) f_lt.
Proof.
  split.
  - intros [[]|[]| |[] m1 e1] [[]|[]| |[] m2 e2]; try done. intros _ _. unfold f_lt, SFltb. cbn [SFcompare].
    change (Pos.compare_cont Eq) with Pos.compare.
    rewrite (Z.compare_antisym e1 e2), (Pos.compare_antisym m1 m2). by destruct (e1 ?= e2)%Z; cbn; try destruct (Pos.compare _ _).
  - intros [[]|[]| |[] m1 e1] [[]|[]| |[] m2 e2] [[]|[]| |[] m3 e3]; try done; try (by auto). intros _ _ _. unfold f_lt, SFltb. cbn [SFcompare].
    change (Pos.compare_cont Eq) with Pos.compare.
    destruct (Z.compare_spec e1 e2), (Z.compare_spec e1 e3), (Z.compare_spec e3 e2);
      destruct (Pos.compare_spec m1 m2), (Pos.compare_spec m1 m3), (Pos.compare_spec m3 m2); intros; try done; try (by auto); exfalso; lia.
Qed.
Lemma f_eq_lt x y : f_nonneg x = true -> f_nonneg y = true -> f_eq x y = negb (f_lt x y || f_lt y x).
Proof.
  destruct x as [[]|[]| |[] m1 e1], y as [[]|[]| |[] m2 e2]; try done. intros _ _. unfold f_eq, f_lt, SFltb, SFeqb. cbn [SFcompare].
  change (Pos.compare_cont Eq) with Pos.compare.
    rewrite (Z.compare_antisym e1 e2), (Pos.compare_antisym m1 m2). by destruct (e1 ?= e2)%Z; cbn; try destruct (Pos.compare _ _).
Qed.
Lemma f_eq_refl x : is_nan x = false -> f_eq x x = true.
Proof. destruct x as [|[]| |[] m e]; try done; intros _; unfold f_eq, SFeqb; cbn; by rewrite Z.compare_refl, Pos.compare_cont_refl. Qed.

