(* ===== verification/F64Bound.v ===== *)
(** Counts do not overflow a float64: the conversion of an [int64], and its
    quotient by a constant, are finite. *)
From S2P Require Import Prelude F64.
From Stdlib Require Import Floats.SpecFloat.
#[local] Open Scope Z_scope.

Lemma digits_size p : digits2_pos p = Pos.size p.
Proof. induction p; cbn; congruence. Qed.

Lemma digits_at_most m k : 0 <= m < 2 ^ k -> 0 <= k -> Zdigits2 m <= k.
Proof.
  intros Hm Hk. destruct m as [|p|p]; cbn; [done| |lia]. rewrite digits_size.
  destruct (Z.le_gt_cases (Z.pos (Pos.size p)) k) as [|H]; [done|exfalso].
  assert (Z.pos (2 ^ Pos.size p) <= Z.pos p~0) as Hs by apply Pos.size_le. rewrite Pos2Z.inj_pow in Hs.
  assert (2 ^ (k + 1) <= 2 ^ Z.pos (Pos.size p)) as Hp by (apply Z.pow_le_mono_r; lia). rewrite Z.pow_add_r in Hp by lia. lia.
Qed.
Lemma digits_above m : 0 <= m -> m < 2 ^ Zdigits2 m.
Proof.
  destruct m as [|p|p]; cbn; [done| |lia]. intros _. rewrite digits_size.
  pose proof (Pos.size_gt p) as H. apply Pos2Z.pos_lt_pos in H. by rewrite Pos2Z.inj_pow in H.
Qed.
Lemma digits_nonneg m : 0 <= Zdigits2 m.
Proof. by destruct m. Qed.

Lemma shr_shrinks n mrs : 0 <= shr_m mrs -> shr_m (iter_pos shr_1 n mrs) <= shr_m mrs.
Proof.
  assert (forall r, 0 <= shr_m r -> shr_m (shr_1 r) <= shr_m r) as H1.
  { intros [m r s]. cbn. destruct m as [|[]|[]]; cbn; lia. }
  revert mrs. induction n as [n IH|n IH|]; intros mrs H; cbn; [| |by apply H1].
  - pose proof (H1 mrs H). pose proof (shr_nonneg 1 mrs H) as Hn. cbn in Hn. pose proof (IH _ Hn).
    pose proof (shr_nonneg n _ Hn). pose proof (IH (iter_pos shr_1 n (shr_1 mrs)) ltac:(done)). lia.
  - pose proof (IH _ H). pose proof (shr_nonneg n mrs H). pose proof (IH (iter_pos shr_1 n mrs) ltac:(done)). lia.
Qed.

Lemma shr_fexp_bound m e l D L E : 0 <= m -> Zdigits2 m <= D -> L <= e <= E -> 53 <= D -> 0 <= E ->
  let '(mrs, e') := shr_fexp prec emax m e l in 0 <= shr_m mrs <= m /\ L <= e' <= E + D - 53.
Proof.
  intros Hm HD He H53 HE. pose proof (shr_fexp_nonneg m e l Hm) as Hn. unfold shr_fexp, shr in *.
  assert (shr_m (shr_record_of_loc m l) = m) as Hr by by destruct l as [|[]].
  pose proof (digits_nonneg m). assert (fexp prec emax (Zdigits2 m + e) <= Z.max (E + D - 53) (-1074)) as Hf by (unfold fexp, emin, prec, emax; lia).
  destruct (fexp _ _ _ - e) eqn:Hs; cbn in *; rewrite ?Hr in *; [lia| |lia].
  pose proof (shr_shrinks p (shr_record_of_loc m l)). rewrite Hr in *. lia.
Qed.

(** Finite, with a mantissa of at most [B] and an exponent from [L] to [E]. *)
Definition small (B L E : Z) (x : f64) : Prop :=
  match x with S754_zero _ => True | S754_finite _ m e => Z.pos m <= B /\ L <= e <= E | _ => False end.

Lemma round_small s m e l D L E : 0 <= m -> Zdigits2 m <= D -> L <= e <= E -> 53 <= D -> 0 <= E -> E + D + D - 105 <= 971 ->
  small (m + 1) L (E + D + D - 105) (binary_round_aux prec emax s m e l).
Proof.
  intros Hm HD He H53 HE HB. unfold binary_round_aux.
  pose proof (shr_fexp_bound m e l D L E Hm HD He H53 HE) as H1. destruct (shr_fexp _ _ m e l) as [mrs e1]. destruct H1 as [Hm1 He1].
  set (m2 := round_nearest_even _ _).
  assert (0 <= m2 <= m + 1) as Hm2 by (subst m2; unfold round_nearest_even; destruct (loc_of_shr_record mrs) as [|[]]; try destruct (Z.even _); lia).
  assert (Zdigits2 m2 <= D + 1) as HD2.
  { apply digits_at_most; [|lia]. pose proof (digits_above m Hm). assert (2 ^ Zdigits2 m <= 2 ^ D) by (apply Z.pow_le_mono_r; lia).
    assert (1 <= 2 ^ D) by (pose proof (Z.pow_pos_nonneg 2 D ltac:(lia) ltac:(lia)); lia). rewrite Z.pow_add_r by lia. lia. }
  pose proof (shr_fexp_bound m2 e1 loc_Exact (D + 1) L (E + D - 53) ltac:(lia) HD2 He1 ltac:(lia) ltac:(lia)) as H2.
  destruct (shr_fexp _ _ m2 e1 _) as [mrs' e2]. destruct H2 as [Hm3 He2].
  destruct (shr_m mrs') as [|p|p]; [done| |lia].
  assert ((e2 <=? emax - prec) = true) as -> by (apply Z.leb_le; unfold emax, prec; lia). cbn. lia.
Qed.

Lemma iter_xO p d : Z.pos (Pos.iter xO p d) = Z.pos p * 2 ^ Z.pos d.
Proof.
  induction d as [|d IH] using Pos.peano_ind; [cbn; lia|].
  rewrite Pos.iter_succ, Pos2Z.inj_xO, IH, Pos2Z.inj_succ, Z.pow_succ_r by lia. lia.
Qed.

Lemma binary_round_small s p : Z.pos p <= 2 ^ 63 -> small (2 ^ 117) (-1000) 200 (binary_round prec emax s p 0).
Proof.
  intros Hp. unfold binary_round.
  assert (Z.pos (digits2_pos p) <= 64) as HD by (apply (digits_at_most (Z.pos p) 64); lia).
  assert (-53 <= fexp prec emax (Z.pos (digits2_pos p) + 0)) as Hf by (unfold fexp, emin, prec, emax; lia).
  destruct (shl_align p 0 _) as [mz ez] eqn:Ha.
  assert (Z.pos mz <= 2 ^ 116 /\ -1000 <= ez <= 0) as [Hmz Hez].
  { unfold shl_align in Ha. destruct (_ - 0) as [|d|d] eqn:Hs; injection Ha as <- <-; [lia..|].
    rewrite iter_xO. assert (2 ^ Z.pos d <= 2 ^ 53) by (apply Z.pow_le_mono_r; lia).
    split; [|lia]. transitivity (2 ^ 63 * 2 ^ 53); [|lia]. apply Z.mul_le_mono_nonneg; lia. }
  pose proof (round_small s (Z.pos mz) ez loc_Exact 117 (-1000) 0 ltac:(lia) (digits_at_most (Z.pos mz) 117 ltac:(lia) ltac:(lia)) ltac:(lia) ltac:(lia) ltac:(lia) ltac:(lia)) as H.
  destruct (binary_round_aux _ _ _ _ _ _); cbn in *; lia.
Qed.

Lemma f_of_Z_small z : in_int64 z -> small (2 ^ 117) (-1000) 200 (f_of_Z z).
Proof.
  unfold in_int64, int64_min, int64_max. intros Hz. unfold f_of_Z, binary_normalize.
  destruct z as [|p|p]; [done|apply binary_round_small; lia..].
Qed.

Lemma f_div_small x m e : small (2 ^ 117) (-1000) 200 x -> Z.pos m < 2 ^ 53 -> -60 <= e <= 60 ->
  is_finite (f_div x (S754_finite false m e)) = true.
Proof.
  intros Hx Hm He. destruct x as [| | |s m1 e1]; try done. cbn in Hx. unfold f_div. cbn [SFdiv].
  pose proof (div_core_nonneg m1 e1 m e) as Hd.
  assert (let '(q, ex, _) := SFdiv_core_binary prec emax (Z.pos m1) e1 (Z.pos m) e in q < 2 ^ 224 /\ -1074 <= ex <= 260) as Hq.
  { unfold SFdiv_core_binary. set (d1 := Zdigits2 (Z.pos m1)). set (d2 := Zdigits2 (Z.pos m)).
    assert (0 <= d1 <= 118) as Hd1 by (split; [done|apply digits_at_most; lia]).
    assert (0 <= d2 <= 53) as Hd2 by (split; [done|apply digits_at_most; lia]).
    set (x := d1 + e1 - (d2 + e)). assert (fexp prec emax x = Z.max (x - 53) (-1074)) as Hf by (unfold fexp, emin, prec, emax; lia).
    match goal with |- context [Z.div_eucl ?a ?b] => assert (0 <= a < 2 ^ 224) as Ha end.
    { destruct (e1 - e - _) as [|k|k] eqn:Hs; [lia| |lia]. rewrite Z.shiftl_mul_pow2 by lia.
      assert (Z.pos k <= 106) by lia. assert (2 ^ Z.pos k <= 2 ^ 106) by (apply Z.pow_le_mono_r; lia).
      split; [lia|]. apply Z.le_lt_trans with (2 ^ 117 * 2 ^ 106); [apply Z.mul_le_mono_nonneg; lia|lia]. }
    match goal with |- context [Z.div_eucl ?a ?b] => pose proof (Z.div_le_upper_bound a b a ltac:(lia) ltac:(nia)) as Hl; unfold Z.div in Hl; destruct (Z.div_eucl a b) as [q r] end.
    lia. }
  destruct (SFdiv_core_binary _ _ _ _ _ _) as [[q ex] l].
  pose proof (round_small (xorb s false) q ex l 224 (-1074) 260 Hd (digits_at_most q 224 ltac:(lia) ltac:(lia)) ltac:(lia) ltac:(lia) ltac:(lia) ltac:(lia)) as H.
  by destruct (binary_round_aux _ _ _ _ _ _).
Qed.
