(* ===== verification/GoTime.v ===== *)
(** Go's [time]: an instant is its distance from the Unix epoch in nanoseconds,
    a duration an int64 of nanoseconds. *)
From S2P Require Import Prelude GoStr F64.
From Stdlib Require Import String Ascii.
#[local] Open Scope string_scope.
#[local] Open Scope Z_scope.

(** The zero [time.Time] is the start of year one. *)
Definition zero_time : Z := -62135596800 * 10 ^ 9.
Definition IsZero (t : Z) : bool := t =? zero_time.

Definition Millisecond : Z := 10 ^ 6.
Definition Second : Z := 10 ^ 9.
Definition Minute : Z := 60 * Second.
Definition Hour : Z := 60 * Minute.

(** [d.Milliseconds()] truncates, [t.UnixMilli()] floors. *)
Definition Milliseconds (d : Z) : Z := Z.quot d Millisecond.
Definition UnixMilli (t : Z) : Z := wrap64 (t / Millisecond).
(** [time.UnixMilli(ms)]. *)
Definition of_UnixMilli (ms : Z) : Z := ms * Millisecond.
(** [t.Sub(u)] saturates. *)
Definition Sub (t u : Z) : Z := Z.max int64_min (Z.min int64_max (t - u)).

(** The decimals of [v / 10^n] without their trailing zeros. *)
Fixpoint fraction (n : nat) (v : Z) (printing : bool) (acc : string) : string :=
  match n with
  | O => if printing then String "." acc else acc
  | S n =>
      let d := v `mod` 10 in
      let printing := printing || negb (d =? 0) in
      fraction n (v / 10) printing
        (if printing then String (ascii_of_nat (Z.to_nat (48 + d))) acc else acc)
  end.

(** [d.String()]. *)
Definition Duration_String (d : Z) : string :=
  let u := Z.abs d in
  let frac n unit := itoa (u / 10 ^ Z.of_nat n) ++ fraction n (u `mod` 10 ^ Z.of_nat n) false unit in
  let body :=
    if u =? 0 then "0s"
    else if u <? 1000 then itoa u ++ "ns"
    else if u <? Millisecond then frac 3%nat "µs"
    else if u <? Second then frac 6%nat "ms"
    else
      let secs := u / Second in
      let s := itoa (secs `mod` 60) ++ fraction 9 (u `mod` Second) false "s" in
      let mins := secs / 60 in
      if mins =? 0 then s
      else
        let m := itoa (mins `mod` 60) ++ "m" ++ s in
        if mins / 60 =? 0 then m else itoa (mins / 60) ++ "h" ++ m
  in
  if d <? 0 then "-" ++ body else body.

Example duration_15m : Duration_String (15 * Minute) = "15m0s".
Proof. reflexivity. Qed.
Example duration_90s : Duration_String (90 * Second + 500 * Millisecond) = "1m30.5s".
Proof. reflexivity. Qed.

(** ** Whole milliseconds *)
Lemma Milliseconds_mul n : Milliseconds (n * Millisecond) = n.
Proof. unfold Milliseconds, Millisecond. apply Z.quot_mul. lia. Qed.
Lemma UnixMilli_mul n : in_int64 n -> UnixMilli (n * Millisecond) = n.
Proof.
  intros. unfold UnixMilli. rewrite Z.div_mul by (unfold Millisecond; lia). by apply wrap64_id.
Qed.

(** ** [time.ParseDuration] *)
Definition is_digit (a : ascii) : bool := (48 <=? code a) && (code a <=? 57).

(** The leading digits and what follows; [None] on overflow. *)
Fixpoint leadingInt (s : string) (x : Z) : option (Z * string) :=
  match s with
  | EmptyString => Some (x, s)
  | String a r =>
      if negb (is_digit a) then Some (x, s)
      else if 2 ^ 63 / 10 <? x then None
      else let y := x * 10 + (code a - 48) in
           if 2 ^ 63 <? y then None else leadingInt r y
  end.

(** Digits past what fits an int64 are read and dropped. *)
Fixpoint leadingFraction (s : string) (x scale : Z) (overflow : bool) : Z * Z * string :=
  match s with
  | EmptyString => (x, scale, s)
  | String a r =>
      if negb (is_digit a) then (x, scale, s)
      else if overflow || (int64_max / 10 <? x) then leadingFraction r x scale true
      else leadingFraction r (x * 10 + (code a - 48)) (scale * 10) false
  end.

Definition micro_sign : string := String (ascii_of_nat 194) (String (ascii_of_nat 181) "s").
Definition greek_mu : string := String (ascii_of_nat 206) (String (ascii_of_nat 188) "s").
Definition unitMap (u : string) : option Z :=
  if String.eqb u "ns" then Some 1
  else if String.eqb u "us" || String.eqb u micro_sign || String.eqb u greek_mu then Some 1000
  else if String.eqb u "ms" then Some Millisecond
  else if String.eqb u "s" then Some Second
  else if String.eqb u "m" then Some Minute
  else if String.eqb u "h" then Some Hour
  else None.

Fixpoint unit_length (s : string) : nat :=
  match s with
  | String a r => if Ascii.eqb a "." || is_digit a then O else S (unit_length r)
  | EmptyString => O
  end.

(** One number and its unit: what it adds, and the rest. *)
Definition duration_part (orig s : string) : res (Z * string) :=
  let invalid := Err (ErrMsg ("time: invalid duration " ++ quote orig)) in
  match s with
  | String a _ =>
      if negb (Ascii.eqb a "." || is_digit a) then invalid
      else match leadingInt s 0 with
        | None => invalid
        | Some (v, s1) =>
            let pre := negb (Nat.eqb (String.length s) (String.length s1)) in
            let '(f, scale, s2, post) :=
              match s1 with
              | String "." r => let '(f, scale, s2) := leadingFraction r 0 1 false in
                                (f, scale, s2, negb (Nat.eqb (String.length r) (String.length s2)))
              | _ => (0, 1, s1, false)
              end in
            if negb pre && negb post then invalid
            else
              let i := unit_length s2 in
              if Nat.eqb i 0 then Err (ErrMsg ("time: missing unit in duration " ++ quote orig))
              else match unitMap (str_take i s2) with
                | None => Err (ErrMsg ("time: unknown unit " ++ quote (str_take i s2) ++ " in duration " ++ quote orig))
                | Some unit =>
                    if 2 ^ 63 / unit <? v then invalid
                    else
                      let v := v * unit in
                      let v := if 0 <? f
                               then v + f_to_int (f_mul (f_of_Z f) (f_div (f_of_Z unit) (f_of_Z scale))) else v in
                      if 2 ^ 63 <? v then invalid else Ok (v, str_drop i s2)
                end
        end
  | EmptyString => invalid
  end.

(** Every part takes at least one byte: the length of the text is fuel enough. *)
Fixpoint duration_parts (fuel : nat) (orig s : string) (d : Z) : res Z :=
  match fuel with
  | O => Ok d
  | S fuel =>
      if String.eqb s "" then Ok d
      else '(v, rest) ← duration_part orig s;
           if 2 ^ 63 <? d + v then Err (ErrMsg ("time: invalid duration " ++ quote orig))
           else duration_parts fuel orig rest (d + v)
  end.

Definition ParseDuration (orig : string) : res Z :=
  let '(neg, s) := match orig with
    | String a r => if Ascii.eqb a "-" then (true, r) else if Ascii.eqb a "+" then (false, r) else (false, orig)
    | EmptyString => (false, orig)
    end in
  if String.eqb s "0" then Ok 0
  else if String.eqb s "" then Err (ErrMsg ("time: invalid duration " ++ quote orig))
  else d ← duration_parts (String.length s) orig s 0;
       if (neg : bool) then Ok (- d)
       else if int64_max <? d then Err (ErrMsg ("time: invalid duration " ++ quote orig)) else Ok d.

Example parse_1h30m : ParseDuration "1h30m" = Ok (90 * Minute).
Proof. vm_compute. reflexivity. Qed.
Example parse_fraction : ParseDuration "-1.5s" = Ok (-1500 * Millisecond).
Proof. vm_compute. reflexivity. Qed.
Example parse_no_unit : is_ok (ParseDuration "5") = false.
Proof. vm_compute. reflexivity. Qed.

(** ** [t.UTC().Format(time.RFC3339)], for a year of four digits *)
Definition two_digits (n : Z) : string := (if n <? 10 then "0" else "") ++ itoa n.
Definition four_digits (n : Z) : string :=
  (if n <? 10 then "000" else if n <? 100 then "00" else if n <? 1000 then "0" else "") ++ itoa n.

(** The civil date of a count of days from the epoch: eras of 400 years that
    start in March. *)
Definition civil (days : Z) : Z * Z * Z :=
  let z := days + 719468 in
  let era := z / 146097 in
  let doe := z `mod` 146097 in
  let yoe := (doe - doe / 1460 + doe / 36524 - doe / 146096) / 365 in
  let doy := doe - (365 * yoe + yoe / 4 - yoe / 100) in
  let mp := (5 * doy + 2) / 153 in
  let month := if mp <? 10 then mp + 3 else mp - 9 in
  (yoe + era * 400 + (if month <=? 2 then 1 else 0), month, doy - (153 * mp + 2) / 5 + 1).

Definition RFC3339 (t : Z) : string :=
  let secs := t / Second in
  let '(y, m, d) := civil (secs / 86400) in
  let s := secs `mod` 86400 in
  four_digits y ++ "-" ++ two_digits m ++ "-" ++ two_digits d ++ "T" ++ two_digits (s / 3600) ++ ":"
  ++ two_digits ((s / 60) `mod` 60) ++ ":" ++ two_digits (s `mod` 60) ++ "Z".

Example rfc3339_leap_day : RFC3339 (951782400 * Second) = "2000-02-29T00:00:00Z".
Proof. vm_compute. reflexivity. Qed.
Example rfc3339_before_epoch : RFC3339 (-1) = "1969-12-31T23:59:59Z".
Proof. vm_compute. reflexivity. Qed.
