(* ===== verification/Message.v ===== *)
(** The message: [runtime/types/message.go], [variables.go] and [bodycopy.go].

    [any] is Go's [any] restricted to the kinds a message body or variable
    holds.  A message is a pointer in the program, so the later files keep
    messages in a store; the definitions here are the pure halves of the
    methods, on the message a pointer refers to. *)
From S2P Require Import Prelude GoStr F64.
From Stdlib Require Import String.
#[local] Open Scope string_scope.
#[local] Open Scope Z_scope.

#[warnings="-register-all"]
Inductive any : Type :=
  | ANil
  | ABool (b : bool)
  | AStr (s : string)
  | AFloat (f : f64)
  | AInt (z : Z)
  | AInt32 (z : Z)
  | AInt64 (z : Z)
  | AUint64 (z : Z)
  | AArr (l : list any)
  | AMap (m : gmap string any)
  | AOther (id : nat).   (** a value encoding/json refuses: a channel, a func *)

(** ** Variables.  Go's nil map and empty map are both [∅]: every accessor
    treats them alike and [Set] allocates on demand. *)
Abbreviation Variables := (gmap string any).

Module Variables.
Definition Set_ (v : Variables) (key : string) (value : any) : Variables :=
  <[key := value]> v.
Definition String (v : Variables) (key : string) : option string :=
  match v !! key with Some (AStr s) => Some s | _ => None end.
Definition Bool (v : Variables) (key : string) : option bool :=
  match v !! key with Some (ABool b) => Some b | _ => None end.
Definition Int (v : Variables) (key : string) : option Z :=
  match v !! key with
  | Some (AInt n) => Some n
  | Some (AInt64 n) => Some n
  | Some (AFloat n) =>
      if f_eq n (f_of_Z (f_to_int n)) then Some (f_to_int n) else None
  | _ => None
  end.
Definition Float (v : Variables) (key : string) : option f64 :=
  match v !! key with
  | Some (AFloat n) => Some n
  | Some (AInt n) | Some (AInt64 n) => Some (f_of_Z n)
  | _ => None
  end.
End Variables.

(** ** Copying a body *)

(** Whether encoding/json encodes the value. *)
Fixpoint encodable (v : any) : bool :=
  match v with
  | AOther _ => false
  | AFloat (SpecFloat.S754_nan | SpecFloat.S754_infinity _) => false
  | AArr l => forallb encodable l
  | AMap m => map_fold (fun _ x acc => encodable x && acc) true m
  | _ => true
  end.

(** The value a JSON round trip gives back: every number is a float64. *)
Fixpoint json_norm (v : any) : any :=
  match v with
  | AInt n | AInt32 n | AInt64 n | AUint64 n => AFloat (f_of_Z n)
  | AArr l => AArr (map json_norm l)
  | AMap m => AMap (json_norm <$> m)
  | _ => v
  end.

Fixpoint nesting (v : any) : nat :=
  match v with
  | AArr l => S (foldr Nat.max 0%nat (map nesting l))
  | AMap m => S (map_fold (fun _ x acc => Nat.max (nesting x) acc) 0%nat m)
  | _ => 0%nat
  end.

(** encoding/json's decoder refuses deeper documents. *)
Definition json_max_depth : nat := Z.to_nat 10000.
Definition maxCopyDepth : nat := Z.to_nat 10000.
#[global] Opaque json_max_depth maxCopyDepth.

Definition jsonCopy (value : any) : any :=
  if encodable value && Nat.leb (nesting value) json_max_depth
  then json_norm value else value.

Fixpoint copyBodyAt (body : any) (depth : nat) : any :=
  if Nat.ltb maxCopyDepth depth then jsonCopy body
  else match body with
       | ANil | AStr _ | AFloat _ | ABool _ => body
       | AMap m => AMap ((fun v => copyBodyAt v (S depth)) <$> m)
       | AArr l => AArr (map (fun v => copyBodyAt v (S depth)) l)
       | _ => jsonCopy body
       end.

Definition copyBody (body : any) : any := copyBodyAt body 0.

(** ** The message *)
Definition RawContentTypeKey : string := "contentType".
Definition RawDataKey : string := "rawData".
Definition RawPartsKey : string := "parts".
Definition internalVarPrefix : string := "__".
Definition IsInternalVar (name : string) : bool := has_prefix name internalVarPrefix.
Definition stopVar : string := internalVarPrefix ++ "octoStop".
Definition traceVar : string := internalVarPrefix ++ "octoTraceId".

Record Message : Type := mkMessage {
  EventID : string;
  CorrelationID : string;
  Vars : Variables;
  Body : any;
  BodySchema : string;
  RawContent : bool;
  bodyShared : bool;
}.

Definition set_vars (f : Variables -> Variables) (m : Message) : Message :=
  mkMessage (EventID m) (CorrelationID m) (f (Vars m)) (Body m) (BodySchema m)
    (RawContent m) (bodyShared m).
Definition set_var (k : string) (v : any) : Message -> Message :=
  set_vars (fun vs => Variables.Set_ vs k v).
Definition set_body (b : any) (raw : bool) (m : Message) : Message :=
  mkMessage (EventID m) (CorrelationID m) (Vars m) b (BodySchema m) raw (bodyShared m).
Definition set_shared (b : bool) (m : Message) : Message :=
  mkMessage (EventID m) (CorrelationID m) (Vars m) (Body m) (BodySchema m)
    (RawContent m) b.
Definition set_event_id (id : string) (m : Message) : Message :=
  mkMessage id (CorrelationID m) (Vars m) (Body m) (BodySchema m)
    (RawContent m) (bodyShared m).

Definition SetBody (value : any) (m : Message) : Message := set_body value false m.

Definition SetRawBody (contentType rawData : string) (m : Message) : Message :=
  set_body (AMap {[ RawContentTypeKey := AStr contentType; RawDataKey := AStr rawData ]})
    true m.

Definition SetRawBodyParts (contentType rawData : string) (parts : gmap string any)
    (m : Message) : Message :=
  let m1 := SetRawBody contentType rawData m in
  match Body m1 with
  | AMap body => set_body (AMap (<[RawPartsKey := AMap parts]> body)) (RawContent m1) m1
  | _ => m1
  end.

Definition RawBody (m : Message) : option (string * string) :=
  if negb (RawContent m) then None
  else match Body m with
       | AMap fields =>
           match fields !! RawContentTypeKey with
           | Some (AStr contentType) =>
               match fields !! RawDataKey with
               | Some (AStr rawData) => Some (contentType, rawData)
               | _ => None
               end
           | _ => None
           end
       | _ => None
       end.

Definition RequestStop (m : Message) : Message := set_var stopVar (ABool true) m.
Definition StopRequested (m : Message) : bool :=
  default false (Variables.Bool (Vars m) stopVar).

(** [shallow], [Clone] and [Scoped] as the pair of what they return and what
    they leave in the receiver. *)
Definition shallow (m : Message) : Message := m.
Definition Clone (m : Message) : Message :=
  set_shared false (set_body (copyBody (Body m)) (RawContent m) (shallow m)).
Definition Scoped (m : Message) : Message * Message :=
  let scoped := shallow m in (set_shared true scoped, set_shared true m).
Definition MutableBody (m : Message) : any * Message :=
  let m' := if bodyShared m
            then set_shared false (set_body (copyBody (Body m)) (RawContent m) m)
            else m in
  (Body m', m').

Definition Reported (m : Message) : Message * Message :=
  let '(reported, m') := Scoped m in
  (set_vars (filter (fun kv => IsInternalVar kv.1 = false)) reported, m').

Definition TraceID (m : Message) : string :=
  default "" (Variables.String (Vars m) traceVar).
Definition SetTraceID (id : string) (m : Message) : Message :=
  if String.eqb id "" then m else set_var traceVar (AStr id) m.

(** [newEventID] draws from crypto/rand: its result is an argument, [None]
    when the generator fails. *)
Definition eventIDError : goerr := ErrWrap "generate event id: " (ErrMsg "rand") "".
Definition of_rand (id : option string) : res string :=
  match id with Some s => Ok s | None => Err eventIDError end.

Definition NewMessage (correlationID : string) (id : option string) : res Message :=
  id' ← of_rand id;
  mret (mkMessage id' correlationID ∅ ANil "" false false).

Definition Rekey (id : option string) (m : Message) : res (string * Message) :=
  id' ← of_rand id; mret (id', set_event_id id' m).

Definition EnsureTraceID (id : option string) (m : Message) : res (string * Message) :=
  if negb (String.eqb (TraceID m) "") then Ok (TraceID m, m)
  else id' ← of_rand id; mret (id', set_var traceVar (AStr id') m).

(** ** Lemmas *)
Lemma foldr_max_le (x : nat) (l : list nat) :
  x ∈ l -> (x ≤ foldr Nat.max 0 l)%nat.
Proof. induction 1; simpl; lia. Qed.

Lemma nesting_arr v l : v ∈ l -> (nesting v < nesting (AArr l))%nat.
Proof.
  intros H. cbn [nesting]. apply Nat.lt_succ_r, foldr_max_le.
  by apply list_elem_of_fmap_2.
Qed.

Lemma nesting_map k v (m : gmap string any) :
  m !! k = Some v -> (nesting v < nesting (AMap m))%nat.
Proof.
  intros H. cbn [nesting]. apply Nat.lt_succ_r. revert k v H.
  apply (map_fold_weak_ind (fun r (m : gmap string any) => forall k v,
    m !! k = Some v -> (nesting v <= r)%nat)).
  - intros k v. by rewrite lookup_empty.
  - intros i x m' r Hi IH k v. rewrite lookup_insert_Some.
    intros [[_ <-]|[_ Hk]]; [lia|]. specialize (IH _ _ Hk). lia.
Qed.

Lemma nesting_map_bound (m : gmap string any) n :
  (forall k v, m !! k = Some v -> (S (nesting v) <= n)%nat) -> (1 <= n)%nat ->
  (nesting (AMap m) <= n)%nat.
Proof.
  intros H Hn. cbn [nesting]. revert H.
  apply (map_fold_weak_ind (fun r (m : gmap string any) =>
    (forall k v, m !! k = Some v -> (S (nesting v) <= n)%nat) -> (S r <= n)%nat)); [done|].
  intros i x m' r Hi IH H.
  assert (S r <= n)%nat.
  { apply IH. intros k v Hk. apply (H k). rewrite lookup_insert_ne; [done|]. congruence. }
  specialize (H i x). rewrite lookup_insert_eq in H. specialize (H eq_refl). lia.
Qed.

(** Induction over a value and everything inside it. *)
Lemma any_nested_ind (P : any -> Prop) :
  (forall v, (forall l, v = AArr l -> Forall P l) ->
             (forall m, v = AMap m -> map_Forall (fun _ => P) m) -> P v) ->
  forall v, P v.
Proof.
  intros step v. remember (nesting v) as n eqn:Hn. revert v Hn.
  induction n as [n IH] using lt_wf_ind. intros v ->. apply step.
  - intros l ->. apply Forall_forall. intros x Hx.
    eapply IH; [by apply nesting_arr|done].
  - intros m -> k x Hx. eapply IH; [by eapply nesting_map|done].
Qed.

Lemma encodable_map (m : gmap string any) k v :
  encodable (AMap m) = true -> m !! k = Some v -> encodable v = true.
Proof.
  cbn [encodable]. revert k v.
  apply (map_fold_weak_ind (fun r (m : gmap string any) => forall k v,
    r = true -> m !! k = Some v -> encodable v = true)).
  - intros k v _. by rewrite lookup_empty.
  - intros i x m' r Hi IH k v [Hx Hr]%andb_prop. rewrite lookup_insert_Some.
    intros [[_ <-]|[_ Hk]]; [done|by eapply IH].
Qed.

Lemma encodable_arr l v : encodable (AArr l) = true -> v ∈ l -> encodable v = true.
Proof.
  cbn [encodable]. rewrite forallb_forall. intros H Hv.
  apply H. by apply list_elem_of_In.
Qed.

(** The structural walk agrees with the JSON round trip it replaced, as long
    as the nesting stays within the walk's depth bound. *)
Lemma copyBodyAt_json_norm v depth :
  encodable v = true -> (nesting v + depth <= maxCopyDepth)%nat ->
  copyBodyAt v depth = json_norm v.
Proof.
  revert depth. induction v as [v IHl IHm] using any_nested_ind.
  intros depth He Hd. destruct v; cbn [copyBodyAt]; simpl nesting in Hd.
  all: destruct (Nat.ltb_spec maxCopyDepth depth) as [Hlt|_]; [lia|]; try done.
  - cbn [json_norm]. f_equal. specialize (IHl _ eq_refl).
    rewrite Forall_forall in IHl.
    apply map_ext_in. intros x Hx%list_elem_of_In.
    pose proof (nesting_arr _ _ Hx). apply IHl; [done|by eapply encodable_arr|].
    cbn [nesting] in *. lia.
  - cbn [json_norm]. f_equal. specialize (IHm _ eq_refl).
    apply map_eq. intros k. rewrite !lookup_fmap.
    destruct (m !! k) as [x|] eqn:Hk; [|done]. simpl. f_equal.
    pose proof (nesting_map _ _ _ Hk). eapply IHm; [done|by eapply encodable_map|].
    cbn [nesting] in *. lia.
Qed.

(** What JSON decoding produces: no Go integers, no opaque values. *)
Fixpoint native (v : any) : bool :=
  match v with
  | AInt _ | AInt32 _ | AInt64 _ | AUint64 _ | AOther _ => false
  | AArr l => forallb native l
  | AMap m => map_fold (fun _ x acc => native x && acc) true m
  | _ => true
  end.

Lemma native_map (m : gmap string any) :
  native (AMap m) = true <-> map_Forall (fun _ v => native v = true) m.
Proof.
  cbn [native]. apply (map_fold_weak_ind (fun r (m : gmap string any) =>
    r = true <-> map_Forall (fun _ v => native v = true) m)).
  - split; [intros _; apply map_Forall_empty|done].
  - intros i x m' r Hi IH. rewrite andb_true_iff, IH.
    by rewrite map_Forall_insert.
Qed.

Lemma json_norm_native v : encodable v = true -> native (json_norm v) = true.
Proof.
  induction v as [v IHl IHm] using any_nested_ind. intros He. destruct v; try done.
  - cbn [json_norm native]. apply forallb_forall. intros y Hy.
    apply in_map_iff in Hy as (x & <- & Hx%list_elem_of_In).
    specialize (IHl _ eq_refl). rewrite Forall_forall in IHl.
    apply IHl; [done|by eapply encodable_arr].
  - cbn [json_norm]. apply native_map. intros k y. rewrite lookup_fmap_Some.
    intros (x & <- & Hx). eapply (IHm _ eq_refl); [done|by eapply encodable_map].
Qed.

Lemma Vars_set_var_eq k v m : Vars (set_var k v m) !! k = Some v.
Proof. apply (lookup_insert_eq (Vars m)). Qed.
Lemma Vars_set_var_ne k k' v m : k ≠ k' -> Vars (set_var k v m) !! k' = Vars m !! k'.
Proof. apply (lookup_insert_ne (Vars m)). Qed.
Lemma StopRequested_RequestStop m : StopRequested (RequestStop m) = true.
Proof. unfold StopRequested, Variables.Bool, RequestStop. by rewrite Vars_set_var_eq. Qed.
#[export] Hint Rewrite Vars_set_var_eq StopRequested_RequestStop : octo.

Lemma json_norm_idem v : json_norm (json_norm v) = json_norm v.
Proof.
  induction v as [v IHl IHm] using any_nested_ind. destruct v; try done; cbn [json_norm].
  - f_equal. rewrite map_map. specialize (IHl _ eq_refl). rewrite Forall_forall in IHl.
    apply map_ext_in. intros x Hx%list_elem_of_In. by apply IHl.
  - f_equal. apply map_eq. intros k. rewrite !lookup_fmap.
    destruct (m !! k) as [x|] eqn:Hk; [|done]. simpl. f_equal. by apply (IHm _ eq_refl _ _ Hk).
Qed.

(** * Properties *)

(** Cloning a message copies its body as the JSON round trip it replaced
    did: for a body JSON can encode, nested no deeper than the walk goes, the
    clone's body is the value the round trip gives — every number a float64, so
    a body made only of what JSON decodes to — and everything else about the
    message but the sharing of its body is carried over. *)
Theorem clone_is_json_round_trip m :
  encodable (Body m) = true -> (nesting (Body m) <= maxCopyDepth)%nat ->
  Body (Clone m) = json_norm (Body m) /\ native (Body (Clone m)) = true /\
  Clone m = set_shared false (set_body (json_norm (Body m)) (RawContent m) m).
Proof.
  intros He Hn.
  assert (copyBody (Body m) = json_norm (Body m)) as Hc.
  { unfold copyBody. apply copyBodyAt_json_norm; [done|lia]. }
  unfold Clone, shallow. cbn [Body set_shared set_body]. rewrite Hc.
  split_and!; [done|by apply json_norm_native|done].
Qed.

Lemma clone_is_json_round_trip_witness :
  Body (Clone (SetBody (AMap {[ "n" := AArr [AInt 3; ABool true] ]}) (mkMessage "e" "c" ∅ ANil "" false true)))
  = AMap {[ "n" := AArr [AFloat (f_of_Z 3); ABool true] ]}.
Proof.
  refine (eq_trans (proj1 (clone_is_json_round_trip _ _ _)) _).
  - reflexivity.
  - apply Nat.leb_le. vm_compute. reflexivity.
  - vm_compute. reflexivity.
Defined.
