(* ===== verification/Config.v ===== *)
(** What a flow is configured with: [runtime/types/flow.go], the config records
    of [runtime/types/runtime.go], and the decoding of a block through the JSON
    bridge its settings cross. *)
From S2P Require Import Prelude GoStr F64 Message.
From Stdlib Require Import String.
#[local] Open Scope string_scope.
#[local] Open Scope Z_scope.

(** [types.Settings]; Go's nil map and an empty one are both [∅]. *)
Abbreviation Settings := (gmap string any).

Record SourceConfig : Type := mkSourceConfig {
  src_Connector : string;
  src_Type : string;
  src_Settings : Settings;
}.

Record BlockConfig : Type := mkBlockConfig {
  c_Type : string;
  c_Name : string;
  c_Ref : string;
  c_Settings : Settings;
}.

Record FlowConfig : Type := mkFlowConfig {
  fc_Name : string;
  fc_Source : option SourceConfig;
  fc_Process : list BlockConfig;
  fc_Error : list BlockConfig;
  fc_Workers : Z;
  fc_Buffer : Z;
  fc_Pool : Z;
}.

(** A sub-flow made of nothing but a chain: [types.FlowConfig{Process: blocks}]. *)
Definition chain_flow (name : string) (blocks : list BlockConfig) : FlowConfig :=
  mkFlowConfig name None blocks [] 0 0 0.

Record ProcessorConfig : Type := mkProcessorConfig {
  p_Name : string;
  p_Type : string;
  p_Settings : Settings;
}.

(** A variable the config depends on; [None] is Go's nil default, an absent one. *)
Record EnvVar : Type := mkEnvVar {
  ev_Name : string;
  ev_Default : option string;
  ev_Required : bool;
}.
Record TemplateResource : Type := mkTemplateResource {
  tr_Resource : string;
  tr_As : string;
}.
Record ResourcesConfig : Type := mkResourcesConfig {
  rs_Env : list string;
  rs_Templates : list TemplateResource;
}.
Record ServiceConfig : Type := mkServiceConfig {
  sc_Name : string;
  sc_Environment : string;
}.
#[global] Instance ServiceConfig_eq_dec : EqDecision ServiceConfig.
Proof. solve_decision. Defined.
Record ConnectorConfig : Type := mkConnectorConfig {
  cc_Name : string;
  cc_Type : string;
  cc_Settings : Settings;
}.

(** [types.Config]. *)
Record Config : Type := mkConfig {
  cfg_Service : ServiceConfig;
  cfg_Env : list EnvVar;
  cfg_Connectors : list ConnectorConfig;
  cfg_Processors : list ProcessorConfig;
  cfg_Flows : list FlowConfig;
  cfg_Resources : ResourcesConfig;
  cfg_ResolvedEnv : gmap string string;
}.
Definition with_flows (flows : list FlowConfig) (c : Config) : Config :=
  mkConfig (cfg_Service c) (cfg_Env c) (cfg_Connectors c) (cfg_Processors c) flows (cfg_Resources c) (cfg_ResolvedEnv c).
(** The zero [types.Config]. *)
Definition empty_config : Config := mkConfig (mkServiceConfig "" "") [] [] [] [] (mkResourcesConfig [] []) ∅.

(** [rawBlock]: the reserved keys, and everything else. *)
Record rawBlock : Type := mkRawBlock {
  raw_Type : string;
  raw_Name : string;
  raw_Ref : string;
  raw_Settings : Settings;
  raw_Rest : gmap string any;
}.

Definition label (b : BlockConfig) : string :=
  if negb (String.eqb (c_Name b) "") then c_Name b
  else if negb (String.eqb (c_Type b) "") then c_Type b
  else c_Ref b.

(** [fold]: a key given twice is an error.  Go reports the first duplicate its
    map iteration meets; the model, the first in the map's own order. *)
Definition fold (raw : rawBlock) : res BlockConfig :=
  let b := mkBlockConfig (raw_Type raw) (raw_Name raw) (raw_Ref raw) ∅ in
  match filter (fun kv => is_Some (raw_Settings raw !! kv.1)) (map_to_list (raw_Rest raw)) with
  | [] => Ok (mkBlockConfig (raw_Type raw) (raw_Name raw) (raw_Ref raw)
                (raw_Settings raw ∪ raw_Rest raw))
  | (key, _) :: _ =>
      Err (ErrMsg ("block " ++ quote (label b) ++ ": " ++ quote key ++
                   " is given both at the top level and under settings"))
  end.

(** ** Decoding through JSON.  A document is the tree it decodes to. *)
Definition json_kind (v : any) : string :=
  match v with
  | ANil => "null" | ABool _ => "bool" | AStr _ => "string"
  | AArr _ => "array" | AMap _ => "object" | _ => "number"
  end.
Definition json_mismatch {A} (v : any) (go_type : string) : res A :=
  Err (ErrMsg ("json: cannot unmarshal " ++ json_kind v ++
               " into Go value of type " ++ go_type)).

(** A JSON null leaves the zero value in place. *)
Definition json_string (v : option any) : res string :=
  match v with
  | None | Some ANil => Ok ""
  | Some (AStr s) => Ok s
  | Some v => json_mismatch v "string"
  end.
Definition json_settings (v : option any) : res Settings :=
  match v with
  | None | Some ANil => Ok ∅
  | Some (AMap m) => Ok m
  | Some v => json_mismatch v "types.Settings"
  end.

Definition block_field {A} (key : string) (r : res A) : res A :=
  wrap_err ("block field " ++ quote key ++ ": ") r.

Definition reserved : gset string := {[ "type"; "name"; "ref"; "settings" ]}.

(** [BlockConfig.UnmarshalJSON].  With several ill-typed fields Go reports the
    first its map iteration meets. *)
Definition UnmarshalJSON (v : any) : res BlockConfig :=
  match v with
  | ANil => fold (mkRawBlock "" "" "" ∅ ∅)
  | AMap fields =>
      t ← block_field "type" (json_string (fields !! "type"));
      n ← block_field "name" (json_string (fields !! "name"));
      r ← block_field "ref" (json_string (fields !! "ref"));
      s ← block_field "settings" (json_settings (fields !! "settings"));
      fold (mkRawBlock t n r s (filter (fun kv => kv.1 ∉ reserved) fields))
  | v => wrap_err "decode block: " (json_mismatch v "map[string]json.RawMessage")
  end.

(** The encoding of a [BlockConfig]: every key has omitempty. *)
Definition omit_str (key value : string) : gmap string any :=
  if String.eqb value "" then ∅ else {[ key := AStr value ]}.
Definition omit_settings (s : Settings) : gmap string any :=
  if decide (s = ∅) then ∅ else {[ "settings" := AMap s ]}.
Definition encode_block (b : BlockConfig) : any :=
  AMap (omit_str "type" (c_Type b) ∪ omit_str "name" (c_Name b)
        ∪ omit_str "ref" (c_Ref b) ∪ omit_settings (c_Settings b)).
Definition encode_chain (bs : list BlockConfig) : any := AArr (map encode_block bs).

(** A JSON array into [[]types.BlockConfig]. *)
Definition decode_chain (v : any) : res (list BlockConfig) :=
  match v with
  | ANil => Ok []
  | AArr l => mapM UnmarshalJSON l
  | v => json_mismatch v "[]types.BlockConfig"
  end.

(** ** Decoding settings structs, strictly: a key the struct lacks is an error.
    encoding/json also takes other capitalisations of a key; these are the
    spellings the schema declares. *)
Definition decode_settings {A} (r : res A) : res A := wrap_err "decode settings: " r.
Definition unknown_key (known : list string) (s : Settings) : option string :=
  head (filter (fun k => k ∉ known) (sort_strings (map_to_list s).*1)).
Definition strict {A} (known : list string) (s : Settings) (r : res A) : res A :=
  match unknown_key known s with
  | Some k => Err (ErrMsg ("json: unknown field " ++ quote k))
  | None => r
  end.

Definition json_int (v : option any) : res Z :=
  match v with
  | None | Some ANil => Ok 0
  | Some (AInt n) | Some (AInt64 n) | Some (AInt32 n) => Ok n
  | Some (AFloat f) =>
      if f_eq f (f_of_Z (f_to_int f)) then Ok (f_to_int f) else json_mismatch (AFloat f) "int"
  | Some v => json_mismatch v "int"
  end.

Definition json_struct {A} (go_type : string) (known : list string)
    (dec : gmap string any -> res A) (v : any) : res A :=
  match v with
  | AMap m => strict known m (dec m)
  | ANil => dec ∅
  | v => json_mismatch v go_type
  end.

Definition json_ptr {A} (dec : any -> res A) (v : option any) : res (option A) :=
  match v with None | Some ANil => Ok None | Some v => Some <$> dec v end.
Definition json_list {A} (go_type : string) (dec : any -> res A) (v : option any) : res (list A) :=
  match v with
  | None | Some ANil => Ok []
  | Some (AArr l) => mapM dec l
  | Some v => json_mismatch v go_type
  end.
Definition json_string_map (v : option any) : res (list (string * string)) :=
  match v with
  | None | Some ANil => Ok []
  | Some (AMap m) => mapM (fun kv => s ← json_string (Some kv.2); mret (kv.1, s)) (map_to_list m)
  | Some v => json_mismatch v "map[string]string"
  end.
Definition json_float (v : option any) : res f64 :=
  match v with
  | None | Some ANil => Ok f_zero
  | Some (AInt n) | Some (AInt64 n) | Some (AInt32 n) => Ok (f_of_Z n)
  | Some (AFloat f) => Ok f
  | Some v => json_mismatch v "float64"
  end.

(** ** Lemmas *)
Lemma omit_str_lookup key value k :
  omit_str key value !! k =
  if decide (k = key) then (if String.eqb value "" then None else Some (AStr value)) else None.
Proof.
  unfold omit_str. destruct (decide (k = key)) as [->|Hk], (String.eqb value ""); try done.
  - by rewrite lookup_singleton_eq.
  - by rewrite lookup_singleton_ne.
Qed.

Lemma omit_settings_lookup s k :
  omit_settings s !! k =
  if decide (k = "settings") then (if decide (s = ∅) then None else Some (AMap s)) else None.
Proof.
  unfold omit_settings. destruct (decide (s = ∅)) as [Hs|Hs].
  - by destruct (decide _).
  - destruct (decide _) as [->|Hk]; [by rewrite lookup_singleton_eq|].
    by rewrite lookup_singleton_ne.
Qed.

Lemma encode_block_lookup b k fields :
  encode_block b = AMap fields ->
  fields !! k =
    if decide (k = "type") then (if String.eqb (c_Type b) "" then None else Some (AStr (c_Type b)))
    else if decide (k = "name") then (if String.eqb (c_Name b) "" then None else Some (AStr (c_Name b)))
    else if decide (k = "ref") then (if String.eqb (c_Ref b) "" then None else Some (AStr (c_Ref b)))
    else if decide (k = "settings") then (if decide (c_Settings b = ∅) then None else Some (AMap (c_Settings b)))
    else None.
Proof.
  intros [= <-]. rewrite !lookup_union, !omit_str_lookup, omit_settings_lookup.
  repeat case_decide; simplify_eq; repeat case_match; simplify_option_eq; done.
Qed.

Lemma json_string_omit s : json_string (if String.eqb s "" then None else Some (AStr s)) = Ok s.
Proof. by destruct (String.eqb_spec s "") as [->|]. Qed.

Lemma json_settings_omit s :
  json_settings (if decide (s = ∅) then None else Some (AMap s)) = Ok s.
Proof. by destruct (decide (s = ∅)) as [->|]. Qed.

(** Encoding a block and decoding it again gives the block back. *)
Lemma decode_encode_block b : UnmarshalJSON (encode_block b) = Ok b.
Proof.
  destruct (encode_block b) as [| | | | | | | | |fields|] eqn:He; try done.
  pose proof (fun k => encode_block_lookup b k fields He) as Hk.
  cbn [UnmarshalJSON].
  assert (json_string (fields !! "type") = Ok (c_Type b)
    /\ json_string (fields !! "name") = Ok (c_Name b)
    /\ json_string (fields !! "ref") = Ok (c_Ref b)
    /\ json_settings (fields !! "settings") = Ok (c_Settings b)) as (-> & -> & -> & ->).
  { rewrite !Hk. split_and!; [apply json_string_omit..|apply json_settings_omit]. }
  simpl.
  assert (filter (fun kv : string * any => kv.1 ∉ reserved) fields = ∅) as ->.
  { apply map_empty. intros k. apply map_lookup_filter_None. right.
    intros v Hkv. rewrite Hk in Hkv.
    intros Hn. simpl in Hn. apply Hn. unfold reserved.
    repeat case_decide; simplify_eq; set_solver. }
  unfold fold; simpl. rewrite (right_id_L ∅ (∪)). by destruct b.
Qed.

Lemma decode_encode_chain bs : decode_chain (encode_chain bs) = Ok bs.
Proof.
  unfold decode_chain, encode_chain. apply mapM_res_ok.
  induction bs as [|b bs IH]; simpl; constructor; auto using decode_encode_block.
Qed.
