(* ===== verification/Store.v ===== *)
(** The state a flow runs in: the messages it shares by pointer, the sources
    of identifiers and of time, the state of the services behind its blocks,
    and what block-event listeners have been handed. *)
From S2P Require Import Prelude GoStr Message.
From Stdlib Require Import String.
#[local] Open Scope Z_scope.

(** [types/event.go] *)
Inductive BlockEventKind : Type := BlockPreInvoke | BlockPostInvoke.

Record BlockEvent : Type := mkBlockEvent {
  ev_Kind : BlockEventKind;
  ev_Flow : string;
  ev_Path : string;
  ev_BlockType : string;
  ev_EventID : string;
  ev_CorrelationID : string;
  ev_OccurredAt : Z;
  ev_Message : nat;          (** the live message: a pointer *)
  ev_Duration : Z;
  ev_Err : option goerr;
  ev_Dropped : bool;
}.

(** What observation leaves behind, kept apart from the state blocks act on:
    the events each listener received, the contained panics and the clock
    readings taken for events. *)
Record observed : Type := mkObserved {
  seen : list (nat * BlockEvent);
  panics : nat;
  oclk : nat;
}.

Record world (U : Type) : Type := mkWorld {
  heap : gmap nat Message;          (** every message, by pointer *)
  next : nat;                       (** the next pointer to allocate *)
  ids : nat -> option string;       (** crypto/rand: the n-th draw *)
  idn : nat;
  times : nat -> Z;                 (** the clock: the n-th reading, in ns *)
  clk : nat;
  usr : U;                          (** services behind the blocks *)
  obs : observed;
}.
Arguments mkWorld {U}.
Arguments heap {U}. Arguments next {U}. Arguments ids {U}. Arguments idn {U}.
Arguments times {U}. Arguments clk {U}. Arguments usr {U}. Arguments obs {U}.

Definition zeroMessage : Message := mkMessage "" "" ∅ ANil "" false false.

Definition M (U A : Type) : Type := SM (world U) A.
#[global] Instance M_ret {U} : MRet (M U) := SM_ret.
#[global] Instance M_bind {U} : MBind (M U) := SM_bind.

Section ops.
Context {U : Type}.
Implicit Types w : world U.

Definition with_heap (h : gmap nat Message) w : world U :=
  mkWorld h (next w) (ids w) (idn w) (times w) (clk w) (usr w) (obs w).
Definition with_usr (u : U) w : world U :=
  mkWorld (heap w) (next w) (ids w) (idn w) (times w) (clk w) u (obs w).
Definition with_obs (o : observed) w : world U :=
  mkWorld (heap w) (next w) (ids w) (idn w) (times w) (clk w) (usr w) o.

Definition peek w (l : nat) : Message := default zeroMessage (heap w !! l).

Definition load (l : nat) : M U Message := fun w => (w, Ok (peek w l)).
Definition update (l : nat) (f : Message -> Message) : M U unit := fun w =>
  (with_heap (<[l := f (peek w l)]> (heap w)) w, Ok tt).
Definition alloc (m : Message) : M U nat := fun w =>
  (mkWorld (<[next w := m]> (heap w)) (S (next w)) (ids w) (idn w) (times w)
     (clk w) (usr w) (obs w), Ok (next w)).
(** one draw of crypto/rand, one clock reading *)
Definition draw_id : M U (option string) := fun w =>
  (mkWorld (heap w) (next w) (ids w) (S (idn w)) (times w) (clk w) (usr w) (obs w),
   Ok (ids w (idn w))).
Definition now : M U Z := fun w =>
  (mkWorld (heap w) (next w) (ids w) (idn w) (times w) (S (clk w)) (usr w) (obs w),
   Ok (times w (clk w))).
Definition get_usr : M U U := fun w => (w, Ok (usr w)).
Definition set_usr (u : U) : M U unit := fun w => (with_usr u w, Ok tt).

(** [msg.Clone()] and [msg.Scoped()] on pointers. *)
Definition clone_msg (l : nat) : M U nat := m ← load l; alloc (Clone m).
Definition scope_msg (l : nat) : M U nat :=
  m ← load l; update l (fun _ => (Scoped m).2) ≫= fun _ => alloc (Scoped m).1.

(** What blocks act on: everything but the observations. *)
Definition erase w : world U := with_obs (mkObserved [] 0 0) w.
End ops.

(** Two runs that a block cannot tell apart: same state up to observations,
    same result. *)
Definition run_eq {U A} (p q : world U * res A) : Prop :=
  erase p.1 = erase q.1 /\ p.2 = q.2.

#[global] Instance run_eq_equiv {U A} : Equivalence (@run_eq U A).
Proof.
  split.
  - by intros [w r].
  - intros [] [] [H1 H2]. by split.
  - intros [] [] [] [H1 H2] [H3 H4]. split; etransitivity; eauto.
Qed.

(** Two computations equal up to what they let observers see, from states
    equal up to what observers have seen. *)
Definition obs_eq {U A} (m1 m2 : M U A) : Prop :=
  forall w1 w2, erase w1 = erase w2 -> run_eq (m1 w1) (m2 w2).

Lemma obs_eq_bind {U A B} (m1 m2 : M U A) (f1 f2 : A -> M U B) :
  obs_eq m1 m2 -> (forall a, obs_eq (f1 a) (f2 a)) -> obs_eq (m1 ≫= f1) (m2 ≫= f2).
Proof.
  intros Hm Hf w1 w2 Hw. unfold mbind, M_bind, SM_bind.
  destruct (Hm w1 w2 Hw) as [He Hr].
  destruct (m1 w1) as [w1' r1], (m2 w2) as [w2' r2]; simpl in *; subst r2.
  destruct r1; [by apply Hf|by split].
Qed.

Lemma obs_eq_ret {U A} (a : A) : obs_eq (mret a : M U A) (mret a).
Proof. intros w1 w2 H. by split. Qed.

Lemma obs_eq_attempt {U A} (m1 m2 : M U A) :
  obs_eq m1 m2 -> obs_eq (attempt m1) (attempt m2).
Proof.
  intros Hm w1 w2 Hw. unfold attempt. destruct (Hm w1 w2 Hw) as [He Hr].
  destruct (m1 w1), (m2 w2); simpl in *; by subst.
Qed.

Lemma obs_eq_load {U} l : obs_eq (load l : M U Message) (load l).
Proof.
  intros w1 w2 H. split; [done|]. simpl. unfold peek.
  by rewrite (f_equal heap H : heap w1 = heap w2).
Qed.

Lemma obs_eq_fail {U A} e : obs_eq (fail e : M U A) (fail e).
Proof. by intros w1 w2 H. Qed.

#[export] Hint Resolve obs_eq_ret obs_eq_attempt obs_eq_load obs_eq_fail : octo.
