(* ===== verification/BlockEvents.v ===== *)
(** Block events: [runtime/core/blockevents.go], the dispatcher the engine
    brackets every block with. *)
From S2P Require Import Prelude GoStr Message Store.
From Stdlib Require Import String.
#[local] Open Scope Z_scope.

(** A listener is known by its identity; [reg_panics] says on which events
    its body panics. *)
Record registration : Type := mkReg {
  reg_id : nat;
  reg_panics : BlockEvent -> bool;
  reg_paths : option (gset string);     (** nil: every path *)
}.

Definition wants (r : registration) (path : string) : bool :=
  match reg_paths r with None => true | Some ps => bool_decide (path ∈ ps) end.

Record listeners : Type := mkListeners {
  registered : list registration;
  l_paths : gset string;
  l_all : bool;
}.

Definition NewBlockEvents : listeners := mkListeners [] ∅ false.

Definition observes (l : listeners) (path : string) : bool :=
  if l_all l then true
  else if decide (size (l_paths l) = 0%nat) then false
  else bool_decide (path ∈ l_paths l).

(** [add]; the nil-listener guard is the [option] a caller passes. *)
Definition add (e : listeners) (reg : registration) : listeners :=
  let all := l_all e || bool_decide (reg_paths reg = None) in
  mkListeners (registered e ++ [reg])
    (if all then ∅ else l_paths e ∪ default ∅ (reg_paths reg)) all.

Definition AddSync (e : listeners) (id : nat) (p : BlockEvent -> bool) : listeners :=
  add e (mkReg id p None).

Definition AddSyncFor (e : listeners) (paths : list string) (id : nat)
    (p : BlockEvent -> bool) : listeners :=
  match paths with
  | [] => e
  | _ => add e (mkReg id p (Some (list_to_set paths)))
  end.

Section emit.
Context {U : Type}.

Definition observe_with (f : observed -> observed) : M U unit := fun w =>
  (with_obs (f (obs w)) w, Ok tt).

(** [call] contains a panic: it is counted and the event is not recorded. *)
Definition call (reg : registration) (event : BlockEvent) : M U unit :=
  if reg_panics reg event
  then observe_with (fun o => mkObserved (seen o) (S (panics o)) (oclk o))
  else observe_with (fun o => mkObserved (seen o ++ [(reg_id reg, event)]) (panics o) (oclk o)).

Fixpoint emit_to (regs : list registration) (event : BlockEvent) : M U unit :=
  match regs with
  | [] => mret tt
  | reg :: regs =>
      (if wants reg (ev_Path event) then call reg event else mret tt)
      ≫= fun _ => emit_to regs event
  end.

Definition Emit (e : listeners) (event : BlockEvent) : M U unit :=
  emit_to (registered e) event.

(** a clock reading taken for an event *)
Definition onow : M U Z := fun w =>
  let o := obs w in
  (with_obs (mkObserved (seen o) (panics o) (S (oclk o))) w, Ok (times w (oclk o))).
End emit.

(** ** The snapshot invariant: [Observes] answers from the union it keeps. *)
Definition snapshot_ok (e : listeners) : Prop :=
  forall path, observes e path = true <-> exists r, r ∈ registered e /\ wants r path = true.

(** The representation the snapshot keeps: [all] when a listener has no
    filter, the union of the filters otherwise. *)
Definition snapshot_wf (e : listeners) : Prop :=
  (l_all e = true <-> exists r, r ∈ registered e /\ reg_paths r = None) /\
  (l_all e = false -> forall path, path ∈ l_paths e <->
     exists r ps, r ∈ registered e /\ reg_paths r = Some ps /\ path ∈ ps).

Lemma snapshot_wf_new : snapshot_wf NewBlockEvents.
Proof. split; simpl; [|intros _ p]; split; set_solver. Qed.

Lemma add_wf e reg : snapshot_wf e -> snapshot_wf (add e reg).
Proof.
  intros [Hall Hps]. unfold add, snapshot_wf; simpl. split.
  - rewrite orb_true_iff, Hall, bool_decide_eq_true.
    setoid_rewrite elem_of_app. setoid_rewrite list_elem_of_singleton. naive_solver.
  - intros [Ha Hr]%orb_false_elim path. apply bool_decide_eq_false in Hr.
    rewrite Ha. rewrite bool_decide_eq_false_2 by done. simpl.
    destruct (reg_paths reg) as [ps|] eqn:Hreg; [|done]. simpl.
    rewrite elem_of_union, (Hps Ha).
    setoid_rewrite elem_of_app. setoid_rewrite list_elem_of_singleton. naive_solver.
Qed.

Lemma AddSyncFor_wf e paths id p : snapshot_wf e -> snapshot_wf (AddSyncFor e paths id p).
Proof. intros H. unfold AddSyncFor. destruct paths; [done|by apply add_wf]. Qed.

Lemma AddSync_wf e id p : snapshot_wf e -> snapshot_wf (AddSync e id p).
Proof. apply add_wf. Qed.

Lemma wf_snapshot_ok e : snapshot_wf e -> snapshot_ok e.
Proof.
  intros [Hall Hps] path. unfold observes. destruct (l_all e) eqn:Ha.
  - split; [intros _|done]. destruct (proj1 Hall eq_refl) as (r & Hr & Hn).
    exists r. split; [done|]. unfold wants. by rewrite Hn.
  - transitivity (path ∈ l_paths e).
    { destruct (decide _) as [Hs|_]; [|by rewrite bool_decide_eq_true].
      apply size_empty_inv in Hs. set_solver. }
    rewrite (Hps eq_refl). split.
    + intros (r & ps & Hr & Hp & Hin). exists r. split; [done|].
      unfold wants. rewrite Hp. by apply bool_decide_eq_true.
    + intros (r & Hr & Hw). unfold wants in Hw. destruct (reg_paths r) as [ps|] eqn:Hp.
      * exists r, ps. by apply bool_decide_eq_true in Hw.
      * destruct Hall as [_ Hall]. discriminate Hall. eauto.
Qed.

(** ** Emission: listeners only add to what was observed *)
Definition delivered (regs : list registration) (event : BlockEvent) : list (nat * BlockEvent) :=
  (fun r => (reg_id r, event)) <$>
    filter (fun r => wants r (ev_Path event) && negb (reg_panics r event) = true) regs.

Lemma emit_to_spec {U} regs event (w : world U) :
  exists n, emit_to regs event w =
    (with_obs (mkObserved (seen (obs w) ++ delivered regs event) n (oclk (obs w))) w, Ok tt).
Proof.
  revert w. induction regs as [|r regs IH]; intros w; cbn [emit_to].
  - exists (panics (obs w)). unfold delivered. simpl. rewrite app_nil_r.
    by destruct w as [? ? ? ? ? ? ? []].
  - unfold delivered. rewrite filter_cons. unfold call.
    destruct (wants r (ev_Path event)) eqn:Hw; simpl.
    + destruct (reg_panics r event) eqn:Hp; simpl.
      * edestruct IH as [n Hn]. exists n. unfold mbind, M_bind, SM_bind, observe_with.
        rewrite Hn. by destruct w as [? ? ? ? ? ? ? []].
      * edestruct IH as [n Hn]. exists n. unfold mbind, M_bind, SM_bind, observe_with.
        rewrite Hn. destruct w as [? ? ? ? ? ? ? []]. simpl.
        by rewrite <-app_assoc.
    + edestruct IH as [n Hn]. exists n. unfold mbind, M_bind, SM_bind.
      unfold mret, M_ret, SM_ret. rewrite Hn. done.
Qed.

Lemma Emit_erase {U} e event (w : world U) :
  erase (Emit e event w).1 = erase w /\ (Emit e event w).2 = Ok tt.
Proof. unfold Emit. by destruct (emit_to_spec (registered e) event w) as [n ->]. Qed.

Lemma obs_eq_ret_emit {U} e event : obs_eq (mret tt : M U unit) (Emit e event).
Proof.
  intros w1 w2 H. destruct (Emit_erase e event w2) as [H1 H2].
  split; simpl; [by rewrite H1|by rewrite H2].
Qed.

(** * Properties *)

(** One registration, as a caller makes it: a listener for every path, or for
    the paths listed. *)
Definition register (e : listeners) (r : option (list string) * nat * (BlockEvent -> bool)) : listeners :=
  match r with
  | (None, id, panics) => AddSync e id panics
  | (Some paths, id, panics) => AddSyncFor e paths id panics
  end.

(** Whatever was registered, in whatever order, the dispatcher says a path is
    observed exactly when some registered listener wants it, so skipping a block
    the dispatcher says nobody observes never keeps an event from a listener. *)
Theorem observes_iff_wanted rs path :
  let e := foldl register NewBlockEvents rs in
  observes e path = true <-> exists r, r ∈ registered e /\ wants r path = true.
Proof.
  cbv zeta. apply wf_snapshot_ok.
  assert (forall e, snapshot_wf e -> snapshot_wf (foldl register e rs)) as H.
  { induction rs as [|[[[ps|] id] p] rs IH]; intros e He; simpl; [done|..].
    - by apply IH, AddSyncFor_wf.
    - by apply IH, AddSync_wf. }
  apply H, snapshot_wf_new.
Qed.
