(* ===== verification/BlockPath.v ===== *)
(** Block addresses as they are spelled: [runtime/core/blockpath.go]. *)
From S2P Require Import Prelude GoStr.
From Stdlib Require Import String.
#[local] Open Scope string_scope.
#[local] Open Scope Z_scope.

Definition BranchProcess := "process".
Definition BranchError := "error".
Definition BranchThen := "then".
Definition BranchElse := "else".
Definition BranchBody := "body".
Definition BranchDefault := "default".
Definition BranchOnReject := "onReject".
Definition BranchBuildResponse := "buildResponse".

Definition BlockLabel (name blockType ref : string) : string :=
  if negb (String.eqb name "") then name
  else if negb (String.eqb blockType "") then blockType
  else ref.

Definition MemberBranch (name : string) (index : Z) : string :=
  if negb (String.eqb name "") then name else itoa index.

Definition JoinBlock (prefix label : string) : string := prefix ++ "." ++ label.

Definition JoinBranch (blockPath branch : string) : string :=
  blockPath ++ "[" ++ branch ++ "]".
