(* ===== verification/Engine.v ===== *)
(** The flow runner: [runtime/core/engine/flow.go] and [continuation.go], with
    the error vocabulary of [runtime/core/blockerror.go].

    A [MessageProcessor] is a computation on the message pointer it is given.
    Its three outcomes are [Ok (Some out)] (a message), [Ok None] (the message
    was dropped) and [Err e]. *)
From S2P Require Import Prelude GoStr Message Store BlockEvents BlockPath.
From Stdlib Require Import String.
#[local] Open Scope string_scope.
#[local] Open Scope Z_scope.

(** ** blockerror.go *)
Definition ErrorVariable : string := "error".

(** [errors.As(err, &be)]: the outermost BlockError, the first of two errors before
    the second. *)
Fixpoint has_block (e : goerr) : bool :=
  match e with
  | ErrMsg _ => false
  | ErrWrap _ e' _ => has_block e'
  | ErrBlock _ _ => true
  | ErrBoth e1 _ e2 => has_block e1 || has_block e2
  end.
Fixpoint FailingBlock (e : goerr) : string :=
  match e with
  | ErrMsg _ => ""
  | ErrWrap _ e' _ => FailingBlock e'
  | ErrBlock l _ => l
  | ErrBoth e1 _ e2 => if has_block e1 then FailingBlock e1 else FailingBlock e2
  end.

Definition SetErrorVariable {U} (l : nat) (name : string) (e : goerr) : M U unit :=
  update l (set_var ErrorVariable
    (AMap {[ "message" := AStr (error_text e);
             "flow" := AStr name;
             "block" := AStr (FailingBlock e) ]})).

Definition blockLabel (blockType name : string) : string :=
  if negb (String.eqb name "") then name else blockType.

Section engine.
Context {U : Type}.

Definition processor : Type := nat -> M U (option nat).
Definition continuation : Type := nat -> M U unit.
(** core.FlowResume: schedule a message through a tail. *)
Definition FlowResume : Type := nat -> processor -> M U unit.

(** What a factory returns: a processor, or one that takes the flow over and
    needs its continuation ([core.ContinuationAware]). *)
Inductive impl : Type :=
  | Plain (p : processor)
  | TakesOver (p : continuation -> processor).

(** core.LifecycleProcessor: background work a block owns. *)
Record lifecycle : Type := mkLifecycle {
  Start : M U unit;
  Stop : M U unit;
}.

(** A processor object: its behaviour and the optional capabilities
    [LifecycleProcessor] and [StateScoped] it answers for. *)
Record object : Type := mkObject {
  o_impl : impl;
  o_lifecycle : option lifecycle;
  o_StateKey : option string;
}.
Definition leaf (p : processor) : object := mkObject (Plain p) None None.

Record Block : Type := mkBlock {
  b_Name : string;
  b_Type : string;
  b_Path : string;
  b_Processor : processor;
  b_lifecycle : option lifecycle;
  b_StateKey : option string;
}.

(** A block as [builder.block] leaves it, before the continuations are wired. *)
Record UnwiredBlock : Type := mkUnwired {
  u_Name : string;
  u_Type : string;
  u_Path : string;
  u_object : object;
}.

Record Flow : Type := mkFlow {
  f_Name : string;
  f_Blocks : list Block;
  f_flowName : string;
  f_events : option listeners;
}.

Definition LifecycleProcessors (f : Flow) : list lifecycle := omap b_lifecycle (f_Blocks f).
Definition StateKeys (f : Flow) : list string := omap b_StateKey (f_Blocks f).

Definition event (f : Flow) (kind : BlockEventKind) (block : Block) (l : nat)
    (msg : Message) (at_ : Z) : BlockEvent :=
  mkBlockEvent kind (f_flowName f) (b_Path block) (b_Type block)
    (EventID msg) (CorrelationID msg) at_ l 0 None false.

Definition outcome (f : Flow) (block : Block) (input : nat) (r : res (option nat))
    (started : Z) : M U BlockEvent :=
  let msg := match r with Ok (Some out) => out | _ => input end in
  m ← load msg;
  at_ ← onow;
  let e := event f BlockPostInvoke block msg m at_ in
  mret (mkBlockEvent (ev_Kind e) (ev_Flow e) (ev_Path e) (ev_BlockType e)
    (ev_EventID e) (ev_CorrelationID e) (ev_OccurredAt e) (ev_Message e)
    (at_ - started)
    (match r with Err er => Some er | Ok _ => None end)
    (match r with Ok None => true | _ => false end)).

Definition observed_block (f : Flow) (block : Block) : option listeners :=
  match f_events f with
  | Some ev =>
      if negb (String.eqb (b_Path block) "") && observes ev (b_Path block)
      then Some ev else None
  | None => None
  end.

Definition pre_invoke (f : Flow) (block : Block) (current : nat) : M U Z :=
  match observed_block f block with
  | Some ev =>
      m ← load current;
      at_ ← onow;
      Emit ev (event f BlockPreInvoke block current m at_) ≫= fun _ => onow
  | None => mret 0
  end.

Definition post_invoke (f : Flow) (block : Block) (current : nat)
    (r : res (option nat)) (started : Z) : M U unit :=
  match observed_block f block with
  | Some ev => outcome f block current r started ≫= Emit ev
  | None => mret tt
  end.

(** The loop of [Flow.Process]. *)
Fixpoint process_blocks (f : Flow) (blocks : list Block) (current : nat) : M U (option nat) :=
  match blocks with
  | [] => mret (Some current)
  | block :: rest =>
      started ← pre_invoke f block current;
      r ← attempt (b_Processor block current);
      post_invoke f block current r started ≫= fun _ =>
      match r with
      | Err e => fail (ErrBlock (blockLabel (b_Type block) (b_Name block)) e)
      | Ok None => mret None
      | Ok (Some out) =>
          m ← load out;
          if StopRequested m then mret (Some out)
          else process_blocks f rest out
      end
  end.

Definition Process (f : Flow) : processor := process_blocks f (f_Blocks f).

Definition tailFrom (f : Flow) (i : nat) : Flow :=
  mkFlow (f_Name f) (drop i (f_Blocks f)) (f_flowName f) (f_events f).

(** ** continuation.go *)
Definition errNoResume : goerr :=
  ErrMsg "flow has no resume hook: this flow was not built by the runtime".

(** [flowContinuation.Resume]: the hook is the one the owner has when the
    continuation fires. *)
Definition Resume (hook : option FlowResume) (tail : Flow) : continuation := fun msg =>
  match hook with
  | None => fail errNoResume
  | Some resume => resume msg (Process tail)
  end.

Definition last_block_error (b : UnwiredBlock) : goerr :=
  ErrMsg ("block " ++ quote (blockLabel (u_Type b) (u_Name b)) ++
    " continues the flow but is the last block in the chain: nothing would run after it").

Definition unaware (b : UnwiredBlock) (p : processor) : Block :=
  mkBlock (u_Name b) (u_Type b) (u_Path b) p
    (o_lifecycle (u_object b)) (o_StateKey (u_object b)).

(** [wireContinuations]: every block that takes over gets the flow made of
    the blocks after it.  The chain is wired from its end, so a tail holds
    wired blocks, as the shared backing array does. *)
Fixpoint wireContinuations (hook : option FlowResume) (name flowName : string)
    (ev : option listeners) (bs : list UnwiredBlock) : res (list Block) :=
  match bs with
  | [] => Ok []
  | b :: rest =>
      match o_impl (u_object b), rest with
      | TakesOver _, [] => Err (last_block_error b)
      | Plain p, _ =>
          rest' ← wireContinuations hook name flowName ev rest;
          mret (unaware b p :: rest')
      | TakesOver p, _ =>
          rest' ← wireContinuations hook name flowName ev rest;
          mret (unaware b (p (Resume hook (mkFlow name rest' flowName ev))) :: rest')
      end
  end.

(** A chain nobody wires: a block that takes over has no continuation, and
    calling one that is nil is a panic. *)
Definition nil_continuation : goerr :=
  ErrMsg "runtime error: invalid memory address or nil pointer dereference".
Definition unwired (b : UnwiredBlock) : Block :=
  unaware b match o_impl (u_object b) with
            | Plain p => p
            | TakesOver p => p (fun _ => fail nil_continuation)
            end.
End engine.
Arguments processor : clear implicits.
Arguments continuation : clear implicits.
Arguments FlowResume : clear implicits.
Arguments impl : clear implicits.
Arguments lifecycle : clear implicits.
Arguments object : clear implicits.
Arguments Block : clear implicits.
Arguments UnwiredBlock : clear implicits.
Arguments Flow : clear implicits.

(** * Lemmas *)

(** A computation that succeeds and changes nothing but observations. *)
Definition silent {U A} (m : M U A) : Prop :=
  forall w, exists a w', m w = (w', Ok a) /\ erase w' = erase w.

Lemma silent_ret {U A} (a : A) : silent (mret a : M U A).
Proof. intros w. by exists a, w. Qed.
Lemma silent_bind {U A B} (m : M U A) (f : A -> M U B) :
  silent m -> (forall a, silent (f a)) -> silent (m ≫= f).
Proof.
  intros Hm Hf w. destruct (Hm w) as (a & w' & E & Ew).
  destruct (Hf a w') as (b & w'' & E2 & Ew2).
  exists b, w''. unfold mbind, M_bind, SM_bind. rewrite E, E2. by rewrite Ew2.
Qed.
Lemma silent_load {U} l : silent (load l : M U Message).
Proof. intros w. by eexists _, w. Qed.
Lemma silent_onow {U} : silent (onow : M U Z).
Proof. intros w. by eexists _, _. Qed.
Lemma silent_Emit {U} e ev : silent (Emit e ev : M U unit).
Proof.
  intros w. unfold Emit. destruct (emit_to_spec (registered e) ev w) as [n ->].
  by eexists _, _.
Qed.
#[export] Hint Resolve silent_ret silent_bind silent_load silent_onow silent_Emit : octo.

Section process.
Context {U : Type}.
Implicit Types (f : Flow U) (b : Block U) (bs : list (Block U)).

Lemma pre_invoke_silent f b l : silent (pre_invoke f b l).
Proof. unfold pre_invoke. destruct (observed_block f b); eauto with octo. Qed.

Lemma outcome_silent f b l r t : silent (outcome f b l r t).
Proof. unfold outcome. eauto 10 with octo. Qed.

Lemma post_invoke_silent f b l r t : silent (post_invoke f b l r t).
Proof.
  unfold post_invoke. pose proof outcome_silent.
  destruct (observed_block f b); eauto with octo.
Qed.

(** What the loop does once a block returned. *)
Definition after_block f b (rest : list (Block U)) (r : res (option nat)) : M U (option nat) :=
  match r with
  | Err e => fail (ErrBlock (blockLabel (b_Type b) (b_Name b)) e)
  | Ok None => mret None
  | Ok (Some out) =>
      m ← load out;
      if StopRequested m then mret (Some out) else process_blocks f rest out
  end.

(** One turn of the loop: the block runs from a state observation cannot be
    told from the one the loop was entered in, and what follows from one it
    cannot be told from what the block left. *)
Lemma process_blocks_cons f b rest cur w :
  exists w1 w2, erase w1 = erase w /\
    erase w2 = erase (b_Processor b cur w1).1 /\
    process_blocks f (b :: rest) cur w
    = after_block f b rest (b_Processor b cur w1).2 w2.
Proof.
  cbn [process_blocks]. unfold mbind, M_bind, SM_bind.
  destruct (pre_invoke_silent f b cur w) as (t & w1 & -> & E1).
  exists w1. unfold attempt.
  destruct (b_Processor b cur w1) as [w1' r].
  destruct (post_invoke_silent f b cur r t w1') as (? & w2 & -> & E2).
  by exists w2.
Qed.

(** A processor that cannot tell apart what only an observer can. *)
Definition blind (p : processor U) : Prop := forall l, obs_eq (p l) (p l).

Lemma process_blocks_obs f f' bs cur :
  Forall (fun b => blind (b_Processor b)) bs ->
  obs_eq (process_blocks f bs cur) (process_blocks f' bs cur).
Proof.
  intros H. revert cur. induction H as [|b bs Hb Hbs IH]; intros cur.
  { apply obs_eq_ret. }
  intros w w' Hw.
  destruct (process_blocks_cons f b bs cur w) as (w1 & w2 & E1 & E2 & ->).
  destruct (process_blocks_cons f' b bs cur w') as (w1' & w2' & E1' & E2' & ->).
  destruct (Hb cur w1 w1') as [Ew Er]; [congruence|]. rewrite Er.
  assert (erase w2 = erase w2') as E by congruence.
  unfold after_block. destruct (b_Processor b cur w1').2 as [[out|]|e]; [|by apply obs_eq_ret|by apply obs_eq_fail].
  refine (obs_eq_bind _ _ _ _ (obs_eq_load out) _ _ _ E). intros m.
  destruct (StopRequested m); [apply obs_eq_ret|apply IH].
Qed.

(** Running two chains one after the other is running their concatenation. *)
Lemma process_blocks_app f bs1 bs2 cur w :
  bs1 ≠ [] ->
  process_blocks f (bs1 ++ bs2) cur w =
  match process_blocks f bs1 cur w with
  | (w', Ok (Some out)) =>
      if StopRequested (peek w' out) then (w', Ok (Some out))
      else process_blocks f bs2 out w'
  | r => r
  end.
Proof.
  intros Hne. revert cur w Hne. induction bs1 as [|b bs1 IH]; [done|].
  intros cur w _. simpl app. cbn [process_blocks].
  unfold mbind, M_bind, SM_bind, attempt.
  destruct (pre_invoke f b cur w) as [w1 [t|e]]; [|done].
  destruct (b_Processor b cur w1) as [w2 r].
  destruct (post_invoke f b cur r t w2) as [w3 [[]|e]]; [|done].
  destruct r as [[out|]|e]; [|done|done]. unfold load.
  destruct (StopRequested (peek w3 out)) eqn:Hs.
  - unfold mret, M_ret, SM_ret. by rewrite Hs.
  - destruct bs1 as [|b' bs1'].
    + simpl. unfold mret, M_ret, SM_ret. by rewrite Hs.
    + by apply IH.
Qed.

(** The error a chain fails with is its failing block's, under that block's
    label. *)
Lemma process_blocks_err f bs cur w w' e :
  process_blocks f bs cur w = (w', Err e) ->
  exists b e', b ∈ bs /\ e = ErrBlock (blockLabel (b_Type b) (b_Name b)) e' /\
    exists l w1, (b_Processor b l w1).2 = Err e'.
Proof.
  revert cur w. induction bs as [|b bs IH]; intros cur w; [done|].
  destruct (process_blocks_cons f b bs cur w) as (w1 & w2 & _ & _ & ->).
  unfold after_block. destruct ((b_Processor b cur w1).2) as [[out|]|e'] eqn:Hr.
  - unfold mbind, M_bind, SM_bind, load.
    destruct (StopRequested _); [done|]. intros H%IH.
    destruct H as (b' & e' & Hin & He & Hx). exists b', e'. split; [by right|done].
  - done.
  - intros [= _ <-]. exists b, e'. split_and!; [by left|done|eauto].
Qed.
End process.

(** ** Continuations *)
Section wiring.
Context {U : Type} (hook : option (FlowResume U)) (name flowName : string)
  (ev : option listeners).

(** A block as wiring leaves it, in front of the chain [tail]. *)
Definition wired (b : UnwiredBlock U) (tail : list (Block U)) : Block U :=
  unaware b match o_impl (u_object b) with
            | Plain p => p
            | TakesOver p => p (Resume hook (mkFlow name tail flowName ev))
            end.

Definition takes_over (b : UnwiredBlock U) : bool :=
  match o_impl (u_object b) with TakesOver _ => true | Plain _ => false end.

Lemma wire_nth bs bs' :
  wireContinuations hook name flowName ev bs = Ok bs' ->
  List.length bs' = List.length bs /\
  forall i b, bs !! i = Some b -> bs' !! i = Some (wired b (drop (S i) bs')).
Proof.
  revert bs'. induction bs as [|b bs IH]; intros bs'; simpl.
  { by intros [= <-]. }
  intros H. assert (exists r, wireContinuations hook name flowName ev bs = Ok r /\
    bs' = wired b r :: r) as (r & Hr & ->).
  { unfold wired. destruct (o_impl (u_object b)) as [p|p].
    - apply res_bind_ok in H as (r & Hr & [= <-]). eauto.
    - destruct bs as [|b2 bs]; [done|].
      apply res_bind_ok in H as (r & Hr & [= <-]). eauto. }
  destruct (IH _ Hr) as [Hl Hi]. split; [simpl; congruence|].
  intros [|i] b' Hb'; simpl in *; [by simplify_eq|]. by apply Hi.
Qed.

Lemma wire_err bs e :
  wireContinuations hook name flowName ev bs = Err e <->
  exists b, last bs = Some b /\ takes_over b = true /\ e = last_block_error b.
Proof.
  induction bs as [|b bs IH]; simpl.
  { split; [done|]. by intros (? & ? & ?). }
  destruct bs as [|b2 bs].
  - unfold takes_over. simpl. destruct (o_impl (u_object b)) eqn:Hb; simpl.
    + split; [done|]. intros (b' & [= <-] & Ht & _). by rewrite Hb in Ht.
    + split; [intros [= <-]; exists b; by rewrite Hb|].
      by intros (b' & [= <-] & _ & ->).
  - rewrite last_cons_cons, <-IH.
    destruct (wireContinuations hook name flowName ev (b2 :: bs)) eqn:Hw.
    + by destruct (o_impl (u_object b)).
    + by destruct (o_impl (u_object b)).
Qed.
End wiring.

(** ** The events of a run *)
Section brackets.
Context {U : Type}.

(** What a listener reads off an event, short of the message and the clock. *)
Definition signature (e : BlockEvent) : BlockEventKind * string * bool * option goerr :=
  (ev_Kind e, ev_Path e, ev_Dropped e, ev_Err e).

(** The events of the blocks a run executes, in order. *)
Fixpoint brackets (bs : list (Block U)) (cur : nat) (w : world U)
    : list (BlockEventKind * string * bool * option goerr) :=
  match bs with
  | [] => []
  | b :: rest =>
      let '(w', r) := b_Processor b cur w in
      (BlockPreInvoke, b_Path b, false, None)
      :: (BlockPostInvoke, b_Path b,
          match r with Ok None => true | _ => false end,
          match r with Err e => Some e | Ok _ => None end)
      :: match r with
         | Ok (Some out) =>
             if StopRequested (peek w' out) then [] else brackets rest out w'
         | _ => []
         end
  end.

(** What the listeners that want a path are handed for one signature. *)
Definition heard (regs : list registration) (s : BlockEventKind * string * bool * option goerr)
    : list (nat * (BlockEventKind * string * bool * option goerr)) :=
  (fun r => (reg_id r, s)) <$> filter (fun r => wants r s.1.1.2 = true) regs.

(** A processor that reports nothing of its own and cannot see reports. *)
Definition quiet (p : processor U) : Prop :=
  forall l w o, p l (with_obs o w) = (with_obs o (p l w).1, (p l w).2).

Lemma quiet_blind p : quiet p -> blind p.
Proof.
  intros H l w1 w2 E.
  assert (w1 = with_obs (obs w1) w2) as ->.
  { destruct w1, w2. unfold erase, with_obs in *. simpl in *. congruence. }
  rewrite H. split; simpl; [|done]. by destruct (p l w2) as [[]].
Qed.

Lemma brackets_obs bs cur w o :
  Forall (fun b => quiet (b_Processor b)) bs ->
  brackets bs cur (with_obs o w) = brackets bs cur w.
Proof.
  intros H. revert cur w o. induction H as [|b bs Hb _ IH]; intros cur w o; [done|].
  cbn [brackets]. rewrite Hb.
  destruct (b_Processor b cur w) as [w' [[out|]|e]]; simpl; [|done|done].
  change (peek (with_obs o w') out) with (peek w' out). by rewrite IH.
Qed.

Lemma heard_delivered regs e :
  Forall (fun r => forall e, reg_panics r e = false) regs ->
  (fun ie => (ie.1, signature ie.2)) <$> delivered regs e = heard regs (signature e).
Proof.
  intros H. unfold delivered, heard. simpl. induction H as [|r regs Hr H IH]; [done|].
  rewrite !filter_cons, Hr, andb_true_r. simpl.
  destruct (wants r (ev_Path e)); simpl; [by f_equal|done].
Qed.

(** Everything a run's listeners have heard, as signatures. *)
Definition sigs (w : world U) : list (nat * (BlockEventKind * string * bool * option goerr)) :=
  (fun ie => (ie.1, signature ie.2)) <$> seen (obs w).

Lemma Emit_heard ev e (w : world U) :
  Forall (fun r => forall e, reg_panics r e = false) (registered ev) ->
  exists o, Emit ev e w = (with_obs o w, Ok tt) /\
    sigs (with_obs o w) = (sigs w ++ heard (registered ev) (signature e))%list.
Proof.
  intros H. unfold Emit. destruct (emit_to_spec (registered ev) e w) as [n ->].
  eexists. split; [done|]. unfold sigs. cbn [seen obs with_obs].
  by rewrite fmap_app, (heard_delivered _ _ H).
Qed.

Lemma heard_nil ev s :
  snapshot_wf ev -> observes ev s.1.1.2 = false -> heard (registered ev) s = [].
Proof.
  intros Hwf Ho. unfold heard.
  assert (filter (fun r => wants r s.1.1.2 = true) (registered ev) = []) as ->; [|done].
  apply filter_none. intros r Hr Hw.
  assert (observes ev s.1.1.2 = true); [|congruence].
  apply (wf_snapshot_ok _ Hwf). eauto.
Qed.

Context (f : Flow U) (ev : listeners) (Hev : f_events f = Some ev) (Hwf : snapshot_wf ev).
Context (Hp : Forall (fun r => forall e, reg_panics r e = false) (registered ev)).

Lemma observed_block_path b :
  b_Path b ≠ "" ->
  observed_block f b = if observes ev (b_Path b) then Some ev else None.
Proof.
  intros Hb. unfold observed_block. rewrite Hev.
  by apply String.eqb_neq in Hb as ->.
Qed.

Lemma pre_invoke_heard b l w :
  b_Path b ≠ "" -> exists o t, pre_invoke f b l w = (with_obs o w, Ok t) /\
    sigs (with_obs o w)
    = (sigs w ++ heard (registered ev) (BlockPreInvoke, b_Path b, false, None))%list.
Proof.
  intros Hb. unfold pre_invoke. rewrite (observed_block_path _ Hb).
  destruct (observes ev (b_Path b)) eqn:Ho.
  - unfold mbind, M_bind, SM_bind, load, onow.
    match goal with |- context [Emit ev ?e ?w'] =>
      destruct (Emit_heard ev e w' Hp) as (o & -> & Hs) end.
    by eexists _, _.
  - exists (obs w), 0. rewrite heard_nil by done. rewrite app_nil_r.
    by destruct w.
Qed.

Lemma post_invoke_heard b l r t w :
  b_Path b ≠ "" -> exists o, post_invoke f b l r t w = (with_obs o w, Ok tt) /\
    sigs (with_obs o w)
    = (sigs w ++ heard (registered ev) (BlockPostInvoke, b_Path b,
         match r with Ok None => true | _ => false end,
         match r with Err e => Some e | Ok _ => None end))%list.
Proof.
  intros Hb. unfold post_invoke. rewrite (observed_block_path _ Hb).
  destruct (observes ev (b_Path b)) eqn:Ho.
  - unfold outcome, mbind, M_bind, SM_bind, load, onow, mret, M_ret, SM_ret.
    match goal with |- context [Emit ev ?e ?w'] =>
      destruct (Emit_heard ev e w' Hp) as (o & -> & Hs) end.
    exists o. split; [done|exact Hs].
  - exists (obs w). rewrite heard_nil by done. rewrite app_nil_r.
    by destruct w.
Qed.

Lemma process_brackets bs cur w :
  Forall (fun b => b_Path b ≠ "" /\ quiet (b_Processor b)) bs ->
  sigs (process_blocks f bs cur w).1
  = (sigs w ++ flat_map (heard (registered ev)) (brackets bs cur w))%list.
Proof.
  intros H. revert cur w. induction H as [|b bs [Hb Hq] Hbs IH]; intros cur w.
  { simpl. by rewrite app_nil_r. }
  cbn [process_blocks brackets]. unfold mbind, M_bind, SM_bind, attempt.
  destruct (pre_invoke_heard b cur w Hb) as (o & t & -> & Hs). rewrite Hq.
  destruct (b_Processor b cur w) as [w' r] eqn:Hr. simpl.
  destruct (post_invoke_heard b cur r t (with_obs o w') Hb) as (o' & -> & Hs').
  change (with_obs o' (with_obs o w')) with (with_obs o' w') in *.
  change (sigs (with_obs o w')) with (sigs (with_obs o w)) in Hs'. rewrite Hs in Hs'.
  destruct r as [[out|]|e]; simpl.
  - unfold load. change (peek (with_obs o' w') out) with (peek w' out).
    destruct (StopRequested (peek w' out)); simpl.
    + rewrite Hs', app_nil_r. by rewrite <-app_assoc.
    + rewrite IH, Hs'. rewrite brackets_obs by (eapply Forall_impl; [done|naive_solver]).
      by rewrite <-!app_assoc.
  - rewrite Hs', app_nil_r. by rewrite <-app_assoc.
  - rewrite Hs', app_nil_r. by rewrite <-app_assoc.
Qed.
End brackets.

Lemma process_blocks_ext {U} (f f' : Flow U) bs cur w :
  f_events f = f_events f' -> f_flowName f = f_flowName f' ->
  process_blocks f bs cur w = process_blocks f' bs cur w.
Proof.
  intros He Hn. revert cur w. induction bs as [|b bs IH]; intros cur w; [done|].
  cbn [process_blocks].
  assert (pre_invoke f b cur = pre_invoke f' b cur) as ->.
  { unfold pre_invoke, observed_block, event. by rewrite He, Hn. }
  assert (forall r t, post_invoke f b cur r t = post_invoke f' b cur r t) as Hp.
  { intros r t. unfold post_invoke, observed_block, outcome, event. by rewrite He, Hn. }
  unfold mbind, M_bind, SM_bind. destruct (pre_invoke f' b cur w) as [w1 [t|]]; [|done].
  destruct (attempt (b_Processor b cur) w1) as [w2 [r|]]; [|done]. rewrite Hp.
  destruct (post_invoke f' b cur r t w2) as [w3 [[]|]]; [|done].
  destruct r as [[out|]|]; [|done|done].
  destruct (load out w3) as [w4 [m|]]; [|done]. by destruct (StopRequested m).
Qed.

(** * Properties *)


Definition pass_block : Block unit := mkBlock "a" "set" "f.a" (fun l => mret (Some l)) None None.
Definition drop_block : Block unit := mkBlock "b" "filter" "f.b" (fun l => mret None) None None.
Definition empty_world : world unit :=
  mkWorld ∅ 1 (fun _ => None) 0 (fun n => Z.of_nat n) 0 tt (mkObserved [] 0 0).
(** A dispatcher with a listener for one path and one for every path that
    panics on each drop. *)
Definition two_listeners : listeners :=
  AddSync (AddSyncFor NewBlockEvents ["f.a"] 1 (fun _ => false)) 2 ev_Dropped.

Lemma pass_blocks_quiet : Forall (fun b => quiet (b_Processor b)) [pass_block; drop_block].
Proof. repeat constructor. Qed.



Definition calm_listeners : listeners :=
  AddSync (AddSyncFor NewBlockEvents ["f.a"] 1 (fun _ => false)) 2 (fun _ => false).

(** C1: a continuation is the rest of the flow: when a root chain wires, every
    block that takes over holds a continuation that schedules, through the hook
    in place when it fires, the flow made of exactly the blocks after it; and
    running the chain is running it up to and including any block and then, on
    the message that block handed on without asking the flow to stop, that same
    rest. *)
Theorem continuation_is_the_rest {U} hook name flowName ev (us : list (UnwiredBlock U)) bs i u :
  wireContinuations hook name flowName ev us = Ok bs -> us !! i = Some u ->
  let flow := mkFlow name bs flowName ev in
  let rest := tailFrom flow (S i) in
  (forall p, o_impl (u_object u) = TakesOver p ->
     exists b, bs !! i = Some b /\ b_Processor b = p (Resume hook rest)) /\
  forall cur w, Process flow cur w =
    match process_blocks flow (take (S i) bs) cur w with
    | (w', Ok (Some out)) =>
        if StopRequested (peek w' out) then (w', Ok (Some out)) else Process rest out w'
    | r => r
    end.
Proof.
  intros Hw Hu flow rest. destruct (wire_nth _ _ _ _ _ _ Hw) as [Hl Hi]. split.
  - intros p Hp. exists (wired hook name flowName ev u (drop (S i) bs)). split; [by apply Hi|].
    unfold wired. by rewrite Hp.
  - intros cur w. unfold Process at 1. cbn [f_Blocks flow].
    rewrite <-(take_drop (S i) bs) at 1. rewrite process_blocks_app.
    + destruct (process_blocks flow (take (S i) bs) cur w) as [w' [[out|]|e]]; [|done|done].
      destruct (StopRequested (peek w' out)); [done|]. by apply process_blocks_ext.
    + specialize (Hi _ _ Hu). by destruct bs.
Qed.

(** Hands its message to the rest of the flow and answers at once. *)
Definition hand_over (k : continuation unit) : processor unit := fun l =>
  k l ≫= fun _ => update l RequestStop ≫= fun _ => mret (Some l).
Definition inline_hook : FlowResume unit := fun l p => p l ≫= fun _ => mret tt.
Definition taking_chain : list (UnwiredBlock unit) :=
  [mkUnwired "split" "split" "f.split" (mkObject (TakesOver hand_over) None None);
   mkUnwired "a" "set" "f.a" (leaf (fun l => mret (Some l)))].

Lemma continuation_is_the_rest_witness :
  exists bs b, wireContinuations (Some inline_hook) "f" "f" None taking_chain = Ok bs /\
    bs !! 0%nat = Some b /\
    b_Processor b = hand_over (Resume (Some inline_hook) (tailFrom (mkFlow "f" bs "f" None) 1)).
Proof.
  destruct (wireContinuations (Some inline_hook) "f" "f" None taking_chain) as [bs|e] eqn:E.
  - destruct (proj1 (continuation_is_the_rest _ _ _ _ _ _ 0%nat _ E eq_refl) hand_over eq_refl) as (b & H1 & H2).
    exists bs, b. split_and!; [reflexivity|exact H1|exact H2].
  - discriminate E.
Defined.

(** A root chain fails to wire exactly when its last block takes the flow
    over, and the error names that block. *)
Theorem dangling_takeover_refused {U} hook name flowName ev (us : list (UnwiredBlock U)) e :
  wireContinuations hook name flowName ev us = Err e <->
  exists b, last us = Some b /\ takes_over b = true /\ e = last_block_error b.
Proof. apply wire_err. Qed.

(** A flow's error names the block it came from: a run that fails does so
    with one block's own error under that block's label, its name or else its
    type, and that label is what vars.error.block will say. *)
Theorem flow_error_names_block {U} (f : Flow U) cur w w' e :
  Process f cur w = (w', Err e) ->
  exists b e', b ∈ f_Blocks f /\ e = ErrBlock (blockLabel (b_Type b) (b_Name b)) e' /\
    FailingBlock e = blockLabel (b_Type b) (b_Name b) /\
    exists l w1, (b_Processor b l w1).2 = Err e'.
Proof.
  intros (b & e' & Hb & -> & Hp)%process_blocks_err. exists b, e'. by split_and!.
Qed.

Definition err_block : Block unit := mkBlock "" "rest" "f.rest" (fun _ => fail (ErrMsg "down")) None None.
Lemma flow_error_names_block_witness :
  exists w' e, Process (mkFlow "f" [pass_block; err_block] "f" None) 0%nat empty_world = (w', Err e) /\
    exists b, b ∈ [pass_block; err_block] /\ FailingBlock e = blockLabel (b_Type b) (b_Name b).
Proof.
  eexists _, _. split; [vm_compute; reflexivity|].
  destruct (flow_error_names_block (mkFlow "f" [pass_block; err_block] "f" None) 0%nat empty_world _ _ eq_refl)
    as (b & e' & Hb & _ & Hf & _).
  exists b. split; [exact Hb|exact Hf].
Defined.
