(* ===== verification/Expr.v ===== *)
(** Compiled expressions and the one condition evaluator of the runtime:
    [runtime/core/expr/condition.go].

    A CEL program is third-party code: a compiled [Program] is the function from
    the message to the value it evaluates to, with the environment it was
    activated with applied. *)
From S2P Require Import Prelude GoStr F64 Message.
From Stdlib Require Import String.
#[local] Open Scope string_scope.

Definition Program : Type := Message -> res any.

(** The [%T] verb. *)
Definition go_type (v : any) : string :=
  match v with
  | ANil => "<nil>" | ABool _ => "bool" | AStr _ => "string" | AFloat _ => "float64"
  | AInt _ => "int" | AInt32 _ => "int32" | AInt64 _ => "int64" | AUint64 _ => "uint64"
  | AArr _ => "[]interface {}" | AMap _ => "map[string]interface {}"
  | AOther _ => "func()"
  end.

Definition EvalCondition (program : Program) (msg : Message) : res bool :=
  match program msg with
  | Err e => Err e
  | Ok (ABool result) => Ok result
  | Ok value => Err (ErrMsg ("condition must evaluate to a bool, got " ++ go_type value))
  end.
