(* ===== verification/Debug.v ===== *)
(** The debug seams of an invocation: the collectors of [runtime/core/spy.go],
    [mock.go] and [breakpoint.go], and the blocks the engine injects for them
    ([runtime/core/engine/spy.go], [mock.go], [breakpoint.go], [debug.go]). *)
From S2P Require Import Prelude GoStr F64 Message Store Expr Engine.
From Stdlib Require Import String.
From stdpp Require Import sorting.
#[local] Open Scope string_scope.
#[local] Open Scope Z_scope.

(** ** core/spy.go *)
Record SpyRecord : Type := mkSpyRecord {
  sr_Seq : Z;
  sr_At : Z;
  sr_Input : nat;
  sr_Output : option nat;
  sr_Dropped : bool;
  sr_Error : string;
}.

Record Spies : Type := mkSpies {
  sp_order : list string;
  sp_spies : gmap string (list SpyRecord);
  sp_seq : Z;
}.

Fixpoint add_spies (s : Spies) (addresses : list string) : res Spies :=
  match addresses with
  | [] => Ok s
  | address :: rest =>
      if String.eqb address "" then Err (ErrMsg "spy address is empty")
      else match sp_spies s !! address with
           | Some _ => Err (ErrMsg ("spy " ++ quote address ++ " is listed twice"))
           | None => add_spies (mkSpies (sp_order s ++ [address])%list
                       (<[address := []]> (sp_spies s)) (sp_seq s)) rest
           end
  end.
Definition NewSpies (addresses : list string) : res Spies :=
  add_spies (mkSpies [] ∅ 0) addresses.

Definition spy_Addresses (s : Spies) : list string := sp_order s.

(** [Spies.Record]; the counter and the append happen under one lock. *)
Definition spy_Record (address : string) (rec : SpyRecord) (s : Spies) : Spies :=
  match sp_spies s !! address with
  | None => s
  | Some records =>
      let seq := wrap64 (sp_seq s + 1) in
      let rec' := mkSpyRecord seq (sr_At rec) (sr_Input rec) (sr_Output rec)
                    (sr_Dropped rec) (sr_Error rec) in
      mkSpies (sp_order s) (<[address := (records ++ [rec'])%list]> (sp_spies s)) seq
  end.

Definition spy_Records (s : Spies) (address : string) : list SpyRecord :=
  default [] (sp_spies s !! address).

(** ** core/breakpoint.go *)
Record Breakpoint : Type := mkBreakpoint {
  bp_address : string;
  bp_snapshot : option nat;
}.
Definition NewBreakpoint (address : string) : Breakpoint := mkBreakpoint address None.
Definition bp_Record (msg : nat) (b : Breakpoint) : Breakpoint :=
  match bp_snapshot b with
  | Some _ => b
  | None => mkBreakpoint (bp_address b) (Some msg)
  end.
Definition bp_Snapshot (b : Breakpoint) : option nat := bp_snapshot b.

(** ** core/mock.go *)
Record MockCase : Type := mkMockCase {
  mc_When : string;
  mc_Body : any;
  mc_Vars : gmap string any;
  mc_Error : string;
  mc_Drop : bool;
}.
Record MockSpec : Type := mkMockSpec {
  ms_Cases : list MockCase;
  ms_Default : option MockCase;
}.
Definition Mocks : Type := gmap string MockSpec.

Definition is_nil (v : any) : bool := match v with ANil => true | _ => false end.

Definition outcomes (c : MockCase) : list string :=
  ((if negb (is_nil (mc_Body c)) then ["body"] else [])
   ++ (if negb (String.eqb (mc_Error c) "") then ["error"] else [])
   ++ (if mc_Drop c then ["drop"] else []))%list.

Definition validateOutcome (c : MockCase) : res unit :=
  match outcomes c with
  | [] => Err (ErrMsg "needs an outcome: one of `body`, `error` or `drop`")
  | [_] =>
      if negb (bool_decide (mc_Vars c = ∅)) && is_nil (mc_Body c)
      then Err (ErrMsg "`vars` only goes with a `body`: a block that failed or dropped returned no message")
      else Ok tt
  | set => Err (ErrMsg ("has more than one outcome ([" ++ GoStr.join " " set ++
             "]): a block either returns a message, fails, or drops it"))
  end.

Fixpoint validateCases (i : Z) (cases : list MockCase) : res unit :=
  match cases with
  | [] => Ok tt
  | c :: rest =>
      if String.eqb (mc_When c) "" then
        Err (ErrMsg ("case " ++ itoa i ++
          " needs a `when` expression (a case with no condition is the `default`)"))
      else match wrap_err ("case " ++ itoa i ++ ": ") (validateOutcome c) with
           | Err e => Err e
           | Ok _ => validateCases (i + 1) rest
           end
  end.

Definition validateSpec (spec : MockSpec) : res unit :=
  if Nat.eqb (List.length (ms_Cases spec)) 0 && negb (bool_decide (is_Some (ms_Default spec)))
  then Err (ErrMsg "needs at least one case, or a default")
  else
    match validateCases 0 (ms_Cases spec) with
    | Err e => Err e
    | Ok _ =>
        match ms_Default spec with
        | None => Ok tt
        | Some d =>
            if negb (String.eqb (mc_When d) "") then
              Err (ErrMsg "the default must not have a `when` expression: it is what runs when no case matched")
            else wrap_err "default: " (validateOutcome d)
        end
    end.

Definition sortedKeys {A} (specs : gmap string A) : list string :=
  sort_strings (map_to_list specs).*1.

Fixpoint validateMocks (specs : gmap string MockSpec) (addresses : list string) : res unit :=
  match addresses with
  | [] => Ok tt
  | address :: rest =>
      if String.eqb address "" then Err (ErrMsg "mock address is empty")
      else match specs !! address with
           | None => validateMocks specs rest
           | Some spec =>
               match wrap_err ("mock " ++ quote address ++ ": ") (validateSpec spec) with
               | Err e => Err e
               | Ok _ => validateMocks specs rest
               end
           end
  end.
Definition NewMocks (specs : gmap string MockSpec) : res Mocks :=
  match validateMocks specs (sortedKeys specs) with
  | Err e => Err e
  | Ok _ => Ok specs
  end.
Definition mock_Addresses (m : Mocks) : list string := sortedKeys m.
Definition mock_For (m : Mocks) (address : string) : option MockSpec := m !! address.

(** ** engine/debug.go: [errors.As] finds the outermost BlockError. *)
Fixpoint outermost_block (e : goerr) : option goerr :=
  match e with
  | ErrMsg _ => None
  | ErrWrap _ e' _ => outermost_block e'
  | ErrBlock _ e' => Some e'
  | ErrBoth e1 _ e2 => match outermost_block e1 with Some e' => Some e' | None => outermost_block e2 end
  end.
Definition unlabel (e : goerr) : goerr := default e (outermost_block e).

(** ** engine/mock.go *)

(** json.RawMessage: the document's tree, [None] for the nil slice. *)
Definition RawMessage : Type := option any.
Definition Marshal (v : any) : res any :=
  if encodable v then Ok (json_norm v) else Err (ErrMsg "json: unsupported value").
Definition Unmarshal (raw : RawMessage) : res any :=
  match raw with
  | None => Err (ErrMsg "unexpected end of JSON input")
  | Some v => if Nat.leb (nesting v) json_max_depth then Ok v
              else Err (ErrMsg "exceeded max depth")
  end.

Record mockOutcome : Type := mkMockOutcome {
  mo_body : RawMessage;
  mo_vars : RawMessage;
  mo_err : string;
  mo_drop : bool;
}.

Definition newMockOutcome (c : MockCase) : res mockOutcome :=
  if is_nil (mc_Body c) then Ok (mkMockOutcome None None (mc_Error c) (mc_Drop c))
  else
    body ← wrap_err "body: " (Marshal (mc_Body c));
    if bool_decide (mc_Vars c = ∅)
    then Ok (mkMockOutcome (Some body) None (mc_Error c) (mc_Drop c))
    else vars ← wrap_err "vars: " (Marshal (AMap (mc_Vars c)));
         Ok (mkMockOutcome (Some body) (Some vars) (mc_Error c) (mc_Drop c)).

Section blocks.
Context {U : Type}.

Definition set_all_vars (v : any) (l : nat) : M U unit :=
  match v with
  | AMap vars => update l (set_vars (fun vs => vars ∪ vs))
  | _ => mret tt
  end.

Definition mock_apply (o : mockOutcome) (msg : nat) : M U (option nat) :=
  if negb (String.eqb (mo_err o) "") then fail (ErrMsg (mo_err o))
  else if mo_drop o then mret None
  else
    body ← lift (wrap_err "mock body: " (Unmarshal (mo_body o)));
    update msg (SetBody body) ≫= fun _ =>
    match mo_vars o with
    | None => mret (Some msg)
    | Some _ =>
        vars ← lift (wrap_err "mock vars: " (Unmarshal (mo_vars o)));
        set_all_vars vars msg ≫= fun _ => mret (Some msg)
    end.

Definition no_mock_case : goerr :=
  ErrMsg ("no mock case matched, and there is no default: add a `default`, or a case with `when: " ++
    dquote ++ "true" ++ dquote ++ "`").

(** [mockBlock.Process], the cases from index [i] on. *)
Fixpoint mock_cases (i : Z) (cases : list (Program * mockOutcome))
    (def : option mockOutcome) (msg : nat) : M U (option nat) :=
  match cases with
  | [] => match def with
          | Some o => mock_apply o msg
          | None => fail no_mock_case
          end
  | (when, outcome) :: rest =>
      m ← load msg;
      match EvalCondition when m with
      | Err e => fail (ErrWrap ("mock case " ++ itoa i ++ ": ") e "")
      | Ok true => mock_apply outcome msg
      | Ok false => mock_cases (i + 1) rest def msg
      end
  end.
Definition mock_Process (cases : list (Program * mockOutcome)) (def : option mockOutcome)
    : processor U := mock_cases 0 cases def.

(** ** engine/spy.go *)
Definition spy_record (record : string -> SpyRecord -> M U unit) (address : string)
    (rec : SpyRecord) : M U unit :=
  at_ ← now;
  record address (mkSpyRecord (sr_Seq rec) at_ (sr_Input rec) (sr_Output rec)
                    (sr_Dropped rec) (sr_Error rec)).

Definition spy_Process (inner : processor U) (record : string -> SpyRecord -> M U unit)
    (address : string) : processor U := fun msg =>
  input ← clone_msg msg;
  r ← attempt (inner msg);
  match r with
  | Err err =>
      let err := unlabel err in
      spy_record record address (mkSpyRecord 0 0 input None false (error_text err))
      ≫= fun _ => fail err
  | Ok None =>
      spy_record record address (mkSpyRecord 0 0 input None true "") ≫= fun _ => mret None
  | Ok (Some out) =>
      output ← clone_msg out;
      spy_record record address (mkSpyRecord 0 0 input (Some output) false "")
      ≫= fun _ => mret (Some out)
  end.

(** ** engine/breakpoint.go *)
Definition breakpoint_Process (inner : processor U) (record : nat -> M U unit)
    : processor U := fun msg =>
  r ← attempt (inner msg);
  match r with
  | Err err => fail (unlabel err)
  | Ok None => mret None
  | Ok (Some out) =>
      snapshot ← clone_msg out;
      record snapshot ≫= fun _ =>
      update out RequestStop ≫= fun _ => mret (Some out)
  end.
End blocks.

(** * Lemmas *)

(** ** Spies *)

(** What [NewSpies] and [Record] maintain: the addresses are listed once each,
    and the sequence numbers an address's records carry rise, none above the
    shared counter. *)
Record spies_ok (s : Spies) : Prop := {
  so_order : NoDup (sp_order s);
  so_keys : forall a, a ∈ sp_order s <-> is_Some (sp_spies s !! a);
  so_sorted : forall a l, sp_spies s !! a = Some l -> StronglySorted Z.lt (map sr_Seq l);
  so_bound : forall a l r, sp_spies s !! a = Some l -> r ∈ l -> 0 < sr_Seq r <= sp_seq s;
  so_global : forall a a' l l' r r', sp_spies s !! a = Some l -> sp_spies s !! a' = Some l' ->
    r ∈ l -> r' ∈ l' -> sr_Seq r = sr_Seq r' -> a = a' /\ r = r';
  so_seq : 0 <= sp_seq s;
}.

Definition fresh (s : Spies) : Prop := forall a l, sp_spies s !! a = Some l -> l = [].

Lemma fresh_ok s :
  fresh s -> NoDup (sp_order s) -> (forall a, a ∈ sp_order s <-> is_Some (sp_spies s !! a)) ->
  0 <= sp_seq s -> spies_ok s.
Proof.
  intros Hf Ho Hk Hs. split; [done|done|..|done].
  - intros a l ->%Hf. constructor.
  - intros a l r ->%Hf. by intros ?%elem_of_nil.
  - intros a a' l l' r r' ->%Hf _. by intros ?%elem_of_nil.
Qed.

Lemma add_spies_ok s addresses s' :
  fresh s -> spies_ok s -> add_spies s addresses = Ok s' ->
  fresh s' /\ spies_ok s' /\ sp_order s' = (sp_order s ++ addresses)%list /\ sp_seq s' = sp_seq s.
Proof.
  revert s. induction addresses as [|a rest IH]; intros s Hf Hok; simpl.
  { intros [= <-]. by rewrite app_nil_r. }
  destruct (String.eqb a "") eqn:Ha; [done|].
  destruct (sp_spies s !! a) as [l|] eqn:Hl; [done|]. intros H.
  edestruct IH as (Hf' & Hok' & Ho' & Hs'); [..|exact H|].
  - intros b l. simpl. rewrite lookup_insert_Some. intros [[_ <-]|[_ Hb]]; [done|by eapply Hf].
  - apply fresh_ok; simpl.
    + intros b l. simpl. rewrite lookup_insert_Some. intros [[_ <-]|[_ Hb]]; [done|by eapply Hf].
    + apply NoDup_app. split_and!; [apply Hok| |apply NoDup_singleton].
      intros b Hb ->%list_elem_of_singleton. apply (so_keys _ Hok) in Hb. by destruct Hb as [? Hb]; simplify_eq.
    + intros b. rewrite elem_of_app, list_elem_of_singleton, (so_keys _ Hok).
      rewrite lookup_insert_is_Some. destruct (decide (a = b)); naive_solver.
    + apply Hok.
  - split_and!; [done|done| |done]. rewrite Ho'. simpl. by rewrite <-app_assoc.
Qed.

Lemma StronglySorted_snoc {A} (R : A -> A -> Prop) l x :
  StronglySorted R l -> Forall (fun y => R y x) l -> StronglySorted R (l ++ [x]).
Proof.
  induction 1 as [|y l Hs IH Hy]; intros Hx; simpl; [repeat constructor|].
  inversion Hx; subst. constructor; [by apply IH|]. apply Forall_app. by repeat constructor.
Qed.

Lemma spy_Record_ok address rec s :
  spies_ok s -> sp_seq s < int64_max -> spies_ok (spy_Record address rec s).
Proof.
  intros Hok Hlt. unfold spy_Record.
  destruct (sp_spies s !! address) as [l|] eqn:Hl; [|done].
  pose proof (so_seq _ Hok). rewrite wrap64_id by (unfold in_int64, int64_min, int64_max in *; lia).
  set (rec' := mkSpyRecord _ _ _ _ _ _).
  assert (forall a k r, <[address:=(l ++ [rec'])%list]> (sp_spies s) !! a = Some k -> r ∈ k ->
    (a = address /\ r = rec') \/ exists k', sp_spies s !! a = Some k' /\ r ∈ k') as Hin.
  { intros a k r. rewrite lookup_insert_Some. intros [[<- <-]|[_ Hk]]; [|by eauto].
    rewrite elem_of_app, list_elem_of_singleton. intros [Hr| ->]; [right; eauto|by left]. }
  split; simpl.
  - apply Hok.
  - intros a. rewrite lookup_insert_is_Some, (so_keys _ Hok).
    destruct (decide (address = a)); naive_solver.
  - intros a k. rewrite lookup_insert_Some. intros [[<- <-]|[_ Hk]]; [|by eapply so_sorted].
    rewrite map_app. apply StronglySorted_snoc; [by eapply so_sorted|].
    apply Forall_map, Forall_forall. intros r Hr. simpl.
    pose proof (so_bound _ Hok _ _ _ Hl Hr). lia.
  - intros a k r Hk Hr. destruct (Hin _ _ _ Hk Hr) as [[-> ->]|(k' & Hk' & Hr')]; simpl; [lia|].
    pose proof (so_bound _ Hok _ _ _ Hk' Hr'). lia.
  - intros a a' k k' r r' Hk Hk' Hr Hr' He.
    destruct (Hin _ _ _ Hk Hr) as [[-> ->]|(k1 & Hk1 & Hr1)],
      (Hin _ _ _ Hk' Hr') as [[-> ->]|(k2 & Hk2 & Hr2)]; [done|..|by eapply so_global].
    + pose proof (so_bound _ Hok _ _ _ Hk2 Hr2). simpl in He. lia.
    + pose proof (so_bound _ Hok _ _ _ Hk1 Hr1). simpl in He. lia.
  - lia.
Qed.

Lemma NewSpies_ok addresses s :
  NewSpies addresses = Ok s -> spies_ok s /\ sp_order s = addresses /\ sp_seq s = 0.
Proof.
  assert (fresh (mkSpies [] ∅ 0)) as Hf.
  { intros a l Hl. simpl in Hl. by rewrite lookup_empty in Hl. }
  intros (Hf' & Hok & Ho & Hs)%add_spies_ok; [done|done|].
  apply fresh_ok; [done|constructor| |done]. intros a. simpl.
  rewrite lookup_empty. split; [by intros ?%elem_of_nil|by intros []].
Qed.

Lemma spy_Record_order address rec s : sp_order (spy_Record address rec s) = sp_order s.
Proof. unfold spy_Record. by destruct (sp_spies s !! address). Qed.

Lemma spy_Record_seq address rec s :
  0 <= sp_seq s < int64_max -> sp_seq (spy_Record address rec s) <= sp_seq s + 1.
Proof.
  intros H. unfold spy_Record. destruct (sp_spies s !! address); simpl; [|lia].
  rewrite wrap64_id; [lia|]. unfold in_int64, int64_min, int64_max in *. lia.
Qed.

Lemma spy_Records_ok records s :
  spies_ok s -> sp_seq s + Z.of_nat (List.length records) < int64_max ->
  let s' := foldl (fun s r => spy_Record r.1 r.2 s) s records in
  spies_ok s' /\ sp_order s' = sp_order s.
Proof.
  revert s. induction records as [|[a rec] records IH]; intros s Hok Hlt; simpl in *; [done|].
  pose proof (so_seq _ Hok). rewrite <-(spy_Record_order a rec s).
  apply IH; [apply spy_Record_ok; [done|lia]|].
  pose proof (spy_Record_seq a rec s). lia.
Qed.

(** ** Mocks *)
Lemma validateCases_ok i cases :
  validateCases i cases = Ok tt ->
  Forall (fun c => mc_When c ≠ "" /\ validateOutcome c = Ok tt) cases.
Proof.
  revert i. induction cases as [|c cases IH]; intros i; simpl; [constructor|].
  destruct (String.eqb_spec (mc_When c) "") as [|Hw]; [done|].
  destruct (validateOutcome c) as [[]|e] eqn:Hc; simpl; [|done].
  intros H. constructor; [done|by eapply IH].
Qed.

Lemma validateSpec_ok spec :
  validateSpec spec = Ok tt ->
  Forall (fun c => validateOutcome c = Ok tt) (ms_Cases spec ++ option_list (ms_Default spec)).
Proof.
  unfold validateSpec. destruct (Nat.eqb _ _ && _); [done|].
  destruct (validateCases 0 (ms_Cases spec)) as [[]|] eqn:Hc; [|done].
  apply validateCases_ok in Hc. intros Hd. apply Forall_app. split.
  { eapply Forall_impl; [done|]. naive_solver. }
  destruct (ms_Default spec) as [d|]; simpl; [|constructor].
  destruct (negb _); [done|]. destruct (validateOutcome d) as [[]|] eqn:E; [|done].
  by repeat constructor.
Qed.

Lemma validateMocks_ok specs addresses :
  validateMocks specs addresses = Ok tt -> forall a spec, a ∈ addresses ->
  specs !! a = Some spec -> a ≠ "" /\ validateSpec spec = Ok tt.
Proof.
  induction addresses as [|b rest IH]; simpl; [by intros _ a ? ?%elem_of_nil|].
  destruct (String.eqb_spec b "") as [|Hb]; [done|].
  intros H a spec. rewrite elem_of_cons. intros [->|Ha] Hs.
  - rewrite Hs in H. by destruct (validateSpec spec) as [[]|].
  - eapply IH; [|done..]. destruct (specs !! b) as [s|]; [|done].
    by destruct (validateSpec s).
Qed.

Lemma NewMocks_valid specs m a spec :
  NewMocks specs = Ok m -> specs !! a = Some spec ->
  Forall (fun c => validateOutcome c = Ok tt) (ms_Cases spec ++ option_list (ms_Default spec)).
Proof.
  unfold NewMocks. destruct (validateMocks _ _) as [[]|] eqn:H; [|done]. intros _ Hs.
  apply validateSpec_ok. eapply (validateMocks_ok _ _ H a); [|done].
  unfold sortedKeys. rewrite sort_strings_perm. apply list_elem_of_fmap.
  exists (a, spec). split; [done|]. by apply elem_of_map_to_list.
Qed.

Lemma NewMocks_eq specs m : NewMocks specs = Ok m -> specs = m.
Proof. unfold NewMocks. destruct (validateMocks _ _); naive_solver. Qed.

(** One outcome: the body, the error or the drop, and variables only with a
    body. *)
Lemma validateOutcome_one c :
  validateOutcome c = Ok tt <->
  (mc_Body c ≠ ANil /\ mc_Error c = "" /\ mc_Drop c = false) \/
  (mc_Body c = ANil /\ mc_Vars c = ∅ /\
    ((mc_Error c ≠ "" /\ mc_Drop c = false) \/ (mc_Error c = "" /\ mc_Drop c = true))).
Proof.
  unfold validateOutcome, outcomes.
  assert (is_nil (mc_Body c) = true <-> mc_Body c = ANil) as Hn by (by destruct (mc_Body c)).
  destruct (is_nil (mc_Body c)), (String.eqb_spec (mc_Error c) ""), (mc_Drop c),
    (bool_decide_reflect (mc_Vars c = ∅)); simpl; naive_solver.
Qed.

(** What a mock outcome makes of the world. *)
Lemma Marshal_ok v w : Marshal v = Ok w -> w = json_norm v /\ encodable v = true.
Proof. unfold Marshal. destruct (encodable v); naive_solver. Qed.

(** * Properties *)

(** A mock spec that [NewMocks] accepted always answers: each of its
    cases, encoded at build time, either fails with exactly the error it
    declares, drops the message, or hands the message back with the canned body
    and the canned variables laid over its own, every number decoded afresh as
    a float64. *)
Theorem validated_mock_answers {U} specs m address spec c o (msg : nat) (w : world U) :
  NewMocks specs = Ok m ->
  mock_For m address = Some spec ->
  c ∈ (ms_Cases spec ++ option_list (ms_Default spec))%list ->
  newMockOutcome c = Ok o ->
  (nesting (json_norm (mc_Body c)) <= json_max_depth)%nat ->
  (nesting (AMap (json_norm <$> mc_Vars c)) <= json_max_depth)%nat ->
  mock_apply o msg w =
    if decide (mc_Error c ≠ "") then (w, Err (ErrMsg (mc_Error c)))
    else if mc_Drop c then (w, Ok None)
    else (with_heap (<[msg := set_vars (fun vs => (json_norm <$> mc_Vars c) ∪ vs)
                               (SetBody (json_norm (mc_Body c)) (peek w msg))]> (heap w)) w,
          Ok (Some msg)).
Proof.
  intros Hm Hs Hc Ho Hb Hv.
  pose proof (NewMocks_eq _ _ Hm) as <-.
  pose proof (NewMocks_valid _ _ _ _ Hm Hs) as Hall.
  rewrite Forall_forall in Hall. apply Hall, validateOutcome_one in Hc.
  unfold newMockOutcome in Ho. destruct Hc as [(Hb' & He & Hd)|(Hb' & Hv' & Hx)].
  - rewrite decide_False, Hd by naive_solver.
    assert (is_nil (mc_Body c) = false) as Hn by (by destruct (mc_Body c)).
    rewrite Hn in Ho. unfold Marshal in Ho.
    destruct (encodable (mc_Body c)); [|done].
    unfold wrap_err, mbind, res_bind in Ho.
    apply Nat.leb_le in Hb, Hv. unfold mock_apply.
    destruct (bool_decide_reflect (mc_Vars c = ∅)) as [Hv'|_].
    + injection Ho as <-. unfold mo_err, mo_drop, mo_body, mo_vars, Unmarshal.
      rewrite He, Hd, Hb. cbn.
      unfold mbind, M_bind, SM_bind, lift, update, mret, M_ret, SM_ret.
      rewrite Hv', fmap_empty. unfold set_vars, SetBody, set_body. simpl.
      by rewrite (left_id_L ∅ (∪)).
    + destruct (encodable (AMap (mc_Vars c))); [|done]. injection Ho as <-.
      unfold mo_err, mo_drop, mo_body, mo_vars, Unmarshal.
      rewrite He, Hd, Hb. cbn [negb String.eqb]. rewrite Hv. cbn.
      unfold mbind, M_bind, SM_bind, lift, update, peek, mret, M_ret, SM_ret.
      unfold set_all_vars, update, peek, with_heap. cbn [heap].
      by rewrite lookup_insert_eq, insert_insert_eq.
  - assert (is_nil (mc_Body c) = true) as Hn by (by rewrite Hb').
    rewrite Hn in Ho. simplify_eq/=. unfold mock_apply; simpl.
    destruct Hx as [[He Hd]|[He Hd]]; rewrite Hd.
    + rewrite decide_True by done. by apply String.eqb_neq in He as ->.
    + by rewrite decide_False, He by naive_solver.
Qed.

Definition two_case_spec : MockSpec :=
  mkMockSpec [mkMockCase "body > 1" (AInt 7) {[ "status" := AInt 200 ]} "" false;
              mkMockCase "true" ANil ∅ "down" false] None.

Lemma validated_mock_answers_witness :
  mock_apply (U := unit) (mkMockOutcome (Some (AFloat (f_of_Z 7)))
      (Some (AMap {[ "status" := AFloat (f_of_Z 200) ]})) "" false) 0%nat
    (mkWorld ∅ 0 (fun _ => None) 0 (fun _ => 0) 0 tt (mkObserved [] 0 0))
  = (mkWorld {[ 0%nat := mkMessage "" "" {[ "status" := AFloat (f_of_Z 200) ]}
                 (AFloat (f_of_Z 7)) "" false false ]}
       0 (fun _ => None) 0 (fun _ => 0) 0 tt (mkObserved [] 0 0), Ok (Some 0%nat)).
Proof.
  refine (eq_trans (validated_mock_answers {[ "f.call" := two_case_spec ]}
    {[ "f.call" := two_case_spec ]} "f.call" two_case_spec
    (mkMockCase "body > 1" (AInt 7) {[ "status" := AInt 200 ]} "" false) _ 0%nat _ _ _ _ _ _ _) _).
  - vm_compute. reflexivity.
  - vm_compute. reflexivity.
  - left.
  - vm_compute. reflexivity.
  - apply Nat.leb_le. vm_compute. reflexivity.
  - apply Nat.leb_le. vm_compute. reflexivity.
  - vm_compute. reflexivity.
Defined.

(** A mock answers with its first case whose condition holds on the message
    it received; a condition that fails to evaluate before that fails the block
    naming the case, and when none holds the default answers or, without one,
    the block fails rather than letting the message through. *)
Theorem mock_first_match {U} cases def (msg : nat) (w : world U) :
  mock_Process cases def msg w =
  match list_find (fun c => EvalCondition c.1 (peek w msg) ≠ Ok false) cases with
  | Some (i, (when, outcome)) =>
      match EvalCondition when (peek w msg) with
      | Err e => (w, Err (ErrWrap ("mock case " ++ itoa (Z.of_nat i) ++ ": ") e ""))
      | Ok _ => mock_apply outcome msg w
      end
  | None => match def with
            | Some o => mock_apply o msg w
            | None => (w, Err no_mock_case)
            end
  end.
Proof.
  enough (forall n, mock_cases (Z.of_nat n) cases def msg w =
    match list_find (fun c => EvalCondition c.1 (peek w msg) ≠ Ok false) cases with
    | Some (i, (when, outcome)) =>
        match EvalCondition when (peek w msg) with
        | Err e => (w, Err (ErrWrap ("mock case " ++ itoa (Z.of_nat (n + i)) ++ ": ") e ""))
        | Ok _ => mock_apply outcome msg w
        end
    | None => match def with
              | Some o => mock_apply o msg w
              | None => (w, Err no_mock_case)
              end
    end) as H by exact (H 0%nat).
  induction cases as [|[when o] cases IH]; intros n.
  { by destruct def. }
  cbn [mock_cases list_find]. unfold mbind, M_bind, SM_bind, load. simpl fst.
  destruct (EvalCondition when (peek w msg)) as [[]|e] eqn:He.
  - rewrite decide_True by done. by rewrite He.
  - rewrite decide_False by naive_solver.
    replace (Z.of_nat n + 1) with (Z.of_nat (S n)) by lia. rewrite IH.
    destruct (list_find _ cases) as [[i [when' o']]|]; simpl; [|done].
    by rewrite Nat.add_succ_r.
  - rewrite decide_True by done. rewrite He. by rewrite Nat.add_0_r.
Qed.

(** The collector as the service behind a world's blocks. *)
Definition spies_recorder (address : string) (rec : SpyRecord) : M Spies unit :=
  s ← get_usr; set_usr (spy_Record address rec s).

(** A spied block behaves as the block it wraps, its error stripped of the
    one label the wrapper's own chain added, and files exactly one record under
    its address when the address is watched: numbered after every record filed
    so far, its input the message as it was before the block ran, its outcome
    the one the block had, an output cloned as it left. *)
Theorem spy_records_crossing (inner : processor Spies) address l w w1 w2 r :
  w1 = (clone_msg l w).1 ->
  inner l w1 = (w2, r) ->
  exists w3 at_,
    spy_Process inner spies_recorder address l w
    = (w3, match r with Err e => Err (unlabel e) | Ok o => Ok o end) /\
    heap w1 !! next w = Some (Clone (peek w l)) /\
    usr w3 = spy_Record address
      (mkSpyRecord 0 at_ (next w)
         (match r with Ok (Some _) => Some (next w2) | _ => None end)
         (match r with Ok None => true | _ => false end)
         (match r with Err e => error_text (unlabel e) | _ => "" end)) (usr w2) /\
    heap w3 = (match r with
               | Ok (Some out) => <[next w2 := Clone (peek w2 out)]> (heap w2)
               | _ => heap w2
               end).
Proof.
  intros -> Hr. unfold spy_Process, spy_record, spies_recorder.
  unfold mbind, M_bind, SM_bind, attempt.
  unfold clone_msg, load, alloc, mbind, M_bind, SM_bind in Hr |- *. cbn [fst snd] in Hr |- *.
  rewrite Hr.
  destruct r as [[out|]|e]; unfold now, get_usr, set_usr, mret, M_ret, SM_ret, fail; simpl;
    (eexists _, _; split_and!; [reflexivity|by rewrite lookup_insert_eq|reflexivity|reflexivity]).
Qed.

Lemma spy_records_crossing_witness :
  exists w3 at_,
    spy_Process (U := Spies) (fun l => mret (Some l)) spies_recorder "f.a" 0%nat
      (mkWorld ∅ 1 (fun _ => None) 0 (fun n => Z.of_nat n) 0
         (mkSpies ["f.a"] {[ "f.a" := [] ]} 0) (mkObserved [] 0 0))
    = (w3, Ok (Some 0%nat)) /\
    spy_Records (usr w3) "f.a" = [mkSpyRecord 1 at_ 1 (Some 2%nat) false ""].
Proof.
  edestruct (spy_records_crossing (fun l => mret (Some l)) "f.a" 0%nat
    (mkWorld ∅ 1 (fun _ => None) 0 (fun n => Z.of_nat n) 0
       (mkSpies ["f.a"] {[ "f.a" := [] ]} 0) (mkObserved [] 0 0))) as (w3 & at_ & H & _ & Hu & _).
  - reflexivity.
  - reflexivity.
  - exists w3, at_. split; [exact H|]. rewrite Hu. vm_compute. reflexivity.
Defined.

(** Whatever sequence of records files through a collector [NewSpies]
    accepted, the addresses stay the ones it was given, in order; each address's
    records read back in strictly rising sequence; and no two records anywhere
    share a number. *)
Theorem spies_total_order addresses s (records : list (string * SpyRecord)) :
  NewSpies addresses = Ok s ->
  Z.of_nat (List.length records) < int64_max ->
  let s' := foldl (fun s r => spy_Record r.1 r.2 s) s records in
  spy_Addresses s' = addresses /\
  (forall a, StronglySorted Z.lt (map sr_Seq (spy_Records s' a))) /\
  (forall a a' r r', r ∈ spy_Records s' a -> r' ∈ spy_Records s' a' ->
     sr_Seq r = sr_Seq r' -> a = a' /\ r = r').
Proof.
  intros H Hlen. apply NewSpies_ok in H as (Hok & Ho & Hs).
  destruct (spy_Records_ok records s Hok) as [Hok' Ho']; [lia|].
  cbv zeta. split_and!.
  - unfold spy_Addresses. congruence.
  - intros a. unfold spy_Records.
    destruct (_ !! a) eqn:Ha; [by eapply so_sorted|constructor].
  - intros a a' r r'. unfold spy_Records.
    destruct (_ !! a) eqn:Ha; [|by intros ?%elem_of_nil].
    destruct (_ !! a') eqn:Ha' in |- *; [|by intros _ ?%elem_of_nil].
    intros. by eapply so_global.
Qed.

Lemma spies_total_order_witness :
  exists s, NewSpies ["f.a"; "f.b"] = Ok s /\
  map sr_Seq (spy_Records (foldl (fun s r => spy_Record r.1 r.2 s) s
    [("f.b", mkSpyRecord 0 0 0 None true ""); ("f.a", mkSpyRecord 0 0 1 None true "");
     ("f.b", mkSpyRecord 0 0 2 None true "")]) "f.b") = [1; 3] /\
  spy_Addresses (foldl (fun s r => spy_Record r.1 r.2 s) s
    [("f.b", mkSpyRecord 0 0 0 None true ""); ("f.a", mkSpyRecord 0 0 1 None true "");
     ("f.b", mkSpyRecord 0 0 2 None true "")]) = ["f.a"; "f.b"].
Proof.
  eexists. split; [vm_compute; reflexivity|]. split; [vm_compute; reflexivity|].
  apply (spies_total_order ["f.a"; "f.b"] _
    [("f.b", mkSpyRecord 0 0 0 None true ""); ("f.a", mkSpyRecord 0 0 1 None true "");
     ("f.b", mkSpyRecord 0 0 2 None true "")]).
  - vm_compute. reflexivity.
  - vm_compute. reflexivity.
Defined.

Definition breakpoint_recorder (msg : nat) : M Breakpoint unit :=
  b ← get_usr; set_usr (bp_Record msg b).

(** A breakpoint lets its block run, keeps as its snapshot a copy of the
    message the block handed on, taken before the flow was asked to stop and
    never overwriting an earlier snapshot, and hands the message on with the
    stop requested; a drop or a failure of the block passes through unrecorded. *)
Theorem breakpoint_halts (inner : processor Breakpoint) l w w2 r :
  inner l w = (w2, r) ->
  (forall out, r = Ok (Some out) -> out ≠ next w2) ->
  exists w3, breakpoint_Process inner breakpoint_recorder l w
    = (w3, match r with Err e => Err (unlabel e) | Ok o => Ok o end) /\
  match r with
  | Ok (Some out) =>
      StopRequested (peek w3 out) = true /\
      (forall k, k ≠ stopVar -> Vars (peek w3 out) !! k = Vars (peek w2 out) !! k) /\
      heap w3 !! next w2 = Some (Clone (peek w2 out)) /\
      bp_Snapshot (usr w3) = Some (default (next w2) (bp_Snapshot (usr w2)))
  | _ => w3 = w2
  end.
Proof.
  intros Hr Hout. unfold breakpoint_Process, breakpoint_recorder, clone_msg.
  unfold mbind, M_bind, SM_bind, attempt. rewrite Hr.
  destruct r as [[out|]|e]; simpl; [|by eexists..].
  specialize (Hout out eq_refl).
  eexists. split; [reflexivity|]. unfold peek; simpl.
  rewrite lookup_insert_eq. simpl. rewrite lookup_insert_ne by done. split_and!.
  - apply StopRequested_RequestStop.
  - intros k Hk. by apply Vars_set_var_ne.
  - rewrite lookup_insert_ne by done. by rewrite lookup_insert_eq.
  - unfold bp_Record, bp_Snapshot. destruct (bp_snapshot (usr w2)) eqn:Hb; simpl; by rewrite ?Hb.
Qed.

Lemma breakpoint_halts_witness :
  exists w3, breakpoint_Process (fun l => mret (Some l)) breakpoint_recorder 0%nat
    (mkWorld {[ 0%nat := zeroMessage ]} 1 (fun _ => None) 0 (fun _ => 0) 0
       (NewBreakpoint "f.a") (mkObserved [] 0 0)) = (w3, Ok (Some 0%nat)) /\
    bp_Snapshot (usr w3) = Some 1%nat.
Proof.
  destruct (breakpoint_halts (fun l => mret (Some l)) 0%nat
    (mkWorld {[ 0%nat := zeroMessage ]} 1 (fun _ => None) 0 (fun _ => 0) 0
       (NewBreakpoint "f.a") (mkObserved [] 0 0)) _ (Ok (Some 0%nat)) eq_refl)
    as (w3 & H & _ & _ & _ & Hs).
  - intros out [= <-]. discriminate.
  - exists w3. by split.
Defined.
