(* ===== verification/Builder.v ===== *)
(** The flow builder: [builder] of [runtime/core/engine/flow.go], the block
    registry of [runtime/core/block_registry.go], the sub-flow seam of
    [runtime/core/subflows.go] and [BlockDeps] of [runtime/core/pipeline.go].

    A factory is a first-class value that may build the chains its settings
    declare, so building recurses through code the builder does not know; the
    recursion is on fuel, and [out_of_fuel] is the one error Go has no
    counterpart of. *)
From S2P Require Import Prelude GoStr F64 Message Config Store BlockEvents BlockPath Expr Engine Debug.
From Stdlib Require Import String.
#[local] Open Scope string_scope.
#[local] Open Scope Z_scope.

Definition blockKindBreakpoint : string := "breakpoint".
Definition blockKindSpy : string := "spy".
Definition blockKindMock : string := "mock".

(** [isDebugWrapper] *)
Definition isDebugWrapper (effType : string) : bool :=
  String.eqb effType blockKindSpy || String.eqb effType blockKindBreakpoint.

Record BlockAddress : Type := mkBlockAddress {
  ad_Flow : string;
  ad_Path : string;
  ad_Name : string;
}.

Definition ErrNoSubFlows : goerr :=
  ErrMsg "block declares a sub-flow but was built without a flow builder".
Definition ErrNoScheduler : goerr :=
  ErrMsg "block schedules concurrent work but was built without a scheduler".
Definition errSpyUnwired : goerr :=
  ErrMsg "spy is an internal debugging block injected by --spies and cannot be declared in a flow".
Definition errMockUnwired : goerr :=
  ErrMsg "mock is an internal debugging block injected by --mocks and cannot be declared in a flow".
Definition errBreakpointUnwired : goerr :=
  ErrMsg "breakpoint is an internal debugging block injected by --break-at and cannot be declared in a flow".
Definition out_of_fuel : goerr := ErrMsg "out of fuel".

(** [processorDefs] *)
Fixpoint index_defs (defs : gmap string ProcessorConfig) (configs : list ProcessorConfig)
    : res (gmap string ProcessorConfig) :=
  match configs with
  | [] => Ok defs
  | cfg :: rest =>
      if String.eqb (p_Name cfg) "" then Err (ErrMsg "processor definition requires a name")
      else match defs !! p_Name cfg with
           | Some _ => Err (ErrMsg ("processor " ++ quote (p_Name cfg) ++ " is defined more than once"))
           | None => index_defs (<[p_Name cfg := cfg]> defs) rest
           end
  end.
Definition processorDefs (configs : list ProcessorConfig) : res (gmap string ProcessorConfig) :=
  index_defs ∅ configs.

Definition mergeSettings (base override : Settings) : Settings :=
  if decide (override = ∅) then base else override ∪ base.

(** [wrapperSettings] and the strict decoding of it.  encoding/json also takes
    other capitalisations of the two keys; the injector writes these. *)
Record wrapperSettings : Type := mkWrapperSettings {
  ws_Address : string;
  ws_Process : list BlockConfig;
}.
Definition decode_wrapper (s : Settings) : res wrapperSettings :=
  decode_settings (strict ["address"; "process"] s
    (address ← json_string (s !! "address");
     process ← decode_chain (default ANil (s !! "process"));
     mret (mkWrapperSettings address process))).
Definition decode_mock (s : Settings) : res string :=
  decode_settings (strict ["address"] s (json_string (s !! "address"))).

Section builder.
Context {U : Type}.

(** core.SubFlowBuilder *)
Record SubFlowBuilder : Type := mkSubFlowBuilder {
  Branch : string -> FlowConfig -> res (processor U);
  Member : string -> Z -> FlowConfig -> res (processor U);
  Root : bool;
}.

(** core.Scheduler: the order in which the pool runs [n] submitted tasks. *)
Definition Scheduler : Type := nat -> list nat.

(** core.FlowCaller: [Call] answers the flow's output, [None] when it dropped
    the message. *)
Record FlowCaller : Type := mkFlowCaller {
  caller_Call : string -> nat -> M U (option nat);
  caller_Send : string -> nat -> M U unit;
}.

(** core.BlockDeps; what it carries for connectors and services is an argument
    of the factories that use it. *)
Record BlockDeps : Type := mkBlockDeps {
  d_Compile : string -> res Program;          (** expr.CompileMessage over Resources and Env *)
  d_Breakpoint : option (nat -> M U unit);
  d_Spies : option (string -> SpyRecord -> M U unit);
  d_Mocks : option Mocks;
  d_Events : option listeners;
  d_Address : BlockAddress;
  d_SubFlows : option SubFlowBuilder;
  d_Scheduler : option Scheduler;
  d_Flows : option FlowCaller;
}.

Definition SubFlowsOf (deps : BlockDeps) : res SubFlowBuilder :=
  match d_SubFlows deps with Some s => Ok s | None => Err ErrNoSubFlows end.

Definition BlockFactory : Type := Settings -> BlockDeps -> res (object U).

(** ** core/block_registry.go *)
Definition BlockRegistry : Type := gmap string BlockFactory.
Definition NewBlockRegistry : BlockRegistry := ∅.
Definition Register (name : string) (factory : option BlockFactory) (r : BlockRegistry)
    : res BlockRegistry :=
  if String.eqb name "" then Err (ErrMsg "block name is required")
  else match factory with
       | None => Err (ErrMsg "block factory is required")
       | Some factory =>
           match r !! name with
           | Some _ => Err (ErrMsg ("block " ++ quote name ++ " already registered"))
           | None => Ok (<[name := factory]> r)
           end
       end.
Definition reg_New (r : BlockRegistry) (name : string) (settings : Settings) (deps : BlockDeps)
    : res (object U) :=
  match r !! name with
  | None => Err (ErrMsg ("block " ++ quote name ++ " not registered"))
  | Some factory => factory settings deps
  end.

(** ** The builder.  [bu_hook] is the resume hook the runtime installs on the
    root flow once it is built. *)
Record builder : Type := mkBuilder {
  bu_reg : BlockRegistry;
  bu_sched : option Scheduler;
  bu_defs : gmap string ProcessorConfig;
  bu_deps : BlockDeps;
  bu_hook : option (FlowResume U);
  bu_flowName : string;
  bu_root : bool;
  bu_path : string;
}.

Definition at_path (b : builder) (path : string) : builder :=
  mkBuilder (bu_reg b) (bu_sched b) (bu_defs b) (bu_deps b) (bu_hook b)
    (bu_flowName b) (bu_root b) path.
Definition branch (b : builder) (name : string) : builder :=
  mkBuilder (bu_reg b) (bu_sched b) (bu_defs b) (bu_deps b) (bu_hook b)
    (bu_flowName b) false (JoinBranch (bu_path b) name).

Definition newBuilder (blocks : BlockRegistry) (sched : option Scheduler)
    (processors : list ProcessorConfig) (deps : BlockDeps) (hook : option (FlowResume U))
    (flowName path : string) : res builder :=
  defs ← processorDefs processors;
  mret (mkBuilder blocks sched defs deps hook flowName true path).

Definition resolve (b : builder) (cfg : BlockConfig) : res (string * Settings) :=
  if String.eqb (c_Ref cfg) "" then Ok (c_Type cfg, c_Settings cfg)
  else match bu_defs b !! c_Ref cfg with
       | None => Err (ErrMsg ("block ref " ++ quote (c_Ref cfg) ++ " is not a defined processor"))
       | Some def =>
           if negb (String.eqb (c_Type cfg) "") && negb (String.eqb (c_Type cfg) (p_Type def))
           then Err (ErrMsg ("block ref " ++ quote (c_Ref cfg) ++ " is type " ++ quote (p_Type def) ++
                             " but declares type " ++ quote (c_Type cfg)))
           else Ok (p_Type def, mergeSettings (p_Settings def) (c_Settings cfg))
       end.

(** The operations below build sub-flows through [rec], the builder of a
    chain; [b_flow] ties the knot. *)
Section open.
Variable rec : builder -> FlowConfig -> res (Flow U).

Definition subFlow (b : builder) (cfg : FlowConfig) : res (Flow U) :=
  if bool_decide (is_Some (fc_Source cfg)) then
    Err (ErrMsg "sub-flow must not declare a source")
  else if negb (fc_Workers cfg =? 0) || negb (fc_Buffer cfg =? 0) || negb (fc_Pool cfg =? 0) then
    Err (ErrMsg "sub-flow must not declare workers, buffer, or pool")
  else if negb (Nat.eqb (List.length (fc_Error cfg)) 0) then
    Err (ErrMsg "sub-flow must not declare an error path")
  else rec b cfg.

Definition subFlows (b : builder) : SubFlowBuilder :=
  mkSubFlowBuilder
    (fun name cfg => Process <$> subFlow (branch b name) cfg)
    (fun name index cfg => Process <$> subFlow (branch b (MemberBranch name index)) cfg)
    (bu_root b).

Definition positioned (b : builder) (name : string) : BlockDeps :=
  let d := bu_deps b in
  mkBlockDeps (d_Compile d) (d_Breakpoint d) (d_Spies d) (d_Mocks d) (d_Events d)
    (mkBlockAddress (bu_flowName b) (bu_path b) name) (Some (subFlows b)) (bu_sched b) (d_Flows d).

Definition breakpoint (b : builder) (settings : Settings) : res (object U) :=
  match d_Breakpoint (bu_deps b) with
  | None => Err errBreakpointUnwired
  | Some bp =>
      cfg ← decode_wrapper settings;
      match ws_Process cfg with
      | [] => Err (ErrMsg "breakpoint block requires the block it wraps")
      | process =>
          inner ← subFlow b (chain_flow "" process);
          mret (leaf (breakpoint_Process (Process inner) bp))
      end
  end.

Definition spy (b : builder) (settings : Settings) : res (object U) :=
  match d_Spies (bu_deps b) with
  | None => Err errSpyUnwired
  | Some spies =>
      cfg ← decode_wrapper settings;
      match ws_Process cfg with
      | [] => Err (ErrMsg "spy block requires the block it wraps")
      | process =>
          if String.eqb (ws_Address cfg) ""
          then Err (ErrMsg "spy block requires the address it records under")
          else inner ← subFlow b (chain_flow "" process);
               mret (leaf (spy_Process (Process inner) spies (ws_Address cfg)))
      end
  end.

Fixpoint mock_case_list (b : builder) (address : string) (i : Z) (cases : list MockCase)
    : res (list (Program * mockOutcome)) :=
  match cases with
  | [] => Ok []
  | c :: rest =>
      let at_case := "mock " ++ quote address ++ " case " ++ itoa i ++ ": " in
      when ← wrap_err at_case (d_Compile (bu_deps b) (mc_When c));
      outcome ← wrap_err at_case (newMockOutcome c);
      rest' ← mock_case_list b address (i + 1) rest;
      mret ((when, outcome) :: rest')
  end.

Definition mock (b : builder) (raw : Settings) : res (object U) :=
  match d_Mocks (bu_deps b) with
  | None => Err errMockUnwired
  | Some mocks =>
      address ← decode_mock raw;
      match mock_For mocks address with
      | None => Err (ErrMsg ("mock block has no spec for address " ++ quote address))
      | Some spec =>
          cases ← mock_case_list b address 0 (ms_Cases spec);
          match ms_Default spec with
          | None => mret (leaf (mock_Process cases None))
          | Some d =>
              def ← wrap_err ("mock " ++ quote address ++ " default: ") (newMockOutcome d);
              mret (leaf (mock_Process cases (Some def)))
          end
      end
  end.

Definition build_processor (b : builder) (name effType : string) (settings : Settings)
    : res (object U) :=
  if String.eqb effType blockKindBreakpoint then breakpoint b settings
  else if String.eqb effType blockKindSpy then spy b settings
  else if String.eqb effType blockKindMock then mock b settings
  else reg_New (bu_reg b) effType settings (positioned b name).

Definition block (b : builder) (cfg : BlockConfig) : res (UnwiredBlock U) :=
  if String.eqb (c_Type cfg) "" && String.eqb (c_Ref cfg) ""
  then Err (ErrMsg "block requires a type or a ref")
  else
    '(effType, effSettings) ← resolve b cfg;
    let path := JoinBlock (bu_path b) (BlockLabel (c_Name cfg) (c_Type cfg) (c_Ref cfg)) in
    let '(inner, reported) :=
      if isDebugWrapper effType then (bu_path b, "") else (path, path) in
    obj ← wrap_err ("block " ++ quote (blockLabel effType (c_Name cfg)) ++ ": ")
            (build_processor (at_path b inner) (c_Name cfg) effType effSettings);
    mret (mkUnwired (c_Name cfg) effType reported obj).

Definition flow (b : builder) (cfg : FlowConfig) : res (Flow U) :=
  blocks ← mapM (block b) (fc_Process cfg);
  if bu_root b then
    wired ← wireContinuations (bu_hook b) (fc_Name cfg) (bu_flowName b)
              (d_Events (bu_deps b)) blocks;
    mret (mkFlow (fc_Name cfg) wired (bu_flowName b) (d_Events (bu_deps b)))
  else
    mret (mkFlow (fc_Name cfg) (map unwired blocks) (bu_flowName b) (d_Events (bu_deps b))).
End open.

Fixpoint b_flow_from (base : builder -> FlowConfig -> res (Flow U)) (fuel : nat)
    : builder -> FlowConfig -> res (Flow U) :=
  match fuel with
  | O => base
  | S fuel => flow (b_flow_from base fuel)
  end.
Definition b_flow (fuel : nat) : builder -> FlowConfig -> res (Flow U) :=
  b_flow_from (fun _ _ => Err out_of_fuel) fuel.

Definition BuildRoot (fuel : nat) (cfg : FlowConfig) (blocks : BlockRegistry)
    (sched : option Scheduler) (processors : list ProcessorConfig) (deps : BlockDeps)
    (hook : option (FlowResume U)) : res (Flow U) :=
  b ← newBuilder blocks sched processors deps hook (fc_Name cfg) (fc_Name cfg);
  b_flow fuel b cfg.

Definition BuildErrorPath (fuel : nat) (cfg : FlowConfig) (blocks : BlockRegistry)
    (sched : option Scheduler) (processors : list ProcessorConfig) (deps : BlockDeps)
    (hook : option (FlowResume U)) : res (Flow U) :=
  b ← newBuilder blocks sched processors deps hook (fc_Name cfg)
        (JoinBranch (fc_Name cfg) BranchError);
  b_flow fuel b (chain_flow (fc_Name cfg) (fc_Error cfg)).
End builder.
Arguments SubFlowBuilder : clear implicits.
Arguments BlockDeps : clear implicits.
Arguments FlowCaller : clear implicits.
Arguments BlockFactory : clear implicits.
Arguments BlockRegistry : clear implicits.
Arguments builder : clear implicits.

(** * Lemmas *)
Section facts.
Context {U : Type}.
Implicit Types (b : builder U) (rec : builder U -> FlowConfig -> res (Flow U)).

(** Where a block reports from: nowhere for a debug wrapper, its place in the
    chain otherwise. *)
Definition reported_path b (cfg : BlockConfig) (effType : string) : string :=
  if isDebugWrapper effType then ""
  else JoinBlock (bu_path b) (BlockLabel (c_Name cfg) (c_Type cfg) (c_Ref cfg)).
Definition inner_path b (cfg : BlockConfig) (effType : string) : string :=
  if isDebugWrapper effType then bu_path b
  else JoinBlock (bu_path b) (BlockLabel (c_Name cfg) (c_Type cfg) (c_Ref cfg)).

Lemma block_inv rec b cfg u :
  block rec b cfg = Ok u ->
  exists ty s, resolve b cfg = Ok (ty, s) /\
    u_Name u = c_Name cfg /\ u_Type u = ty /\ u_Path u = reported_path b cfg ty /\
    build_processor rec (at_path b (inner_path b cfg ty)) (c_Name cfg) ty s = Ok (u_object u).
Proof.
  unfold block, reported_path, inner_path. destruct (_ && _); [done|].
  intros ([ty s] & Hr & H)%res_bind_ok. exists ty, s. split; [done|].
  destruct (isDebugWrapper ty).
  - apply res_bind_ok in H as (o & Ho & [= <-]). simpl.
    destruct (build_processor _ _ _ _ _); naive_solver.
  - apply res_bind_ok in H as (o & Ho & [= <-]). simpl.
    destruct (build_processor _ _ _ _ _); naive_solver.
Qed.

Lemma flow_inv rec b cfg f :
  flow rec b cfg = Ok f ->
  exists us, Forall2 (fun c u => block rec b c = Ok u) (fc_Process cfg) us /\
    f_Name f = fc_Name cfg /\ f_flowName f = bu_flowName b /\
    f_events f = d_Events (bu_deps b) /\
    (if bu_root b
     then wireContinuations (bu_hook b) (fc_Name cfg) (bu_flowName b)
            (d_Events (bu_deps b)) us = Ok (f_Blocks f)
     else f_Blocks f = map unwired us).
Proof.
  unfold flow. intros (us & Hus & H)%res_bind_ok. exists us.
  split; [by apply mapM_res_ok|].
  destruct (bu_root b).
  - apply res_bind_ok in H as (ws & Hw & [= <-]). by split_and!.
  - injection H as <-. by split_and!.
Qed.

(** Every built block is its unwired block with some processor. *)
Lemma flow_blocks rec b cfg f :
  flow rec b cfg = Ok f ->
  Forall2 (fun c bl => exists u, block rec b c = Ok u /\ b_Name bl = u_Name u /\
    b_Type bl = u_Type u /\ b_Path bl = u_Path u) (fc_Process cfg) (f_Blocks f).
Proof.
  intros (us & Hus & _ & _ & _ & Hb)%flow_inv.
  assert (Forall2 (fun u bl => b_Name bl = u_Name u /\ b_Type bl = u_Type u /\
    b_Path bl = u_Path u) us (f_Blocks f)) as Hw.
  { destruct (bu_root b).
    - apply wire_nth in Hb as [Hl Hi]. apply Forall2_same_length_lookup. split; [done|].
      intros i u bl Hu Hbl. rewrite (Hi _ _ Hu) in Hbl. by injection Hbl as <-.
    - rewrite Hb. clear. induction us; simpl; by constructor. }
  clear -Hus Hw. revert Hw. generalize (f_Blocks f). induction Hus as [|c u cs us Hc _ IH];
    intros bls Hw; inversion Hw; subst; constructor; [eauto|by apply IH].
Qed.

Lemma subFlow_ok rec b cfg f : subFlow rec b cfg = Ok f -> rec b cfg = Ok f.
Proof. unfold subFlow. by repeat case_match. Qed.

Lemma subFlow_chain rec b name process :
  subFlow rec b (chain_flow name process) = rec b (chain_flow name process).
Proof. done. Qed.

(** A root chain that ends in a block that takes over does not build. *)
Lemma flow_last_takeover rec b c :
  bu_root b = true ->
  (forall u, block rec b c = Ok u -> takes_over u = true) ->
  forall name f, flow rec b (chain_flow name [c]) ≠ Ok f.
Proof.
  intros Hroot Hc name f (us & Hus & _ & _ & _ & Hw)%flow_inv. rewrite Hroot in Hw.
  simpl in Hus. apply Forall2_cons_inv_l in Hus as (u & us' & Hu & Hn & ->).
  apply Forall2_nil_inv_l in Hn as ->.
  pose proof (proj2 (wire_err (bu_hook b) name (bu_flowName b) (d_Events (bu_deps b)) [u]
    (last_block_error u))) as He.
  simpl in *. rewrite Hw in He. discriminate He. exists u. split_and!; eauto.
Qed.
End facts.

(** ** Fuel *)
Section fuel.
Context {U : Type} (reg : BlockRegistry U) (defs : gmap string ProcessorConfig).
(** The chains a block of a type builds out of its settings. *)
Context (within : string -> Settings -> FlowConfig -> Prop).

(** Two dependency records that differ only in how they build chains, and
    agree on the chains [P] holds of. *)
Definition deps_agree (P : FlowConfig -> Prop) (d1 d2 : BlockDeps U) : Prop :=
  exists s1 s2, d_SubFlows d1 = Some s1 /\ d_SubFlows d2 = Some s2 /\
    Root s1 = Root s2 /\
    (forall name cfg, P cfg -> Branch s1 name cfg = Branch s2 name cfg) /\
    (forall name i cfg, P cfg -> Member s1 name i cfg = Member s2 name i cfg) /\
    d2 = mkBlockDeps (d_Compile d1) (d_Breakpoint d1) (d_Spies d1) (d_Mocks d1)
           (d_Events d1) (d_Address d1) (Some s2) (d_Scheduler d1) (d_Flows d1).

(** A factory looks at its dependencies' builder only through the chains its
    settings hold. *)
Definition local_factory (ty : string) (f : BlockFactory U) : Prop :=
  forall s d1 d2, deps_agree (within ty s) d1 d2 -> f s d1 = f s d2.

Context (Hlocal : forall ty f, reg !! ty = Some f -> local_factory ty f).

(** The chains built below a block, wrappers included. *)
Definition below (ty : string) (s : Settings) (cfg : FlowConfig) : Prop :=
  if isDebugWrapper ty
  then exists ws, decode_wrapper s = Ok ws /\ cfg = chain_flow "" (ws_Process ws)
  else within ty s cfg.

(** A measure that falls from a block, its ref resolved, to every block of
    every chain below it: what a config whose refs do not loop has. *)
Context (rank : BlockConfig -> nat).
Context (Hrank : forall (b : builder U) c ty s cfg c', bu_defs b = defs ->
  resolve b c = Ok (ty, s) -> below ty s cfg -> c' ∈ fc_Process cfg -> (rank c' < rank c)%nat).

Definition agree_below (n : nat) (rec1 rec2 : builder U -> FlowConfig -> res (Flow U)) : Prop :=
  forall b cfg, (0 < n)%nat -> bu_reg b = reg -> bu_defs b = defs ->
    Forall (fun c => S (rank c) < n)%nat (fc_Process cfg) -> rec1 b cfg = rec2 b cfg.

Lemma subFlow_agree n rec1 rec2 b cfg :
  agree_below n rec1 rec2 -> (0 < n)%nat -> bu_reg b = reg -> bu_defs b = defs ->
  Forall (fun c => S (rank c) < n)%nat (fc_Process cfg) ->
  subFlow rec1 b cfg = subFlow rec2 b cfg.
Proof. intros H H0 Hr Hd Hn. unfold subFlow. by rewrite (H b cfg H0 Hr Hd Hn). Qed.

Lemma wrapper_agree n rec1 rec2 b ty s :
  agree_below n rec1 rec2 -> (0 < n)%nat -> bu_reg b = reg -> bu_defs b = defs ->
  isDebugWrapper ty = true ->
  (forall cfg, below ty s cfg -> Forall (fun c => S (rank c) < n)%nat (fc_Process cfg)) ->
  breakpoint rec1 b s = breakpoint rec2 b s /\ spy rec1 b s = spy rec2 b s.
Proof.
  intros H H0 Hr Hd Ht Hb. unfold breakpoint, spy.
  destruct (decode_wrapper s) as [ws|e] eqn:Hws.
  2: { by destruct (d_Breakpoint _), (d_Spies _). }
  assert (subFlow rec1 b (chain_flow "" (ws_Process ws))
          = subFlow rec2 b (chain_flow "" (ws_Process ws))) as E.
  { apply (subFlow_agree n); try done. apply Hb. unfold below. rewrite Ht. eauto. }
  unfold mbind, res_bind. destruct (ws_Process ws) as [|c cs].
  { by destruct (d_Breakpoint _), (d_Spies _). }
  rewrite E. by destruct (d_Breakpoint _), (d_Spies _).
Qed.

Lemma processor_agree n rec1 rec2 b name ty s :
  agree_below n rec1 rec2 -> (0 < n)%nat -> bu_reg b = reg -> bu_defs b = defs ->
  (forall cfg, below ty s cfg -> Forall (fun c => S (rank c) < n)%nat (fc_Process cfg)) ->
  build_processor rec1 b name ty s = build_processor rec2 b name ty s.
Proof.
  intros H H0 Hr Hd Hb. unfold build_processor.
  destruct (String.eqb ty blockKindBreakpoint) eqn:H1.
  { eapply wrapper_agree; eauto. unfold isDebugWrapper. by rewrite H1, orb_true_r. }
  destruct (String.eqb ty blockKindSpy) eqn:H2.
  { eapply wrapper_agree; eauto. unfold isDebugWrapper. by rewrite H2. }
  destruct (String.eqb ty blockKindMock); [done|].
  unfold reg_New. rewrite Hr. destruct (reg !! ty) as [f|] eqn:Hf; [|done].
  apply (Hlocal _ _ Hf). unfold positioned. eexists _, _. simpl. split_and!; try done.
  all: intros; unfold subFlows; simpl; rewrite (subFlow_agree n rec1 rec2); try done; apply Hb.
  all: unfold below, isDebugWrapper; by rewrite H1, H2.
Qed.

Lemma flow_agree n rec1 rec2 b cfg :
  agree_below n rec1 rec2 -> bu_reg b = reg -> bu_defs b = defs ->
  Forall (fun c => rank c < n)%nat (fc_Process cfg) ->
  flow rec1 b cfg = flow rec2 b cfg.
Proof.
  intros H Hr Hd Hn. unfold flow.
  enough (mapM (block rec1 b) (fc_Process cfg) = mapM (block rec2 b) (fc_Process cfg)) as ->; [done|].
  induction Hn as [|c cs Hc _ IH]; [done|]. simpl.
  enough (block rec1 b c = block rec2 b c) as ->; [by rewrite IH|].
  unfold block. destruct (_ && _); [done|].
  destruct (resolve b c) as [[ty s]|] eqn:Hres; [|done].
  unfold mbind, res_bind.
  assert (forall p, build_processor rec1 (at_path b p) (c_Name c) ty s
                  = build_processor rec2 (at_path b p) (c_Name c) ty s) as E.
  { intros p. apply (processor_agree n); try done; [lia|]. intros cfg' Hcfg.
    apply Forall_forall. intros c' Hc'.
    pose proof (Hrank b _ _ _ _ _ Hd Hres Hcfg Hc'). lia. }
  by destruct (isDebugWrapper ty); rewrite E.
Qed.

Lemma b_flow_agree base1 base2 m n k :
  (m <= n)%nat -> (m <= k)%nat ->
  agree_below m (b_flow_from base1 n) (b_flow_from base2 k).
Proof.
  revert n k. induction m as [|m IH]; intros n k Hn Hk b cfg H0 Hr Hd Hf; [lia|].
  destruct n as [|n]; [lia|]. destruct k as [|k]; [lia|]. simpl.
  apply (flow_agree m); [apply IH; lia|done|done|].
  eapply Forall_impl; [done|]. simpl. lia.
Qed.
End fuel.

(** Without definitions to refer to, the nesting of a block's settings is such a
    measure for any factory that builds only chains it decodes from inside its
    settings. *)
Definition settings_rank (c : BlockConfig) : nat := nesting (AMap (c_Settings c)).
Definition decoded_inside (s : Settings) (cfg : FlowConfig) : Prop :=
  forall c, c ∈ fc_Process cfg -> exists v, (S (nesting v) < nesting (AMap s))%nat /\ UnmarshalJSON v = Ok c.

Lemma decode_chain_inside v c chain :
  decode_chain v = Ok chain -> c ∈ chain -> exists x, (nesting x < nesting v)%nat /\ UnmarshalJSON x = Ok c.
Proof.
  destruct v as [| | | | | | | |l| |]; simpl; try done.
  { intros [= <-] H. by apply elem_of_nil in H. }
  intros Hm%mapM_res_ok Hc. apply list_elem_of_lookup in Hc as [i Hi].
  destruct (Forall2_lookup_r _ _ _ _ _ Hm Hi) as (x & Hx & Hd).
  exists x. split; [|done]. apply nesting_arr. by eapply list_elem_of_lookup_2.
Qed.

Lemma lookup_inside (s : Settings) k c chain :
  decode_chain (default ANil (s !! k)) = Ok chain -> c ∈ chain ->
  exists x, (S (nesting x) < nesting (AMap s))%nat /\ UnmarshalJSON x = Ok c.
Proof.
  intros Hd Hc. destruct (decode_chain_inside _ _ _ Hd Hc) as (x & Hx & Hu).
  exists x. split; [|done]. destruct (s !! k) as [v|] eqn:Hv.
  - apply nesting_map in Hv. cbn [default from_option] in Hx. change (id v) with v in Hx. lia.
  - cbn in Hx. lia.
Qed.

Lemma decoded_settings_nesting v c :
  UnmarshalJSON v = Ok c -> (settings_rank c <= Nat.max 1 (nesting v))%nat.
Proof.
  unfold settings_rank. intros H.
  enough (forall k x, c_Settings c !! k = Some x -> (nesting x < Nat.max 1 (nesting v))%nat) as Hn.
  { apply nesting_map_bound; [|lia]. intros k x Hx. apply Hn in Hx. lia. }
  intros k x Hx. destruct v as [| | | | | | | | |fields|]; simpl in H; try done.
  { assert (c = mkBlockConfig "" "" "" ∅) as -> by (vm_compute in H |- *; congruence).
    cbn [c_Settings] in Hx. by rewrite lookup_empty in Hx. }
  apply res_bind_ok in H as (t & _ & H). apply res_bind_ok in H as (n & _ & H).
  apply res_bind_ok in H as (r & _ & H). apply res_bind_ok in H as (s & Hs & H).
  unfold fold in H. simpl in H. destruct (filter _ (map_to_list _)) as [|[]]; [|done].
  injection H as <-. simpl in Hx. apply lookup_union_Some_raw in Hx as [Hx|[_ Hx]].
  - assert (s = ∅ \/ fields !! "settings" = Some (AMap s)) as [->|Hm].
    { destruct (fields !! "settings") as [[]|]; simpl in Hs; naive_solver. }
    { by rewrite lookup_empty in Hx. }
    apply nesting_map in Hm, Hx. lia.
  - apply map_lookup_filter_Some in Hx as [Hx _]. apply nesting_map in Hx. lia.
Qed.

Lemma settings_rank_falls {U} (b : builder U) c ty s cfg c' :
  bu_defs b = ∅ -> resolve b c = Ok (ty, s) ->
  below (fun _ => decoded_inside) ty s cfg -> c' ∈ fc_Process cfg ->
  (settings_rank c' < settings_rank c)%nat.
Proof.
  intros Hd Hr Hb Hin. unfold resolve in Hr. rewrite Hd in Hr.
  destruct (String.eqb (c_Ref c) ""); [injection Hr as <- <-|by rewrite lookup_empty in Hr].
  assert (exists x, (S (nesting x) < settings_rank c)%nat /\ UnmarshalJSON x = Ok c') as (x & Hx & Hu).
  { unfold below in Hb. destruct (isDebugWrapper (c_Type c)); [|by apply Hb].
    destruct Hb as (ws & Hws & ->). unfold decode_wrapper, decode_settings, strict in Hws.
    destruct (unknown_key _ _); [done|].
    destruct (json_string _); [|done]. simpl in Hws.
    destruct (decode_chain _) as [chain|] eqn:Hch; [|done]. simpl in Hws. injection Hws as <-.
    by eapply lookup_inside. }
  pose proof (decoded_settings_nesting _ _ Hu). lia.
Qed.

(** * Properties *)

(** A built chain is the configured chain, block for block: each built block
    carries its configured name, the effective type its ref resolves to, and as
    its path the address of its label in the chain's slot, empty for a debug
    wrapper only. *)
Theorem built_chain {U} rec (b : builder U) cfg f :
  flow rec b cfg = Ok f ->
  Forall2 (fun c bl => exists ty s, resolve b c = Ok (ty, s) /\
    b_Name bl = c_Name c /\ b_Type bl = ty /\
    b_Path bl = (if isDebugWrapper ty then ""
                 else JoinBlock (bu_path b) (BlockLabel (c_Name c) (c_Type c) (c_Ref c))))
    (fc_Process cfg) (f_Blocks f) /\
  f_Name f = fc_Name cfg /\ f_flowName f = bu_flowName b.
Proof.
  intros H. pose proof (flow_inv _ _ _ _ H) as (us & _ & Hn & Hf & _).
  split_and!; [|done|done].
  eapply Forall2_impl; [by eapply flow_blocks|].
  intros c bl (u & (ty & s & Hr & Hun & Hut & Hup & _)%block_inv & Hbn & Hbt & Hbp).
  exists ty, s. unfold reported_path in Hup. by split_and!; [|congruence..].
Qed.

(** The settings a ref resolves to are the definition's, overridden key by
    key: what the block sets wins, what it leaves out is the definition's. *)
Theorem resolve_overrides {U} (b : builder U) cfg ty s def :
  c_Ref cfg ≠ "" -> bu_defs b !! c_Ref cfg = Some def ->
  resolve b cfg = Ok (ty, s) ->
  ty = p_Type def /\
  forall k, s !! k = match c_Settings cfg !! k with
                     | Some v => Some v
                     | None => p_Settings def !! k
                     end.
Proof.
  intros Hr Hd. unfold resolve. apply String.eqb_neq in Hr as ->. rewrite Hd.
  destruct (_ && _); [done|]. intros [= <- <-]. split; [done|]. intros k.
  unfold mergeSettings. destruct (decide (c_Settings cfg = ∅)) as [He|_].
  - by rewrite He, lookup_empty.
  - rewrite lookup_union. by destruct (c_Settings cfg !! k), (p_Settings def !! k).
Qed.

Section example.
(** A block with one slot, as a composite builds it. *)
Definition slot_factory : BlockFactory unit := fun s d =>
  flows ← SubFlowsOf d;
  chain ← decode_chain (default ANil (s !! "process"));
  leaf <$> Branch flows "process" (chain_flow "" chain).
(** A leaf that hands its message on, and one that takes the flow over. *)
Definition pass_factory : BlockFactory unit := fun _ _ => Ok (leaf (fun l => mret (Some l))).
Definition takeover_factory : BlockFactory unit := fun _ _ =>
  Ok (mkObject (TakesOver (fun k l => k l ≫= fun _ => mret (Some l))) None None).
Definition example_reg : gmap string (BlockFactory unit) :=
  {[ "slot" := slot_factory; "pass" := pass_factory; "takeover" := takeover_factory ]}.
Definition example_deps : BlockDeps unit :=
  mkBlockDeps (fun _ => Err (ErrMsg "cel")) None (Some (fun _ _ => mret tt)) None None
    (mkBlockAddress "" "" "") None None None.
Definition example_builder (defs : gmap string ProcessorConfig) : builder unit :=
  mkBuilder example_reg None defs example_deps None "f" true "f".
Definition charge : ProcessorConfig :=
  mkProcessorConfig "charge" "pass" {[ "url" := AStr "u"; "retries" := AInt 2 ]}.
End example.

Lemma example_reg_local ty (f : BlockFactory unit) :
  example_reg !! ty = Some f -> local_factory (fun _ => decoded_inside) ty f.
Proof.
  unfold example_reg. rewrite !lookup_insert_Some, lookup_singleton_Some.
  intros [[_ <-]|[_ [[_ <-]|[_ [_ <-]]]]] s d1 d2 Hd; [|done|done].
  destruct Hd as (s1 & s2 & H1 & H2 & _ & Hbr & _ & _).
  unfold slot_factory, SubFlowsOf. rewrite H1, H2. simpl.
  destruct (decode_chain _) as [chain|] eqn:Hc; [|done]. simpl.
  rewrite Hbr; [done|]. intros c Hin. by eapply lookup_inside.
Qed.

Lemma built_chain_witness :
  exists f, b_flow 3 (example_builder {[ "charge" := charge ]})
    (chain_flow "f" [mkBlockConfig "" "" "charge" ∅; mkBlockConfig "slot" "s" ""
       {[ "process" := encode_chain [mkBlockConfig "pass" "" "" ∅] ]}]) = Ok f /\
  map b_Path (f_Blocks f) = ["f.charge"; "f.s"] /\ f_Name f = "f".
Proof.
  eexists. split; [vm_compute; reflexivity|]. split; [vm_compute; reflexivity|].
  apply (built_chain (b_flow 2) (example_builder {[ "charge" := charge ]})
    (chain_flow "f" [mkBlockConfig "" "" "charge" ∅; mkBlockConfig "slot" "s" ""
       {[ "process" := encode_chain [mkBlockConfig "pass" "" "" ∅] ]}])).
  vm_compute. reflexivity.
Defined.

Lemma resolve_overrides_witness :
  exists s, resolve (example_builder {[ "charge" := charge ]})
    (mkBlockConfig "" "" "charge" {[ "retries" := AInt 9 ]}) = Ok ("pass", s) /\
  s !! "retries" = Some (AInt 9) /\ s !! "url" = Some (AStr "u").
Proof.
  eexists. split; [vm_compute; reflexivity|].
  epose proof (proj2 (resolve_overrides (example_builder {[ "charge" := charge ]})
    (mkBlockConfig "" "" "charge" {[ "retries" := AInt 9 ]}) "pass" _ charge _ _ _)) as H.
  split; [exact (H "retries")|exact (H "url")].
  Unshelve. all: vm_compute; congruence.
Defined.

(** A spy (and likewise a breakpoint) around a block that takes the flow
    over never builds: the wrapper holds the block alone in a chain that is
    still a root chain, where it is the last block, so wiring refuses it. *)
Theorem spied_takeover_never_builds {U} fuel (b : builder U) cfg ty name target settings address :
  (forall f, bu_reg b !! c_Type target = Some f ->
     forall s d o, f s d = Ok o -> exists p, o_impl o = TakesOver p) ->
  bu_root b = true ->
  isDebugWrapper ty = true ->
  c_Ref target = "" ->
  ~ c_Type target ∈ [blockKindSpy; blockKindBreakpoint; blockKindMock] ->
  decode_wrapper settings = Ok (mkWrapperSettings address [target]) ->
  mkBlockConfig ty name "" settings ∈ fc_Process cfg ->
  forall f, b_flow fuel b cfg ≠ Ok f.
Proof.
  intros Hfac Hroot Hty Href Hkind Hdec Hin f. destruct fuel as [|fuel]; [done|].
  unfold b_flow. cbn [b_flow_from]. fold (b_flow (U := U) fuel).
  intros (us & Hus & _)%flow_inv.
  apply list_elem_of_lookup in Hin as [i Hi].
  destruct (Forall2_lookup_l _ _ _ _ _ Hus Hi) as (u & _ & Hu).
  apply block_inv in Hu as (ty' & s' & Hres & _ & _ & _ & Hp).
  unfold resolve in Hres. cbn in Hres. injection Hres as <- <-.
  assert (forall p, at_path b p = at_path b p -> forall inner,
    subFlow (b_flow fuel) (at_path b p) (chain_flow "" [target]) ≠ Ok inner) as Hsub.
  { intros p _ inner Hs%subFlow_ok. destruct fuel as [|fuel]; [done|].
    revert Hs. apply flow_last_takeover; [done|].
    intros v (ty'' & s'' & Hr & _ & _ & _ & Hb)%block_inv.
    unfold resolve in Hr. rewrite Href in Hr. simpl in Hr. injection Hr as <- <-.
    apply not_elem_of_cons in Hkind as [H1 Hkind]. apply not_elem_of_cons in Hkind as [H2 H3].
    apply not_elem_of_cons in H3 as [H3 _].
    apply String.eqb_neq in H1, H2, H3.
    unfold build_processor in Hb. rewrite H1, H2, H3 in Hb. unfold reg_New in Hb.
    cbn [bu_reg at_path] in Hb.
    destruct (bu_reg b !! c_Type target) as [g|] eqn:Hg; [|done].
    destruct (Hfac _ eq_refl _ _ _ Hb) as [q Hq]. unfold takes_over. by rewrite Hq. }
  unfold build_processor in Hp. unfold isDebugWrapper in Hty.
  destruct (String.eqb ty blockKindBreakpoint).
  - unfold breakpoint in Hp. destruct (d_Breakpoint _); [|done].
    rewrite Hdec in Hp. apply res_bind_ok in Hp as (ws & [= <-] & Hp).
    apply res_bind_ok in Hp as (inner & Hi' & _). by eapply Hsub.
  - rewrite orb_false_r in Hty. rewrite Hty in Hp.
    unfold spy in Hp. destruct (d_Spies _); [|done].
    rewrite Hdec in Hp. apply res_bind_ok in Hp as (ws & [= <-] & Hp).
    simpl in Hp. destruct (String.eqb address ""); [done|].
    apply res_bind_ok in Hp as (inner & Hi' & _). by eapply Hsub.
Qed.

Lemma spied_takeover_never_builds_witness :
  let target := mkBlockConfig "takeover" "t" "" ∅ in
  let after := mkBlockConfig "pass" "" "" ∅ in
  let spied := mkBlockConfig "spy" "t" ""
    {[ "address" := AStr "f.t"; "process" := encode_chain [target] ]} in
  is_ok (b_flow 3 (example_builder ∅) (chain_flow "f" [target; after])) = true /\
  (forall f, b_flow 3 (example_builder ∅) (chain_flow "f" [spied; after]) ≠ Ok f).
Proof.
  split; [vm_compute; reflexivity|].
  apply (spied_takeover_never_builds 3 (example_builder ∅)
    (chain_flow "f" [mkBlockConfig "spy" "t" ""
      {[ "address" := AStr "f.t"; "process" := encode_chain [mkBlockConfig "takeover" "t" "" ∅] ]};
      mkBlockConfig "pass" "" "" ∅])
    "spy" "t" (mkBlockConfig "takeover" "t" "" ∅)
    {[ "address" := AStr "f.t"; "process" := encode_chain [mkBlockConfig "takeover" "t" "" ∅] ]}
    "f.t").
  - intros f Hf s d o Ho. vm_compute in Hf. injection Hf as <-. injection Ho as <-. by eexists.
  - reflexivity.
  - reflexivity.
  - reflexivity.
  - rewrite !not_elem_of_cons. split_and!; [discriminate..|apply not_elem_of_nil].
  - vm_compute. reflexivity.
  - left.
Defined.


