(* ===== verification/Ownership.v ===== *)
(** Who owns a message: the discipline every block keeps for the flow to be
    able to share messages by pointer.  A block may write the message it is
    handed and the messages it allocates, and hands on one of those; every other
    message in the world is left as it was. *)
From S2P Require Import Prelude GoStr Message Store BlockEvents Engine.
#[local] Open Scope Z_scope.

Section ownership.
Context {U : Type}.

(** A pointer a computation may touch: the one it was handed, or one that did
    not exist when it started. *)
Definition mine (l n k : nat) : Prop := k = l \/ (n <= k)%nat.
Definition mine_out (l n : nat) (o : option nat) : Prop :=
  match o with Some k => mine l n k | None => True end.

(** [m], started when pointers below [n] existed, touches only [l] and what was
    allocated since, and satisfies [Q] when it succeeds. *)
Definition owns {A} (l n : nat) (Q : A -> Prop) (m : M U A) : Prop :=
  forall w, (n <= next w)%nat ->
    (next w <= next (m w).1)%nat /\
    (forall k, ~ mine l n k -> heap (m w).1 !! k = heap w !! k) /\
    (forall a, (m w).2 = Ok a -> Q a).

(** The discipline of a processor. *)
Class Local (p : processor U) : Prop :=
  local_owns l n k : mine l n k -> owns l n (mine_out l n) (p k).

Implicit Types A B : Type.

Lemma owns_bind {A B} l n (Q : A -> Prop) (R : B -> Prop) (m : M U A) (f : A -> M U B) :
  owns l n Q m -> (forall a, Q a -> owns l n R (f a)) -> owns l n R (m ≫= f).
Proof.
  intros Hm Hf w Hn. unfold mbind, M_bind, SM_bind.
  destruct (Hm w Hn) as (H1 & H2 & H3). destruct (m w) as [w' [a|e]]; simpl in *; [|done].
  destruct (Hf a (H3 a eq_refl) w') as (H4 & H5 & H6); [lia|].
  split_and!; [lia| |done]. intros k Hk. by rewrite H5, H2.
Qed.
Lemma owns_weaken {A} l n (Q R : A -> Prop) (m : M U A) :
  (forall a, Q a -> R a) -> owns l n Q m -> owns l n R m.
Proof. intros H Hm w Hn. destruct (Hm w Hn) as (? & ? & ?). naive_solver. Qed.
Lemma owns_ret {A} l n (Q : A -> Prop) (a : A) : Q a -> owns l n Q (mret a : M U A).
Proof. intros H w Hn. split_and!; simpl; [lia|done|]. by intros ? [= <-]. Qed.
Lemma owns_fail {A} l n (Q : A -> Prop) e : owns l n Q (fail e : M U A).
Proof. intros w Hn. by split_and!. Qed.
Lemma owns_lift {A} l n (Q : A -> Prop) (r : res A) :
  (forall a, r = Ok a -> Q a) -> owns l n Q (lift r : M U A).
Proof. intros H w Hn. by split_and!. Qed.
Lemma owns_load l n k : owns l n (fun _ => True) (load k : M U Message).
Proof. intros w Hn. by split_and!. Qed.
Lemma owns_update l n k f : mine l n k -> owns l n (fun _ => True) (update k f : M U unit).
Proof.
  intros Hk w Hn. split_and!; simpl; [lia| |done].
  intros k' Hk'. rewrite lookup_insert_ne; [done|]. by intros ->.
Qed.
Lemma owns_alloc l n m : owns l n (mine l n) (alloc m : M U nat).
Proof.
  intros w Hn. split_and!; simpl; [lia| |].
  - intros k Hk. rewrite lookup_insert_ne; [done|]. intros <-. apply Hk. by right.
  - intros a [= <-]. by right.
Qed.
Lemma owns_attempt {A} l n (Q : A -> Prop) (m : M U A) :
  owns l n Q m -> owns l n (fun r => forall a, r = Ok a -> Q a) (attempt m).
Proof.
  intros Hm w Hn. destruct (Hm w Hn) as (H1 & H2 & H3). unfold attempt.
  destruct (m w) as [w' r]; simpl in *. split_and!; [done|done|]. by intros a [= <-].
Qed.
Lemma owns_wrapping {A} l n (Q : A -> Prop) pre (m : M U A) :
  owns l n Q m -> owns l n Q (wrapping pre m).
Proof.
  intros Hm w Hn. destruct (Hm w Hn) as (H1 & H2 & H3). unfold wrapping.
  destruct (m w) as [w' [a|e]]; simpl in *; by split_and!.
Qed.
Lemma owns_silent {A} l n (m : M U A) : silent m -> owns l n (fun _ => True) m.
Proof.
  intros Hm w Hn. destruct (Hm w) as (a & w' & -> & E). simpl.
  assert (heap w' = heap w) as -> by exact (f_equal heap E).
  assert (next w' = next w) as -> by exact (f_equal next E). by split_and!.
Qed.
Lemma owns_clone l n k : owns l n (mine l n) (clone_msg k : M U nat).
Proof. eapply owns_bind; [apply owns_load|]. intros. apply owns_alloc. Qed.
Lemma owns_scope l n k : mine l n k -> owns l n (mine l n) (scope_msg k : M U nat).
Proof.
  intros Hk. eapply owns_bind; [apply owns_load|]. intros m _.
  eapply owns_bind; [by apply owns_update|]. intros. apply owns_alloc.
Qed.
Lemma owns_call l n k (p : processor U) :
  Local p -> mine l n k -> owns l n (mine_out l n) (p k).
Proof. intros H Hk. by apply H. Qed.
Lemma mine_refl l n : mine l n l.
Proof. by left. Qed.
End ownership.
#[export] Hint Resolve owns_load owns_alloc owns_fail owns_clone mine_refl : octo.

(** One rule per sequencing step; what a rule leaves is a side condition about a
    pointer or a value. *)
Ltac own :=
  repeat first
    [ progress intros
    | apply owns_fail
    | apply owns_load
    | apply owns_clone
    | apply owns_alloc
    | apply owns_wrapping
    | apply owns_call; [assumption|]
    | apply owns_attempt
    | apply owns_scope
    | (apply owns_update)
    | (eapply owns_bind; [solve [own]|])
    | (apply owns_ret)
    | (apply owns_lift)
    | assumption
    | exact I
    | (left; reflexivity)
    | match goal with
      | |- owns _ _ _ (match ?x with _ => _ end) => destruct x eqn:?
      | |- mine_out _ _ (Some _) => simpl
      | H : mine_out _ _ (Some _) |- _ => simpl in H
      end ].

Section engine.
Context {U : Type}.

Lemma process_blocks_local (f : Flow U) bs :
  Forall (fun b => Local (b_Processor b)) bs -> Local (process_blocks f bs).
Proof.
  induction 1 as [|b bs Hb _ IH]; intros l n k Hk; cbn [process_blocks].
  { by apply owns_ret. }
  eapply owns_bind; [apply owns_silent, pre_invoke_silent|]. intros t _.
  eapply owns_bind; [by apply owns_attempt, Hb|]. intros r Hr.
  eapply owns_bind; [apply owns_silent, post_invoke_silent|]. intros [] _.
  destruct r as [[out|]|e]; [|by apply owns_ret|apply owns_fail].
  specialize (Hr _ eq_refl).
  eapply owns_bind; [apply owns_load|]. intros m _.
  destruct (StopRequested m); [by apply owns_ret|by apply IH].
Qed.

(** A chain keeps the discipline when its blocks do. *)
#[global] Instance Process_local (f : Flow U) :
  TCForall (fun b => Local (b_Processor b)) (f_Blocks f) -> Local (Process f).
Proof. intros H. apply process_blocks_local. by apply TCForall_Forall. Qed.
End engine.
