(* ===== verification/Composites.v ===== *)
(** The blocks that choose, repeat, scatter and guard a chain:
    [runtime/blocks/controlflow/composites.go], [filter.go] and [validate.go].

    Each block is given as its [Process], over the processors its slots were
    built into, and as its factory, over the settings it decodes. *)
From S2P Require Import Prelude GoStr F64 Message Config Store BlockPath Expr Engine Debug Builder Ownership.
From Stdlib Require Import String.
#[local] Open Scope string_scope.
#[local] Open Scope Z_scope.

(** ** The settings structs *)
Definition decode_source (v : any) : res SourceConfig :=
  json_struct "types.SourceConfig" ["connector"; "type"; "settings"] (fun m =>
    c ← json_string (m !! "connector");
    t ← json_string (m !! "type");
    s ← json_settings (m !! "settings");
    mret (mkSourceConfig c t s)) v.

Definition decode_flow (v : any) : res FlowConfig :=
  json_struct "types.FlowConfig"
    ["name"; "source"; "process"; "error"; "workers"; "buffer"; "pool"] (fun m =>
    name ← json_string (m !! "name");
    source ← json_ptr decode_source (m !! "source");
    process ← decode_chain (default ANil (m !! "process"));
    error ← decode_chain (default ANil (m !! "error"));
    workers ← json_int (m !! "workers");
    buffer ← json_int (m !! "buffer");
    pool ← json_int (m !! "pool");
    mret (mkFlowConfig name source process error workers buffer pool)) v.

Definition DecodeStrict {A} (known : list string) (dec : gmap string any -> res A)
    (raw : Settings) : res A :=
  decode_settings (strict known raw (dec raw)).

Definition defaultForeachVar : string := "item".
Definition foreachModeIterate : string := "iterate".
Definition foreachModeMap : string := "map".
Definition httpStatusVar : string := "httpStatus".
Definition defaultValidateStatus : Z := 422.
Definition validationErrorsVar : string := "validationErrors".

Section processes.
Context {U : Type}.

(** ** scope / handle-errors *)
Definition scope_Process (main : processor U) (alternative : option (processor U))
    (onError : option (nat -> goerr -> M U unit)) : processor U := fun msg =>
  r ← attempt (main msg);
  match r with
  | Ok out => mret out
  | Err err =>
      match alternative with
      | None => fail err
      | Some alternative =>
          match onError with Some h => h msg err | None => mret tt end ≫= fun _ =>
          wrapping "scope alternative: " (alternative msg)
      end
  end.

(** ** fork *)
Record forkBranch : Type := mkForkBranch {
  br_name : string;
  br_flow : processor U;
}.

Fixpoint clones (msg : nat) (branches : list forkBranch) : M U (list (forkBranch * nat)) :=
  match branches with
  | [] => mret []
  | b :: rest => c ← clone_msg msg; cs ← clones msg rest; mret ((b, c) :: cs)
  end.

(** The submitted tasks in the order the pool runs them.  A task runs as one
    step: branches interleave by whole branches. *)
Fixpoint run_tasks (tasks : list (forkBranch * nat)) (firstErr : option goerr) (stop : bool)
    : M U (option goerr * bool) :=
  match tasks with
  | [] => mret (firstErr, stop)
  | (branch, clone) :: rest =>
      r ← attempt (br_flow branch clone);
      c ← load clone;
      o ← match r with Ok (Some out) => m ← load out; mret (Some m) | _ => mret None end;
      let stop := stop || StopRequested c
                  || match o with Some o => StopRequested o | None => false end in
      let firstErr := match r, firstErr with
        | Err err, None => Some (ErrWrap ("fork branch " ++ quote (br_name branch) ++ ": ") err "")
        | _, _ => firstErr
        end in
      run_tasks rest firstErr stop
  end.

Definition fork_Process (sched : Scheduler) (branches : list forkBranch) : processor U := fun msg =>
  tasks ← clones msg branches;
  let order := omap (fun i => tasks !! i) (sched (List.length tasks)) in
  '(firstErr, stop) ← run_tasks order None false;
  match firstErr with
  | Some err => fail err
  | None => (if (stop : bool) then update msg RequestStop else mret tt) ≫= fun _ => mret (Some msg)
  end.

(** ** if and switch *)
Definition if_Process (condition : Program) (then_ : processor U) (els : option (processor U))
    : processor U := fun msg =>
  m ← load msg;
  match_ ← lift (EvalCondition condition m);
  if (match_ : bool) then then_ msg
  else match els with Some els => els msg | None => mret (Some msg) end.

Fixpoint switch_cases (i : Z) (cases : list (Program * processor U))
    (def : option (processor U)) (msg : nat) : M U (option nat) :=
  match cases with
  | [] => match def with Some def => def msg | None => mret (Some msg) end
  | (when, flow) :: rest =>
      m ← load msg;
      match_ ← lift (wrap_err ("switch case " ++ itoa i ++ ": ") (EvalCondition when m));
      if (match_ : bool) then flow msg else switch_cases (i + 1) rest def msg
  end.
Definition switch_Process (cases : list (Program * processor U)) (def : option (processor U))
    : processor U := switch_cases 0 cases def.

(** ** foreach *)
Fixpoint map_loop (as_ : string) (body : processor U) (msg : nat) (items : list any)
    (mapped : list any) : M U (list any * bool) :=
  match items with
  | [] => mret (mapped, false)
  | item :: rest =>
      scoped ← scope_msg msg;
      update scoped (set_var as_ item) ≫= fun _ =>
      out ← body scoped;
      match out with
      | None => map_loop as_ body msg rest (mapped ++ [ANil])%list
      | Some out =>
          m ← load out;
          let mapped := (mapped ++ [Body m])%list in
          if StopRequested m then mret (mapped, true)
          else map_loop as_ body msg rest mapped
      end
  end.

Definition mapItems (as_ : string) (body : processor U) (msg : nat) (items : list any)
    : M U (option nat) :=
  '(mapped, stopped) ← map_loop as_ body msg items [];
  update msg (SetBody (AArr mapped)) ≫= fun _ =>
  (if (stopped : bool) then update msg RequestStop else mret tt) ≫= fun _ =>
  mret (Some msg).

Definition restore_var (as_ : string) (prev : option any) (m : Message) : Message :=
  match prev with
  | Some v => set_var as_ v m
  | None => set_vars (delete as_) m
  end.

Fixpoint iterate_loop (as_ : string) (body : processor U) (prev : option any) (items : list any)
    (msg : nat) : M U (option nat) :=
  match items with
  | [] => update msg (restore_var as_ prev) ≫= fun _ => mret (Some msg)
  | item :: rest =>
      update msg (set_var as_ item) ≫= fun _ =>
      out ← body msg;
      match out with
      | None => mret None
      | Some msg' =>
          m ← load msg';
          if StopRequested m then mret (Some msg')
          else iterate_loop as_ body prev rest msg'
      end
  end.
Definition iterate (as_ : string) (body : processor U) (msg : nat) (items : list any)
    : M U (option nat) :=
  m ← load msg; iterate_loop as_ body (Vars m !! as_) items msg.

Definition foreach_Process (items : Program) (as_ : string) (body : processor U) (mapMode : bool)
    : processor U := fun msg =>
  m ← load msg;
  value ← lift (wrap_err "foreach items: " (items m));
  match value with
  | AArr l => if mapMode then mapItems as_ body msg l else iterate as_ body msg l
  | v => fail (ErrMsg ("foreach items must evaluate to an array, got " ++ go_type v))
  end.

(** ** enrich.  [setVars] lists the configured variables in the order the
    map iteration visits them. *)
Fixpoint enrich_vars (setVars : list (string * Program)) (activation : Message) (msg : nat) : M U unit :=
  match setVars with
  | [] => mret tt
  | (name, program) :: rest =>
      value ← lift (wrap_err ("enrich setVars[" ++ quote name ++ "]: ") (program activation));
      update msg (set_var name value) ≫= fun _ => enrich_vars rest activation msg
  end.

Definition enrich_Process (body : processor U) (setBody : option Program)
    (setVars : list (string * Program)) : processor U := fun msg =>
  scoped ← scope_msg msg;
  out ← body scoped;
  match out with
  | None => mret None
  | Some out =>
      activation ← load out;
      match setBody with
      | Some program =>
          value ← lift (wrap_err "enrich setBody: " (program activation));
          update msg (SetBody value)
      | None => mret tt
      end ≫= fun _ =>
      enrich_vars setVars activation msg ≫= fun _ =>
      (if StopRequested activation then update msg RequestStop else mret tt) ≫= fun _ =>
      mret (Some msg)
  end.

(** ** filter.go *)
Definition applyReject (msg : nat) (onReject : option (processor U)) (defaultStatus : Z)
    (defaultBody : any) : M U (option nat) :=
  match onReject with
  | Some onReject =>
      out ← onReject msg;
      match out with
      | None => mret None
      | Some msg => update msg RequestStop ≫= fun _ => mret (Some msg)
      end
  | None =>
      update msg (set_var httpStatusVar (AInt defaultStatus)) ≫= fun _ =>
      update msg (SetBody defaultBody) ≫= fun _ =>
      update msg RequestStop ≫= fun _ => mret (Some msg)
  end.

(** ** validate.go *)
Fixpoint validate_rules (i : Z) (rules : list (Program * string)) (m : Message) : res (list any) :=
  match rules with
  | [] => Ok []
  | (program, message) :: rest =>
      ok ← wrap_err ("validate rule " ++ itoa i ++ ": ") (EvalCondition program m);
      failures ← validate_rules (i + 1) rest m;
      mret (if (ok : bool) then failures else AStr message :: failures)
  end.

Definition validate_Process (rules : list (Program * string)) (onReject : option (processor U))
    (rejectStatus : Z) : processor U := fun msg =>
  m ← load msg;
  failures ← lift (validate_rules 0 rules m);
  match failures with
  | [] => mret (Some msg)
  | _ =>
      update msg (set_var validationErrorsVar (AArr failures)) ≫= fun _ =>
      applyReject msg onReject rejectStatus
        (AMap {[ "error" := AStr "validation_failed"; "messages" := AArr failures ]})
  end.
End processes.
Arguments forkBranch : clear implicits.

(** ** The factories *)
Section factories.
Context {U : Type}.
Implicit Types deps : BlockDeps U.

(** [handleErrorsSettings] *)
Definition decode_handle_errors (raw : Settings) : res (list BlockConfig * list BlockConfig) :=
  DecodeStrict ["process"; "error"] (fun m =>
    p ← decode_chain (default ANil (m !! "process"));
    e ← decode_chain (default ANil (m !! "error"));
    mret (p, e)) raw.

Definition newHandleErrors (raw : Settings) deps : res (object U) :=
  '(process, error) ← decode_handle_errors raw;
  if Nat.eqb (List.length process) 0 then Err (ErrMsg "handle-errors block requires a process chain")
  else if Nat.eqb (List.length error) 0 then Err (ErrMsg "handle-errors block requires an error chain")
  else
    flows ← SubFlowsOf deps;
    main ← wrap_err "handle-errors process: " (Branch flows BranchProcess (chain_flow "" process));
    alternative ← wrap_err "handle-errors error: " (Branch flows BranchError (chain_flow "" error));
    let name := ad_Name (d_Address deps) in
    mret (leaf (scope_Process main (Some alternative)
                  (Some (fun msg e => SetErrorVariable msg name e)))).

Fixpoint fork_members (flows : SubFlowBuilder U) (i : Z) (branches : list FlowConfig)
    : res (list (forkBranch U)) :=
  match branches with
  | [] => Ok []
  | cfg :: rest =>
      flow ← wrap_err ("fork branch " ++ itoa i ++ ": ") (Member flows (fc_Name cfg) i cfg);
      rest' ← fork_members flows (i + 1) rest;
      mret (mkForkBranch (fc_Name cfg) flow :: rest')
  end.

Definition newFork (raw : Settings) deps : res (object U) :=
  branches ← DecodeStrict ["branches"] (fun m =>
    json_list "[]types.FlowConfig" decode_flow (m !! "branches")) raw;
  if Nat.eqb (List.length branches) 0 then Err (ErrMsg "fork block requires at least one branch")
  else
    flows ← SubFlowsOf deps;
    match d_Scheduler deps with
    | None => Err ErrNoScheduler
    | Some sched =>
        built ← fork_members flows 0 branches;
        mret (leaf (fork_Process sched built))
    end.

Definition newIf (raw : Settings) deps : res (object U) :=
  '(condition, thn, els) ← DecodeStrict ["condition"; "then"; "else"] (fun m =>
    c ← json_string (m !! "condition");
    t ← json_ptr decode_flow (m !! "then");
    e ← json_ptr decode_flow (m !! "else");
    mret (c, t, e)) raw;
  if String.eqb condition "" then Err (ErrMsg "if block requires a condition")
  else match thn with
    | None => Err (ErrMsg "if block requires a then flow")
    | Some thn =>
        flows ← SubFlowsOf deps;
        program ← d_Compile deps condition;
        then_ ← wrap_err "if then: " (Branch flows BranchThen thn);
        match els with
        | None => mret (leaf (if_Process program then_ None))
        | Some els =>
            e ← wrap_err "if else: " (Branch flows BranchElse els);
            mret (leaf (if_Process program then_ (Some e)))
        end
    end.

Definition decode_case (v : any) : res (string * string * list BlockConfig) :=
  json_struct "controlflow.switchCaseSettings" ["when"; "name"; "process"] (fun m =>
    w ← json_string (m !! "when");
    n ← json_string (m !! "name");
    p ← decode_chain (default ANil (m !! "process"));
    mret (w, n, p)) v.

Fixpoint switch_members (flows : SubFlowBuilder U) deps (i : Z)
    (cases : list (string * string * list BlockConfig)) : res (list (Program * processor U)) :=
  match cases with
  | [] => Ok []
  | (w, n, p) :: rest =>
      if String.eqb w "" then Err (ErrMsg ("switch case " ++ itoa i ++ " requires a when condition"))
      else
        when ← d_Compile deps w;
        flow ← wrap_err ("switch case " ++ itoa i ++ ": ") (Member flows n i (chain_flow n p));
        rest' ← switch_members flows deps (i + 1) rest;
        mret ((when, flow) :: rest')
  end.

Definition newSwitch (raw : Settings) deps : res (object U) :=
  '(cases, def) ← DecodeStrict ["cases"; "default"] (fun m =>
    c ← json_list "[]controlflow.switchCaseSettings" decode_case (m !! "cases");
    d ← json_ptr decode_flow (m !! "default");
    mret (c, d)) raw;
  if Nat.eqb (List.length cases) 0 then Err (ErrMsg "switch block requires at least one case")
  else
    flows ← SubFlowsOf deps;
    built ← switch_members flows deps 0 cases;
    match def with
    | None => mret (leaf (switch_Process built None))
    | Some def =>
        d ← wrap_err "switch default: " (Branch flows BranchDefault def);
        mret (leaf (switch_Process built (Some d)))
    end.

Fixpoint compile_vars deps (setVars : list (string * string)) : res (list (string * Program)) :=
  match setVars with
  | [] => Ok []
  | (name, expression) :: rest =>
      program ← wrap_err ("enrich setVars[" ++ quote name ++ "]: ") (d_Compile deps expression);
      rest' ← compile_vars deps rest;
      mret ((name, program) :: rest')
  end.

Definition newEnrich (raw : Settings) deps : res (object U) :=
  '(setBody, setVars, body) ← DecodeStrict ["setBody"; "setVars"; "body"] (fun m =>
    b ← json_string (m !! "setBody");
    v ← json_string_map (m !! "setVars");
    f ← json_ptr decode_flow (m !! "body");
    mret (b, v, f)) raw;
  match body with
  | None => Err (ErrMsg "enrich block requires a body flow")
  | Some body =>
      flows ← SubFlowsOf deps;
      b ← wrap_err "enrich body: " (Branch flows BranchBody body);
      sb ← (if String.eqb setBody "" then mret None
            else Some <$> wrap_err "enrich setBody: " (d_Compile deps setBody));
      sv ← compile_vars deps setVars;
      mret (leaf (enrich_Process b sb sv))
  end.

Definition foreachMapMode (mode : string) : res bool :=
  if String.eqb mode "" || String.eqb mode foreachModeIterate then Ok false
  else if String.eqb mode foreachModeMap then Ok true
  else Err (ErrMsg ("foreach block mode " ++ quote mode ++ " must be " ++
                    quote foreachModeIterate ++ " or " ++ quote foreachModeMap)).

Definition newForeach (raw : Settings) deps : res (object U) :=
  '(items, as_, mode, body) ← DecodeStrict ["items"; "as"; "mode"; "body"] (fun m =>
    i ← json_string (m !! "items");
    a ← json_string (m !! "as");
    o ← json_string (m !! "mode");
    f ← json_ptr decode_flow (m !! "body");
    mret (i, a, o, f)) raw;
  if String.eqb items "" then Err (ErrMsg "foreach block requires an items expression")
  else match body with
    | None => Err (ErrMsg "foreach block requires a body flow")
    | Some body =>
        mapMode ← foreachMapMode mode;
        flows ← SubFlowsOf deps;
        program ← d_Compile deps items;
        b ← wrap_err "foreach body: " (Branch flows BranchBody body);
        let as_ := if String.eqb as_ "" then defaultForeachVar else as_ in
        mret (leaf (foreach_Process program as_ b mapMode))
    end.

Definition buildOnReject deps (cfg : option FlowConfig) : res (option (processor U)) :=
  match cfg with
  | None => Ok None
  | Some cfg =>
      if Nat.eqb (List.length (fc_Process cfg)) 0 then Ok None
      else
        flows ← SubFlowsOf deps;
        flow ← wrap_err "onReject: " (Branch flows BranchOnReject cfg);
        mret (Some flow)
  end.

Definition decode_rule (v : any) : res (string * string) :=
  json_struct "controlflow.validateRuleSettings" ["expr"; "message"] (fun m =>
    e ← json_string (m !! "expr");
    t ← json_string (m !! "message");
    mret (e, t)) v.

Fixpoint compile_rules deps (i : Z) (rules : list (string * string)) : res (list (Program * string)) :=
  match rules with
  | [] => Ok []
  | (e, message) :: rest =>
      if String.eqb e "" then Err (ErrMsg ("validate rule " ++ itoa i ++ " requires an expr"))
      else
        program ← wrap_err ("validate rule " ++ itoa i ++ ": ") (d_Compile deps e);
        rest' ← compile_rules deps (i + 1) rest;
        mret ((program, message) :: rest')
  end.

Definition newValidate (raw : Settings) deps : res (object U) :=
  '(rules, status, onReject) ← DecodeStrict ["rules"; "rejectStatus"; "onReject"] (fun m =>
    r ← json_list "[]controlflow.validateRuleSettings" decode_rule (m !! "rules");
    s ← json_int (m !! "rejectStatus");
    f ← json_ptr decode_flow (m !! "onReject");
    mret (r, s, f)) raw;
  if Nat.eqb (List.length rules) 0 then Err (ErrMsg "validate block requires at least one rule")
  else
    built ← compile_rules deps 0 rules;
    let status := if status =? 0 then defaultValidateStatus else status in
    reject ← buildOnReject deps onReject;
    mret (leaf (validate_Process built reject status)).

(** The blocks [controlflow] registers that this file models. *)
Definition controlflow_registry : gmap string (BlockFactory U) :=
  {[ "handle-errors" := newHandleErrors; "fork" := newFork; "if" := newIf;
     "switch" := newSwitch; "foreach" := newForeach; "enrich" := newEnrich;
     "validate" := newValidate ]}.

(** ** takeover.go *)
Definition buildTakeoverResponse (kind : string) deps (cfg : option FlowConfig)
    : res (option (processor U)) :=
  flows ← SubFlowsOf deps;
  if negb (Root flows) then
    Err (ErrMsg (kind ++ " block must be a top-level block in a flow's chain, not inside another block's slot"))
  else match cfg with
    | None => Ok None
    | Some cfg =>
        if Nat.eqb (List.length (fc_Process cfg)) 0 then Ok None
        else flow ← wrap_err "buildResponse: " (Branch flows BranchBuildResponse cfg);
             mret (Some flow)
    end.

Definition applyTakeover (msg : nat) (buildResponse : option (processor U)) : M U (option nat) :=
  match buildResponse with
  | Some buildResponse =>
      out ← buildResponse msg;
      match out with
      | None => mret None
      | Some msg => update msg RequestStop ≫= fun _ => mret (Some msg)
      end
  | None => update msg RequestStop ≫= fun _ => mret (Some msg)
  end.
End factories.

(** * Lemmas *)

(** ** Every composite keeps the ownership discipline of its slots *)
Section local.
Context {U : Type}.

Lemma SetErrorVariable_local l n k name e :
  mine l n k -> owns l n (fun _ => True) (SetErrorVariable k name e : M U unit).
Proof. apply owns_update. Qed.

Lemma scope_local main alternative name :
  Local main -> Local alternative ->
  Local (scope_Process (U := U) main (Some alternative)
           (Some (fun msg e => SetErrorVariable msg name e))).
Proof.
  intros Hm Ha l n k Hk. unfold scope_Process.
  eapply owns_bind; [by apply owns_attempt, Hm|]. intros [out|e] Hr.
  - apply owns_ret. by apply Hr.
  - eapply owns_bind; [by apply SetErrorVariable_local|]. intros [] _.
    by apply owns_wrapping, Ha.
Qed.

Lemma if_local c thn els :
  Local thn -> (forall p, els = Some p -> Local p) -> Local (if_Process (U := U) c thn els).
Proof.
  intros Ht He l n k Hk. unfold if_Process.
  eapply owns_bind; [apply owns_load|]. intros m _.
  eapply owns_bind; [by apply (owns_lift l n (fun _ => True))|]. intros [] _; [by apply Ht|].
  destruct els as [p|]; [by apply (He p)|by apply owns_ret].
Qed.

Lemma switch_local cases def :
  Forall (fun c => Local c.2) cases -> (forall p, def = Some p -> Local p) ->
  Local (switch_Process (U := U) cases def).
Proof.
  intros Hc Hd l n k Hk. unfold switch_Process. generalize 0 as i.
  induction Hc as [|[w p] cases Hp _ IH]; intros i; simpl.
  { destruct def as [p|]; [by apply (Hd p)|by apply owns_ret]. }
  eapply owns_bind; [apply owns_load|]. intros m _.
  eapply owns_bind; [by apply (owns_lift l n (fun _ => True))|]. intros [] _; [by apply Hp|apply IH].
Qed.

Lemma map_loop_owns as_ body l n k items mapped :
  Local body -> mine l n k -> owns l n (fun _ => True) (map_loop (U := U) as_ body k items mapped).
Proof.
  intros Hb Hk. revert mapped. induction items as [|item items IH]; intros mapped; simpl.
  { by apply owns_ret. }
  eapply owns_bind; [by apply owns_scope|]. intros s Hs.
  eapply owns_bind; [by apply owns_update|]. intros [] _.
  eapply owns_bind; [by apply Hb|]. intros [out|] Ho; [|apply IH].
  eapply owns_bind; [apply owns_load|]. intros m _.
  destruct (StopRequested m); [by apply owns_ret|apply IH].
Qed.

Lemma iterate_loop_owns as_ body prev l n k items :
  Local body -> mine l n k -> owns l n (mine_out l n) (iterate_loop (U := U) as_ body prev items k).
Proof.
  intros Hb. revert k. induction items as [|item items IH]; intros k Hk; simpl.
  { eapply owns_bind; [by apply owns_update|]. intros. by apply owns_ret. }
  eapply owns_bind; [by apply owns_update|]. intros [] _.
  eapply owns_bind; [by apply Hb|]. intros [out|] Ho; [|by apply owns_ret].
  eapply owns_bind; [apply owns_load|]. intros m _.
  destruct (StopRequested m); [by apply owns_ret|by apply IH].
Qed.

Lemma foreach_local items as_ body mode :
  Local body -> Local (foreach_Process (U := U) items as_ body mode).
Proof.
  intros Hb l n k Hk. unfold foreach_Process.
  eapply owns_bind; [apply owns_load|]. intros m _.
  eapply owns_bind; [by apply (owns_lift l n (fun _ => True))|]. intros v _.
  destruct v; try apply owns_fail. destruct mode.
  - unfold mapItems. eapply owns_bind; [by apply map_loop_owns|]. intros [mapped stopped] _.
    eapply owns_bind; [by apply owns_update|]. intros [] _.
    eapply owns_bind; [|by intros; apply owns_ret].
    destruct stopped; [by apply owns_update|by apply (owns_ret l n (fun _ => True))].
  - unfold iterate. eapply owns_bind; [apply owns_load|]. intros m' _. by apply iterate_loop_owns.
Qed.

Lemma enrich_vars_owns vars act l n k :
  mine l n k -> owns l n (fun _ => True) (enrich_vars (U := U) vars act k).
Proof.
  intros Hk. induction vars as [|[name p] vars IH]; simpl; [by apply owns_ret|].
  eapply owns_bind; [by apply (owns_lift l n (fun _ => True))|]. intros v _.
  eapply owns_bind; [by apply owns_update|]. by intros.
Qed.

Lemma stop_owns l n k (b : bool) :
  mine l n k -> owns l n (fun _ => True) (if b then update k RequestStop else mret tt : M U unit).
Proof. intros Hk. destruct b; [by apply owns_update|by apply (owns_ret l n (fun _ => True))]. Qed.

Lemma enrich_local body sb sv : Local body -> Local (enrich_Process (U := U) body sb sv).
Proof.
  intros Hb l n k Hk. unfold enrich_Process.
  eapply owns_bind; [by apply owns_scope|]. intros s Hs.
  eapply owns_bind; [by apply Hb|]. intros [out|] Ho; [|by apply owns_ret].
  eapply owns_bind; [apply owns_load|]. intros act _.
  eapply (owns_bind _ _ (fun _ => True)).
  { destruct sb as [p|]; [|by apply owns_ret].
    eapply owns_bind; [by apply (owns_lift l n (fun _ => True))|]. intros. by apply owns_update. }
  intros _ _. eapply owns_bind; [by apply enrich_vars_owns|]. intros _ _.
  eapply owns_bind; [by apply stop_owns|]. intros _ _. by apply owns_ret.
Qed.

Lemma clones_owns branches l n k :
  owns l n (Forall (fun t => mine l n t.2)) (clones (U := U) k branches).
Proof.
  induction branches as [|b branches IH]; simpl; [by apply owns_ret|].
  eapply owns_bind; [apply owns_clone|]. intros c Hc.
  eapply owns_bind; [done|]. intros cs Hcs. apply owns_ret. by constructor.
Qed.

Lemma clones_branches branches k w w' ts :
  clones (U := U) k branches w = (w', Ok ts) -> ts.*1 = branches.
Proof.
  revert w w' ts. induction branches as [|b branches IH]; intros w w' ts; simpl; [by intros [= _ <-]|].
  intros (w1 & c & _ & H)%SM_bind_inv_ok.
  apply SM_bind_inv_ok in H as (w2 & cs & Hcs & H). injection H as _ <-. simpl. f_equal. by eapply IH.
Qed.

Lemma run_tasks_owns l n tasks e b :
  Forall (fun t => Local (br_flow t.1) /\ mine l n t.2) tasks ->
  owns l n (fun _ => True) (run_tasks (U := U) tasks e b).
Proof.
  intros H. revert e b. induction H as [|[br c] tasks [Hl Hc] _ IH]; intros e b; simpl.
  { by apply owns_ret. }
  eapply owns_bind; [by apply owns_attempt, Hl|]. intros r Hr.
  eapply owns_bind; [apply owns_load|]. intros m _.
  eapply (owns_bind _ _ (fun _ => True)).
  - destruct r as [[out|]|err]; try by apply owns_ret.
    eapply owns_bind; [apply owns_load|]. intros. by apply owns_ret.
  - intros o _. apply IH.
Qed.

Lemma fork_local sched branches :
  Forall (fun b => Local (br_flow b)) branches -> Local (fork_Process (U := U) sched branches).
Proof.
  intros Hb l n k Hk. unfold fork_Process.
  eapply (owns_bind _ _ (fun ts => ts.*1 = branches /\ Forall (fun t => mine l n t.2) ts)).
  { intros w Hn. destruct (clones_owns branches l n k w Hn) as (H1 & H2 & H3).
    split_and!; [done|done|]. intros ts Hts. split; [|by apply H3].
    eapply clones_branches. rewrite <-Hts. by rewrite <-surjective_pairing. }
  intros ts [<- Hts]. eapply owns_bind.
  { apply run_tasks_owns. apply Forall_forall. intros t Ht.
    apply list_elem_of_omap in Ht as (i & _ & Hi). rewrite Forall_fmap in Hb.
    rewrite Forall_forall in Hb, Hts. apply list_elem_of_lookup_2 in Hi. split; [by apply Hb|by apply Hts]. }
  intros [[e|] stop] _; [apply owns_fail|].
  eapply owns_bind; [by apply stop_owns|]. intros _ _. by apply owns_ret.
Qed.

Lemma applyReject_owns l n k onReject status body :
  (forall p, onReject = Some p -> Local p) -> mine l n k ->
  owns l n (mine_out l n) (applyReject (U := U) k onReject status body).
Proof.
  intros Hr Hk. unfold applyReject. destruct onReject as [p|].
  - eapply owns_bind; [by apply (Hr p)|]. intros [out|] Ho; [|by apply owns_ret].
    eapply owns_bind; [by apply owns_update|]. intros. by apply owns_ret.
  - do 3 (eapply owns_bind; [by apply owns_update|]; intros _ _). by apply owns_ret.
Qed.

Lemma validate_local rules onReject status :
  (forall p, onReject = Some p -> Local p) -> Local (validate_Process (U := U) rules onReject status).
Proof.
  intros Hr l n k Hk. unfold validate_Process.
  eapply owns_bind; [apply owns_load|]. intros m _.
  eapply owns_bind; [by apply (owns_lift l n (fun _ => True))|]. intros [|f fs] _.
  { by apply owns_ret. }
  eapply owns_bind; [by apply owns_update|]. intros _ _. by apply applyReject_owns.
Qed.
End local.

(** ** What the composites leave in the message *)
Section effects.
Context {U : Type}.
Implicit Types w : world U.

Lemma peek_update w l f k :
  peek (update l f w).1 k = if decide (k = l) then f (peek w l) else peek w k.
Proof.
  unfold update, peek. cbn [fst heap with_heap]. destruct (decide (k = l)) as [->|Hk].
  - by rewrite lookup_insert_eq.
  - by rewrite lookup_insert_ne.
Qed.

Lemma scope_msg_spec l w :
  (l < next w)%nat ->
  exists w1, scope_msg l w = (w1, Ok (next w)) /\ next w1 = S (next w) /\
    peek w1 (next w) = set_shared true (peek w l) /\
    peek w1 l = set_shared true (peek w l) /\
    (forall k, k ≠ l -> k ≠ next w -> heap w1 !! k = heap w !! k).
Proof.
  intros Hl. eexists. split; [reflexivity|]. split; [done|].
  unfold peek. cbn [heap next with_heap]. split_and!.
  - by rewrite lookup_insert_eq.
  - rewrite lookup_insert_ne by lia. by rewrite lookup_insert_eq.
  - intros k H1 H2. rewrite lookup_insert_ne by done. by rewrite lookup_insert_ne.
Qed.

(** A body run on a scope leaves every older message alone. *)
Lemma local_call_frame (p : processor U) s w k :
  Local p -> (k < s)%nat -> (s <= next w)%nat -> heap (p s w).1 !! k = heap w !! k /\
  (next w <= next (p s w).1)%nat /\
  (forall out, (p s w).2 = Ok (Some out) -> (s <= out)%nat).
Proof.
  intros Hp Hk Hs. destruct (Hp s s s (mine_refl s s) w Hs) as (H1 & H2 & H3).
  split_and!; [|done|].
  - apply H2. intros [->|?]; lia.
  - intros out Ho. destruct (H3 _ Ho); lia.
Qed.

Lemma enrich_vars_peek vars act l w w' :
  NoDup vars.*1 ->
  enrich_vars vars act l w = (w', Ok tt) ->
  exists kvs, Forall2 (fun np kv => np.1 = kv.1 /\ np.2 act = Ok kv.2) vars kvs /\
    peek w' l = set_vars (fun vs => list_to_map kvs ∪ vs) (peek w l).
Proof.
  intros Hnd. revert w. induction vars as [|[name p] vars IH]; intros w; simpl.
  { intros [= <-]. exists []. split; [constructor|].
    unfold set_vars. simpl. rewrite (left_id_L ∅ (∪)). by destruct (peek w l). }
  apply NoDup_cons in Hnd as [Hn Hnd].
  intros (w1 & v & Hv & H)%SM_bind_inv_ok. unfold lift in Hv. injection Hv as <- Hv.
  assert (p act = Ok v) as Hp by (by destruct (p act); simplify_eq/=).
  apply SM_bind_inv_ok in H as (w2 & [] & H2 & H).
  destruct (IH Hnd _ H) as (kvs & Hkvs & Hpk).
  exists ((name, v) :: kvs). split; [by constructor|]. rewrite Hpk.
  assert (w2 = (update l (set_var name v) w).1) as -> by by rewrite H2.
  rewrite peek_update, decide_True by done. unfold set_var, set_vars, Variables.Set_. simpl.
  f_equal.
  assert (name ∉ kvs.*1) as Hn'.
  { intros Hin. apply Hn. clear -Hkvs Hin. induction Hkvs as [|[] [] ? ? [] _ IH]; simpl in *; set_solver. }
  apply map_eq. intros k. destruct (decide (k = name)) as [->|Hk].
  - rewrite !lookup_union, !lookup_insert_eq.
    rewrite (not_elem_of_list_to_map_1 _ _ Hn'). by destruct (Vars (peek w l) !! name).
  - rewrite !lookup_union. by rewrite !lookup_insert_ne.
Qed.
(** One element of a map-mode loop: its body ran on a scope of the original
    message with the element bound, and [v] is what it contributed. *)
Definition mapped_from (as_ : string) (body : processor U) (m0 : Message) (item v : any) : Prop :=
  exists s w1, peek w1 s = set_var as_ item (set_shared true m0) /\
    match body s w1 with
    | (w2, Ok (Some out)) => v = Body (peek w2 out)
    | (_, Ok None) => v = ANil
    | (_, Err _) => False
    end.

Lemma map_loop_spec as_ (body : processor U) l m0 items mapped0 w w' mapped stopped :
  Local body -> (l < next w)%nat ->
  set_shared true (peek w l) = set_shared true m0 ->
  map_loop as_ body l items mapped0 w = (w', Ok (mapped, stopped)) ->
  set_shared true (peek w' l) = set_shared true m0 /\
  exists vs, mapped = (mapped0 ++ vs)%list /\
    Forall2 (mapped_from as_ body m0) (take (List.length vs) items) vs /\
    (stopped = false -> List.length vs = List.length items).
Proof.
  intros Hb. revert w mapped0. induction items as [|item items IH]; intros w mapped0 Hl Hm H; simpl in H.
  { injection H as <- <- <-. split; [done|]. exists []. rewrite app_nil_r. by repeat constructor. }
  destruct (scope_msg_spec l w Hl) as (w1 & Hs & Hn & Hps & Hpl & _).
  rewrite (SM_bind_ok _ _ _ _ _ Hs) in H.
  apply SM_bind_inv_ok in H as (w2 & [] & Hu & H).
  assert (w2 = (update (next w) (set_var as_ item) w1).1) as Hw2 by by rewrite Hu.
  assert (peek w2 (next w) = set_var as_ item (set_shared true m0)) as Hp2.
  { rewrite Hw2, peek_update, decide_True by done. by rewrite Hps, Hm. }
  assert (peek w2 l = set_shared true (peek w l)) as Hp2l.
  { rewrite Hw2, peek_update, decide_False by lia. done. }
  assert (next w2 = S (next w)) as Hn2 by by rewrite Hw2.
  apply SM_bind_inv_ok in H as (w3 & out & Ho & H).
  destruct (local_call_frame body (next w) w2 l Hb) as (Hf & Hnx & _); [lia|lia|].
  rewrite Ho in Hf, Hnx. simpl in Hf, Hnx.
  assert (set_shared true (peek w3 l) = set_shared true m0) as Hp3.
  { unfold peek at 1. rewrite Hf. fold (peek w2 l). by rewrite Hp2l, <-Hm. }
  assert (forall v, match body (next w) w2 with
    | (w2, Ok (Some out)) => v = Body (peek w2 out) | (_, Ok None) => v = ANil
    | (_, Err _) => False end -> mapped_from as_ body m0 item v) as Hone.
  { intros v Hv. by exists (next w), w2. }
  rewrite Ho in Hone. destruct out as [out|].
  - apply SM_bind_inv_ok in H as (w4 & m & Hmm & H). injection Hmm as <- <-.
    destruct (StopRequested (peek w3 out)).
    + injection H as <- <- <-. split; [done|]. exists [Body (peek w3 out)].
      split_and!; [done| |done]. simpl. constructor; [by apply Hone|]. by destruct items.
    + destruct (IH w3 _ ltac:(lia) Hp3 H) as (Hp & vs & -> & HF & Hlen).
      split; [done|]. exists (Body (peek w3 out) :: vs). rewrite <-app_assoc.
      split_and!; [done| |simpl; intros ?; f_equal; auto]. simpl. constructor; [by apply Hone|done].
  - destruct (IH w3 _ ltac:(lia) Hp3 H) as (Hp & vs & -> & HF & Hlen).
    split; [done|]. exists (ANil :: vs). rewrite <-app_assoc.
    split_and!; [done| |simpl; intros ?; f_equal; auto]. simpl. constructor; [by apply Hone|done].
Qed.

Lemma iterate_loop_spec as_ (body : processor U) prev items l w w' r :
  iterate_loop as_ body prev items l w = (w', Ok (Some r)) ->
  StopRequested (peek w' r) = true \/ Vars (peek w' r) !! as_ = prev.
Proof.
  revert l w. induction items as [|item items IH]; intros l w H; simpl in H.
  - apply SM_bind_inv_ok in H as (w1 & [] & Hu & H). injection H as <- <-.
    assert (w1 = (update l (restore_var as_ prev) w).1) as -> by by rewrite Hu.
    rewrite peek_update, decide_True by done. right. destruct prev; simpl.
    + apply Vars_set_var_eq.
    + by rewrite lookup_delete_eq.
  - apply SM_bind_inv_ok in H as (w1 & [] & _ & H).
    apply SM_bind_inv_ok in H as (w2 & out & _ & H). destruct out as [out|]; [|by simplify_eq/=].
    apply SM_bind_inv_ok in H as (w3 & m & Hm & H). injection Hm as <- <-.
    destruct (StopRequested (peek w2 out)) eqn:Hst; [|by eapply IH].
    injection H as <- <-. by left.
Qed.

(** What each submitted branch came to, run in order. *)
Fixpoint task_results (tasks : list (forkBranch U * nat)) w
    : list (string * res (option nat) * bool) :=
  match tasks with
  | [] => []
  | (br, c) :: rest =>
      let '(w', r) := br_flow br c w in
      (br_name br, r, StopRequested (peek w' c)
         || match r with Ok (Some out) => StopRequested (peek w' out) | _ => false end)
      :: task_results rest w'
  end.

Definition first_failure (rs : list (string * res (option nat) * bool)) : option goerr :=
  head (omap (fun r => match r.1.2 with
                       | Err e => Some (ErrWrap ("fork branch " ++ quote r.1.1 ++ ": ") e "")
                       | Ok _ => None end) rs).

Lemma run_tasks_spec tasks e b w :
  exists w', run_tasks tasks e b w =
    (w', Ok (match e with Some _ => e | None => first_failure (task_results tasks w) end,
             b || existsb (fun r => r.2) (task_results tasks w))).
Proof.
  revert e b w. induction tasks as [|[br c] tasks IH]; intros e b w; simpl.
  { exists w. rewrite orb_false_r. by destruct e. }
  unfold mbind, M_bind, SM_bind, attempt, load, mret, M_ret, SM_ret.
  destruct (br_flow br c w) as [w1 [[out|]|err]]; cbn [fst snd];
    (edestruct IH as [w' Hw']; exists w'; rewrite Hw'; simpl;
     rewrite ?orb_false_r, <-!orb_assoc; f_equal; f_equal).
  all: by destruct e.
Qed.
End effects.

(** * Properties *)

(** An enrich runs its body on a scope of the message holding the same
    content, and folds back exactly what it names: on success it hands on the
    message it was given, whose body is the value of setBody over the body
    flow's result (untouched without one), whose variables are its own overlaid
    with the values of setVars over that result, whatever order they were
    evaluated in, and which asks the flow to stop when that result does. *)
Theorem enrich_folds_back {U} (body : processor U) sb sv l w w' r :
  Local body -> (l < next w)%nat -> NoDup sv.*1 ->
  enrich_Process body sb sv l w = (w', Ok (Some r)) ->
  exists w1 w2 out kvs m1,
    peek w1 (next w) = set_shared true (peek w l) /\
    body (next w) w1 = (w2, Ok (Some out)) /\
    Forall2 (fun np kv => np.1 = kv.1 /\ np.2 (peek w2 out) = Ok kv.2) sv kvs /\
    match sb with
    | None => m1 = set_shared true (peek w l)
    | Some p => exists v, p (peek w2 out) = Ok v /\ m1 = SetBody v (set_shared true (peek w l))
    end /\
    r = l /\
    peek w' l = (if StopRequested (peek w2 out) then RequestStop else fun m => m)
                  (set_vars (fun vs => list_to_map kvs ∪ vs) m1).
Proof.
  intros Hb Hl Hnd H. unfold enrich_Process in H.
  destruct (scope_msg_spec l w Hl) as (w1 & Hs & Hn & Hps & Hpl & _).
  rewrite (SM_bind_ok _ _ _ _ _ Hs) in H.
  apply SM_bind_inv_ok in H as (w2 & out & Ho & H). destruct out as [out|]; [|by simplify_eq/=].
  destruct (local_call_frame body (next w) w1 l Hb) as (Hf & _ & _); [lia|lia|].
  rewrite Ho in Hf. cbn [fst] in Hf.
  assert (peek w2 l = set_shared true (peek w l)) as Hp2 by (unfold peek at 1; rewrite Hf; done).
  apply SM_bind_inv_ok in H as (w3 & act & Ha & H). injection Ha as <- <-.
  apply SM_bind_inv_ok in H as (w4 & [] & Hsb & H).
  apply SM_bind_inv_ok in H as (w5 & [] & Hsv & H).
  apply SM_bind_inv_ok in H as (w6 & [] & Hst & H). injection H as <- <-.
  destruct (enrich_vars_peek _ _ _ _ _ Hnd Hsv) as (kvs & Hkvs & Hp5).
  exists w1, w2, out, kvs, (peek w4 l). split_and!; try done.
  - destruct sb as [p|]; [|by injection Hsb as <-].
    apply SM_bind_inv_ok in Hsb as (w4' & v & Hv & Hu). injection Hv as <- Hv.
    exists v. split; [by destruct (p (peek w2 out)); simplify_eq/=|].
    assert (w4 = (update l (SetBody v) w2).1) as -> by by rewrite Hu.
    by rewrite peek_update, decide_True, Hp2 by done.
  - rewrite <-Hp5. destruct (StopRequested (peek w2 out)).
    + assert (w6 = (update l RequestStop w5).1) as -> by by rewrite Hst.
      by rewrite peek_update, decide_True by done.
    + by injection Hst as <-.
Qed.

Definition world0 {U} (u : U) (m : Message) : world U :=
  mkWorld {[ 0%nat := m ]} 1 (fun _ => None) 0 (fun _ => 0) 0 u (mkObserved [] 0 0).

Definition set_b : processor unit := fun l =>
  update l (SetBody (AStr "b")) ≫= fun _ => mret (Some l).
#[global] Instance set_b_local : Local set_b.
Proof. intros l n k Hk. eapply owns_bind; [by apply owns_update|]. intros. by apply owns_ret. Qed.
Definition read_body : Program := fun m => Ok (Body m).

Lemma enrich_folds_back_witness :
  exists w', enrich_Process set_b None [("got", read_body)] 0%nat (world0 tt zeroMessage)
    = (w', Ok (Some 0%nat)) /\
  exists kvs, kvs = [("got", AStr "b")] /\
    peek w' 0 = set_vars (fun vs => list_to_map kvs ∪ vs) (set_shared true zeroMessage).
Proof.
  eexists. split; [vm_compute; reflexivity|].
  edestruct (enrich_folds_back set_b None [("got", read_body)] 0%nat (world0 tt zeroMessage))
    as (w1 & w2 & out & kvs & m1 & H1 & H2 & H3 & -> & _ & H5).
  - apply set_b_local.
  - vm_compute. lia.
  - apply NoDup_singleton.
  - vm_compute. reflexivity.
  - exists [("got", AStr "b")]. split; [reflexivity|vm_compute; reflexivity].
Defined.

(** A map-mode foreach is positional and isolated: on success it hands on
    the message it was given, its body an array whose elements are, one for one
    and in order, what the body flow made of each item on a scope of the
    original message — null for an item whose run was dropped — cut short only
    when an element asked the flow to stop, which the message then does too; no
    other variable of the message changes. *)
Theorem foreach_map_positional {U} as_ (body : processor U) l items w w' r :
  Local body -> (l < next w)%nat ->
  mapItems as_ body l items w = (w', Ok (Some r)) ->
  r = l /\
  exists vs, Body (peek w' l) = AArr vs /\
    Forall2 (mapped_from as_ body (peek w l)) (take (List.length vs) items) vs /\
    (List.length vs = List.length items \/ StopRequested (peek w' l) = true) /\
    (forall k, k ≠ stopVar -> Vars (peek w' l) !! k = Vars (peek w l) !! k).
Proof.
  intros Hb Hl H. unfold mapItems in H.
  apply SM_bind_inv_ok in H as (w1 & [mapped stopped] & Hm & H).
  destruct (map_loop_spec _ _ _ _ _ _ _ _ _ _ Hb Hl eq_refl Hm) as (Hp & vs & -> & HF & Hlen).
  apply SM_bind_inv_ok in H as (w2 & [] & Hu & H).
  assert (peek w2 l = SetBody (AArr vs) (peek w1 l)) as Hp2.
  { cbn [app] in Hu. assert (w2 = (update l (SetBody (AArr vs)) w1).1) as -> by (by rewrite Hu).
    by rewrite peek_update, decide_True by done. }
  apply SM_bind_inv_ok in H as (w3 & [] & Hst & H). injection H as <- <-.
  assert (Vars (peek w1 l) = Vars (peek w l)) as Hv.
  { apply (f_equal Vars) in Hp. exact Hp. }
  split; [done|]. exists vs. destruct stopped.
  - assert (peek w3 l = RequestStop (peek w2 l)) as Hp3.
    { assert (w3 = (update l RequestStop w2).1) as -> by (by rewrite Hst).
      by rewrite peek_update, decide_True by done. }
    rewrite Hp3, Hp2. split_and!; [done|done|right; apply StopRequested_RequestStop|].
    intros k Hk. unfold RequestStop. rewrite Vars_set_var_ne by done. by rewrite <-Hv.
  - injection Hst as <-. rewrite Hp2. split_and!; [done|done|left; by apply Hlen|].
    intros k Hk. by rewrite <-Hv.
Qed.

Definition wrap_item : processor unit := fun l =>
  m ← load l;
  match Vars m !! "item" with
  | Some v => update l (SetBody (AArr [v])) ≫= fun _ => mret (Some l)
  | None => mret None
  end.
#[global] Instance wrap_item_local : Local wrap_item.
Proof.
  intros l n k Hk. unfold wrap_item. eapply owns_bind; [apply owns_load|]. intros m _.
  destruct (Vars m !! "item") as [v|]; [|by apply owns_ret].
  eapply owns_bind; [by apply owns_update|]. intros. by apply owns_ret.
Qed.

Lemma foreach_map_positional_witness :
  exists w', mapItems "item" wrap_item 0%nat [ABool true; ANil] (world0 tt zeroMessage)
    = (w', Ok (Some 0%nat)) /\
  exists vs, Body (peek w' 0) = AArr vs /\ vs = [AArr [ABool true]; AArr [ANil]].
Proof.
  eexists. split; [vm_compute; reflexivity|].
  edestruct (foreach_map_positional "item" wrap_item 0%nat [ABool true; ANil] (world0 tt zeroMessage))
    as (_ & vs & Hb & _).
  - apply wrap_item_local.
  - vm_compute. lia.
  - vm_compute. reflexivity.
  - exists vs. split; [exact Hb|]. vm_compute in Hb. by injection Hb as <-.
Defined.

(** An iterating foreach puts its loop variable back: when the loop ran to
    its end without the body asking the flow to stop, the message it hands on
    has the loop variable exactly as the message that came in had it. *)
Theorem foreach_iterate_restores {U} as_ (body : processor U) l items w w' r :
  iterate as_ body l items w = (w', Ok (Some r)) ->
  StopRequested (peek w' r) = false ->
  Vars (peek w' r) !! as_ = Vars (peek w l) !! as_.
Proof.
  intros H Hs. apply SM_bind_inv_ok in H as (w1 & m & Hm & H). injection Hm as <- <-.
  apply iterate_loop_spec in H as [H|H]; [congruence|done].
Qed.

Lemma foreach_iterate_restores_witness :
  exists w', iterate (U := unit) "item" (fun l => mret (Some l)) 0%nat [ABool true; ANil]
    (world0 tt (set_var "item" (AInt 3) zeroMessage)) = (w', Ok (Some 0%nat)) /\
  Vars (peek w' 0) !! "item" = Some (AInt 3).
Proof.
  eexists. split; [reflexivity|].
  refine (foreach_iterate_restores (U := unit) "item" (fun l => mret (Some l)) 0%nat [ABool true; ANil]
    (world0 tt (set_var "item" (AInt 3) zeroMessage)) _ 0%nat _ _); vm_compute; reflexivity.
Defined.

(** A fork passes its message through: it fails with the first branch
    failure in the order the pool ran the branches, named after the branch;
    otherwise it hands on the message it was given, changed in nothing except
    that it asks the flow to stop exactly when some branch did, on its clone or
    on its result. *)
Theorem fork_passes_through {U} sched (branches : list (forkBranch U)) l w :
  Forall (fun b => Local (br_flow b)) branches -> (l < next w)%nat ->
  exists w1 w' tasks, clones l branches w = (w1, Ok tasks) /\ tasks.*1 = branches /\
  let results := task_results (omap (fun i => tasks !! i) (sched (List.length tasks))) w1 in
  match first_failure results with
  | Some e => fork_Process sched branches l w = (w', Err e)
  | None => fork_Process sched branches l w = (w', Ok (Some l)) /\
      peek w' l = (if existsb (fun r => r.2) results then RequestStop else fun m => m) (peek w l)
  end.
Proof.
  intros Hb Hl.
  assert (exists w1 tasks, clones l branches w = (w1, Ok tasks)) as (w1 & tasks & Hc).
  { clear. revert w. induction branches as [|b bs IH]; intros w; simpl; [by eexists _, _|].
    unfold clone_msg, load, alloc, mbind, M_bind, SM_bind.
    match goal with |- context [clones l bs ?w'] => destruct (IH w') as (w1 & ts & ->) end.
    by eexists _, _. }
  destruct (clones_owns branches (next w) (next w) l w (Nat.le_refl _)) as (Hn1 & Hf1 & Ht).
  rewrite Hc in Hn1, Hf1, Ht. cbn [fst snd] in Hn1, Hf1, Ht. specialize (Ht _ eq_refl).
  pose proof (clones_branches _ _ _ _ _ Hc) as Hbr.
  exists w1. unfold fork_Process. rewrite (SM_bind_ok _ _ _ _ _ Hc).
  set (order := omap _ _). destruct (run_tasks_spec order None false w1) as [w2 Hr].
  rewrite (SM_bind_ok _ _ _ _ _ Hr).
  assert (peek w2 l = peek w l) as Hp.
  { assert (Forall (fun t => Local (br_flow t.1) /\ mine (next w) (next w) t.2) order) as Ho.
    { apply Forall_forall. intros t (i & _ & Hi)%list_elem_of_omap.
      apply list_elem_of_lookup_2 in Hi. rewrite <-Hbr, Forall_fmap in Hb.
      rewrite Forall_forall in Hb, Ht. split; [by apply Hb|by apply Ht]. }
    destruct (run_tasks_owns (next w) (next w) order None false Ho w1 Hn1) as (_ & Hf2 & _).
    rewrite Hr in Hf2. cbn [fst] in Hf2. unfold peek.
    rewrite Hf2, Hf1; [done|..]; intros [?|?]; lia. }
  cbn [orb]. destruct (first_failure (task_results order w1)) as [e|] eqn:He.
  - exists w2, tasks. split_and!; [done|done|]. fold order. by rewrite He.
  - destruct (existsb _ (task_results order w1)) eqn:Hx.
    + exists (update l RequestStop w2).1, tasks. split_and!; [done|done|]. fold order.
      rewrite He, Hx. split; [done|]. by rewrite peek_update, decide_True, Hp by done.
    + exists w2, tasks. split_and!; [done|done|]. fold order. by rewrite He, Hx.
Qed.

Definition stop_block : processor unit := fun l => update l RequestStop ≫= fun _ => mret None.
#[global] Instance stop_block_local : Local stop_block.
Proof. intros l n k Hk. eapply owns_bind; [by apply owns_update|]. intros. by apply owns_ret. Qed.

Lemma fork_passes_through_witness :
  exists w', fork_Process (fun n => rev (seq 0 n))
    [mkForkBranch "a" set_b; mkForkBranch "b" stop_block] 0%nat (world0 tt zeroMessage)
    = (w', Ok (Some 0%nat)) /\ peek w' 0 = RequestStop zeroMessage.
Proof.
  edestruct (fork_passes_through (fun n => rev (seq 0 n))
    [mkForkBranch "a" set_b; mkForkBranch "b" stop_block] 0%nat (world0 tt zeroMessage))
    as (w1 & w' & tasks & Hc & _ & H).
  - apply Forall_cons. split; [apply set_b_local|].
    apply Forall_cons. split; [apply stop_block_local|constructor].
  - vm_compute. lia.
  - exists w'. cbv zeta in H. unfold clones, mbind, M_bind, SM_bind in Hc.
    cbn [clone_msg mbind M_bind SM_bind load alloc mret M_ret SM_ret] in Hc.
    injection Hc as <- <-.
    match type of H with context [first_failure ?x] =>
      replace (first_failure x) with (@None goerr) in H by (vm_compute; reflexivity) end.
    destruct H as [H1 H2]. split; [exact H1|]. rewrite H2.
    match goal with |- context [existsb ?f ?x] =>
      replace (existsb f x) with true by (vm_compute; reflexivity) end.
    reflexivity.
Defined.

(** Handle-errors tells its error chain which block failed: when its process
    chain fails, the error chain runs, in the world the failing chain left, on
    the message the block was given with vars.error holding the error's text,
    the handler's name and the label of the block of the process chain whose
    failure it is; the error chain's outcome is the block's. *)
Theorem handle_errors_names_block {U} (main : Flow U) alternative name l w w1 e :
  Process main l w = (w1, Err e) ->
  exists b e', b ∈ f_Blocks main /\ e = ErrBlock (blockLabel (b_Type b) (b_Name b)) e' /\
  scope_Process (Process main) (Some alternative)
    (Some (fun msg e => SetErrorVariable msg name e)) l w
  = wrapping "scope alternative: " (alternative l)
      (update l (set_var ErrorVariable
        (AMap {[ "message" := AStr (error_text e); "flow" := AStr name;
                 "block" := AStr (blockLabel (b_Type b) (b_Name b)) ]})) w1).1.
Proof.
  intros H. destruct (process_blocks_err _ _ _ _ _ _ H) as (b & e' & Hb & -> & _).
  exists b, e'. split_and!; [done|done|].
  unfold scope_Process, mbind, M_bind, SM_bind, attempt. by rewrite H.
Qed.

Definition failing_block : Block unit :=
  mkBlock "charge" "rest" "f.charge" (fun _ => fail (ErrMsg "down")) None None.
Lemma handle_errors_names_block_witness :
  exists w1 b, Process (mkFlow "" [failing_block] "f" None) 0%nat (world0 tt zeroMessage)
    = (w1, Err (ErrBlock (blockLabel (b_Type b) (b_Name b)) (ErrMsg "down"))) /\
  b ∈ [failing_block].
Proof.
  edestruct (handle_errors_names_block (mkFlow "" [failing_block] "f" None)
    (fun l => mret (Some l)) "guard" 0%nat (world0 tt zeroMessage)) as (b & e' & Hb & He & _).
  - vm_compute. reflexivity.
  - eexists _, b. split; [|exact Hb]. injection He as <- <-. vm_compute. reflexivity.
Defined.

(** A validate block reports every rule that failed and nothing else: when
    every rule evaluates to a bool, a message all rules hold of passes through
    untouched, and any other is rejected with the messages of exactly the rules
    that do not hold, in order, in vars.validationErrors and — with no onReject
    chain — in the built-in body, with the configured status, asking the flow to
    stop. *)
Theorem validate_reports_failures {U} (rules : list (Program * string)) status l (w : world U) verdicts :
  Forall2 (fun r v => EvalCondition r.1 (peek w l) = Ok v) rules verdicts ->
  let failures := AStr <$> (filter (fun rv => rv.2 = false) (zip rules verdicts)).*1.*2 in
  exists w', validate_Process rules None status l w = (w', Ok (Some l)) /\
  (failures = [] -> w' = w) /\
  (failures ≠ [] -> StopRequested (peek w' l) = true /\
     Vars (peek w' l) !! httpStatusVar = Some (AInt status) /\
     Vars (peek w' l) !! validationErrorsVar = Some (AArr failures) /\
     Body (peek w' l) = AMap {[ "error" := AStr "validation_failed"; "messages" := AArr failures ]}).
Proof.
  intros H failures.
  assert (forall i, validate_rules i rules (peek w l) = Ok failures) as Hv.
  { subst failures. induction H as [|[p m] v rules verdicts Hr _ IH]; intros i; simpl; [done|].
    simpl in Hr. rewrite Hr. simpl. rewrite IH. rewrite filter_cons. simpl.
    by destruct v. }
  unfold validate_Process, mbind, M_bind, SM_bind, load, lift. rewrite Hv.
  destruct failures as [|f fs]; [by exists w|].
  exists (update l RequestStop (update l (SetBody
      (AMap {[ "error" := AStr "validation_failed"; "messages" := AArr (f :: fs) ]}))
    (update l (set_var httpStatusVar (AInt status))
      (update l (set_var validationErrorsVar (AArr (f :: fs))) w).1).1).1).1.
  split; [reflexivity|]. split; [done|]. intros _.
  rewrite !peek_update, !decide_True by done. split_and!.
  - apply StopRequested_RequestStop.
  - unfold RequestStop. rewrite Vars_set_var_ne by done. apply Vars_set_var_eq.
  - unfold RequestStop. rewrite Vars_set_var_ne by done. cbn [Vars SetBody set_body].
    rewrite Vars_set_var_ne by done. apply Vars_set_var_eq.
  - done.
Qed.

Definition is_text : Program := fun m => Ok (ABool (match Body m with AStr _ => true | _ => false end)).
Definition is_nil_body : Program := fun m => Ok (ABool (is_nil (Body m))).
Lemma validate_reports_failures_witness :
  exists w', validate_Process [(is_text, "want text"); (is_nil_body, "want nil"); (is_text, "again")]
    None 422 0%nat (world0 tt zeroMessage) = (w', Ok (Some 0%nat)) /\
  Vars (peek w' 0) !! validationErrorsVar = Some (AArr [AStr "want text"; AStr "again"]).
Proof.
  edestruct (validate_reports_failures
    [(is_text, "want text"); (is_nil_body, "want nil"); (is_text, "again")] 422 0%nat
    (world0 tt zeroMessage) [false; true; false]) as (w' & H1 & _ & H2).
  - repeat constructor.
  - exists w'. split; [exact H1|]. apply H2. discriminate.
Defined.


(** A processor definition whose own chain refers back to it never builds:
    whatever fuel the builder is given, the build of a block with that ref ends
    at the end of its fuel, so in Go, which has none, it recurses until the
    stack overflows. *)
Theorem self_reference_never_builds {U} fuel (b : builder U) name s err :
  bu_reg b !! "handle-errors" = Some newHandleErrors ->
  name ≠ "" ->
  bu_defs b !! name = Some (mkProcessorConfig name "handle-errors" s) ->
  decode_handle_errors s = Ok ([mkBlockConfig "" "" name ∅], err) ->
  err ≠ [] ->
  exists e, b_flow fuel b (chain_flow "" [mkBlockConfig "" "" name ∅]) = Err e /\
    error_is e out_of_fuel = true.
Proof.
  intros Hreg Hn Hdef Hdec Herr. revert b Hreg Hdef.
  induction fuel as [|fuel IH]; intros b Hreg Hdef.
  { exists out_of_fuel. split; [done|]. by vm_compute. }
  unfold b_flow. cbn [b_flow_from]. fold (b_flow (U := U) fuel).
  set (b' := at_path b (JoinBlock (bu_path b) name)).
  destruct (IH (branch b' BranchProcess)) as (e & He & Hf); [exact Hreg|exact Hdef|].
  assert (build_processor (b_flow fuel) b' "" "handle-errors" s
          = Err (ErrWrap "handle-errors process: " e "")) as Hp.
  { unfold build_processor, reg_New. simpl String.eqb. cbv iota. cbn [bu_reg b' at_path].
    rewrite Hreg. unfold newHandleErrors. rewrite Hdec. unfold mbind at 1, res_bind at 1.
    destruct err as [|c cs]; [done|]. simpl List.length. cbn [Nat.eqb]. cbv iota.
    unfold SubFlowsOf, positioned. cbn [d_SubFlows]. unfold mbind at 1, res_bind at 1.
    cbn [Branch subFlows].
    rewrite (subFlow_chain _ (branch b' BranchProcess)), He. reflexivity. }
  assert (resolve b (mkBlockConfig "" "" name ∅) = Ok ("handle-errors", s)) as Hr.
  { unfold resolve. cbn [c_Ref c_Type c_Settings]. apply String.eqb_neq in Hn as ->. by rewrite Hdef. }
  assert (block (b_flow fuel) b (mkBlockConfig "" "" name ∅)
    = Err (ErrWrap ("block " ++ quote "handle-errors" ++ ": ")
             (ErrWrap "handle-errors process: " e "") "")) as Hb.
  { unfold block. rewrite Hr. apply String.eqb_neq in Hn. cbn [c_Type c_Ref c_Name]. rewrite Hn.
    unfold mbind at 1, res_bind at 1. simpl andb. cbv iota.
    change (isDebugWrapper "handle-errors") with false. cbv iota.
    change (JoinBlock (bu_path b) (BlockLabel "" "" name)) with (JoinBlock (bu_path b) name).
    fold b'. by rewrite Hp. }
  unfold flow. cbn [fc_Process chain_flow mapM]. rewrite Hb. eexists. split; [reflexivity|].
  simpl. repeat (destruct (decide _); [done|]). done.
Qed.

Definition loop_settings : Settings :=
  {[ "process" := encode_chain [mkBlockConfig "" "" "loop" ∅];
     "error" := encode_chain [mkBlockConfig "log" "" "" ∅] ]}.
Definition loop_builder : builder unit :=
  mkBuilder controlflow_registry None {[ "loop" := mkProcessorConfig "loop" "handle-errors" loop_settings ]}
    example_deps None "f" true "f".
Lemma self_reference_never_builds_witness :
  exists e, b_flow 40 loop_builder (chain_flow "" [mkBlockConfig "" "" "loop" ∅]) = Err e /\
    error_is e out_of_fuel = true.
Proof.
  apply (self_reference_never_builds 40 loop_builder "loop" loop_settings [mkBlockConfig "log" "" "" ∅]).
  - reflexivity.
  - discriminate.
  - vm_compute. reflexivity.
  - vm_compute. reflexivity.
  - discriminate.
Defined.
