(* ===== verification/Address.v ===== *)
(** Block addresses as they are read: [runtime/core/runtime/address.go], and the
    injections that rewrite the block an address names ([mock.go], [spy.go],
    [breakpoint.go] of [runtime/core/runtime]).

    The resolver walks the generic tree a chain encodes to and writes into it in
    place; here a chain found below a block comes with the function that puts a
    chain back in its place. *)
From S2P Require Import Prelude GoStr F64 Message Config Store BlockPath Engine Debug Builder.
From Stdlib Require Import Ascii String.
#[local] Open Scope string_scope.
#[local] Open Scope Z_scope.

Record step : Type := mkStep {
  st_block : string;
  st_branch : string;
}.

Record address : Type := mkAddress {
  a_flow : string;
  a_chain : string;
  a_steps : list step;
}.

Record resolver : Type := mkResolver {
  r_kind : string;
  r_addr : string;
  r_defs : gmap string string;
}.

(** The slots a block type's schema declares ([schema.Branches], derived by
    reflection from the settings struct): the resolver's argument. *)
Record AddressBranches : Type := mkBranches {
  ab_Named : list string;
  ab_ByMember : list string;
}.
Definition Schema : Type := string -> option AddressBranches.

(** ** Reading a path *)
Definition splitBracket (segment : string) : res (string * string) :=
  match index_byte segment "[" with
  | None =>
      if contains_byte segment "]"
      then Err (ErrMsg ("segment " ++ quote segment ++ " has a closing bracket with no opening one"))
      else Ok (segment, "")
  | Some open =>
      if negb (ends_with segment "]")
      then Err (ErrMsg ("segment " ++ quote segment ++ " is missing its closing bracket"))
      else
        let bracket := str_take (String.length segment - 1 - (open + 1)) (str_drop (open + 1) segment) in
        if String.eqb bracket "" then
          Err (ErrMsg ("segment " ++ quote segment ++ " has an empty bracket"))
        else if contains_any bracket ["["%char; "]"%char] then
          Err (ErrMsg ("segment " ++ quote segment ++ " has nested brackets; use one branch per segment"))
        else Ok (str_take open segment, bracket)
  end.

Definition at_addr (r : resolver) : string := r_kind r ++ " " ++ quote (r_addr r) ++ ": ".

Fixpoint parse_steps_from (r : resolver) (i : Z) (segments : list string) : res (list step) :=
  match segments with
  | [] => Ok []
  | segment :: rest =>
      '(block, branch) ← wrap_err (at_addr r) (splitBracket segment);
      if String.eqb block "" then
        Err (ErrMsg (at_addr r ++ "segment " ++ itoa (i + 1) ++ " names no block"))
      else
        let last := match rest with [] => true | _ => false end in
        if negb last && String.eqb branch "" then
          Err (ErrMsg (at_addr r ++ "block " ++ quote block ++
            " is on the way to the target, so it needs a branch, as " ++ block ++ "[<branch>]"))
        else if last && negb (String.eqb branch "") then
          Err (ErrMsg (at_addr r ++ "the target block " ++ quote block ++
            " must not name a branch; address a block inside it instead"))
        else
          steps ← parse_steps_from r (i + 1) rest;
          mret (mkStep block branch :: steps)
  end.
Definition parseSteps (r : resolver) (segments : list string) : res (list step) :=
  parse_steps_from r 0 segments.

Definition parseAddress (r : resolver) : res address :=
  if is_blank (r_addr r) then Err (ErrMsg (r_kind r ++ " address is empty"))
  else
    match split_on "." (r_addr r) with
    | first :: ((_ :: _) as segments) =>
        '(flow, chain) ← wrap_err (at_addr r) (splitBracket first);
        if String.eqb flow "" then Err (ErrMsg (at_addr r ++ "address must start with a flow name"))
        else
          let chain := if String.eqb chain "" then BranchProcess else chain in
          steps ← parseSteps r segments;
          mret (mkAddress flow chain steps)
    | _ => Err (ErrMsg (at_addr r ++
             "address must name a flow and at least one block, as <flow>.<block>"))
    end.

(** ** The generic tree *)
Abbreviation node := (gmap string any).

Definition asBlock (value : any) : node := match value with AMap m => m | _ => ∅ end.
Definition str (b : node) (key : string) : string :=
  match b !! key with Some (AStr s) => s | _ => "" end.

(** A value found below a block, with the block that holds another in its place. *)
Definition focus (A : Type) : Type := A * (A -> node).

Definition slot (b : node) (name : string) : option (focus any) :=
  let inline := match b !! name with
                | Some v => Some (v, fun v' => <[name := v']> b)
                | None => None
                end in
  match b !! "settings" with
  | Some (AMap settings) =>
      match settings !! name with
      | Some v => Some (v, fun v' => <["settings" := AMap (<[name := v']> settings)]> b)
      | None => inline
      end
  | _ => inline
  end.

(** [isDebugWrapper], of a generic block *)
Definition isWrapper (b : node) : bool :=
  String.eqb (str b "type") blockKindBreakpoint || String.eqb (str b "type") blockKindSpy.

(** [unwrapDebug], on fuel; a block's own nesting is enough. *)
Fixpoint unwrap_fuel (fuel : nat) (b : node) : focus node :=
  match fuel with
  | O => (b, fun b' => b')
  | S fuel =>
      if isWrapper b then
        match slot b BranchProcess with
        | Some (AArr [inner], put) =>
            let '(b', put') := unwrap_fuel fuel (asBlock inner) in
            (b', fun x => put (AArr [AMap (put' x)]))
        | _ => (b, fun b' => b')
        end
      else (b, fun b' => b')
  end.
Definition unwrapDebug (b : node) : focus node := unwrap_fuel (nesting (AMap b)) b.

Definition namedChain (b : node) (name : string) : option (focus (list any)) :=
  '(value, put) ← slot b name;
  let '(value, put) := match value with
    | AMap flow => (default ANil (flow !! BranchProcess),
                    fun v => put (AMap (<[BranchProcess := v]> flow)))
    | v => (v, put)
    end in
  match value with
  | AArr (x :: l) => Some (x :: l, fun l' => put (AArr l'))
  | _ => None
  end.

Definition parseIndex (branch : string) : option Z :=
  match atoi branch with
  | Some index => if index <? 0 then None else Some index
  | None => None
  end.

Fixpoint find_member (branch : string) (i : Z) (entries : list any) : option (nat * node) :=
  match entries with
  | [] => None
  | entry :: rest =>
      let member := asBlock entry in
      if String.eqb (str member "name") branch || bool_decide (parseIndex branch = Some i)
      then Some (0%nat, member)
      else '(k, m) ← find_member branch (i + 1) rest; Some (S k, m)
  end.

Definition members (b : node) (name : string) : option (focus (list any)) :=
  '(value, put) ← slot b name;
  match value with
  | AArr l => Some (l, fun l' => put (AArr l'))
  | _ => None
  end.

Definition memberChain (b : node) (name branch : string) : option (focus (list any)) :=
  '(entries, put) ← members b name;
  '(k, member) ← find_member branch 0 entries;
  match member !! BranchProcess with
  | Some (AArr chain) =>
      Some (chain, fun l' => put (<[k := AMap (<[BranchProcess := AArr l']> member)]> entries))
  | _ => None
  end.

Fixpoint first_some {A B} (f : A -> option B) (l : list A) : option B :=
  match l with
  | [] => None
  | x :: l => match f x with Some y => Some y | None => first_some f l end
  end.

Definition branchNames (b : node) (branches : option AddressBranches) : list string :=
  let names := match branches with
    | None => []
    | Some br =>
        (filter (fun name => is_Some (namedChain b name)) (ab_Named br)
         ++ List.concat (map (fun slot =>
              match members b slot with
              | Some (l, _) => imap (fun i e => MemberBranch (str (asBlock e) "name") (Z.of_nat i)) l
              | None => []
              end) (ab_ByMember br)))%list
    end in
  match names with [] => ["none: this is a leaf block"] | _ => names end.

Definition effectiveType (r : resolver) (b : node) : string :=
  if negb (String.eqb (str b "type") "") then str b "type"
  else default "" (r_defs r !! str b "ref").

Definition branchChain (r : resolver) (schema : Schema) (b : node) (branch : string)
    : res (focus (list any)) :=
  let branches := schema (effectiveType r b) in
  let found := match branches with
    | None => None
    | Some br =>
        match first_some (fun name => if String.eqb name branch then namedChain b name else None)
                (ab_Named br) with
        | Some c => Some c
        | None => first_some (fun slot => memberChain b slot branch) (ab_ByMember br)
        end
    end in
  match found with
  | Some c => Ok c
  | None => Err (ErrMsg ("has no branch " ++ quote branch ++ " (branches: " ++
                         join ", " (branchNames b branches) ++ ")"))
  end.

(** The indices, from [i], of the blocks whose [key] is the selector. *)
Fixpoint matching (i : nat) (chain : list any) (key selector : string) : list nat :=
  match chain with
  | [] => []
  | v :: rest =>
      let found := matching (S i) rest key selector in
      if String.eqb (str (asBlock v) key) selector && negb (String.eqb selector "")
      then i :: found else found
  end.

Fixpoint select_by (r : resolver) (chain : list any) (selector : string) (keys : list string) : res nat :=
  match keys with
  | [] =>
      Err (ErrMsg (at_addr r ++ "no block " ++ quote selector ++ " in that chain (blocks: " ++
        join ", " (map (fun v => let b := asBlock v in
                     BlockLabel (str b "name") (str b "type") (str b "ref")) chain) ++ ")"))
  | key :: keys =>
      match matching 0 chain key selector with
      | [] => select_by r chain selector keys
      | [i] => Ok i
      | found => Err (ErrMsg (at_addr r ++ quote selector ++ " matches " ++
                   itoa (Z.of_nat (List.length found)) ++
                   " blocks in the same chain; give the one you want a unique name"))
      end
  end.
Definition selectBlock (r : resolver) (chain : list any) (selector : string) : res nat :=
  select_by r chain selector ["name"; "type"; "ref"].

(** [locate]: the chain holding the target, the target's index, and the root
    with another chain in that chain's place. *)
Fixpoint locate (r : resolver) (schema : Schema) (chain : list any) (steps : list step)
    : res (list any * nat * (list any -> list any)) :=
  match steps with
  | [] => Err (ErrMsg "runtime error: index out of range [-1]")
  | [target] =>
      index ← selectBlock r chain (st_block target);
      mret (chain, index, fun l => l)
  | hop :: rest =>
      index ← selectBlock r chain (st_block hop);
      let '(b, put_b) := unwrapDebug (asBlock (default ANil (chain !! index))) in
      '(next, put_n) ← wrap_err (at_addr r ++ "block " ++ quote (st_block hop) ++ ": ")
                         (branchChain r schema b (st_branch hop));
      '(c, i, put) ← locate r schema next rest;
      mret (c, i, fun l => <[index := AMap (put_b (put_n (put l)))]> chain)
  end.

(** ** Rewriting a config *)
Fixpoint flow_index (flows : list FlowConfig) (name : string) : option nat :=
  match flows with
  | [] => None
  | f :: rest => if String.eqb (fc_Name f) name then Some 0%nat else S <$> flow_index rest name
  end.
Definition findFlow (r : resolver) (cfg : Config) (name : string) : res (nat * FlowConfig) :=
  match flow_index (cfg_Flows cfg) name ≫= (fun i => (fun f => (i, f)) <$> cfg_Flows cfg !! i) with
  | Some x => Ok x
  | None => Err (ErrMsg (r_kind r ++ ": no flow named " ++ quote name ++ " (flows: " ++
                   join ", " (map fc_Name (cfg_Flows cfg)) ++ ")"))
  end.

Definition flowChain (r : resolver) (flow : FlowConfig) (chain : string)
    : res (list BlockConfig * (list BlockConfig -> FlowConfig)) :=
  if String.eqb chain BranchProcess then
    Ok (fc_Process flow, fun l => mkFlowConfig (fc_Name flow) (fc_Source flow) l (fc_Error flow)
          (fc_Workers flow) (fc_Buffer flow) (fc_Pool flow))
  else if String.eqb chain BranchError then
    Ok (fc_Error flow, fun l => mkFlowConfig (fc_Name flow) (fc_Source flow) (fc_Process flow) l
          (fc_Workers flow) (fc_Buffer flow) (fc_Pool flow))
  else Err (ErrMsg (r_kind r ++ ": flow " ++ quote (fc_Name flow) ++ " has no chain " ++ quote chain ++
              " (want " ++ quote BranchProcess ++ " or " ++ quote BranchError ++ ")")).

(** The trip of a value through its JSON text. *)
Definition through_json (what : string) (v : any) : res any :=
  v' ← wrap_err ("encode " ++ what ++ ": ") (Marshal v);
  wrap_err ("decode " ++ what ++ ": ") (Unmarshal (Some v')).

Definition toGeneric (chain : any) : res (list any) :=
  v ← through_json "flow" chain;
  match v with AArr l => Ok l | v => Ok [v] end.
Definition fromGeneric (value : any) : res BlockConfig :=
  v ← through_json "block" value; wrap_err "decode block: " (UnmarshalJSON v).
Definition fromGenericChain (chain : list any) : res (list BlockConfig) :=
  v ← through_json "flow" (AArr chain); wrap_err "decode flow: " (decode_chain v).

Definition newResolver (cfg : Config) (kind addr : string) : resolver :=
  mkResolver kind addr
    (foldl (fun defs p => <[p_Name p := p_Type p]> defs) ∅ (cfg_Processors cfg)).

Definition rewriteTarget (schema : Schema) (cfg : Config) (kind addr : string)
    (rewrite : BlockConfig -> BlockConfig) : res Config :=
  let r := newResolver cfg kind addr in
  parsed ← parseAddress r;
  '(fi, flow) ← findFlow r cfg (a_flow parsed);
  '(chain, put_chain) ← flowChain r flow (a_chain parsed);
  root ← toGeneric (encode_chain chain);
  '(parent, index, put) ← locate r schema root (a_steps parsed);
  target ← fromGeneric (default ANil (parent !! index));
  replacement ← toGeneric (encode_block (rewrite target));
  let root' := put (<[index := default ANil (head replacement)]> parent) in
  typed ← fromGenericChain root';
  mret (with_flows (<[fi := put_chain typed]> (cfg_Flows cfg)) cfg).

(** ** The injections *)

(** [blockLabel] of [runtime/core/runtime] *)
Definition configLabel (cfg : BlockConfig) : string := BlockLabel (c_Name cfg) (c_Type cfg) (c_Ref cfg).

Definition standInMock (target : BlockConfig) (addr : string) : BlockConfig :=
  mkBlockConfig blockKindMock (configLabel target) "" {[ "address" := AStr addr ]}.
Definition wrapInSpy (target : BlockConfig) (addr : string) : BlockConfig :=
  mkBlockConfig blockKindSpy (configLabel target) ""
    {[ "address" := AStr addr; "process" := encode_chain [target] ]}.
Definition wrapInBreakpoint (target : BlockConfig) : BlockConfig :=
  mkBlockConfig blockKindBreakpoint (configLabel target) "" {[ "process" := encode_chain [target] ]}.

Fixpoint rewrite_all (schema : Schema) (kind : string) (rewrite : BlockConfig -> string -> BlockConfig)
    (addresses : list string) (cfg : Config) : res Config :=
  match addresses with
  | [] => Ok cfg
  | addr :: rest =>
      cfg' ← rewriteTarget schema cfg kind addr (fun target => rewrite target addr);
      rewrite_all schema kind rewrite rest cfg'
  end.

Definition injectMocks (schema : Schema) (cfg : Config) (mocks : option Mocks) : res Config :=
  match mocks with
  | None => Ok cfg
  | Some mocks => rewrite_all schema blockKindMock standInMock (mock_Addresses mocks) cfg
  end.
Definition injectSpies (schema : Schema) (cfg : Config) (spies : option Spies) : res Config :=
  match spies with
  | None => Ok cfg
  | Some spies => rewrite_all schema blockKindSpy wrapInSpy (spy_Addresses spies) cfg
  end.
Definition injectBreakpoint (schema : Schema) (cfg : Config) (addr : string) : res Config :=
  rewriteTarget schema cfg blockKindBreakpoint addr wrapInBreakpoint.

(** ** Conflicts *)
Fixpoint prefix_steps (outer inner : list step) : bool :=
  match outer, inner with
  | [], _ => true
  | [o], i :: _ => String.eqb (st_block o) (st_block i)
  | o :: outer, i :: inner =>
      String.eqb (st_block o) (st_block i) && String.eqb (st_branch o) (st_branch i)
      && prefix_steps outer inner
  | _, [] => false
  end.

Definition isInside (outer inner : address) : bool :=
  if negb (String.eqb (a_flow outer) (a_flow inner)) || negb (String.eqb (a_chain outer) (a_chain inner))
  then false
  else if Nat.leb (List.length (a_steps inner)) (List.length (a_steps outer)) then false
  else prefix_steps (a_steps outer) (a_steps inner).

Fixpoint check_others (mocked : string) (outer : address) (others : list resolver) : res unit :=
  match others with
  | [] => Ok tt
  | other :: rest =>
      inner ← parseAddress other;
      if isInside outer inner then
        Err (ErrMsg (r_kind other ++ " " ++ quote (r_addr other) ++ " is inside mocked block " ++
          quote mocked ++ ": the mock replaces that block, so there is nothing in there to " ++ r_kind other))
      else check_others mocked outer rest
  end.
Fixpoint check_mocked (addresses : list string) (others : list resolver) : res unit :=
  match addresses with
  | [] => Ok tt
  | mocked :: rest =>
      outer ← parseAddress (mkResolver blockKindMock mocked ∅);
      check_others mocked outer others ≫= fun _ => check_mocked rest others
  end.
Definition checkMockConflicts (mocks : option Mocks) (others : list resolver) : res unit :=
  match mocks with
  | None => Ok tt
  | Some mocks => check_mocked (mock_Addresses mocks) others
  end.

(** * Lemmas *)

(** ** A path as the builder spells it *)
Definition clean (s : string) : Prop :=
  s ≠ "" /\ contains_byte s "." = false /\ contains_byte s "[" = false /\ contains_byte s "]" = false.

Definition bracketed (name branch : string) : string :=
  if String.eqb branch "" then name else JoinBranch name branch.
Fixpoint spell (prefix : string) (steps : list step) : string :=
  match steps with
  | [] => prefix
  | s :: rest => spell (bracketed (JoinBlock prefix (st_block s)) (st_branch s)) rest
  end.

(** Every step but the last descends into a branch; the last names none. *)
Inductive well_formed : list step -> Prop :=
  | wf_target b : clean b -> well_formed [mkStep b ""]
  | wf_hop b br rest : clean b -> clean br -> well_formed rest -> well_formed (mkStep b br :: rest).

Definition segment_of (s : step) : string := bracketed (st_block s) (st_branch s).

Lemma JoinBlock_bracketed prefix b br :
  bracketed (JoinBlock prefix b) br = prefix ++ String "." (bracketed b br).
Proof.
  unfold bracketed, JoinBlock, JoinBranch. destruct (String.eqb br ""); [done|].
  by rewrite !app_str_assoc.
Qed.

Lemma bracketed_no_dot b br :
  contains_byte b "." = false -> contains_byte br "." = false -> contains_byte (bracketed b br) "." = false.
Proof.
  intros Hb Hr. unfold bracketed, JoinBranch. destruct (String.eqb br ""); [done|].
  rewrite !contains_byte_app, Hb, Hr. done.
Qed.

Lemma split_spell prefix steps :
  Forall (fun s => contains_byte (segment_of s) "." = false) steps ->
  split_on "." (spell prefix steps) = (split_on "." prefix ++ map segment_of steps)%list.
Proof.
  intros H. revert prefix. induction H as [|s steps Hs _ IH]; intros prefix; simpl.
  { by rewrite app_nil_r. }
  rewrite IH, JoinBlock_bracketed, split_on_app.
  fold (segment_of s). rewrite (split_on_none _ _ Hs). by rewrite <-app_assoc.
Qed.

Lemma splitBracket_bracketed b br :
  clean b -> (br = "" \/ clean br) -> splitBracket (bracketed b br) = Ok (b, br).
Proof.
  intros (Hb & _ & Ho & Hc) Hr. unfold splitBracket, bracketed.
  destruct (String.eqb_spec br "") as [->|Hbr].
  { by rewrite index_byte_none, Hc. }
  destruct Hr as [|(_ & _ & Hro & Hrc)]; [done|].
  unfold JoinBranch. change ("[" ++ br ++ "]") with (String "[" (br ++ "]")).
  rewrite index_byte_app by done.
  rewrite <-(app_str_assoc b (String "[" br) "]") at 1.
  change "]" with (String "]" "") at 1. rewrite ends_with_app. cbn [negb].
  replace (str_drop (String.length b + 1) (b ++ String "[" (br ++ "]"))) with (br ++ "]").
  2: { replace (b ++ String "[" (br ++ "]")) with ((b ++ "[") ++ (br ++ "]"))
         by (by rewrite app_str_assoc).
       replace (String.length b + 1)%nat with (String.length (b ++ "[")) by (by rewrite length_app_str).
       by rewrite str_drop_app. }
  replace (String.length (b ++ String "[" (br ++ "]")) - 1 - (String.length b + 1))%nat
    with (String.length br).
  2: { rewrite length_app_str. simpl. rewrite length_app_str. simpl. lia. }
  rewrite !str_take_app. apply String.eqb_neq in Hbr as ->.
  unfold contains_any. simpl. by rewrite Hro, Hrc.
Qed.

Lemma parse_steps_spelled r i steps :
  well_formed steps -> parse_steps_from r i (map segment_of steps) = Ok steps.
Proof.
  intros H. revert i. induction H as [b Hb|b br rest Hb Hr Hrest IH]; intros i; cbn [map parse_steps_from].
  - unfold segment_of. cbn [st_block st_branch]. rewrite splitBracket_bracketed by auto. cbn.
    destruct Hb as [Hb _]. by apply String.eqb_neq in Hb as ->.
  - change (segment_of (mkStep b br)) with (bracketed b br). rewrite splitBracket_bracketed by auto. cbn.
    rewrite IH. destruct Hb as [Hb _], Hr as [Hr _].
    apply String.eqb_neq in Hb as ->, Hr as ->. by destruct Hrest.
Qed.

Lemma well_formed_no_dot steps :
  well_formed steps -> Forall (fun s => contains_byte (segment_of s) "." = false) steps.
Proof.
  induction 1 as [b (_ & Hb & _)|b br rest (_ & Hb & _) (_ & Hr & _) _ IH]; repeat constructor;
    try done; by apply bracketed_no_dot.
Qed.

Lemma spell_dot prefix steps : steps ≠ [] -> contains_byte (spell prefix steps) "." = true.
Proof.
  assert (forall p, contains_byte p "." = true -> forall l, contains_byte (spell p l) "." = true) as H.
  { intros p Hp l. revert p Hp. induction l as [|s l IH]; intros p Hp; simpl; [done|].
    apply IH. by rewrite JoinBlock_bracketed, contains_byte_app, Hp. }
  destruct steps as [|s steps]; [done|]. intros _. simpl. apply H.
  rewrite JoinBlock_bracketed, contains_byte_app. simpl. by rewrite orb_true_r.
Qed.

(** ** Selection *)
Definition node_label (v : any) : string :=
  let b := asBlock v in BlockLabel (str b "name") (str b "type") (str b "ref").

Lemma matching_elem i chain key sel j :
  j ∈ matching i chain key sel <->
  sel ≠ "" /\ exists v, (i <= j)%nat /\ chain !! (j - i)%nat = Some v /\ str (asBlock v) key = sel.
Proof.
  revert i. induction chain as [|v chain IH]; intros i; simpl.
  { split; [by intros ?%elem_of_nil|]. by intros (_ & v & _ & H & _). }
  destruct (String.eqb_spec (str (asBlock v) key) sel) as [Hv|Hv],
    (String.eqb_spec sel "") as [Hs|Hs]; simpl; rewrite ?elem_of_cons, IH.
  - naive_solver.
  - split.
    + intros [->|(_ & v' & Hle & Hl & Hk)].
      * split; [done|]. exists v. rewrite Nat.sub_diag. done.
      * split; [done|]. exists v'. split; [lia|].
        replace (j - i)%nat with (S (j - S i))%nat by lia. done.
    + intros (_ & v' & Hle & Hl & Hk). destruct (decide (j = i)) as [->|Hji]; [by left|right].
      split; [done|]. exists v'. split; [lia|].
      replace (j - i)%nat with (S (j - S i))%nat in Hl by lia. done.
  - naive_solver.
  - split; intros (_ & v' & Hle & Hl & Hk); (split; [done|]).
    + exists v'. split; [lia|]. replace (j - i)%nat with (S (j - S i))%nat by lia. done.
    + destruct (decide (j = i)) as [->|Hji].
      { rewrite Nat.sub_diag in Hl. simpl in Hl. congruence. }
      exists v'. split; [lia|]. replace (j - i)%nat with (S (j - S i))%nat in Hl by lia. done.
Qed.

Lemma matching_NoDup i chain key sel : NoDup (matching i chain key sel).
Proof.
  revert i. induction chain as [|v chain IH]; intros i; simpl; [constructor|].
  destruct (_ && _); [|done]. constructor; [|done].
  intros (_ & v' & Hle & _)%matching_elem. lia.
Qed.

Lemma matching_none chain key sel :
  (forall j v, chain !! j = Some v -> str (asBlock v) key ≠ sel) -> matching 0 chain key sel = [].
Proof.
  intros H. destruct (matching 0 chain key sel) as [|j l] eqn:E; [done|].
  assert (j ∈ matching 0 chain key sel) as (_ & v & _ & Hl & Hk)%matching_elem by (rewrite E; left).
  rewrite Nat.sub_0_r in Hl. by apply H in Hl.
Qed.

Lemma matching_one chain key sel i v :
  sel ≠ "" -> chain !! i = Some v -> str (asBlock v) key = sel ->
  (forall j v, j ≠ i -> chain !! j = Some v -> str (asBlock v) key ≠ sel) ->
  matching 0 chain key sel = [i].
Proof.
  intros Hs Hi Hk Ho. apply Permutation_singleton_r. apply NoDup_Permutation;
    [apply matching_NoDup|apply NoDup_singleton|].
  intros j. rewrite matching_elem, list_elem_of_singleton, Nat.sub_0_r. split.
  - intros (_ & v' & _ & Hj & Hk'). destruct (decide (j = i)); [done|].
    exfalso. by eapply (Ho j).
  - intros ->. split; [done|]. exists v. split; [lia|done].
Qed.

Lemma selectBlock_unique r chain i v sel :
  sel ≠ "" -> chain !! i = Some v -> node_label v = sel ->
  (forall j v', j ≠ i -> chain !! j = Some v' -> let b := asBlock v' in
     str b "name" ≠ sel /\ str b "type" ≠ sel /\ str b "ref" ≠ sel) ->
  selectBlock r chain sel = Ok i.
Proof.
  intros Hs Hi Hl Ho. unfold selectBlock, node_label, BlockLabel in *. cbn [select_by].
  assert (forall key, str (asBlock v) key ≠ sel -> (key = "name" \/ key = "type" \/ key = "ref") ->
    matching 0 chain key sel = []) as Hnone.
  { intros key Hk Hkey. apply matching_none. intros j v' Hj.
    destruct (decide (j = i)) as [->|Hji]; [by simplify_eq|].
    specialize (Ho j v' Hji Hj). naive_solver. }
  assert (forall key, str (asBlock v) key = sel -> (key = "name" \/ key = "type" \/ key = "ref") ->
    matching 0 chain key sel = [i]) as Hone.
  { intros key Hk Hkey. apply (matching_one _ _ _ _ v); try done.
    intros j v' Hji Hj. specialize (Ho j v' Hji Hj). naive_solver. }
  destruct (String.eqb_spec (str (asBlock v) "name") "") as [Hn|Hn]; simpl in Hl.
  2: { by rewrite (Hone "name") by auto. }
  rewrite (Hnone "name") by (auto; congruence).
  destruct (String.eqb_spec (str (asBlock v) "type") "") as [Ht|Ht]; simpl in Hl.
  2: { by rewrite (Hone "type") by auto. }
  rewrite (Hnone "type") by (auto; congruence). by rewrite (Hone "ref") by auto.
Qed.

(** ** What the trip through JSON makes of a block *)
Definition norm_block (b : BlockConfig) : BlockConfig :=
  mkBlockConfig (c_Type b) (c_Name b) (c_Ref b) (json_norm <$> c_Settings b).

Lemma json_norm_encode_block b : json_norm (encode_block b) = encode_block (norm_block b).
Proof.
  destruct (encode_block b) as [| | | | | | | | |f|] eqn:Hf; try done.
  destruct (encode_block (norm_block b)) as [| | | | | | | | |g|] eqn:Hg; try done.
  cbn [json_norm]. f_equal. apply map_eq. intros k.
  rewrite lookup_fmap, (encode_block_lookup _ _ _ Hf), (encode_block_lookup _ _ _ Hg).
  unfold norm_block. cbn [c_Type c_Name c_Ref c_Settings].
  repeat (case_decide; [by case_match|]).
  case_decide; [|done].
  destruct (decide (c_Settings b = ∅)) as [->|Hs].
  { rewrite fmap_empty. by rewrite decide_True. }
  rewrite decide_False by (by rewrite fmap_empty_iff). done.
Qed.

Lemma through_json_ok what v v' : through_json what v = Ok v' -> v' = json_norm v.
Proof.
  unfold through_json, Marshal, Unmarshal. destruct (encodable v); [|done]. cbn.
  by destruct (Nat.leb _ _); cbn; intros [= <-].
Qed.

Lemma toGeneric_chain chain root :
  toGeneric (encode_chain chain) = Ok root -> root = map encode_block (map norm_block chain).
Proof.
  unfold toGeneric. intros (v & ->%through_json_ok & H)%res_bind_ok.
  cbn [json_norm encode_chain] in H. injection H as <-. rewrite !map_map.
  apply map_ext. apply json_norm_encode_block.
Qed.

Lemma fromGenericChain_lookup root typed i x :
  fromGenericChain root = Ok typed -> root !! i = Some x ->
  exists b, typed !! i = Some b /\ UnmarshalJSON (json_norm x) = Ok b.
Proof.
  unfold fromGenericChain. intros (v & ->%through_json_ok & H)%res_bind_ok Hi.
  cbn [json_norm decode_chain] in H. unfold wrap_err in H.
  destruct (mapM UnmarshalJSON (map json_norm root)) as [t|] eqn:E; [|done]. injection H as <-.
  apply mapM_res_ok in E.
  assert (map json_norm root !! i = Some (json_norm x)) as Hi' by (by rewrite list_lookup_fmap, Hi).
  destruct (Forall2_lookup_l _ _ _ _ _ E Hi') as (b & Hb & Hd). eauto.
Qed.

Lemma fromGenericChain_length root typed :
  fromGenericChain root = Ok typed -> List.length typed = List.length root.
Proof.
  unfold fromGenericChain. intros (v & ->%through_json_ok & H)%res_bind_ok.
  cbn [json_norm decode_chain] in H. unfold wrap_err in H.
  destruct (mapM UnmarshalJSON (map json_norm root)) as [t|] eqn:E; [|done]. injection H as <-.
  apply mapM_res_ok, Forall2_length in E. by rewrite <-E, length_map.
Qed.

Lemma norm_block_idem b : norm_block (norm_block b) = norm_block b.
Proof.
  unfold norm_block; simpl. f_equal. rewrite <-map_fmap_compose. apply map_fmap_ext.
  intros k x _. apply json_norm_idem.
Qed.

Lemma decode_norm_encode b : UnmarshalJSON (json_norm (encode_block (norm_block b))) = Ok (norm_block b).
Proof. rewrite json_norm_encode_block, decode_encode_block. by rewrite norm_block_idem. Qed.

(** Where an address first enters the root chain is the only place a write
    through it changes. *)
Lemma locate_put r schema root steps c i put :
  locate r schema root steps = Ok (c, i, put) ->
  exists s rest k, steps = s :: rest /\ selectBlock r root (st_block s) = Ok k /\
    forall l, (rest = [] -> c = root /\ i = k /\ put l = l) /\
      (rest ≠ [] -> List.length (put l) = List.length root /\
         forall j, j ≠ k -> put l !! j = root !! j).
Proof.
  destruct steps as [|s rest]; [done|]. intros H. exists s, rest. cbn [locate] in H.
  destruct rest as [|s' rest].
  - apply res_bind_ok in H as (k & Hk & [= <- <- <-]). exists k. split_and!; [done|done|].
    intros l. by split.
  - apply res_bind_ok in H as (k & Hk & H). exists k. split_and!; [done|done|]. intros l.
    split; [done|intros _].
    destruct (unwrapDebug _) as [b put_b]. apply res_bind_ok in H as ([next put_n] & _ & H).
    apply res_bind_ok in H as ([[c' i'] put'] & _ & [= <- <- <-]).
    rewrite length_insert. split; [done|]. intros j Hj. by rewrite list_lookup_insert_ne.
Qed.

(** The builder decodes from a spy's settings what the injector put there. *)
Lemma decode_wrapInSpy target addr :
  decode_wrapper (c_Settings (wrapInSpy target addr)) = Ok (mkWrapperSettings addr [target]).
Proof.
  unfold decode_wrapper, strict.
  assert (unknown_key ["address"; "process"] (c_Settings (wrapInSpy target addr)) = None) as ->.
  { unfold unknown_key. rewrite filter_none; [done|]. intros k Hk Hno. unfold sortedKeys in Hk.
    rewrite sort_strings_perm in Hk. apply list_elem_of_fmap in Hk as ([k' v] & -> & Hk).
    apply elem_of_map_to_list in Hk. unfold wrapInSpy in Hk. cbn [c_Settings] in Hk.
    rewrite lookup_insert_Some, lookup_singleton_Some in Hk. apply Hno. simpl.
    rewrite !elem_of_cons. destruct Hk as [[-> _]|[_ [-> _]]]; auto. }
  unfold wrapInSpy. cbn [c_Settings]. rewrite lookup_insert_eq, lookup_insert_ne by done.
  rewrite lookup_singleton_eq. cbn [json_string default from_option].
  change (id (encode_chain [target])) with (encode_chain [target]).
  by rewrite decode_encode_chain.
Qed.

(** * Properties *)

(** Reading undoes spelling: an address put together from a flow name, an
    optional chain and a path of steps by the helpers every path is minted with
    parses back to exactly those, provided no name in it is empty or holds a
    full stop or a bracket. *)
Theorem address_round_trip kind flow chain steps defs :
  clean flow -> (chain = "" \/ clean chain) -> well_formed steps ->
  parseAddress (mkResolver kind (spell (bracketed flow chain) steps) defs)
  = Ok (mkAddress flow (if String.eqb chain "" then BranchProcess else chain) steps).
Proof.
  intros Hf Hc Hs. unfold parseAddress. cbn [r_addr].
  assert (steps ≠ []) as Hne by (by destruct Hs).
  rewrite is_blank_dot by (by apply spell_dot).
  assert (contains_byte (bracketed flow chain) "." = false) as Hnd.
  { apply bracketed_no_dot; [apply Hf|]. destruct Hc as [->|Hc]; [done|apply Hc]. }
  rewrite split_spell by (by apply well_formed_no_dot). rewrite (split_on_none _ _ Hnd).
  destruct steps as [|s rest]; [done|]. cbn [app map tail].
  rewrite splitBracket_bracketed by done. cbn [wrap_err mbind res_bind].
  destruct Hf as [Hf _]. apply String.eqb_neq in Hf as ->.
  unfold parseSteps. change (segment_of s :: map segment_of rest) with (map segment_of (s :: rest)).
  by rewrite parse_steps_spelled.
Qed.

Lemma address_round_trip_witness :
  spell (bracketed "orders" "error") [mkStep "check" "else"; mkStep "call-1" ""]
  = "orders[error].check[else].call-1" /\
  parseAddress (mkResolver "spy" (spell (bracketed "orders" "error")
    [mkStep "check" "else"; mkStep "call-1" ""]) ∅)
  = Ok (mkAddress "orders" "error" [mkStep "check" "else"; mkStep "call-1" ""]).
Proof.
  split; [reflexivity|].
  apply (address_round_trip "spy" "orders" "error" [mkStep "check" "else"; mkStep "call-1" ""] ∅).
  - by split_and!.
  - right. by split_and!.
  - apply wf_hop; [by split_and!..|]. apply wf_target. by split_and!.
Defined.

(** The label a path is minted with finds its block again: selecting a chain
    by the label of one of its blocks — its name, else its type, else its ref —
    yields that block, provided no other block of the chain has that label as
    its name, its type or its ref. *)
Theorem label_selects r chain i v :
  chain !! i = Some v -> node_label v ≠ "" ->
  (forall j v', j ≠ i -> chain !! j = Some v' -> let b := asBlock v' in
     str b "name" ≠ node_label v /\ str b "type" ≠ node_label v /\ str b "ref" ≠ node_label v) ->
  selectBlock r chain (node_label v) = Ok i.
Proof. intros Hi Hn Ho. by eapply selectBlock_unique. Qed.

Definition example_chain : list any :=
  map encode_block [mkBlockConfig "rest" "" "" ∅; mkBlockConfig "" "" "charge" ∅;
                    mkBlockConfig "log" "note" "" ∅].
Definition example_ref : any := encode_block (mkBlockConfig "" "" "charge" ∅).
Lemma label_selects_witness :
  node_label example_ref = "charge" /\
  selectBlock (mkResolver "spy" "f.charge" ∅) example_chain (node_label example_ref) = Ok 1%nat.
Proof.
  split; [vm_compute; reflexivity|].
  apply (label_selects (mkResolver "spy" "f.charge" ∅) example_chain 1%nat example_ref).
  - reflexivity.
  - intros H. vm_compute in H. discriminate H.
  - intros j v' Hj Hv. destruct j as [|[|[|j]]]; [|done| |done];
      apply (inj Some) in Hv; subst v'; split_and!; intros H; vm_compute in H; discriminate H.
Defined.

(** A path the builder mints for one block alone may still not read back: in
    a chain with a block of some type under a name of its own and one unnamed
    block of the same type, the two paths differ, yet selecting by the unnamed
    block's label, its type, is refused as ambiguous. *)
Theorem unique_label_ambiguous r (ty name : string) :
  ty ≠ "" -> name ≠ "" -> name ≠ ty ->
  let named := mkBlockConfig ty name "" ∅ in
  let unnamed := mkBlockConfig ty "" "" ∅ in
  configLabel named ≠ configLabel unnamed /\
  selectBlock r (map encode_block [named; unnamed]) (configLabel unnamed)
  = Err (ErrMsg (at_addr r ++ quote ty ++ " matches 2 blocks in the same chain; give the one you want a unique name")).
Proof.
  intros Ht Hn Hnt named unnamed.
  assert (forall k, str (asBlock (encode_block named)) k
    = if decide (k = "type") then ty else if decide (k = "name") then name else "") as Hs1.
  { intros k. unfold str. destruct (encode_block named) eqn:He; try done. simpl.
    rewrite (encode_block_lookup _ k _ He). unfold named. cbn [c_Type c_Name c_Ref c_Settings].
    apply String.eqb_neq in Ht as ->, Hn as ->. by repeat case_decide. }
  assert (forall k, str (asBlock (encode_block unnamed)) k
    = if decide (k = "type") then ty else "") as Hs2.
  { intros k. unfold str. destruct (encode_block unnamed) eqn:He; try done. simpl.
    rewrite (encode_block_lookup _ k _ He). unfold unnamed. cbn [c_Type c_Name c_Ref c_Settings].
    apply String.eqb_neq in Ht as ->. by repeat case_decide. }
  assert (configLabel named = name) as Hl1.
  { unfold configLabel, BlockLabel. simpl. by apply String.eqb_neq in Hn as ->. }
  assert (configLabel unnamed = ty) as Hl2.
  { unfold configLabel, BlockLabel. simpl. by apply String.eqb_neq in Ht as ->. }
  rewrite Hl1, Hl2. split; [done|].
  assert (str (asBlock (encode_block named)) "name" = name /\ str (asBlock (encode_block named)) "type" = ty
    /\ str (asBlock (encode_block unnamed)) "name" = "" /\ str (asBlock (encode_block unnamed)) "type" = ty)
    as (E1 & E2 & E3 & E4) by (rewrite !Hs1, !Hs2; by repeat case_decide).
  unfold selectBlock. cbn [select_by map matching]. rewrite E1, E2, E3, E4, String.eqb_refl.
  rewrite (proj2 (String.eqb_neq name ty)), (proj2 (String.eqb_neq "" ty)),
    (proj2 (String.eqb_neq ty "")) by done. reflexivity.
Qed.

Lemma unique_label_ambiguous_witness :
  configLabel (mkBlockConfig "rest" "charge" "" ∅) ≠ configLabel (mkBlockConfig "rest" "" "" ∅) /\
  is_ok (selectBlock (mkResolver "spy" "f.rest" ∅)
    (map encode_block [mkBlockConfig "rest" "charge" "" ∅; mkBlockConfig "rest" "" "" ∅])
    (configLabel (mkBlockConfig "rest" "" "" ∅))) = false.
Proof.
  destruct (unique_label_ambiguous (mkResolver "spy" "f.rest" ∅) "rest" "charge") as [H1 H2];
    [discriminate..|].
  split; [exact H1|]. cbv zeta in H2. by rewrite H2.
Defined.

(** An injection writes where its address points and nowhere else: a
    rewritten config has the processors it had, and the flows it had but for the
    addressed one, whose addressed chain keeps its length and, at every position
    other than the one the first step of the address selects, its block as the
    trip through JSON leaves it; when the address is that one step, the selected
    block becomes what the rewrite makes of it. *)
Theorem rewrite_touches_only_target schema cfg kind addr rewrite cfg' :
  rewriteTarget schema cfg kind addr rewrite = Ok cfg' ->
  exists parsed fi flow chain chain' k s rest put,
    parseAddress (newResolver cfg kind addr) = Ok parsed /\ a_steps parsed = s :: rest /\
    cfg_Flows cfg !! fi = Some flow /\ flowChain (newResolver cfg kind addr) flow (a_chain parsed) = Ok (chain, put) /\
    cfg' = with_flows (<[fi := put chain']> (cfg_Flows cfg)) cfg /\
    List.length chain' = List.length chain /\
    selectBlock (newResolver cfg kind addr) (map encode_block (map norm_block chain)) (st_block s) = Ok k /\
    (forall j, j ≠ k -> chain' !! j = norm_block <$> chain !! j) /\
    (rest = [] -> forall b, chain !! k = Some b -> chain' !! k = Some (norm_block (rewrite (norm_block b)))).
Proof.
  unfold rewriteTarget. set (r := newResolver cfg kind addr).
  intros (parsed & Hp & H)%res_bind_ok.
  apply res_bind_ok in H as ([fi flow] & Hf & H).
  apply res_bind_ok in H as ([chain put_chain] & Hc & H).
  apply res_bind_ok in H as (root & ->%toGeneric_chain & H).
  apply res_bind_ok in H as ([[parent i] put] & Hl & H).
  apply res_bind_ok in H as (target & Ht & H).
  apply res_bind_ok in H as (repl & Hr & H).
  apply res_bind_ok in H as (typed & Htd & [= <-]).
  destruct (locate_put _ _ _ _ _ _ _ Hl) as (s & rest & k & Hst & Hk & Hput).
  unfold findFlow in Hf. destruct (flow_index _ _) as [fi'|]; simpl in Hf; [|done].
  destruct (cfg_Flows cfg !! fi') as [fl|] eqn:Hfi; simpl in Hf; [|done]. injection Hf as <- <-.
  set (x := default ANil (head repl)) in *.
  destruct (Hput (<[i:=x]> parent)) as [Hone Hmany].
  assert (List.length (put (<[i:=x]> parent)) = List.length chain) as Hlen.
  { destruct rest as [|s' rest].
    - destruct (Hone eq_refl) as (-> & -> & ->). by rewrite length_insert, !length_map.
    - destruct Hmany as [-> _]; [done|]. by rewrite !length_map. }
  exists parsed, fi', fl, chain, typed, k, s, rest, put_chain. split_and!; try done.
  - rewrite (fromGenericChain_length _ _ Htd). done.
  - intros j Hj.
    assert (put (<[i:=x]> parent) !! j = map encode_block (map norm_block chain) !! j) as Hroot.
    { destruct rest as [|s' rest].
      - destruct (Hone eq_refl) as (-> & -> & ->). by rewrite list_lookup_insert_ne.
      - destruct Hmany as [_ Hm]; [done|]. by apply Hm. }
    rewrite !list_lookup_fmap in Hroot. destruct (chain !! j) as [b|] eqn:Hb; simpl in *.
    + destruct (fromGenericChain_lookup _ _ _ _ Htd Hroot) as (b' & Hb' & Hd).
      rewrite decode_norm_encode in Hd. rewrite Hb'. congruence.
    + apply lookup_ge_None. apply lookup_ge_None in Hb.
      rewrite (fromGenericChain_length _ _ Htd). lia.
  - intros -> b Hb. destruct (Hone eq_refl) as (-> & -> & Hpi).
    assert (map encode_block (map norm_block chain) !! k = Some (encode_block (norm_block b))) as Hrk.
    { by rewrite !list_lookup_fmap, Hb. }
    rewrite Hrk in Ht. cbn [default from_option] in Ht.
    apply res_bind_ok in Ht as (v & ->%through_json_ok & Hd).
    change (id (encode_block (norm_block b))) with (encode_block (norm_block b)) in Hd.
    rewrite decode_norm_encode in Hd. injection Hd as <-.
    apply res_bind_ok in Hr as (v & ->%through_json_ok & Hr).
    assert (x = encode_block (norm_block (rewrite (norm_block b)))) as Hx.
    { subst x. rewrite json_norm_encode_block in Hr. by injection Hr as <-. }
    destruct (fromGenericChain_lookup _ _ k x Htd) as (b' & Hb' & Hd).
    { rewrite Hpi. apply list_lookup_insert_eq. by apply lookup_lt_Some in Hrk. }
    rewrite Hx, decode_norm_encode in Hd. rewrite Hb'. congruence.
Qed.

Definition if_schema : Schema := fun ty =>
  if String.eqb ty "if" then Some (mkBranches ["then"; "else"] []) else None.
(** f: an if named "check" of which the then chain calls out, then a log. *)
Definition example_config : Config :=
  with_flows [mkFlowConfig "f" None
    [mkBlockConfig "if" "check" ""
       {[ "condition" := AStr "true";
          "then" := AMap {[ "process" := encode_chain [mkBlockConfig "rest" "call" "" ∅] ]} ]};
     mkBlockConfig "log" "" "" ∅] [] 0 0 0] empty_config.

Definition second_block (cfg : Config) : option BlockConfig :=
  f ← cfg_Flows cfg !! 0%nat; fc_Process f !! 1%nat.
Lemma rewrite_touches_only_target_witness :
  exists cfg', injectBreakpoint if_schema example_config "f.check[then].call" = Ok cfg' /\
    second_block cfg' = Some (mkBlockConfig "log" "" "" ∅).
Proof.
  destruct (injectBreakpoint if_schema example_config "f.check[then].call") as [cfg'|e] eqn:E.
  2: { vm_compute in E. discriminate E. }
  exists cfg'. split; [reflexivity|].
  destruct (rewrite_touches_only_target _ _ _ _ _ _ E)
    as (parsed & fi & flow & chain & chain' & k & s & rest & put & Hp & Hs & Hf & Hc & -> & _ & Hk & Hj & _).
  vm_compute in Hp. injection Hp as <-. injection Hs as <- <-.
  destruct fi as [|fi]; [|discriminate Hf]. apply (inj Some) in Hf. subst flow.
  injection Hc as <- <-.
  assert (k = 0%nat) as -> by (vm_compute in Hk; congruence).
  unfold second_block. cbn. rewrite Hj by discriminate. vm_compute. reflexivity.
Defined.

(** The steps of one address reach inside the block of another exactly when
    they share flow and chain, agree step by step down to the other's last
    block, and go on below it. *)
Theorem isInside_spec outer inner :
  a_steps outer ≠ [] ->
  isInside outer inner = true <->
  a_flow outer = a_flow inner /\ a_chain outer = a_chain inner /\
  exists pre last br rest, a_steps outer = (pre ++ [last])%list /\ rest ≠ [] /\
    a_steps inner = (pre ++ mkStep (st_block last) br :: rest)%list.
Proof.
  intros Hne. unfold isInside.
  destruct (String.eqb_spec (a_flow outer) (a_flow inner)); simpl; [|naive_solver].
  destruct (String.eqb_spec (a_chain outer) (a_chain inner)); simpl; [|naive_solver].
  generalize (a_steps inner) as l. generalize dependent (a_steps outer).
  intros o Ho l. transitivity (prefix_steps o l = true /\ (List.length o < List.length l)%nat).
  { destruct (Nat.leb_spec (List.length l) (List.length o)); [|naive_solver].
    split; [done|]. intros [_ ?]. lia. }
  split.
  - intros [H Hlt]. split_and!; [done|done|]. revert l H Hlt.
    induction o as [|s o IH]; [done|]. intros [|[b br] l] H Hlt; [by destruct o|].
    destruct o as [|s' o].
    + simpl in H. apply String.eqb_eq in H as <-. exists [], s, br, l.
      split_and!; [done| |done]. destruct l; [simpl in Hlt; lia|done].
    + cbn [prefix_steps] in H. apply andb_prop in H as [[Hb Hr]%andb_prop H].
      apply String.eqb_eq in Hb, Hr. simpl in Hb, Hr.
      destruct (IH ltac:(done) l H) as (pre & last & br' & rest & He & Hrest & ->); [simpl in *; lia|].
      exists (s :: pre), last, br', rest. rewrite He. split_and!; [done|done|].
      simpl. destruct s; simpl in *; congruence.
  - intros (_ & _ & pre & last & br & rest & -> & Hrest & ->). split.
    + clear. induction pre as [|s pre IH]; simpl; [apply String.eqb_refl|].
      rewrite !String.eqb_refl, IH. by destruct pre.
    + rewrite !length_app. simpl. destruct rest; [done|simpl; lia].
Qed.

Lemma isInside_spec_witness :
  isInside (mkAddress "f" "process" [mkStep "check" ""])
    (mkAddress "f" "process" [mkStep "check" "then"; mkStep "call" ""]) = true.
Proof.
  apply (proj2 (isInside_spec (mkAddress "f" "process" [mkStep "check" ""])
    (mkAddress "f" "process" [mkStep "check" "then"; mkStep "call" ""]) ltac:(discriminate))).
  split_and!; [reflexivity|reflexivity|].
  exists [], (mkStep "check" ""), "then", [mkStep "call" ""]. split_and!; [reflexivity|discriminate|reflexivity].
Defined.

Definition mock_if : Mocks :=
  {[ "f.if" := mkMockSpec [] (Some (mkMockCase "" (AStr "canned") ∅ "" false)) ]}.
Definition spy_call : Spies := mkSpies ["f.check[then].call"] {[ "f.check[then].call" := [] ]} 0.

(** The conflict check compares names, and a block has more than one: with
    the if block "check" mocked through its type, a spy on a block inside it
    passes the check, although it resolves without the mock and no longer does
    once the mock has replaced the block. *)
Theorem aliased_mock_escapes_check :
  checkMockConflicts (Some mock_if) [newResolver example_config "spy" "f.check[then].call"] = Ok tt /\
  is_ok (injectSpies if_schema example_config (Some spy_call)) = true /\
  exists cfg', injectMocks if_schema example_config (Some mock_if) = Ok cfg' /\
    is_ok (injectSpies if_schema cfg' (Some spy_call)) = false.
Proof.
  split; [vm_compute; reflexivity|]. split; [vm_compute; reflexivity|].
  destruct (injectMocks if_schema example_config (Some mock_if)) as [cfg'|e] eqn:E.
  - exists cfg'. split; [done|].
    assert (match injectMocks if_schema example_config (Some mock_if) with
            | Ok c => is_ok (injectSpies if_schema c (Some spy_call)) | Err _ => true end = false) as H
      by (vm_compute; reflexivity).
    by rewrite E in H.
  - exfalso. assert (is_ok (injectMocks if_schema example_config (Some mock_if)) = true) as H
      by (vm_compute; reflexivity). by rewrite E in H.
Qed.

(** An injected spy stands where its target stood: it reports no path, and
    the chain it holds is built at the place the spy sits in, so the target
    keeps the path it has without the spy. *)
Theorem spy_keeps_address {U} (rec : builder U -> FlowConfig -> res (Flow U)) b target addr ty s u record :
  configLabel target ≠ "" ->
  resolve b target = Ok (ty, s) -> isDebugWrapper ty = false ->
  d_Spies (bu_deps b) = Some record ->
  block (flow rec) b (wrapInSpy target addr) = Ok u ->
  u_Path u = "" /\ u_Name u = configLabel target /\
  exists f bl, f_Blocks f = [bl] /\
    b_Path bl = JoinBlock (bu_path b) (configLabel target) /\
    u_object u = leaf (spy_Process (Process f) record addr).
Proof.
  intros Hl Hr Ht Hs (ty' & s' & Hres & Hn & Hty & Hp & Ho)%block_inv.
  unfold resolve in Hres. cbn in Hres. injection Hres as <- <-.
  split; [done|]. split; [done|].
  unfold build_processor in Ho. change (String.eqb blockKindSpy blockKindBreakpoint) with false in Ho.
  rewrite String.eqb_refl in Ho. unfold spy in Ho. cbn [bu_deps at_path] in Ho. rewrite Hs in Ho.
  pose proof (decode_wrapInSpy target addr) as Hd.
  unfold wrapInSpy in Hd, Ho. cbn [c_Settings] in Hd, Ho. rewrite Hd in Ho.
  apply res_bind_ok in Ho as (ws & [= <-] & Ho). cbn [ws_Process ws_Address] in Ho.
  destruct (String.eqb addr "") eqn:Ha; [discriminate Ho|].
  apply res_bind_ok in Ho as (f & Hf & Ho). injection Ho as Ho.
  apply subFlow_ok in Hf. pose proof (flow_blocks _ _ _ _ Hf) as Hb. simpl in Hb.
  apply Forall2_cons_inv_l in Hb as (bl & bls & (v & Hv & _ & _ & Hbp) & Hnil & Hbls).
  apply Forall2_nil_inv_l in Hnil as ->.
  exists f, bl. split; [exact Hbls|]. split; [|by rewrite Ho].
  apply block_inv in Hv as (ty2 & s2 & Hr2 & _ & _ & Hvp & _).
  assert (resolve (at_path b (inner_path b (wrapInSpy target addr) blockKindSpy)) target = resolve b target) as E by done.
  unfold wrapInSpy in E. rewrite E, Hr in Hr2. injection Hr2 as <- <-.
  rewrite Hbp, Hvp. unfold reported_path. by rewrite Ht.
Qed.

Lemma spy_keeps_address_witness :
  let b := example_builder {[ "charge" := charge ]} in
  let target := mkBlockConfig "" "" "charge" ∅ in
  exists u f bl, block (flow (b_flow 0)) b (wrapInSpy target "f.charge") = Ok u /\
    f_Blocks f = [bl] /\ b_Path bl = "f.charge" /\
    u_object u = leaf (spy_Process (Process f) (fun _ _ => mret tt) "f.charge").
Proof.
  intros b target.
  destruct (block (flow (b_flow 0)) b (wrapInSpy target "f.charge")) as [u|e] eqn:E.
  - destruct (spy_keeps_address (b_flow 0) b target "f.charge" "pass" (p_Settings charge) u
      (fun _ _ => mret tt)) as (_ & _ & f & bl & H1 & H2 & H3).
    + intros H. vm_compute in H. discriminate H.
    + reflexivity.
    + reflexivity.
    + reflexivity.
    + exact E.
    + exists u, f, bl. split_and!; [reflexivity|exact H1|exact H2|exact H3].
  - exfalso. assert (is_ok (block (flow (b_flow 0)) b (wrapInSpy target "f.charge")) = true) as H
      by (vm_compute; reflexivity). by rewrite E in H.
Defined.

(** A spied failure carries the label its block is addressed by: when the
    block a spy wraps fails with [e], the flow fails with [e] under that label,
    while without the spy it fails with [e] under the block's name or, unnamed,
    the type its ref resolves to; the two agree unless the block is unnamed,
    declares no type of its own, and has a ref that is not that type's name. *)
Theorem spied_error_label {U} (f inner : Flow U) target ty (p : processor U) record addr l w e path :
  (forall a r w, exists w', record a r w = (w', Ok tt)) ->
  f_Blocks inner = [mkBlock (c_Name target) ty path p None None] ->
  configLabel target ≠ "" ->
  (forall w, exists w', p l w = (w', Err e)) ->
  let spied := mkBlock (configLabel target) blockKindSpy "" (spy_Process (Process inner) record addr) None None in
  let plain := mkBlock (c_Name target) ty path p None None in
  (process_blocks f [spied] l w).2 = Err (ErrBlock (configLabel target) e) /\
  (process_blocks f [plain] l w).2 = Err (ErrBlock (blockLabel ty (c_Name target)) e) /\
  (configLabel target = blockLabel ty (c_Name target) <->
     c_Name target ≠ "" \/ (c_Type target ≠ "" /\ c_Type target = ty) \/
     (c_Type target = "" /\ c_Ref target = ty)).
Proof.
  intros Hrec Hin Hl Hp spied plain. split_and!.
  - destruct (process_blocks_cons f spied [] l w) as (w1 & w2 & _ & _ & ->).
    assert ((b_Processor spied l w1).2 = Err e) as Hs.
    { unfold spied. cbn [b_Processor]. unfold spy_Process, spy_record.
      unfold clone_msg, mbind, M_bind, SM_bind, load, alloc, attempt.
      match goal with |- context [Process inner l ?x] => set (w3 := x) end.
      unfold Process. rewrite Hin.
      destruct (process_blocks_cons inner plain [] l w3) as (w4 & w5 & _ & _ & E). unfold plain in E. rewrite E.
      cbn [b_Processor]. destruct (Hp w4) as [w6 ->]. unfold after_block, fail. cbn [fst snd unlabel].
      unfold now. match goal with |- context [record addr ?r ?x] => destruct (Hrec addr r x) as [w7 ->] end.
      done. }
    rewrite Hs. unfold after_block, blockLabel, spied. cbn [b_Name b_Type].
    by apply String.eqb_neq in Hl as ->.
  - destruct (process_blocks_cons f plain [] l w) as (w1 & w2 & _ & _ & ->).
    unfold plain. cbn [b_Processor]. by destruct (Hp w1) as [w3 ->].
  - unfold configLabel, BlockLabel, blockLabel.
    destruct (String.eqb_spec (c_Name target) ""), (String.eqb_spec (c_Type target) ""); simpl; naive_solver.
Qed.

Definition down : processor unit := fun _ => fail (ErrMsg "down").
Definition no_record : string -> SpyRecord -> M unit unit := fun _ _ => mret tt.
Definition rest_down : Block unit := mkBlock "" "rest" "f.charge-api" down None None.
Lemma spied_error_label_witness :
  let target := mkBlockConfig "" "" "charge-api" ∅ in
  let spied := mkBlock "charge-api" "spy" ""
    (spy_Process (Process (mkFlow "" [rest_down] "f" None)) no_record "f.charge-api") None None in
  let w := mkWorld ∅ 1 (fun _ => None) 0 (fun _ => 0) 0 tt (mkObserved [] 0 0) in
  (process_blocks (mkFlow "f" [] "f" None) [spied] 0 w).2 = Err (ErrBlock "charge-api" (ErrMsg "down")) /\
  (process_blocks (mkFlow "f" [] "f" None) [rest_down] 0 w).2 = Err (ErrBlock "rest" (ErrMsg "down")).
Proof.
  intros target spied w.
  destruct (spied_error_label (mkFlow "f" [] "f" None) (mkFlow "" [rest_down] "f" None) target "rest"
    down no_record "f.charge-api" 0%nat w (ErrMsg "down")
    "f.charge-api") as (H1 & H2 & _).
  - intros a r w'. by exists w'.
  - reflexivity.
  - intros H. vm_compute in H. discriminate H.
  - intros w'. by exists w'.
  - split; [exact H1|exact H2].
Defined.
