(* ===== verification/Split.v ===== *)
(** The split block: one message in, many out:
    [runtime/blocks/controlflow/split.go].

    An element source is the state of the closure that yields elements one at a
    time; it is pulled once more than it has elements, so a bound on those is
    fuel enough. *)
From S2P Require Import Prelude GoStr F64 Message Config Store BlockPath Expr Engine Debug Builder Composites.
From Stdlib Require Import String Ascii.
#[local] Open Scope string_scope.
#[local] Open Scope Z_scope.

Definition blockKindSplit : string := "split".
Definition splitModeExpression : string := "expression".
Definition splitModeLines : string := "lines".
Definition splitModeDelimiter : string := "delimiter".
Definition splitModeChunk : string := "chunk".
Definition splitOnErrorSkip : string := "skip".
Definition splitOnErrorAbort : string := "abort".
Definition sizeUnknown : Z := -1.

(** takeover.go *)
Definition varGroupID : string := "groupId".
Definition varGroupIndex : string := "groupIndex".
Definition varGroupSize : string := "groupSize".

(** ** unicode/utf8: the width [DecodeRuneInString] reports.  A byte that does
    not start a well-formed sequence is a rune of width one. *)
Definition between (a : ascii) (lo hi : Z) : bool := (lo <=? code a) && (code a <=? hi).
Definition continuation_byte (a : ascii) : bool := between a 128 191.
Definition second_byte (b0 b1 : ascii) : bool :=
  let n := code b0 in
  if n =? 224 then between b1 160 191
  else if n =? 237 then between b1 128 159
  else if n =? 240 then between b1 144 191
  else if n =? 244 then between b1 128 143
  else continuation_byte b1.
Definition rune_width (s : string) : nat :=
  match s with
  | EmptyString => 0
  | String b0 r =>
      let n := code b0 in
      match r with
      | String b1 r1 =>
          if ((194 <=? n) && (n <=? 244))%Z && second_byte b0 b1 then
            if (n <=? 223)%Z then 2
            else match r1 with
              | String b2 r2 =>
                  if continuation_byte b2 then
                    if (n <=? 239)%Z then 3
                    else match r2 with
                      | String b3 _ => if continuation_byte b3 then 4 else 1
                      | EmptyString => 1
                      end
                  else 1
              | EmptyString => 1
              end
          else 1
      | EmptyString => 1
      end
  end%nat.

(** [for n := 0; n < size && pos < len(text); n++]: the bytes of the first
    [size] runes. *)
Fixpoint runes_width (fuel : nat) (size : Z) (s : string) : nat :=
  match fuel with
  | O => 0
  | S fuel =>
      if (size <=? 0)%Z || String.eqb s "" then 0
      else rune_width s + runes_width fuel (size - 1)%Z (str_drop (rune_width s) s)
  end%nat.

(** ** Element sources *)
Inductive source : Type :=
  | SItems (rest : list any)
  | SLines (rest : string)
  | SDelimiter (rest sep : string) (done : bool)
  | SChunk (rest : string) (size : Z).

Definition newline : string := String "010" "".
Definition carriage_return : ascii := "013"%char.

Definition next_element (s : source) : option (any * source) :=
  match s with
  | SItems [] => None
  | SItems (item :: rest) => Some (item, SItems rest)
  | SLines rest =>
      if String.eqb rest "" then None
      else match cut rest newline with
        | Some (line, remainder) => Some (AStr (trim_suffix_byte line carriage_return), SLines remainder)
        | None => Some (AStr (trim_suffix_byte rest carriage_return), SLines "")
        end
  | SDelimiter rest sep done =>
      if done then None
      else match cut rest sep with
        | Some (part, remainder) => Some (AStr part, SDelimiter remainder sep false)
        | None => Some (AStr rest, SDelimiter rest sep true)
        end
  | SChunk rest size =>
      if String.eqb rest "" then None
      else
        let n := runes_width (String.length rest) size rest in
        Some (AStr (str_take n rest), SChunk (str_drop n rest) size)
  end.

Definition lineElements (text : string) : source := SLines text.
Definition delimiterElements (text sep : string) : source := SDelimiter text sep (String.eqb text "").
Definition chunkElements (text : string) (size : Z) : source := SChunk text size.

(** A bound on the elements still to come. *)
Definition source_bound (s : source) : nat :=
  match s with
  | SItems rest => List.length rest
  | SLines rest | SChunk rest _ => String.length rest
  | SDelimiter rest _ done => if done then 0 else S (String.length rest)
  end.

(** ** The block *)
Record split : Type := mkSplit {
  sl_mode : string;
  sl_items : option Program;
  sl_delimiter : string;
  sl_chunkSize : Z;
  sl_abort : bool;
}.

Definition textBody (msg : Message) : res string :=
  match RawBody msg with
  | Some (_, raw) => Ok raw
  | None =>
      match Body msg with
      | AStr text => Ok text
      | v => Err (ErrMsg ("split in a tokenizing mode requires a text body (raw content or a string), got "
                          ++ go_type v))
      end
  end.

Definition expressionElements (items : Program) (msg : Message) : res (source * Z) :=
  value ← wrap_err "split items: " (items msg);
  match value with
  | AArr items => Ok (SItems items, Z.of_nat (List.length items))
  | v => Err (ErrMsg ("split items expression must evaluate to an array, got " ++ go_type v))
  end.

(** A split in expression mode always has its program; see [resolveMode]. *)
Definition elements (s : split) (msg : Message) : res (source * Z) :=
  if String.eqb (sl_mode s) splitModeExpression then
    match sl_items s with
    | Some items => expressionElements items msg
    | None => Err (ErrMsg "runtime error: invalid memory address or nil pointer dereference")
    end
  else
    text ← textBody msg;
    if String.eqb (sl_mode s) splitModeLines then Ok (lineElements text, sizeUnknown)
    else if String.eqb (sl_mode s) splitModeDelimiter
    then Ok (delimiterElements text (sl_delimiter s), sizeUnknown)
    else Ok (chunkElements text (sl_chunkSize s), sizeUnknown).

Definition elementMessage (parent : Message) (value : any) (id : option string) : res Message :=
  elem ← NewMessage (CorrelationID parent) id;
  let elem := Clone (SetBody value elem) in
  mret (set_vars (fun _ => Vars parent) elem).

Section split.
Context {U : Type}.

(** [NewMessage] and [Clone] each allocate; only the clone is ever seen. *)
Definition emit (s : split) (cont : continuation U) (parent : nat) (groupID : string)
    (index size : Z) (value : any) : M U unit :=
  p ← load parent;
  id ← draw_id;
  elem ← lift (elementMessage p value id);
  elem ← alloc (set_var varGroupSize (AInt size) (set_var varGroupIndex (AInt index)
                  (set_var varGroupID (AStr groupID) elem)));
  r ← attempt (cont elem);
  match r with
  | Ok _ => mret tt
  | Err err => if sl_abort s then fail (ErrWrap ("split element " ++ itoa index ++ ": ") err "") else mret tt
  end.

Fixpoint fan_out (s : split) (cont : continuation U) (msg : nat) (groupID : string) (knownSize : Z)
    (fuel : nat) (src : source) (pending : option any) (index : Z) : M U Z :=
  match fuel with
  | O => fail (ErrMsg "out of fuel")
  | S fuel =>
      match next_element src with
      | None =>
          match pending with
          | None => mret index
          | Some value =>
              let size := if knownSize =? sizeUnknown then index + 1 else knownSize in
              emit s cont msg groupID index size value ≫= fun _ => mret (index + 1)
          end
      | Some (value, src) =>
          match pending with
          | None => fan_out s cont msg groupID knownSize fuel src (Some value) index
          | Some p =>
              emit s cont msg groupID index knownSize p ≫= fun _ =>
              fan_out s cont msg groupID knownSize fuel src (Some value) (index + 1)
          end
      end
  end.

Definition fanOut (s : split) (cont : continuation U) (msg : nat) (groupID : string)
    (src : source) (knownSize : Z) : M U Z :=
  fan_out s cont msg groupID knownSize (S (source_bound src)) src None 0.

Definition split_Process (s : split) (buildResponse : option (processor U))
    (cont : continuation U) : processor U := fun msg =>
  m ← load msg;
  '(src, knownSize) ← lift (elements s m);
  let groupID := EventID m in
  total ← fanOut s cont msg groupID src knownSize;
  update msg (set_var varGroupID (AStr groupID)) ≫= fun _ =>
  update msg (set_var varGroupSize (AInt total)) ≫= fun _ =>
  applyTakeover msg buildResponse.

Record splitSettings : Type := mkSplitSettings {
  ss_Mode : string;
  ss_Items : string;
  ss_Delimiter : string;
  ss_ChunkSize : Z;
  ss_OnError : string;
  ss_BuildResponse : option FlowConfig;
}.

Definition decode_split (raw : Settings) : res splitSettings :=
  DecodeStrict ["mode"; "items"; "delimiter"; "chunkSize"; "onError"; "buildResponse"] (fun m =>
    mode ← json_string (m !! "mode");
    items ← json_string (m !! "items");
    delimiter ← json_string (m !! "delimiter");
    chunk ← json_int (m !! "chunkSize");
    onError ← json_string (m !! "onError");
    response ← json_ptr decode_flow (m !! "buildResponse");
    mret (mkSplitSettings mode items delimiter chunk onError response)) raw.

(** The mode's own setting, checked, and the program of expression mode. *)
Definition resolveMode (deps : BlockDeps U) (mode : string) (cfg : splitSettings) : res (option Program) :=
  if String.eqb mode splitModeExpression then
    if String.eqb (ss_Items cfg) ""
    then Err (ErrMsg "split block in expression mode requires an items expression")
    else Some <$> wrap_err "split items: " (d_Compile deps (ss_Items cfg))
  else if String.eqb mode splitModeDelimiter then
    if String.eqb (ss_Delimiter cfg) "" then Err (ErrMsg "split block in delimiter mode requires a delimiter")
    else Ok None
  else if String.eqb mode splitModeChunk then
    if ss_ChunkSize cfg <=? 0 then Err (ErrMsg "split block in chunk mode requires a positive chunkSize")
    else Ok None
  else if String.eqb mode splitModeLines then Ok None
  else Err (ErrMsg ("split block mode " ++ quote mode ++ " must be one of " ++ quote splitModeExpression
              ++ ", " ++ quote splitModeLines ++ ", " ++ quote splitModeDelimiter
              ++ ", " ++ quote splitModeChunk)).

Definition newSplit (raw : Settings) (deps : BlockDeps U) : res (object U) :=
  cfg ← decode_split raw;
  let mode := if String.eqb (ss_Mode cfg) "" then splitModeExpression else ss_Mode cfg in
  items ← resolveMode deps mode cfg;
  abort ← (if String.eqb (ss_OnError cfg) "" || String.eqb (ss_OnError cfg) splitOnErrorSkip then Ok false
           else if String.eqb (ss_OnError cfg) splitOnErrorAbort then Ok true
           else Err (ErrMsg ("split block onError " ++ quote (ss_OnError cfg) ++ " must be "
                       ++ quote splitOnErrorSkip ++ " or " ++ quote splitOnErrorAbort)));
  response ← buildTakeoverResponse blockKindSplit deps (ss_BuildResponse cfg);
  mret (mkObject (TakesOver (split_Process
    (mkSplit mode items (ss_Delimiter cfg) (ss_ChunkSize cfg) abort) response)) None None).
End split.

(** ** Cutting text *)
Lemma cut_some s sep a b : sep ≠ "" -> cut s sep = Some (a, b) ->
  s = (a ++ sep ++ b)%string /\ cut a sep = None.
Proof.
  intros Hsep. revert a. induction s as [|c s IH]; intros a H; cbn [cut] in H.
  - destruct (has_prefix "" sep) eqn:Hp; [|done]. by destruct sep.
  - destruct (has_prefix (String c s) sep) eqn:Hp.
    + injection H as <- <-. apply has_prefix_app in Hp as [r Hr].
      rewrite Hr, str_drop_app. split; [done|]. by destruct sep.
    + destruct (cut s sep) as [[a' b']|] eqn:E; [|done]. injection H as <- <-.
      destruct (IH a' eq_refl) as [-> Hn]. split; [done|].
      cbn [cut]. destruct (has_prefix (String c a') sep) eqn:Hp'; [|by rewrite Hn].
      apply has_prefix_app in Hp' as [r Hr].
      assert (has_prefix (String c (a' ++ sep ++ b')) sep = true) as Hq; [|congruence].
      apply has_prefix_app. exists (r ++ sep ++ b')%string.
      change (String c (a' ++ sep ++ b')) with (String c a' ++ (sep ++ b'))%string.
      by rewrite Hr, app_str_assoc.
Qed.

Lemma rune_width_pos a s : (1 <= rune_width (String a s))%nat.
Proof. cbn [rune_width]. cbv zeta. repeat case_match; lia. Qed.

Lemma str_drop_length n s : String.length (str_drop n s) = (String.length s - n)%nat.
Proof. revert s. induction n as [|n IH]; intros [|a s]; simpl; auto. Qed.
Lemma str_take_drop n s : (str_take n s ++ str_drop n s)%string = s.
Proof. revert s. induction n as [|n IH]; intros [|a s]; try done. exact (f_equal (String a) (IH s)). Qed.

(** ** The elements of a source *)
Definition source_ok (s : source) : Prop :=
  match s with SDelimiter _ sep _ => sep ≠ "" | SChunk _ size => 0 < size | _ => True end.

Lemma next_element_shrinks s v s' :
  source_ok s -> next_element s = Some (v, s') -> source_ok s' /\ (source_bound s' < source_bound s)%nat.
Proof.
  destruct s as [[|item rest]|rest|rest sep done|rest size]; intros Hok; cbn [next_element].
  - done.
  - intros [= <- <-]. simpl. split; [done|lia].
  - destruct (String.eqb_spec rest ""); [done|]. destruct (cut rest newline) as [[line rem]|] eqn:E.
    + intros [= <- <-]. split; [done|]. simpl. destruct (cut_some rest newline line rem ltac:(done) E) as [-> _].
      rewrite !length_app_str. simpl. lia.
    + intros [= <- <-]. split; [done|]. simpl. destruct rest; [done|simpl; lia].
  - destruct done; [done|]. destruct (cut rest sep) as [[part rem]|] eqn:E; intros [= <- <-]; (split; [done|]); simpl.
    + destruct (cut_some rest sep part rem Hok E) as [-> _]. rewrite !length_app_str.
      simpl in Hok. destruct sep; [done|simpl; lia].
    + lia.
  - destruct (String.eqb_spec rest ""); [done|]. intros [= <- <-]. split; [done|]. simpl in Hok |- *.
    rewrite str_drop_length. destruct rest as [|a rest]; [done|]. cbn [String.length runes_width].
    destruct (Z.leb_spec size 0); [lia|]. simpl orb. pose proof (rune_width_pos a rest).
    destruct (String.eqb_spec (String a rest) ""); [done|]. lia.
Qed.

Fixpoint pull (fuel : nat) (s : source) : list any :=
  match fuel with
  | O => []
  | S fuel => match next_element s with None => [] | Some (v, s) => v :: pull fuel s end
  end.
(** Everything a source yields. *)
Definition elements_of (s : source) : list any := pull (S (source_bound s)) s.

Lemma pull_fuel s : forall n k, source_ok s -> (source_bound s < n)%nat -> (source_bound s < k)%nat -> pull n s = pull k s.
Proof.
  intros n. revert s. induction n as [|n IH]; intros s [|k] Hok Hn Hk; try lia. simpl.
  destruct (next_element s) as [[v s']|] eqn:E; [|done].
  destruct (next_element_shrinks s v s' Hok E). f_equal. apply IH; done || lia.
Qed.

Lemma elements_of_next s : source_ok s ->
  elements_of s = match next_element s with None => [] | Some (v, s') => v :: elements_of s' end.
Proof.
  intros Hok. unfold elements_of at 1. simpl. destruct (next_element s) as [[v s']|] eqn:E; [|done].
  destruct (next_element_shrinks s v s' Hok E). f_equal. unfold elements_of. apply pull_fuel; done || lia.
Qed.

Lemma elements_of_items items : elements_of (SItems items) = items.
Proof. induction items as [|x items IH]; rewrite elements_of_next by done; simpl; [done|by rewrite IH]. Qed.

(** Induction over what is left to pull. *)
Lemma pull_ind (P : source -> Prop) :
  (forall s, source_ok s -> (forall v s', next_element s = Some (v, s') -> P s') -> P s) ->
  forall s, source_ok s -> P s.
Proof.
  intros H s. remember (source_bound s) as n eqn:Hn. revert s Hn.
  induction n as [n IH] using lt_wf_ind. intros s -> Hok. apply H; [done|].
  intros v s' E. destruct (next_element_shrinks s v s' Hok E). by eapply IH.
Qed.

Definition text_of (v : any) : string := match v with AStr s => s | _ => "" end.

Lemma delimiter_elements rest sep : sep ≠ "" ->
  join sep (map text_of (elements_of (SDelimiter rest sep false))) = rest /\
  elements_of (SDelimiter rest sep false) ≠ [] /\
  Forall (fun v => exists p, v = AStr p /\ cut p sep = None) (elements_of (SDelimiter rest sep false)).
Proof.
  intros Hsep. revert rest. assert (forall s, source_ok s -> forall rest, s = SDelimiter rest sep false ->
    join sep (map text_of (elements_of s)) = rest /\ elements_of s ≠ [] /\
    Forall (fun v => exists p, v = AStr p /\ cut p sep = None) (elements_of s)) as H.
  { intros s Hok. pattern s. apply pull_ind; [clear s Hok; intros s Hok IH rest ->|done].
  rewrite elements_of_next by done. cbn [next_element] in *.
    destruct (cut rest sep) as [[part rem]|] eqn:E.
    - destruct (cut_some rest sep part rem Hok E) as [-> Hcut].
      destruct (IH _ _ eq_refl rem eq_refl) as (Hj & Hne & Hf). split_and!; [|done|].
      + destruct (elements_of (SDelimiter rem sep false)) as [|e es] eqn:El; [done|].
        cbn [map join text_of] in *. by rewrite Hj.
      + constructor; [by exists part|done].
    - rewrite elements_of_next by done. simpl. split_and!; [done|done|]. repeat constructor. by exists rest. }
  intros rest. by apply H.
Qed.

Lemma chunk_elements text size : 0 < size ->
  join "" (map text_of (elements_of (SChunk text size))) = text /\
  Forall (fun v => exists p, v = AStr p /\ p ≠ "") (elements_of (SChunk text size)).
Proof.
  intros Hsize. assert (forall s, source_ok s -> forall text, s = SChunk text size ->
    join "" (map text_of (elements_of s)) = text /\
    Forall (fun v => exists p, v = AStr p /\ p ≠ "") (elements_of s)) as H; [|by apply (H (SChunk text size))].
  clear text. intros s Hok. pattern s. apply pull_ind; [clear s Hok; intros s Hok IH text ->|done].
  rewrite elements_of_next by done. cbn [next_element] in *.
  destruct (String.eqb_spec text "") as [Hz|Hne]; [by subst text|].
  destruct (IH _ _ eq_refl _ eq_refl) as [Hj Hf]. clear IH.
  set (n := runes_width (String.length text) size text) in *. split.
  - cbn [map join text_of]. transitivity (str_take n text ++ str_drop n text)%string; [|apply str_take_drop].
    etransitivity; [|exact (f_equal (append (str_take n text)) Hj)].
    by destruct (map text_of _); [cbn [join]; rewrite app_str_nil_r|].
  - constructor; [|done]. exists (str_take n text). split; [done|].
    subst n. destruct text as [|a text]; [done|]. cbn [String.length runes_width].
    destruct (Z.leb_spec size 0); [lia|]. simpl orb. destruct (String.eqb_spec (String a text) ""); [done|].
    pose proof (rune_width_pos a text). destruct (rune_width (String a text)); [lia|done].
Qed.

(** The text [lines] reads back as when every line ends in a newline. *)
Fixpoint terminated (lines : list string) : string :=
  match lines with [] => "" | l :: lines => l ++ newline ++ terminated lines end.

Lemma line_elements text :
  exists lines, elements_of (SLines text) = map (fun l => AStr (trim_suffix_byte l carriage_return)) lines /\
    Forall (fun l => cut l newline = None) lines /\
    (text = terminated lines \/ text ++ newline = terminated lines)%string.
Proof.
  assert (forall s, source_ok s -> forall text, s = SLines text ->
    exists lines, elements_of s = map (fun l => AStr (trim_suffix_byte l carriage_return)) lines /\
    Forall (fun l => cut l newline = None) lines /\
    (text = terminated lines \/ text ++ newline = terminated lines)%string) as H; [|by apply (H (SLines text))].
  clear text. intros s Hok. pattern s. apply pull_ind; [clear s Hok; intros s Hok IH text ->|done].
  rewrite elements_of_next by done. cbn [next_element] in *.
  destruct (String.eqb_spec text "") as [Hz|Hne]; [subst text; exists []; split_and!; [done|constructor|by left]|].
  destruct (cut text newline) as [[line rem]|] eqn:E.
  - destruct (cut_some text newline line rem ltac:(done) E) as [-> Hcut].
    destruct (IH _ _ eq_refl rem eq_refl) as (lines & -> & Hf & Ht).
    exists (line :: lines). split_and!; [done|by constructor|].
    cbn [terminated]. destruct Ht as [->|<-]; [by left|right]. by rewrite !app_str_assoc.
  - exists [text]. split_and!; [|by repeat constructor|right; cbn [terminated]; by rewrite app_str_nil_r].
    rewrite elements_of_next by done. done.
Qed.

(** ** Every message of a split *)

(** A mode and the setting it reads. *)
Definition split_ok (s : split) : Prop :=
  (sl_mode s = splitModeDelimiter -> sl_delimiter s ≠ "") /\
  (sl_mode s ∉ [splitModeExpression; splitModeLines; splitModeDelimiter] -> 0 < sl_chunkSize s).

(** The values a split of [m] is to yield, in terms of its input alone. *)
Definition carves (s : split) (m : Message) (vs : list any) : Prop :=
  if String.eqb (sl_mode s) splitModeExpression
  then exists items, sl_items s = Some items /\ items m = Ok (AArr vs)
  else exists text, textBody m = Ok text /\
    if String.eqb (sl_mode s) splitModeLines
    then exists lines, vs = map (fun l => AStr (trim_suffix_byte l carriage_return)) lines /\
      Forall (fun l => cut l newline = None) lines /\
      (text = terminated lines \/ text ++ newline = terminated lines)%string
    else exists parts, vs = map AStr parts /\
      if String.eqb (sl_mode s) splitModeDelimiter
      then join (sl_delimiter s) parts = text /\ Forall (fun p => cut p (sl_delimiter s) = None) parts
      else join "" parts = text /\ Forall (fun p => p ≠ "") parts.

Lemma texts_of (Q : string -> Prop) vs :
  Forall (fun v => exists p, v = AStr p /\ Q p) vs -> vs = map AStr (map text_of vs) /\ Forall Q (map text_of vs).
Proof.
  induction 1 as [|v vs (p & -> & Hp) _ [IH1 IH2]]; [by repeat constructor|].
  split; [|by constructor]. cbn [map text_of]. by rewrite <-IH1.
Qed.

Lemma elements_carves s m src known :
  split_ok s -> elements s m = Ok (src, known) ->
  source_ok src /\ carves s m (elements_of src) /\
  known = (if String.eqb (sl_mode s) splitModeExpression
           then Z.of_nat (List.length (elements_of src)) else sizeUnknown).
Proof.
  intros [Hd Hc]. unfold elements, carves. destruct (String.eqb_spec (sl_mode s) splitModeExpression) as [He|He].
  - destruct (sl_items s) as [items|]; [|done]. unfold expressionElements.
    destruct (items m) as [v|e] eqn:Ei; [|done]. destruct v; simpl; intros; simplify_eq/=.
    rewrite elements_of_items. split_and!; [done|by exists items|done].
  - destruct (textBody m) as [text|e]; [|done].
    destruct (String.eqb_spec (sl_mode s) splitModeLines) as [Hl|Hl].
    { intros [= <- <-]. split_and!; [done| |done]. exists text. split; [done|]. apply line_elements. }
    destruct (String.eqb_spec (sl_mode s) splitModeDelimiter) as [Hm|Hm]; intros [= <- <-].
    + specialize (Hd Hm). split_and!; [done| |done]. exists text. split; [done|]. unfold delimiterElements.
      destruct (String.eqb_spec text "") as [Hz|Hz]; [subst text; by exists []; repeat constructor|].
      destruct (delimiter_elements text (sl_delimiter s) Hd) as (Hj & _ & Hf).
      destruct (texts_of _ _ Hf). by eexists.
    + assert (0 < sl_chunkSize s) as Hs by (apply Hc; rewrite !not_elem_of_cons; by repeat split; try apply not_elem_of_nil).
      split_and!; [done| |done]. exists text. split; [done|].
      destruct (chunk_elements text (sl_chunkSize s) Hs) as [Hj Hf]. destruct (texts_of _ _ Hf). by eexists.
Qed.

(** What [newSplit] accepts is well set up. *)
Lemma resolveMode_ok {U} (deps : BlockDeps U) mode cfg items abort :
  resolveMode deps mode cfg = Ok items -> split_ok (mkSplit mode items (ss_Delimiter cfg) (ss_ChunkSize cfg) abort).
Proof.
  unfold resolveMode, split_ok. cbn [sl_mode sl_delimiter sl_chunkSize]. repeat setoid_rewrite not_elem_of_cons.
  destruct (String.eqb_spec mode splitModeExpression) as [->|He]; [intros _; split; [done|naive_solver]|].
  destruct (String.eqb_spec mode splitModeDelimiter) as [->|Hd].
  { destruct (String.eqb_spec (ss_Delimiter cfg) ""); [done|]. intros _. split; [done|naive_solver]. }
  destruct (String.eqb_spec mode splitModeChunk) as [->|Hc].
  { destruct (Z.leb_spec (ss_ChunkSize cfg) 0); [done|]. intros _. by split. }
  destruct (String.eqb_spec mode splitModeLines) as [->|Hl]; [|done]. intros _. split; [done|naive_solver].
Qed.

(** The element at position [i] of a group of [n]: the size it can announce. *)
Definition announced (known : Z) (n i : nat) : Z :=
  if known =? sizeUnknown then (if Nat.eqb (S i) n then Z.of_nat n else sizeUnknown) else known.

Definition element (p : Message) (known : Z) (n i : nat) (v : any) (id : string) : Message :=
  mkMessage id (CorrelationID p)
    (<[varGroupSize := AInt (announced known n i)]> (<[varGroupIndex := AInt (Z.of_nat i)]>
       (<[varGroupID := AStr (EventID p)]> (Vars p)))) (copyBody v) "" false false.

(** A continuation that notes each message it is handed, and answers as told. *)
Definition note (verdict : nat -> res unit) : continuation (list Message) := fun l =>
  m ← load l; got ← get_usr; set_usr (got ++ [m])%list ≫= fun _ => lift (verdict (List.length got)).

(** A run that handed over [msgs] and left the message [l] alone. *)
Definition handed (l : nat) (msgs : list Message) (w w' : world (list Message)) : Prop :=
  usr w' = (usr w ++ msgs)%list /\ ids w' = ids w /\ idn w' = (idn w + List.length msgs)%nat /\
  (next w <= next w')%nat /\ peek w' l = peek w l.

Lemma handed_nil l w : handed l [] w w.
Proof. unfold handed. rewrite app_nil_r. by rewrite Nat.add_0_r. Qed.
Lemma handed_app l a b w1 w2 w3 : handed l a w1 w2 -> handed l b w2 w3 -> handed l (a ++ b)%list w1 w3.
Proof.
  intros (Hu & Hi & Hn & Hx & Hp) (Hu' & Hi' & Hn' & Hx' & Hp').
  split_and!; [by rewrite Hu', Hu, app_assoc|congruence|rewrite length_app; lia|lia|congruence].
Qed.

Section handing.
Context (s : split) (verdict : nat -> res unit) (idf : nat -> string).
Hypothesis Hskip : sl_abort s = false \/ forall i, verdict i = Ok tt.
Context (l : nat) (p : Message) (known : Z) (n : nat).

Definition given (w : world (list Message)) : Prop :=
  (l < next w)%nat /\ peek w l = p /\ forall k, ids w k = Some (idf k).

Lemma given_handed msgs w w' : handed l msgs w w' -> given w -> given w'.
Proof.
  intros (_ & Hi & _ & Hx & Hp) (Hl & Hpk & Hid). split_and!; [lia|congruence|]. intros k. by rewrite Hi.
Qed.

Lemma emit_hands i size v w : given w -> size = announced known n i ->
  exists w', emit s (note verdict) l (EventID p) (Z.of_nat i) size v w = (w', Ok tt) /\
    handed l [element p known n i v (idf (idn w))] w w'.
Proof.
  intros (Hl & Hp & Hid) ->. unfold emit, note, mbind, M_bind, SM_bind, load, draw_id, lift, alloc, attempt.
  rewrite Hp, Hid. destruct (verdict (List.length (usr w))) as [[]|e] eqn:E.
  - eexists. split; [cbn; by rewrite E|]. split_and!; cbn; [|done|lia|lia|].
    + unfold peek at 1. cbn. by rewrite lookup_insert_eq.
    + unfold peek. cbn. by rewrite lookup_insert_ne by lia.
  - assert (sl_abort s = false) as Ha by (destruct Hskip as [?|H]; [done|by rewrite H in E]).
    eexists. split; [cbn; by rewrite E, Ha|]. split_and!; cbn; [|done|lia|lia|].
    + unfold peek at 1. cbn. by rewrite lookup_insert_eq.
    + unfold peek. cbn. by rewrite lookup_insert_ne by lia.
Qed.

(** What is left of the group, from position [i] on. *)
Definition remaining (i : nat) (k : nat) (vs : list any) : list Message :=
  imap (fun j v => element p known n (i + j) v (idf (k + j))) vs.
Lemma remaining_cons i k v vs :
  remaining i k (v :: vs) = element p known n i v (idf k) :: remaining (S i) (S k) vs.
Proof.
  unfold remaining. rewrite imap_cons, !Nat.add_0_r. f_equal. apply imap_ext. intros j x _. cbn.
  by rewrite !Nat.add_succ_r.
Qed.

Lemma fan_out_hands fuel : forall src pending i w,
  source_ok src -> (source_bound src < fuel)%nat -> given w -> (known = sizeUnknown \/ known = Z.of_nat n) ->
  let vs := (option_list pending ++ elements_of src)%list in n = (i + List.length vs)%nat ->
  exists w', fan_out s (note verdict) l (EventID p) known fuel src pending (Z.of_nat i) w
    = (w', Ok (Z.of_nat n)) /\ handed l (remaining i (idn w) vs) w w'.
Proof.
  induction fuel as [|fuel IH]; [intros; lia|]. intros src pending i w Hok Hb Hg Hk. cbn [fan_out]. cbv zeta.
  rewrite (elements_of_next src Hok). destruct (next_element src) as [[v src']|] eqn:E.
  - destruct (next_element_shrinks src v src' Hok E) as [Hok' Hb']. destruct pending as [q|].
    + intros Hn. simpl in Hn. destruct (emit_hands i known q w Hg) as (w1 & He & Hh).
      { unfold announced. destruct (Z.eqb_spec known sizeUnknown); [|done].
        destruct (Nat.eqb_spec (S i) n); [lia|done]. }
      rewrite (SM_bind_ok _ _ _ _ _ He). replace (Z.of_nat i + 1) with (Z.of_nat (S i)) by lia.
      destruct (IH src' (Some v) (S i) w1 Hok' ltac:(lia) (given_handed _ _ _ Hh Hg) Hk) as (w2 & H2 & Hh2);
        [simpl; lia|].
      exists w2. split; [exact H2|]. cbv [option_list option_rect] in *. cbn [app] in *.
      rewrite remaining_cons.
      assert (idn w1 = S (idn w)) as Hd by (destruct Hh as (_ & _ & -> & _); cbn; lia). rewrite Hd in Hh2.
      by apply (handed_app l [_] _ w w1 w2).
    + intros Hn. apply (IH src' (Some v) i w Hok' ltac:(lia) Hg Hk Hn).
  - destruct pending as [q|]; intros Hn; simpl in Hn.
    + destruct (emit_hands i (if known =? sizeUnknown then Z.of_nat i + 1 else known) q w Hg) as (w1 & He & Hh).
      { unfold announced. rewrite (proj2 (Nat.eqb_eq (S i) n)) by lia. destruct (known =? sizeUnknown); lia. }
      rewrite (SM_bind_ok _ _ _ _ _ He). exists w1.
      split; [|cbv [option_list option_rect]; cbn [app]; by rewrite remaining_cons].
      by replace (Z.of_nat n) with (Z.of_nat i + 1) by lia.
    + exists w. split; [|apply handed_nil]. by replace (Z.of_nat n) with (Z.of_nat i) by lia.
Qed.
End handing.

(** Splitting loses, adds and reorders nothing.  When a split carves its
    message, what it yields is determined by the input alone (the array; or the
    lines; or parts free of the delimiter that join back to the text; or
    non-empty chunks that concatenate to it), and the continuation is handed
    exactly those values, in order, each on a message of its own that copies the
    element, carries the parent's variables and the position in the group, and
    announces the group's size: always when the input is an array, and otherwise
    on the last element only, which carries the true count.  Under [skip], or
    when no dispatch fails, the block then answers the parent itself, with the
    group and its size set and the chain asked to stop. *)
Theorem split_numbers_elements s verdict idf l (w : world (list Message)) src known :
  split_ok s -> (sl_abort s = false \/ forall i, verdict i = Ok tt) ->
  (l < next w)%nat -> (forall k, ids w k = Some (idf k)) ->
  elements s (peek w l) = Ok (src, known) ->
  let p := peek w l in
  exists vs w', carves s p vs /\
    split_Process s None (note verdict) l w = (w', Ok (Some l)) /\
    usr w' = (usr w ++ imap (fun i v => element p known (List.length vs) i v (idf (idn w + i)%nat)) vs)%list /\
    known = (if String.eqb (sl_mode s) splitModeExpression then Z.of_nat (List.length vs) else sizeUnknown) /\
    peek w' l = RequestStop (set_var varGroupSize (AInt (Z.of_nat (List.length vs)))
                  (set_var varGroupID (AStr (EventID p)) p)).
Proof.
  intros Hs Hv Hl Hid He p. destruct (elements_carves s p src known Hs He) as (Hok & Hc & Hk).
  set (vs := elements_of src) in *. exists vs.
  destruct (fan_out_hands s verdict idf Hv l p known (List.length vs) (S (source_bound src)) src None 0 w Hok)
    as (w1 & H1 & Hu & _ & _ & _ & Hp).
  - lia.
  - by split_and!.
  - subst known. destruct (String.eqb (sl_mode s) splitModeExpression); [by right|by left].
  - done.
  - eexists. split; [done|]. unfold split_Process.
    rewrite (SM_bind_ok (load l) _ w w p eq_refl), (SM_bind_ok (lift _) _ w w (src, known)) by (unfold lift; subst p; by rewrite He).
    rewrite (SM_bind_ok _ _ _ _ _ H1). split_and!; [reflexivity|exact Hu|done|].
    change (peek (update l RequestStop (update l (set_var varGroupSize (AInt (Z.of_nat (List.length vs))))
      (update l (set_var varGroupID (AStr (EventID p))) w1).1).1).1 l = RequestStop (set_var varGroupSize
        (AInt (Z.of_nat (List.length vs))) (set_var varGroupID (AStr (EventID p)) p))).
    by rewrite !peek_update, !decide_True, Hp by done.
Qed.

Definition two_parts : world (list Message) :=
  mkWorld {[ 0%nat := set_body (AStr "a,b") false zeroMessage ]} 1 (fun _ => Some "id") 0 (fun _ => 0) 0 []
    (mkObserved [] 0 0).

Lemma split_numbers_elements_witness :
  exists w', split_Process (mkSplit splitModeDelimiter None "," 0 false) None
      (note (fun _ => Err (ErrMsg "closed"))) 0%nat two_parts = (w', Ok (Some 0%nat)) /\
    map Body (usr w') = [AStr "a"; AStr "b"] /\
    map (fun m => Vars m !! varGroupSize) (usr w') = [Some (AInt (-1)); Some (AInt 2)] /\
    StopRequested (peek w' 0) = true.
Proof.
  edestruct (split_numbers_elements (mkSplit splitModeDelimiter None "," 0 false)
    (fun _ => Err (ErrMsg "closed")) (fun _ => "id") 0 two_parts) as (vs & w' & _ & H & _ & _ & Hp).
  - split; [done|]. intros H. exfalso. apply H. do 2 right. left.
  - by left.
  - vm_compute. lia.
  - done.
  - vm_compute. reflexivity.
  - exists w'. split; [exact H|]. rewrite Hp. split_and!; [| |apply StopRequested_RequestStop].
    + apply (f_equal (fun r => map Body (usr r.1))) in H. vm_compute in H. by symmetry.
    + apply (f_equal (fun r => map (fun m => Vars m !! varGroupSize) (usr r.1))) in H.
      vm_compute in H. by symmetry.
Defined.
