(* ===== verification/Sha256.v ===== *)
(** SHA-256 and hex, as [crypto/sha256] and [encoding/hex] compute them, for the
    keys [hashedKey] of [blocks/controlflow/takeover.go] derives. *)
From S2P Require Import Prelude GoStr.
From Stdlib Require Import String Ascii.
#[local] Open Scope Z_scope.
#[local] Open Scope list_scope.

Definition rotr (n x : Z) : Z := Z.lor (Z.shiftr x n) (u32 (Z.shiftl x (32 - n))).

Definition big_sigma0 (x : Z) : Z := Z.lxor (rotr 2 x) (Z.lxor (rotr 13 x) (rotr 22 x)).
Definition big_sigma1 (x : Z) : Z := Z.lxor (rotr 6 x) (Z.lxor (rotr 11 x) (rotr 25 x)).
Definition small_sigma0 (x : Z) : Z := Z.lxor (rotr 7 x) (Z.lxor (rotr 18 x) (Z.shiftr x 3)).
Definition small_sigma1 (x : Z) : Z := Z.lxor (rotr 17 x) (Z.lxor (rotr 19 x) (Z.shiftr x 10)).
Definition choose (e f g : Z) : Z := Z.lxor (Z.land e f) (Z.land (Z.lxor e (2 ^ 32 - 1)) g).
Definition majority (a b c : Z) : Z := Z.lxor (Z.land a b) (Z.lxor (Z.land a c) (Z.land b c)).

(** The first 32 bits of the fractional parts of the cube roots of the first 64
    primes. *)
Definition round_constants : list Z := [
  1116352408; 1899447441; 3049323471; 3921009573; 961987163; 1508970993; 2453635748; 2870763221;
  3624381080; 310598401; 607225278; 1426881987; 1925078388; 2162078206; 2614888103; 3248222580;
  3835390401; 4022224774; 264347078; 604807628; 770255983; 1249150122; 1555081692; 1996064986;
  2554220882; 2821834349; 2952996808; 3210313671; 3336571891; 3584528711; 113926993; 338241895;
  666307205; 773529912; 1294757372; 1396182291; 1695183700; 1986661051; 2177026350; 2456956037;
  2730485921; 2820302411; 3259730800; 3345764771; 3516065817; 3600352804; 4094571909; 275423344;
  430227734; 506948616; 659060556; 883997877; 958139571; 1322822218; 1537002063; 1747873779;
  1955562222; 2024104815; 2227730452; 2361852424; 2428436474; 2756734187; 3204031479; 3329325298].

(** The eight working words. *)
Record digest : Type := mkDigest { d_a : Z; d_b : Z; d_c : Z; d_d : Z; d_e : Z; d_f : Z; d_g : Z; d_h : Z }.
Definition initial_digest : digest :=
  mkDigest 1779033703 3144134277 1013904242 2773480762 1359893119 2600822924 528734635 1541459225.
Definition digest_words (d : digest) : list Z := [d_a d; d_b d; d_c d; d_d d; d_e d; d_f d; d_g d; d_h d].
Definition digest_add (x y : digest) : digest :=
  mkDigest (u32 (d_a x + d_a y)) (u32 (d_b x + d_b y)) (u32 (d_c x + d_c y)) (u32 (d_d x + d_d y))
    (u32 (d_e x + d_e y)) (u32 (d_f x + d_f y)) (u32 (d_g x + d_g y)) (u32 (d_h x + d_h y)).

Definition round (k w : Z) (d : digest) : digest :=
  let t1 := d_h d + big_sigma1 (d_e d) + choose (d_e d) (d_f d) (d_g d) + k + w in
  let t2 := big_sigma0 (d_a d) + majority (d_a d) (d_b d) (d_c d) in
  mkDigest (u32 (t1 + t2)) (d_a d) (d_b d) (d_c d) (u32 (d_d d + t1)) (d_e d) (d_f d) (d_g d).

(** [window] holds the sixteen schedule words from the current one on. *)
Definition next_word (window : list Z) : Z :=
  u32 (small_sigma1 (nth 14 window 0) + nth 9 window 0 + small_sigma0 (nth 1 window 0) + nth 0 window 0).
Fixpoint rounds (ks : list Z) (window : list Z) (d : digest) : digest :=
  match ks, window with
  | k :: ks, w :: rest => rounds ks (rest ++ [next_word window]) (round k w d)
  | _, _ => d
  end.

Definition word (b0 b1 b2 b3 : Z) : Z := ((b0 * 256 + b1) * 256 + b2) * 256 + b3.
Fixpoint words (bytes : list Z) : list Z :=
  match bytes with
  | b0 :: b1 :: b2 :: b3 :: rest => word b0 b1 b2 b3 :: words rest
  | _ => []
  end.

Fixpoint compress_all (blocks : nat) (bytes : list Z) (d : digest) : digest :=
  match blocks with
  | O => d
  | S blocks =>
      compress_all blocks (drop 64 bytes) (digest_add d (rounds round_constants (words (take 64 bytes)) d))
  end.

(** The [n] low bytes of [z], the most significant first. *)
Fixpoint big_endian (n : nat) (z : Z) : list Z :=
  match n with O => [] | S n => big_endian n (z / 256) ++ [z `mod` 256] end.

(** A one bit, zeros up to eight bytes short of a block, the length in bits. *)
Definition pad (bytes : list Z) : list Z :=
  let n := Z.of_nat (List.length bytes) in
  bytes ++ 128 :: repeat 0 (Z.to_nat ((55 - n) `mod` 64)) ++ big_endian 8 (8 * n).

(** [sha256.Sum256]. *)
Definition Sum256 (bytes : list Z) : list Z :=
  let padded := pad bytes in
  mjoin (map (big_endian 4)
    (digest_words (compress_all (Nat.div (List.length padded) 64) padded initial_digest))).

Definition bytes_of (s : string) : list Z := map code (list_ascii_of_string s).

(** [hex.EncodeToString]. *)
Fixpoint EncodeToString (bytes : list Z) : string :=
  match bytes with
  | [] => EmptyString
  | b :: bytes => String (hex_digit (b / 16)) (String (hex_digit (b `mod` 16)) (EncodeToString bytes))
  end.

Definition hashedKey (raw : string) : string := EncodeToString (Sum256 (bytes_of raw)).

Example sha256_abc :
  hashedKey "abc" = "ba7816bf8f01cfea414140de5dae2223b00361a396177a9cb410ff61f20015ad"%string.
Proof. vm_compute. reflexivity. Qed.
Example sha256_two_blocks :
  hashedKey "abcdbcdecdefdefgefghfghighijhijkijkljklmklmnlmnomnopnopq"
  = "248d6a61d20638b8e5c026930c3e6039a33ce45964ff2167f6ecedd419db06c1"%string.
Proof. vm_compute. reflexivity. Qed.

(** ** Lemmas *)
Lemma big_endian_length n z : List.length (big_endian n z) = n.
Proof. revert z. induction n as [|n IH]; intros z; simpl; [done|]. rewrite length_app, IH. simpl. lia. Qed.

Lemma Sum256_length bytes : List.length (Sum256 bytes) = 32%nat.
Proof.
  unfold Sum256. destruct (compress_all _ _ _) as [a b c d e f g h]. unfold digest_words.
  cbn [map d_a d_b d_c d_d d_e d_f d_g d_h]. cbv [mjoin list_join]. by rewrite !length_app, !big_endian_length.
Qed.

Lemma EncodeToString_length bytes : String.length (EncodeToString bytes) = (2 * List.length bytes)%nat.
Proof. induction bytes as [|b bytes IH]; simpl; lia. Qed.

(** Sixty-four bytes, whatever the key. *)
Lemma hashedKey_length raw : String.length (hashedKey raw) = 64%nat.
Proof. unfold hashedKey. by rewrite EncodeToString_length, Sum256_length. Qed.
