(* ===== verification/KV.v ===== *)
(** The key-value contract of the runtime and its in-memory implementation:
    [runtime/core/services.go] and [runtime/services/standalone/kv.go].

    [KV] is what blocks are written against; [KVLaws] is what they may rely on.
    A stored value is opaque here: [V] is the type of the bytes, or of what they
    decode to. *)
From S2P Require Import Prelude GoStr Message Store.
From Stdlib Require Import String.
#[local] Open Scope string_scope.
#[local] Open Scope Z_scope.

Definition ErrVersionConflict : goerr := ErrMsg "kv: object version conflict".
Definition ErrNoKV : goerr := ErrMsg "kv: no store configured".

(** ** Namespaces *)
Definition NamespaceSystem : string := "system".
Definition NamespaceUser : string := "user".
Definition NamespaceSystemSecrets : string := "system_secrets".
Definition NamespaceUserSecrets : string := "user_secrets".
Definition NamespaceSystemVolatile : string := "system_volatile".
Definition NamespaceUserVolatile : string := "user_volatile".
Definition SecretNamespaceSuffix : string := "_secrets".
Definition VolatileNamespaceSuffix : string := "_volatile".

Definition secretNamespace (namespace : string) : string :=
  if String.eqb namespace NamespaceSystem then NamespaceSystemSecrets
  else if String.eqb namespace NamespaceUser then NamespaceUserSecrets
  else namespace ++ SecretNamespaceSuffix.
Definition IsSecretNamespace (namespace : string) : bool := HasSuffix namespace SecretNamespaceSuffix.
Definition VolatileNamespace (namespace : string) : string :=
  if String.eqb namespace NamespaceSystem then NamespaceSystemVolatile
  else if String.eqb namespace NamespaceUser then NamespaceUserVolatile
  else namespace ++ VolatileNamespaceSuffix.
Definition IsVolatileNamespace (namespace : string) : bool := HasSuffix namespace VolatileNamespaceSuffix.

Record Entry (V : Type) : Type := mkEntry { e_Value : V; e_Version : Z }.
Arguments mkEntry {V}. Arguments e_Value {V}. Arguments e_Version {V}.

#[global] Instance Entry_eq_dec {V} `{EqDecision V} : EqDecision (Entry V).
Proof. solve_decision. Defined.

(** The version a read leaves its caller with: 0 when the key is absent. *)
Definition version_of {V} (e : option (Entry V)) : Z := match e with Some e => e_Version e | None => 0 end.

(** ** The interface *)
Class KV (V U : Type) : Type := {
  kv_Get : string -> string -> M U (option (Entry V));
  kv_Set : string -> string -> V -> Z -> M U Z;
  kv_Delete : string -> string -> Z -> M U unit;
}.

(** What a caller is promised of a store nothing else writes to meanwhile:
    [contents] is what the state holds, [same_rest] that two states differ in
    their stores at most, [calm] that no other writer is about to interfere. *)
Class KVLaws (V U : Type) `{!KV V U} : Type := {
  contents : U -> string -> string -> option (Entry V);
  same_rest : U -> U -> Prop;
  calm : U -> Prop;
  same_rest_equiv :: Equivalence same_rest;
  law_Get ns key w : calm (usr w) ->
    exists u, kv_Get ns key w = (with_usr u w, Ok (contents (usr w) ns key)) /\
      (forall n k, contents u n k = contents (usr w) n k) /\ same_rest (usr w) u /\ calm u;
  law_Set ns key v expected w : calm (usr w) ->
    exists u, same_rest (usr w) u /\ calm u /\
      if decide (expected = version_of (contents (usr w) ns key))
      then kv_Set ns key v expected w = (with_usr u w, Ok (expected + 1)) /\
           forall n k, contents u n k =
             if decide (n = ns /\ k = key) then Some (mkEntry v (expected + 1)) else contents (usr w) n k
      else kv_Set ns key v expected w = (with_usr u w, Err ErrVersionConflict) /\
           forall n k, contents u n k = contents (usr w) n k;
  law_Delete ns key expected w : calm (usr w) ->
    exists u, same_rest (usr w) u /\ calm u /\
      if decide (expected = 0 \/ contents (usr w) ns key = None \/
                 expected = version_of (contents (usr w) ns key))
      then kv_Delete ns key expected w = (with_usr u w, Ok tt) /\
           forall n k, contents u n k = if decide (n = ns /\ k = key) then None else contents (usr w) n k
      else kv_Delete ns key expected w = (with_usr u w, Err ErrVersionConflict) /\
           forall n k, contents u n k = contents (usr w) n k;
}.

(** [noopKV]: reads miss and writes fail. *)
Definition NoopKV {V U} : KV V U := {|
  kv_Get _ _ := mret None;
  kv_Set _ _ _ _ := fail ErrNoKV;
  kv_Delete _ _ _ := fail ErrNoKV;
|}.

(** [NewSecretStore]: the same store under the secret counterpart of each
    namespace. *)
Definition NewSecretStore {V U} (kv : KV V U) : KV V U := {|
  kv_Get ns := @kv_Get V U kv (secretNamespace ns);
  kv_Set ns := @kv_Set V U kv (secretNamespace ns);
  kv_Delete ns := @kv_Delete V U kv (secretNamespace ns);
|}.

(** ** services/standalone/kv.go *)
Section store.
Context {V : Type}.

Abbreviation namespaces := (gmap string (gmap string (Entry V))).

(** [snap] is the directory, absent for a store kept in memory; [wake] the nudge
    waiting in the flusher's channel. *)
Record store : Type := mkStore {
  ns : namespaces;
  dirty : gset string;
  snap : option string;
  wake : bool;
}.

Definition newSnapshot (dir : string) : option string := if String.eqb dir "" then None else Some dir.

Definition persists (s : store) (namespace : string) : bool :=
  match snap s with Some _ => true | None => false end
  && negb (IsVolatileNamespace namespace) && negb (IsSecretNamespace namespace).

Definition touch (namespace : string) (s : store) : store :=
  if negb (persists s namespace) then s
  else mkStore (ns s) ({[ namespace ]} ∪ dirty s) (snap s) true.

Definition keys_of (s : store) (namespace : string) : gmap string (Entry V) := default ∅ (ns s !! namespace).
Definition with_keys (namespace : string) (keys : gmap string (Entry V)) (s : store) : store :=
  mkStore (<[ namespace := keys ]> (ns s)) (dirty s) (snap s) (wake s).

Definition store_Get (namespace key : string) (s : store) : option (Entry V) := keys_of s namespace !! key.

(** Versions count the writes of one key, so [int64] does not wrap here. *)
Definition store_write (namespace key : string) (value : V) (expectedVersion : Z) (s : store) : store * res Z :=
  let current := version_of (keys_of s namespace !! key) in
  if negb (expectedVersion =? current) then (s, Err ErrVersionConflict)
  else
    let next := current + 1 in
    (touch namespace (with_keys namespace (<[ key := mkEntry value next ]> (keys_of s namespace)) s), Ok next).

Definition store_Set : string -> string -> V -> Z -> store -> store * res Z := store_write.

(** Deleting from an absent namespace deletes nothing, so none is made. *)
Definition store_Delete (namespace key : string) (expectedVersion : Z) (s : store) : store * res unit :=
  match keys_of s namespace !! key with
  | None => (s, Ok tt)
  | Some e =>
      if negb (expectedVersion =? 0) && negb (expectedVersion =? e_Version e)
      then (s, Err ErrVersionConflict)
      else (touch namespace (with_keys namespace (delete key (keys_of s namespace)) s), Ok tt)
  end.
End store.
Arguments store : clear implicits.

(** ** A service state that holds such a store

    [re_moves] are the writes other replicas of the deployment make: before each
    call of this one reaches the store, the next of them does. *)
Record replica (V R : Type) : Type := mkReplica {
  re_store : store V;
  re_moves : list (store V -> store V);
  re_rest : R;
}.
Arguments mkReplica {V R}. Arguments re_store {V R}. Arguments re_moves {V R}. Arguments re_rest {V R}.

Section replica.
Context {V R : Type}.

Definition interfere (u : replica V R) : store V :=
  match re_moves u with [] => re_store u | move :: _ => move (re_store u) end.
Definition on_store {A} (f : store V -> store V * res A) : M (replica V R) A := fun w =>
  let u := usr w in
  let '(s, r) := f (interfere u) in
  (with_usr (mkReplica s (tail (re_moves u)) (re_rest u)) w, r).

#[global] Instance replica_KV : KV V (replica V R) := {
  kv_Get namespace key := on_store (fun s => (s, Ok (store_Get namespace key s)));
  kv_Set namespace key value expected := on_store (store_Set namespace key value expected);
  kv_Delete namespace key expected := on_store (store_Delete namespace key expected);
}.
End replica.

(** * Lemmas *)
Section lemmas.
Context {V : Type}.
Implicit Types s : store V.

Lemma keys_of_touch s n k : keys_of (touch n s) k = keys_of s k.
Proof. unfold touch. by destruct (persists s n). Qed.
Lemma keys_of_with s n keys k : keys_of (with_keys n keys s) k = if decide (k = n) then keys else keys_of s k.
Proof.
  unfold keys_of, with_keys. simpl. destruct (decide (k = n)) as [->|]; [by rewrite lookup_insert_eq|].
  by rewrite lookup_insert_ne.
Qed.

(** What a read sees after each operation. *)
Lemma store_Get_write n k v expected s n' k' :
  expected = version_of (store_Get n k s) ->
  (store_write n k v expected s).2 = Ok (expected + 1) /\
  store_Get n' k' (store_write n k v expected s).1 =
    if decide (n' = n /\ k' = k) then Some (mkEntry v (expected + 1)) else store_Get n' k' s.
Proof.
  intros He. unfold store_write, store_Get in *. rewrite <-He, Z.eqb_refl. cbn [negb fst snd]. split; [done|].
  rewrite keys_of_touch, keys_of_with. destruct (decide (n' = n)) as [->|Hn].
  - destruct (decide (k' = k)) as [->|Hk].
    + by rewrite lookup_insert_eq, decide_True.
    + by rewrite lookup_insert_ne, decide_False by naive_solver.
  - by rewrite decide_False by naive_solver.
Qed.

Lemma store_write_conflict n k v expected s :
  expected ≠ version_of (store_Get n k s) -> store_write n k v expected s = (s, Err ErrVersionConflict).
Proof. intros He. unfold store_write, store_Get in *. by rewrite (proj2 (Z.eqb_neq _ _) He). Qed.

Lemma store_Get_Delete n k expected s n' k' :
  expected = 0 \/ store_Get n k s = None \/ expected = version_of (store_Get n k s) ->
  (store_Delete n k expected s).2 = Ok tt /\
  store_Get n' k' (store_Delete n k expected s).1 = if decide (n' = n /\ k' = k) then None else store_Get n' k' s.
Proof.
  intros He. unfold store_Delete, store_Get in *. destruct (keys_of s n !! k) as [e|] eqn:E.
  - assert (negb (expected =? 0) && negb (expected =? e_Version e) = false) as ->.
    { destruct He as [He|[He|He]]; [by subst|done|]. subst expected. simpl. by rewrite Z.eqb_refl, andb_false_r. }
    cbn [fst snd]. split; [done|]. rewrite keys_of_touch, keys_of_with. destruct (decide (n' = n)) as [->|Hn].
    + destruct (decide (k' = k)) as [->|Hk].
      * by rewrite lookup_delete_eq, decide_True.
      * by rewrite lookup_delete_ne, decide_False by naive_solver.
    + by rewrite decide_False by naive_solver.
  - split; [done|]. simpl. destruct (decide _) as [[-> ->]|]; done.
Qed.

Lemma store_Delete_conflict n k expected s :
  ~ (expected = 0 \/ store_Get n k s = None \/ expected = version_of (store_Get n k s)) ->
  store_Delete n k expected s = (s, Err ErrVersionConflict).
Proof.
  intros He. unfold store_Delete, store_Get in *. destruct (keys_of s n !! k) as [e|]; [|naive_solver].
  simpl in He. assert ((expected =? 0) = false) as -> by (apply Z.eqb_neq; naive_solver).
  by assert ((expected =? e_Version e) = false) as -> by (apply Z.eqb_neq; naive_solver).
Qed.
End lemmas.

Lemma with_usr_id {U} (w : world U) : with_usr (usr w) w = w.
Proof. by destruct w. Qed.

(** The in-memory store keeps the promise, as long as nobody else writes. *)
#[global, program] Instance replica_laws {V R} : KVLaws V (replica V R) := {
  contents u n k := store_Get n k (re_store u);
  same_rest u u' := re_rest u = re_rest u';
  calm u := re_moves u = [];
}.
Next Obligation. intros V R. split; [by intros x|by intros x y|intros x y z; by etransitivity]. Qed.
Next Obligation.
  intros V R n k w Hc. exists (usr w). cbn. unfold on_store, interfere. rewrite Hc. cbn.
  destruct w as [h nx i nn t c [s mv r] o]. cbn in *. by subst mv.
Qed.
Next Obligation.
  intros V R n k v expected w Hc. cbn. unfold on_store, interfere. rewrite Hc. cbn.
  exists (mkReplica (store_Set n k v expected (re_store (usr w))).1 [] (re_rest (usr w))). split_and!; [done|done|].
  case_decide as He; cbn.
  - destruct (store_Get_write n k v expected (re_store (usr w)) n k He) as [H2 _].
    unfold store_Set. destruct (store_write _ _ _ _ _) eqn:E. cbn in *. subst. split; [done|]. intros n' k'.
    destruct (store_Get_write n k v _ (re_store (usr w)) n' k' eq_refl) as [_ <-]. by rewrite E.
  - unfold store_Set. by rewrite store_write_conflict.
Qed.
Next Obligation.
  intros V R n k expected w Hc. cbn. unfold on_store, interfere. rewrite Hc. cbn.
  exists (mkReplica (store_Delete n k expected (re_store (usr w))).1 [] (re_rest (usr w))). split_and!; [done|done|].
  case_decide as He; cbn.
  - destruct (store_Get_Delete n k expected (re_store (usr w)) n k He) as [H2 _].
    destruct (store_Delete _ _ _ _) eqn:E. cbn in *. subst. split; [done|]. intros n' k'.
    destruct (store_Get_Delete n k expected (re_store (usr w)) n' k' He) as [_ <-]. by rewrite E.
  - by rewrite store_Delete_conflict.
Qed.
