(* ===== verification/Group.v ===== *)
(** The groups an aggregate accumulates: the stored state of
    [blocks/controlflow/aggregate.go], its JSON form, and how one message is
    folded into a group.

    A stored value is the JSON document it parses to.  An integer of a document
    is exact, as it is when decoded into an [int64]; decoded into an [any] every
    number becomes a float64 ([json_norm]). *)
From S2P Require Import Prelude GoStr F64 GoTime Message Config Store Expr Engine Debug Builder Composites Split.
From Stdlib Require Import String.
#[local] Open Scope string_scope.
#[local] Open Scope Z_scope.

Definition aggregateReasonSize : string := "size".
Definition aggregateReasonTimeout : string := "timeout".
Definition aggregateReasonExpression : string := "expression".
Definition aggregateReasonOverflow : string := "overflow".
Definition aggregateTimeoutFromFirst : string := "first".
Definition aggregateTimeoutFromLast : string := "last".
Definition varGroup : string := "group".
Definition maxPositionedIndex : Z := 100000.

Record groupState : Type := mkGroup {
  g_Key : string;
  g_Count : Z;
  g_Size : Z;
  g_Acc : any;
  g_CorrelationID : string;
  g_TraceID : string;
  g_FirstAt : Z;
  g_LastAt : Z;
  g_Deadline : Z;
}.

Record groupEntry : Type := mkGroupEntry { ge_FirstAt : Z; ge_Deadline : Z }.
#[global] Instance groupEntry_eq_dec : EqDecision groupEntry.
Proof. solve_decision. Defined.

(** A nil map of groups is read as an empty one. *)
Definition groupIndex : Type := gmap string groupEntry.

(** ** JSON *)
Definition json_unsupported : goerr := ErrMsg "json: unsupported value".
Definition json_too_deep : goerr := ErrMsg "exceeded max depth".

(** [json.Marshal] and [json.Unmarshal] of a value held as [any]. *)
Definition marshal (v : any) : res any := if encodable v then Ok v else Err json_unsupported.
Definition parseable (doc : any) : bool := Nat.leb (nesting doc) json_max_depth.

Definition omit_int (key : string) (n : Z) : gmap string any := if n =? 0 then ∅ else {[ key := AInt n ]}.

Definition encode_group (g : groupState) : res any :=
  acc ← marshal (g_Acc g);
  mret (AMap ({[ "key" := AStr (g_Key g); "count" := AInt (g_Count g); "size" := AInt (g_Size g); "acc" := acc;
                 "firstAt" := AInt (g_FirstAt g); "lastAt" := AInt (g_LastAt g) ]}
              ∪ omit_str "correlationId" (g_CorrelationID g) ∪ omit_str "traceId" (g_TraceID g)
              ∪ omit_int "deadline" (g_Deadline g))).

(** A field the document lacks, or has as null, keeps the value it had. *)
Definition field {A} (dec : option any -> res A) (init : A) (v : option any) : res A :=
  match v with None | Some ANil => Ok init | Some _ => dec v end.

Definition decode_group (init : groupState) (doc : any) : res groupState :=
  if negb (parseable doc) then Err json_too_deep
  else match doc with
  | ANil => Ok init
  | AMap m =>
      key ← field json_string (g_Key init) (m !! "key");
      count ← field json_int (g_Count init) (m !! "count");
      size ← field json_int (g_Size init) (m !! "size");
      correlation ← field json_string (g_CorrelationID init) (m !! "correlationId");
      trace ← field json_string (g_TraceID init) (m !! "traceId");
      first ← field json_int (g_FirstAt init) (m !! "firstAt");
      last ← field json_int (g_LastAt init) (m !! "lastAt");
      deadline ← field json_int (g_Deadline init) (m !! "deadline");
      mret (mkGroup key count size (match m !! "acc" with Some v => json_norm v | None => g_Acc init end)
              correlation trace first last deadline)
  | v => json_mismatch v "controlflow.groupState"
  end.

Definition encode_index (index : groupIndex) : any :=
  AMap {[ "groups" := AMap ((fun e => AMap ({[ "firstAt" := AInt (ge_FirstAt e) ]}
                                           ∪ omit_int "deadline" (ge_Deadline e))) <$> index) ]}.

Definition decode_entry (v : any) : res groupEntry :=
  match v with
  | ANil => Ok (mkGroupEntry 0 0)
  | AMap m => f ← json_int (m !! "firstAt"); d ← json_int (m !! "deadline"); mret (mkGroupEntry f d)
  | v => json_mismatch v "controlflow.groupEntry"
  end.

Definition decode_index (doc : any) : res groupIndex :=
  if negb (parseable doc) then Err json_too_deep
  else match doc with
  | ANil => Ok ∅
  | AMap m =>
      match m !! "groups" with
      | None | Some ANil => Ok ∅
      | Some (AMap groups) =>
          entries ← mapM (fun kv => e ← decode_entry kv.2; mret (kv.1, e)) (map_to_list groups);
          mret (list_to_map entries)
      | Some v => json_mismatch v "map[string]controlflow.groupEntry"
      end
  | v => json_mismatch v "controlflow.groupIndex"
  end.

Definition normalizeJSON (value : any) : res any :=
  raw ← wrap_err "encode value: " (marshal value);
  if parseable raw then Ok (json_norm raw) else Err (ErrWrap "decode value: " json_too_deep "").

Definition asInt (value : any) : option Z :=
  match value with
  | AInt n | AInt32 n | AInt64 n => Some n
  | AUint64 n => if int64_max <? n then None else Some n
  | AFloat n => if f_eq n (f_of_Z (f_to_int n)) then Some (f_to_int n) else None
  | _ => None
  end.

(** ** Folding one message in *)
Definition positionLimit (msg : Message) (state : groupState) : Z :=
  if 0 <? g_Size state then Z.min (g_Size state) maxPositionedIndex
  else match Variables.Int (Vars msg) varGroupSize with
    | Some size => if 0 <? size then Z.min size maxPositionedIndex else maxPositionedIndex
    | None => maxPositionedIndex
    end.

(** [for len(items) <= index { append nil }; items[index] = body]. *)
Definition place (items : list any) (index : nat) (body : any) : list any :=
  <[ index := body ]> (items ++ replicate (S index - List.length items) ANil)%list.

Definition placeInOrder (acc : any) (msg : Message) (state : groupState) : list any :=
  let items := match acc with AArr items => items | _ => [] end in
  match Variables.Int (Vars msg) varGroupIndex with
  | Some index =>
      if (index <? 0) || (positionLimit msg state <=? index) then (items ++ [Body msg])%list
      else place items (Z.to_nat index) (Body msg)
  | None => (items ++ [Body msg])%list
  end.

Definition activation (now : Z) (g : groupState) : any :=
  AMap {[ "key" := AStr (g_Key g); "count" := AInt (g_Count g); "size" := AInt (g_Size g); "acc" := g_Acc g;
          "firstAt" := AStr (RFC3339 (g_FirstAt g)); "lastAt" := AStr (RFC3339 (g_LastAt g));
          "ageMs" := AInt64 (Z.quot (wrap64 (now - g_FirstAt g)) Millisecond);
          "idleMs" := AInt64 (Z.quot (wrap64 (now - g_LastAt g)) Millisecond) ]}.

(** How an aggregate combines: the part of [aggregate] the fold reads. *)
Record folding : Type := mkFolding {
  fd_fold : option Program;
  fd_completionSize : Program;
  fd_completionExpr : option Program;
  fd_appendMode : bool;
  fd_timeout : Z;
  fd_timeoutFrom : string;
}.

Definition group_deadline (a : folding) (state : groupState) : Z :=
  if fd_timeout a <=? 0 then 0
  else wrap64 ((if String.eqb (fd_timeoutFrom a) aggregateTimeoutFromLast then g_LastAt state else g_FirstAt state)
               + fd_timeout a).

Definition with_acc (acc : any) (g : groupState) : groupState :=
  mkGroup (g_Key g) (g_Count g) (g_Size g) acc (g_CorrelationID g) (g_TraceID g) (g_FirstAt g) (g_LastAt g) (g_Deadline g).
Definition with_size (size : Z) (g : groupState) : groupState :=
  mkGroup (g_Key g) (g_Count g) size (g_Acc g) (g_CorrelationID g) (g_TraceID g) (g_FirstAt g) (g_LastAt g) (g_Deadline g).
Definition counted (now : Z) (g : groupState) : groupState :=
  mkGroup (g_Key g) (g_Count g + 1) (g_Size g) (g_Acc g) (g_CorrelationID g) (g_TraceID g) (g_FirstAt g) now (g_Deadline g).
Definition with_deadline (d : Z) (g : groupState) : groupState :=
  mkGroup (g_Key g) (g_Count g) (g_Size g) (g_Acc g) (g_CorrelationID g) (g_TraceID g) (g_FirstAt g) (g_LastAt g) d.

Section fold.
Context {U : Type}.

Definition withGroup (msg : nat) (state : groupState) : M U Message :=
  m ← load msg;
  update msg (fun _ => (Scoped m).2) ≫= fun _ =>
  t ← now;
  mret (set_var varGroup (activation t state) (Scoped m).1).

Definition accumulate (a : folding) (msg : nat) (state : groupState) : M U any :=
  if fd_appendMode a then
    m ← load msg; mret (AArr (placeInOrder (g_Acc state) m state))
  else
    g ← withGroup msg state;
    match fd_fold a with
    | Some fold => value ← lift (wrap_err "aggregate expression: " (fold g)); lift (normalizeJSON value)
    | None => fail (ErrMsg "runtime error: invalid memory address or nil pointer dereference")
    end.

Definition learnSize (a : folding) (msg : nat) (state : groupState) : M U groupState :=
  if 0 <=? g_Size state then mret state
  else
    g ← withGroup msg state;
    value ← lift (wrap_err "aggregate completionSize: " (fd_completionSize a g));
    mret match asInt value with
         | Some size => if 0 <? size then with_size size state else state
         | None => state
         end.

(** The new state, and the reason the group is complete when it is. *)
Definition applyMessage (a : folding) (msg : nat) (state : groupState) : M U (groupState * option string) :=
  acc ← accumulate a msg state;
  t ← now;
  let state := counted t (with_acc acc state) in
  let state := with_deadline (group_deadline a state) state in
  state ← learnSize a msg state;
  if (0 <=? g_Size state) && (g_Size state <=? g_Count state) then mret (state, Some aggregateReasonSize)
  else match fd_completionExpr a with
    | Some predicate =>
        g ← withGroup msg state;
        done ← lift (wrap_err "aggregate completionExpression: " (EvalCondition predicate g));
        mret (state, if (done : bool) then Some aggregateReasonExpression else None)
    | None => mret (state, None)
    end.
End fold.

(** * Lemmas *)
Lemma json_max_depth_large : (100 <= json_max_depth)%nat.
Proof. with_strategy transparent [json_max_depth] (unfold json_max_depth). lia. Qed.

Lemma omit_int_lookup key n k :
  omit_int key n !! k = if decide (k = key) then (if n =? 0 then None else Some (AInt n)) else None.
Proof.
  unfold omit_int. destruct (decide (k = key)) as [->|Hk], (n =? 0); try done.
  - by rewrite lookup_singleton_eq.
  - by rewrite lookup_singleton_ne.
Qed.

(** Decide equalities between literals. *)
Ltac decide_literals :=
  repeat match goal with
  | |- context [decide (?a = ?b)] => first
      [rewrite (decide_True (P := a = b)) by reflexivity | rewrite (decide_False (P := a = b)) by discriminate]
  end.

Lemma field_int_omit n : field json_int 0 (if n =? 0 then None else Some (AInt n)) = Ok n.
Proof. by destruct (Z.eqb_spec n 0) as [->|]. Qed.
Lemma field_string_omit s : field json_string "" (if String.eqb s "" then None else Some (AStr s)) = Ok s.
Proof. by destruct (String.eqb_spec s "") as [->|]. Qed.

(** The state a group is decoded into: nothing but its key and an unknown or
    zero size. *)
Definition blank (key : string) (size : Z) : groupState := mkGroup key 0 size ANil "" "" 0 0 0.

(** The document of a group, where it is small enough to be read back. *)
Definition decodes (doc : any) (g : groupState) : Prop :=
  forall key size, decode_group (blank key size) doc = Ok g.

Lemma nesting_group_doc acc m :
  (forall k v, m !! k = Some v -> v = acc \/ nesting v = 0%nat) -> (S (nesting acc) <= json_max_depth)%nat ->
  parseable (AMap m) = true.
Proof.
  intros Hm Ha. apply Nat.leb_le. apply nesting_map_bound; [|lia].
  intros k v Hv. destruct (Hm k v Hv) as [->| ->]; lia.
Qed.

(** What is stored is what was folded, its numbers as JSON has them. *)
Lemma encode_group_round_trip g :
  encodable (g_Acc g) = true -> (nesting (g_Acc g) < json_max_depth)%nat ->
  exists doc, encode_group g = Ok doc /\ decodes doc (with_acc (json_norm (g_Acc g)) g).
Proof.
  intros He Hn. unfold encode_group, marshal. rewrite He. eexists. split; [reflexivity|]. intros key size.
  set (m := (_ ∪ omit_int "deadline" (g_Deadline g))).
  assert (forall k, m !! k =
    if decide (k = "key") then Some (AStr (g_Key g)) else if decide (k = "count") then Some (AInt (g_Count g))
    else if decide (k = "size") then Some (AInt (g_Size g)) else if decide (k = "acc") then Some (g_Acc g)
    else if decide (k = "firstAt") then Some (AInt (g_FirstAt g)) else if decide (k = "lastAt") then Some (AInt (g_LastAt g))
    else if decide (k = "correlationId") then (if String.eqb (g_CorrelationID g) "" then None else Some (AStr (g_CorrelationID g)))
    else if decide (k = "traceId") then (if String.eqb (g_TraceID g) "" then None else Some (AStr (g_TraceID g)))
    else if decide (k = "deadline") then (if g_Deadline g =? 0 then None else Some (AInt (g_Deadline g))) else None) as Hm.
  { intros k. subst m. rewrite !lookup_union, !omit_str_lookup, omit_int_lookup.
    repeat (case_decide; [subst k; decide_literals; by repeat case_match|]).
    rewrite !lookup_insert_ne by done. by rewrite lookup_singleton_ne by done. }
  assert (parseable (AMap m) = true) as Hp.
  { apply (nesting_group_doc (g_Acc g)); [|lia]. intros k v. rewrite Hm.
    repeat case_decide; intros Hv; simplify_eq; auto; repeat case_match; simplify_eq; auto. }
  unfold decode_group. rewrite Hp. cbn [negb]. rewrite !Hm. decide_literals.
  cbn [blank g_Key g_Count g_Size g_CorrelationID g_TraceID g_FirstAt g_LastAt g_Deadline].
  rewrite !field_string_omit, field_int_omit. done.
Qed.

Definition encode_entry (e : groupEntry) : any :=
  AMap ({[ "firstAt" := AInt (ge_FirstAt e) ]} ∪ omit_int "deadline" (ge_Deadline e)).

Lemma decode_encode_entry e : decode_entry (encode_entry e) = Ok e.
Proof.
  unfold encode_entry, decode_entry. rewrite !lookup_union, !omit_int_lookup. decide_literals.
  rewrite lookup_singleton_eq, lookup_singleton_ne by done. cbn.
  destruct e as [f d]. cbn. by destruct (Z.eqb_spec d 0) as [->|].
Qed.

Lemma nesting_entry e : (nesting (encode_entry e) <= 1)%nat.
Proof.
  apply nesting_map_bound; [|lia]. intros k v. rewrite lookup_union_Some_raw, omit_int_lookup.
  intros [[_ <-]%lookup_singleton_Some|[_ Hv]]; [simpl; lia|].
  repeat case_decide; repeat case_match; simplify_eq; simpl; lia.
Qed.

Lemma index_round_trip index : decode_index (encode_index index) = Ok index.
Proof.
  unfold decode_index, encode_index. change (fun e => AMap _) with encode_entry.
  assert (parseable (AMap {[ "groups" := AMap (encode_entry <$> index) ]}) = true) as ->.
  { apply Nat.leb_le. etransitivity; [|apply json_max_depth_large]. transitivity 3%nat; [|lia].
    apply nesting_map_bound; [|lia]. intros k v [<- <-]%lookup_singleton_Some.
    apply le_n_S, nesting_map_bound; [|lia]. intros k v (e & <- & _)%lookup_fmap_Some.
    pose proof (nesting_entry e). lia. }
  cbn [negb]. rewrite lookup_singleton_eq.
  rewrite map_to_list_fmap.
  assert (forall l : list (string * groupEntry),
    mapM (fun kv : string * any => e ← decode_entry kv.2; mret (kv.1, e)) (prod_map id encode_entry <$> l) = Ok l) as ->.
  { intros l. apply mapM_res_ok. induction l as [|[k e] l IH]; [constructor|].
    constructor; [|exact IH]. change (decode_entry (encode_entry e) ≫= (fun e => mret (k, e)) = Ok (k, e)).
    by rewrite decode_encode_entry. }
  cbn. f_equal. apply list_to_map_to_list.
Qed.
