(* ===== verification/Aggregate.v ===== *)
(** The aggregate block: [blocks/controlflow/aggregate.go].

    A message is folded into its group by an optimistic read, fold and
    conditional write against the key-value store; a complete group leaves the
    store and is handed to the continuation.  The stripe locks serialise the
    folds of one process and are not part of the state: a run here is one such
    fold, and what other replicas write meanwhile comes from the store. *)
From S2P Require Import Prelude GoStr F64 GoTime Message Config Store BlockPath Expr Engine Debug Builder Composites.
From S2P Require Import Split Sha256 KV Group.
From Stdlib Require Import String Ascii.
#[local] Open Scope string_scope.
#[local] Open Scope Z_scope.

Definition blockKindAggregate : string := "aggregate".
Definition aggregateStrategyAppend : string := "append".
Definition aggregateStrategyExpression : string := "expression".
Definition aggregateOverflowFail : string := "fail".
Definition aggregateOverflowComplete : string := "complete".
Definition aggregateOverflowDrop : string := "drop".
Definition varAggregateKey : string := "aggregateKey".
Definition varAggregateCount : string := "aggregateCount".
Definition varAggregateReason : string := "aggregateReason".
Definition defaultCorrelation : string := "vars." ++ varGroupID.
Definition defaultCompletionSize : string := "has(vars." ++ varGroupSize ++ ") ? vars." ++ varGroupSize ++ " : -1".
Definition defaultMaxGroups : Z := 1000.
Definition aggregateWriteAttempts : nat := 5.
Definition minReapInterval : Z := Second.
Definition maxReapInterval : Z := 30 * Second.
Definition foldStripes : Z := 64.
Definition stripeSeed : Z := 31.

(** A group's stripe: the string hash of its key, on uint32. *)
Fixpoint stripe_sum (hash : string) (sum : Z) : Z :=
  match hash with
  | EmptyString => sum
  | String a hash => stripe_sum hash (u32 (u32 (sum * stripeSeed) + code a))
  end.
Definition stripeOf (hash : string) : Z := stripe_sum hash 0 `mod` foldStripes.

Definition errGroupContended : goerr := ErrMsg "aggregate: group contended by concurrent writers".

Section aggregate.
Context {U : Type} `{!KV any U}.

(** [render] is how [EvalString] writes a result that is no string: compact JSON,
    or [%v] when that fails.  [order] is the order Go ranges over the index in. *)
Record aggregate : Type := mkAggregate {
  ag_storeKey : string;
  ag_correlation : Program;
  ag_folding : folding;
  ag_maxGroups : Z;
  ag_onOverflow : string;
  ag_buildResponse : option (processor U);
  ag_cont : continuation U;
  ag_render : any -> string;
  ag_order : list (string * groupEntry) -> list (string * groupEntry);
}.

Implicit Types a : aggregate.

Definition EvalString (render : any -> string) (p : Program) (m : Message) : res string :=
  v ← p m; mret match v with AStr s => s | v => render v end.

Definition groupStateKey a (hash : string) : string := "aggregate/" ++ hashedKey (ag_storeKey a) ++ "/g/" ++ hash.
Definition indexKey a : string := "aggregate/" ++ hashedKey (ag_storeKey a) ++ "/index".

(** [errors.Is(err, core.ErrVersionConflict)] on the outcome of a write: [true]
    for a lost race, and any other failure under [pre]. *)
Definition conflicted {A} (pre : string) (write : M U A) : M U bool :=
  r ← attempt write;
  match r with
  | Ok _ => mret false
  | Err e => if error_is e ErrVersionConflict then mret true else fail (ErrWrap pre e "")
  end.

(** ** The index *)
Definition readIndex a : M U (groupIndex * Z) :=
  entry ← wrapping "aggregate: read group index: " (kv_Get NamespaceSystem (indexKey a));
  match entry with
  | None => mret (∅, 0)
  | Some e => index ← lift (wrap_err "aggregate: decode group index: " (decode_index (e_Value e)));
              mret (index, e_Version e)
  end.

Definition writeIndex a (index : groupIndex) (version : Z) : M U bool :=
  conflicted "aggregate: write group index: " (kv_Set NamespaceSystem (indexKey a) (encode_index index) version).

(** [mutate] gives [None] when it changes nothing.  A failure is logged, not
    returned. *)
Fixpoint updateIndex_loop a (attempts : nat) (mutate : groupIndex -> option groupIndex) : M U unit :=
  match attempts with
  | O => mret tt
  | S attempts =>
      r ← attempt (readIndex a);
      match r with
      | Err _ => mret tt
      | Ok (index, version) =>
          match mutate index with
          | None => mret tt
          | Some index =>
              r ← attempt (writeIndex a index version);
              match r with
              | Ok true => updateIndex_loop a attempts mutate
              | _ => mret tt
              end
          end
      end
  end.
Definition updateIndex a : (groupIndex -> option groupIndex) -> M U unit :=
  updateIndex_loop a aggregateWriteAttempts.

Definition track (hash : string) (state : groupState) (index : groupIndex) : option groupIndex :=
  let want := mkGroupEntry (g_FirstAt state) (g_Deadline state) in
  if decide (index !! hash = Some want) then None else Some (<[ hash := want ]> index).
Definition forget (hash : string) (index : groupIndex) : option groupIndex :=
  match index !! hash with None => None | Some _ => Some (delete hash index) end.
Definition trackGroup a (hash : string) (state : groupState) : M U unit := updateIndex a (track hash state).
Definition forgetGroup a (hash : string) : M U unit := updateIndex a (forget hash).

(** ** Releasing a group *)
Definition release a (state : groupState) (reason : string) : M U unit :=
  id ← draw_id;
  out ← lift (NewMessage (g_CorrelationID state) id);
  out ← alloc (set_var varAggregateReason (AStr reason)
                (set_var varAggregateCount (AInt (g_Count state))
                  (set_var varAggregateKey (AStr (g_Key state))
                    (SetTraceID (g_TraceID state) (SetBody (g_Acc state) out)))));
  wrapping ("aggregate: continue with group " ++ quote (g_Key state) ++ ": ") (ag_cont a out).

Definition restore a (hash : string) (state : groupState) : M U unit :=
  r ← attempt (encoded ← lift (encode_group state);
               kv_Set NamespaceSystem (groupStateKey a hash) encoded 0);
  match r with
  | Err _ => mret tt
  | Ok _ => trackGroup a hash state
  end.

Definition deliver a (hash : string) (state : groupState) (reason : string) : M U unit :=
  r ← attempt (release a state reason);
  match r with
  | Ok _ => mret tt
  | Err e => restore a hash state ≫= fun _ => fail e
  end.

(** [None] when there is nothing to take. *)
Definition takeStored a (hash : string) : M U (option groupState) :=
  let stateKey := groupStateKey a hash in
  entry ← wrapping "aggregate: read group: " (kv_Get NamespaceSystem stateKey);
  match entry with
  | None => forgetGroup a hash ≫= fun _ => mret None
  | Some e =>
      state ← lift (wrap_err "aggregate: decode group: " (decode_group (mkGroup "" 0 0 ANil "" "" 0 0 0) (e_Value e)));
      lost ← conflicted "aggregate: release group: " (kv_Delete NamespaceSystem stateKey (e_Version e));
      if (lost : bool) then mret None
      else forgetGroup a hash ≫= fun _ => mret (Some state)
  end.

Definition completeStored a (hash reason : string) : M U unit :=
  state ← takeStored a hash;
  match state with
  | None => mret tt
  | Some state => deliver a hash state reason
  end.

(** ** Overflow *)
Definition older (best : string * Z) (kv : string * groupEntry) : string * Z :=
  let '(oldest, firstAt) := best in
  let '(hash, entry) := kv in
  if String.eqb oldest "" || (ge_FirstAt entry <? firstAt)
     || ((ge_FirstAt entry =? firstAt) && String.ltb hash oldest)
  then (hash, ge_FirstAt entry) else best.
Definition oldest a (index : groupIndex) : string :=
  (foldl older ("", 0) (ag_order a (map_to_list index))).1.

Definition releaseOldest a (index : groupIndex) : M U unit :=
  let hash := oldest a index in
  if String.eqb hash "" then mret tt else completeStored a hash aggregateReasonOverflow.

(** Whether the message may go on to open a group. *)
Definition overflow a : M U bool :=
  if String.eqb (ag_onOverflow a) aggregateOverflowDrop then mret false
  else if String.eqb (ag_onOverflow a) aggregateOverflowComplete then
    '(index, _) ← readIndex a;
    releaseOldest a index ≫= fun _ => mret true
  else fail (ErrMsg ("aggregate: " ++ itoa (ag_maxGroups a) ++ " groups open (maxGroups); raise maxGroups, "
               ++ "narrow the correlation, or set onOverflow")).

Definition contended_index a : goerr :=
  ErrWrap "" errGroupContended (": group index of " ++ quote (ag_storeKey a)).

(** Whether the slot was claimed, and whether the block is full. *)
Fixpoint claimSlot_loop a (attempts : nat) (hash : string) : M U (bool * bool) :=
  match attempts with
  | O => fail (contended_index a)
  | S attempts =>
      '(index, version) ← readIndex a;
      match index !! hash with
      | Some _ => mret (false, false)
      | None =>
          if ag_maxGroups a <=? Z.of_nat (size index) then mret (false, true)
          else
            t ← now;
            conflict ← writeIndex a (<[ hash := mkGroupEntry t 0 ]> index) version;
            if (conflict : bool) then claimSlot_loop a attempts hash else mret (true, false)
      end
  end.
Definition claimSlot a : string -> M U (bool * bool) := claimSlot_loop a aggregateWriteAttempts.

(** Whether the message is admitted, and whether this call claimed its slot. *)
Fixpoint reserve_loop a (attempts : nat) (hash : string) : M U (bool * bool) :=
  match attempts with
  | O => fail (contended_index a)
  | S attempts =>
      '(claimed, full) ← claimSlot a hash;
      if negb full then mret (true, claimed)
      else
        admitted ← overflow a;
        if negb admitted then mret (false, false) else reserve_loop a attempts hash
  end.
Definition reserve a : string -> M U (bool * bool) := reserve_loop a aggregateWriteAttempts.

(** ** Folding *)
Definition loadGroup (msg : nat) (key : string) (entry : option (Entry any)) : M U groupState :=
  match entry with
  | Some e => lift (wrap_err ("aggregate: decode group " ++ quote key ++ ": ")
                      (decode_group (mkGroup key 0 sizeUnknown ANil "" "" 0 0 0) (e_Value e)))
  | None => m ← load msg; t ← now;
            mret (mkGroup key 0 sizeUnknown ANil (CorrelationID m) (TraceID m) t 0 0)
  end.

Definition commitComplete a (hash : string) (entry : option (Entry any)) : M U bool :=
  conflict ← match entry with
    | Some e => conflicted "release: " (kv_Delete NamespaceSystem (groupStateKey a hash) (e_Version e))
    | None => mret false
    end;
  if (conflict : bool) then mret true else forgetGroup a hash ≫= fun _ => mret false.

Definition commitOpen a (hash : string) (entry : option (Entry any)) (state : groupState) : M U bool :=
  encoded ← lift (wrap_err "encode: " (encode_group state));
  conflict ← conflicted "write: " (kv_Set NamespaceSystem (groupStateKey a hash) encoded (version_of entry));
  if (conflict : bool) then mret true else trackGroup a hash state ≫= fun _ => mret false.

Fixpoint foldLocked_loop a (attempts : nat) (msg : nat) (key hash : string) : M U (option (groupState * string)) :=
  match attempts with
  | O => fail (ErrWrap "" errGroupContended (": " ++ quote key ++ " after " ++ itoa (Z.of_nat aggregateWriteAttempts)
                 ++ " attempts"))
  | S attempts =>
      entry ← wrapping ("aggregate: read group " ++ quote key ++ ": ")
                (kv_Get NamespaceSystem (groupStateKey a hash));
      state ← loadGroup msg key entry;
      '(state, complete) ← applyMessage (ag_folding a) msg state;
      conflict ← wrapping ("aggregate: group " ++ quote key ++ ": ")
        match complete with
        | Some _ => commitComplete a hash entry
        | None => commitOpen a hash entry state
        end;
      if (conflict : bool) then foldLocked_loop a attempts msg key hash
      else mret ((fun reason => (state, reason)) <$> complete)
  end.
Definition foldLocked a : nat -> string -> string -> M U (option (groupState * string)) :=
  foldLocked_loop a aggregateWriteAttempts.

(** Whether an overflow policy dropped the message. *)
Definition foldMessage a (msg : nat) (key : string) : M U bool :=
  let hash := hashedKey key in
  '(admitted, claimed) ← reserve a hash;
  if negb admitted then mret true
  else
    r ← attempt (foldLocked a msg key hash);
    match r with
    | Err e => (if (claimed : bool) then forgetGroup a hash else mret tt) ≫= fun _ => fail e
    | Ok None => mret false
    | Ok (Some (state, reason)) => deliver a hash state reason ≫= fun _ => mret false
    end.

Definition aggregate_Process a : processor U := fun msg =>
  m ← load msg;
  key ← lift match EvalString (ag_render a) (ag_correlation a) m with
        | Ok key => Ok key
        | Err e => Err (ErrWrap "aggregate correlation: " e
                     " (set the correlation expression when messages do not come from a split)")
        end;
  if String.eqb key "" then fail (ErrMsg "aggregate correlation expression evaluated to empty")
  else
    dropped ← foldMessage a msg key;
    if (dropped : bool) then mret None else applyTakeover msg (ag_buildResponse a).

(** ** The reaper *)
Definition reapInterval a : Z :=
  let interval := Z.quot (fd_timeout (ag_folding a)) 2 in
  if interval <? minReapInterval then minReapInterval
  else if maxReapInterval <? interval then maxReapInterval
  else interval.

Definition reclaimStale a (hash : string) : M U unit :=
  r ← attempt (kv_Get NamespaceSystem (groupStateKey a hash));
  match r with
  | Err _ | Ok (Some _) => mret tt
  | Ok None => forgetGroup a hash
  end.

Fixpoint sweep_entries a (now_ : Z) (entries : list (string * groupEntry)) : M U unit :=
  match entries with
  | [] => mret tt
  | (hash, entry) :: entries =>
      (if ge_Deadline entry =? 0 then reclaimStale a hash
       else if now_ <? ge_Deadline entry then mret tt
       else attempt (completeStored a hash aggregateReasonTimeout) ≫= fun _ => mret tt) ≫= fun _ =>
      sweep_entries a now_ entries
  end.

(** [leads] is [IsLeader] of the lease, for a block that holds one. *)
Definition sweep a (leads : option (M U bool)) : M U unit :=
  leader ← match leads with Some isLeader => isLeader | None => mret true end;
  if negb leader then mret tt
  else
    r ← attempt (readIndex a);
    match r with
    | Err _ => mret tt
    | Ok (index, _) => t ← now; sweep_entries a t (ag_order a (map_to_list index))
    end.

(** ** The factory *)
Record aggregateSettings : Type := mkAggregateSettings {
  as_Correlation : string;
  as_Strategy : string;
  as_Expression : string;
  as_CompletionSize : string;
  as_CompletionTimeout : string;
  as_CompletionExpression : string;
  as_TimeoutFrom : string;
  as_StoreKey : string;
  as_MaxGroups : Z;
  as_OnOverflow : string;
  as_BuildResponse : option FlowConfig;
}.

Definition decode_aggregate (raw : Settings) : res aggregateSettings :=
  DecodeStrict ["correlation"; "strategy"; "expression"; "completionSize"; "completionTimeout";
                "completionExpression"; "timeoutFrom"; "storeKey"; "maxGroups"; "onOverflow"; "buildResponse"] (fun m =>
    correlation ← json_string (m !! "correlation");
    strategy ← json_string (m !! "strategy");
    expression ← json_string (m !! "expression");
    size ← json_string (m !! "completionSize");
    timeout ← json_string (m !! "completionTimeout");
    predicate ← json_string (m !! "completionExpression");
    from ← json_string (m !! "timeoutFrom");
    storeKey ← json_string (m !! "storeKey");
    maxGroups ← json_int (m !! "maxGroups");
    onOverflow ← json_string (m !! "onOverflow");
    response ← json_ptr decode_flow (m !! "buildResponse");
    mret (mkAggregateSettings correlation strategy expression size timeout predicate from storeKey maxGroups
            onOverflow response)) raw.

(** The fold of the strategy: [None] for append. *)
Definition resolveStrategy (deps : BlockDeps U) (cfg : aggregateSettings) : res (option Program) :=
  if String.eqb (as_Strategy cfg) "" || String.eqb (as_Strategy cfg) aggregateStrategyAppend then
    if negb (String.eqb (as_Expression cfg) "")
    then Err (ErrMsg "aggregate block in append strategy must not declare an expression")
    else Ok None
  else if String.eqb (as_Strategy cfg) aggregateStrategyExpression then
    if String.eqb (as_Expression cfg) ""
    then Err (ErrMsg "aggregate block in expression strategy requires an expression")
    else Some <$> wrap_err "aggregate expression: " (d_Compile deps (as_Expression cfg))
  else Err (ErrMsg ("aggregate block strategy " ++ quote (as_Strategy cfg) ++ " must be "
              ++ quote aggregateStrategyAppend ++ " or " ++ quote aggregateStrategyExpression)).

(** The correlation, the completion size, the completion predicate, the fold. *)
Definition compileExpressions (deps : BlockDeps U) (cfg : aggregateSettings)
    : res (Program * Program * option Program * option Program) :=
  correlation ← wrap_err "aggregate correlation: "
    (d_Compile deps (if String.eqb (as_Correlation cfg) "" then defaultCorrelation else as_Correlation cfg));
  size ← wrap_err "aggregate completionSize: "
    (d_Compile deps (if String.eqb (as_CompletionSize cfg) "" then defaultCompletionSize else as_CompletionSize cfg));
  predicate ← (if String.eqb (as_CompletionExpression cfg) "" then Ok None
               else Some <$> wrap_err "aggregate completionExpression: " (d_Compile deps (as_CompletionExpression cfg)));
  fold ← resolveStrategy deps cfg;
  mret (correlation, size, predicate, fold).

(** The timeout, what it is measured from, the overflow policy. *)
Definition resolveCompletion (cfg : aggregateSettings) : res (Z * string * string) :=
  timeout ← (if String.eqb (as_CompletionTimeout cfg) "" then Ok 0
             else d ← wrap_err "aggregate completionTimeout: " (ParseDuration (as_CompletionTimeout cfg));
                  if d <=? 0 then Err (ErrMsg "aggregate completionTimeout must be positive") else Ok d);
  from ← (if String.eqb (as_TimeoutFrom cfg) "" || String.eqb (as_TimeoutFrom cfg) aggregateTimeoutFromFirst
          then Ok aggregateTimeoutFromFirst
          else if String.eqb (as_TimeoutFrom cfg) aggregateTimeoutFromLast then Ok aggregateTimeoutFromLast
          else Err (ErrMsg ("aggregate block timeoutFrom " ++ quote (as_TimeoutFrom cfg) ++ " must be "
                      ++ quote aggregateTimeoutFromFirst ++ " or " ++ quote aggregateTimeoutFromLast)));
  onOverflow ← (if String.eqb (as_OnOverflow cfg) "" || String.eqb (as_OnOverflow cfg) aggregateOverflowFail
                then Ok aggregateOverflowFail
                else if String.eqb (as_OnOverflow cfg) aggregateOverflowComplete
                        || String.eqb (as_OnOverflow cfg) aggregateOverflowDrop then Ok (as_OnOverflow cfg)
                else Err (ErrMsg ("aggregate block onOverflow " ++ quote (as_OnOverflow cfg) ++ " must be one of "
                            ++ quote aggregateOverflowFail ++ ", " ++ quote aggregateOverflowComplete ++ ", "
                            ++ quote aggregateOverflowDrop)));
  mret (timeout, from, onOverflow).

(** [lifecycle_of] is the reaper's [Start] and [Stop]: a goroutine that sweeps on
    a ticker, for a block that can time out. *)
Definition newAggregate (render : any -> string) (order : list (string * groupEntry) -> list (string * groupEntry))
    (lifecycle_of : aggregate -> lifecycle U) (raw : Settings) (deps : BlockDeps U) : res (object U) :=
  cfg ← decode_aggregate raw;
  let storeKey := if String.eqb (as_StoreKey cfg) "" then ad_Path (d_Address deps) else as_StoreKey cfg in
  let maxGroups := if as_MaxGroups cfg <=? 0 then defaultMaxGroups else as_MaxGroups cfg in
  '(correlation, size, predicate, fold) ← compileExpressions deps cfg;
  '(timeout, from, onOverflow) ← resolveCompletion cfg;
  response ← buildTakeoverResponse blockKindAggregate deps (as_BuildResponse cfg);
  let build cont := mkAggregate storeKey correlation
    (mkFolding fold size predicate (match fold with None => true | Some _ => false end) timeout from)
    maxGroups onOverflow response cont render order in
  mret (mkObject (TakesOver (fun cont => aggregate_Process (build cont)))
          (Some (lifecycle_of (build (fun _ => fail nil_continuation)))) (Some storeKey)).
End aggregate.
Arguments aggregate : clear implicits.
