(* ===== verification/Folding.v ===== *)
(** What folding a message does to the store: the aggregate against the laws of
    the key-value interface, and against other replicas.

    Nothing here depends on which store is behind [KV]; the theorems about other
    replicas use the in-memory one, whose state says what they write. *)
From S2P Require Import Prelude GoStr F64 GoTime Message Config Store BlockPath Expr Engine Debug Builder Composites.
From S2P Require Import Split Sha256 KV Group Aggregate.
From Stdlib Require Import String.
#[local] Open Scope string_scope.
#[local] Open Scope Z_scope.

Lemma append_cancel s r1 r2 : (s ++ r1)%string = (s ++ r2)%string -> r1 = r2.
Proof. induction s as [|a s IH]; [done|]. intros H. apply IH. by injection H. Qed.

(** ** What folding leaves alone *)
Definition keeps_usr {U A} (m : M U A) : Prop := forall w, usr (m w).1 = usr w.

Section keeps.
Context {U : Type}.
Lemma keeps_ret {A} (x : A) : keeps_usr (mret x : M U A).
Proof. done. Qed.
Lemma keeps_lift {A} (r : res A) : keeps_usr (lift r : M U A).
Proof. done. Qed.
Lemma keeps_fail {A} e : keeps_usr (fail e : M U A).
Proof. done. Qed.
Lemma keeps_load l : keeps_usr (load l : M U Message).
Proof. done. Qed.
Lemma keeps_update l f : keeps_usr (update l f : M U unit).
Proof. done. Qed.
Lemma keeps_now : keeps_usr (now : M U Z).
Proof. done. Qed.
Lemma keeps_bind {A B} (m : M U A) (f : A -> M U B) :
  keeps_usr m -> (forall x, keeps_usr (f x)) -> keeps_usr (m ≫= f).
Proof.
  intros Hm Hf w. specialize (Hm w). unfold mbind, M_bind, SM_bind. destruct (m w) as [w' [x|e]]; [|done].
  cbn in Hm. by rewrite Hf.
Qed.
End keeps.
#[export] Hint Resolve keeps_ret keeps_lift keeps_fail keeps_load keeps_update keeps_now : octo.

Ltac keeps_usr := repeat first
  [ apply keeps_bind; [|intros ?] | case_match | progress cbv zeta | progress eauto with octo ].

Lemma withGroup_keeps {U} msg s : keeps_usr (withGroup (U := U) msg s).
Proof. unfold withGroup. keeps_usr. Qed.
#[export] Hint Resolve withGroup_keeps : octo.
Lemma applyMessage_keeps {U} fd msg s : keeps_usr (applyMessage (U := U) fd msg s).
Proof. unfold applyMessage, accumulate, learnSize. keeps_usr. Qed.

(** A group nobody has written to yet. *)
Definition opened (key : string) (m : Message) (t : Z) : groupState :=
  mkGroup key 0 sizeUnknown ANil (CorrelationID m) (TraceID m) t 0 0.
(** A group as the next fold will read it. *)
Definition stored (s : groupState) : groupState := with_acc (json_norm (g_Acc s)) s.
Definition storable (s : groupState) : Prop :=
  encodable (g_Acc s) = true /\ (nesting (g_Acc s) < json_max_depth)%nat.
Definition entry_of (s : groupState) : groupEntry := mkGroupEntry (g_FirstAt s) (g_Deadline s).

Section calm.
Context {U : Type} `{HKV : !KV any U} `{HL : !KVLaws any U} (a : aggregate U).

Lemma group_key_ne_index hash : groupStateKey a hash ≠ indexKey a.
Proof. unfold groupStateKey, indexKey. intros H%append_cancel%append_cancel. done. Qed.
Lemma group_key_inj h h' : groupStateKey a h = groupStateKey a h' -> h = h'.
Proof. unfold groupStateKey. by intros H%append_cancel%append_cancel%append_cancel. Qed.

(** The index a state holds, and the group under a hash. *)
Definition index_of (u : U) (index : groupIndex) : Prop :=
  match contents u NamespaceSystem (indexKey a) with
  | None => index = ∅
  | Some e => decode_index (e_Value e) = Ok index
  end.
Definition group_at (u : U) (hash : string) (g : option groupState) : Prop :=
  match contents u NamespaceSystem (groupStateKey a hash) with
  | None => g = None
  | Some e => exists s, g = Some s /\ decodes (e_Value e) s
  end.

(** A run that changes nothing but the store, with nobody interfering. *)
Definition quietly (w w' : world U) : Prop :=
  w' = with_usr (usr w') w /\ same_rest (usr w) (usr w') /\ calm (usr w').
Definition only_index (u u' : U) : Prop :=
  forall n k, ~ (n = NamespaceSystem /\ k = indexKey a) -> contents u' n k = contents u n k.

Lemma quietly_trans w1 w2 w3 : quietly w1 w2 -> quietly w2 w3 -> quietly w1 w3.
Proof.
  intros (H1 & H2 & H3) (H4 & H5 & H6). unfold quietly. split_and!; [|by etransitivity|done]. rewrite H4, H1. done.
Qed.
Lemma quietly_with_usr u w : same_rest (usr w) u -> calm u -> quietly w (with_usr u w).
Proof. by repeat split. Qed.

Lemma group_at_only u u' hash g : only_index u u' -> group_at u hash g -> group_at u' hash g.
Proof.
  intros Ho. unfold group_at. rewrite Ho; [done|]. intros [_ H]. by apply group_key_ne_index in H.
Qed.
Lemma only_index_trans u1 u2 u3 : only_index u1 u2 -> only_index u2 u3 -> only_index u1 u3.
Proof. intros H1 H2 n k Hn. by rewrite H2, H1. Qed.

Lemma readIndex_calm w index :
  calm (usr w) -> index_of (usr w) index ->
  exists w', readIndex a w = (w', Ok (index, version_of (contents (usr w) NamespaceSystem (indexKey a)))) /\
    quietly w w' /\ forall n k, contents (usr w') n k = contents (usr w) n k.
Proof.
  intros Hc Hi. destruct (law_Get NamespaceSystem (indexKey a) w Hc) as (u & Hg & Hs & Hr & Hc').
  exists (with_usr u w). split; [|split; [by apply quietly_with_usr|done]].
  unfold readIndex, index_of in *. unfold wrapping, mbind, M_bind, SM_bind. rewrite Hg. cbn.
  destruct (contents (usr w) NamespaceSystem (indexKey a)) as [e|]; [|by subst].
  unfold lift. by rewrite Hi.
Qed.

Lemma writeIndex_calm w index :
  calm (usr w) ->
  exists w', writeIndex a index (version_of (contents (usr w) NamespaceSystem (indexKey a))) w = (w', Ok false) /\
    quietly w w' /\ index_of (usr w') index /\ only_index (usr w) (usr w').
Proof.
  intros Hc.
  destruct (law_Set NamespaceSystem (indexKey a) (encode_index index)
    (version_of (contents (usr w) NamespaceSystem (indexKey a))) w Hc) as (u & Hr & Hc' & H).
  rewrite decide_True in H by done. destruct H as [Hs Hk]. exists (with_usr u w). split_and!.
  - unfold writeIndex, conflicted, attempt, mbind, M_bind, SM_bind. by rewrite Hs.
  - by apply quietly_with_usr.
  - unfold index_of. cbn. rewrite Hk, decide_True by done. apply index_round_trip.
  - intros n k Hn. cbn. by rewrite Hk, decide_False.
Qed.

(** Updating the index always succeeds when nobody interferes. *)
Lemma updateIndex_calm mutate w index :
  calm (usr w) -> index_of (usr w) index ->
  exists w', updateIndex a mutate w = (w', Ok tt) /\ quietly w w' /\
    index_of (usr w') (default index (mutate index)) /\ only_index (usr w) (usr w').
Proof.
  intros Hc Hi. destruct (readIndex_calm w index Hc Hi) as (w1 & Hr & Hq & Hk).
  unfold updateIndex, aggregateWriteAttempts. cbn [updateIndex_loop]. rewrite (bind_attempt _ _ _ _ _ Hr).
  destruct (mutate index) as [index'|]; cbn [default].
  - destruct (writeIndex_calm w1 index') as (w2 & Hw & Hq2 & Hi2 & Ho); [apply Hq|]. rewrite Hk in Hw.
    exists w2. rewrite (bind_attempt _ _ _ _ _ Hw). split_and!; [done|by eapply quietly_trans|done|].
    intros n k Hn. by rewrite Ho, Hk.
  - exists w1. split_and!; [done|done| |by intros n k _; apply Hk]. unfold index_of. by rewrite Hk.
Qed.

(** Only this group and the index are written. *)
Definition only_group (hash : string) (u u' : U) : Prop :=
  forall n k, ~ (n = NamespaceSystem /\ (k = indexKey a \/ k = groupStateKey a hash)) -> contents u' n k = contents u n k.

Lemma track_index hash s index : default index (track hash s index) = <[ hash := entry_of s ]> index.
Proof. unfold track. case_decide as H; [|done]. symmetry. exact (insert_id (M := gmap string) index hash _ H). Qed.
Lemma forget_index hash index : default index (forget hash index) = delete hash index.
Proof. unfold forget. destruct (index !! hash) eqn:E; [done|].
  symmetry. exact (delete_id (M := gmap string) index hash E).
Qed.

(** Writing an open group back, and lifting a complete one out. *)
Lemma commitOpen_calm hash s w index e :
  calm (usr w) -> index_of (usr w) index -> contents (usr w) NamespaceSystem (groupStateKey a hash) = e -> storable s ->
  exists w', commitOpen a hash e s w = (w', Ok false) /\ quietly w w' /\ only_group hash (usr w) (usr w') /\
    index_of (usr w') (<[ hash := entry_of s ]> index) /\ group_at (usr w') hash (Some (stored s)).
Proof.
  intros Hc Hi He [Hs Hn]. destruct (encode_group_round_trip s Hs Hn) as (doc & Hd & Hdec).
  destruct (law_Set NamespaceSystem (groupStateKey a hash) doc (version_of e) w Hc) as (u & Hr & Hc' & H).
  rewrite decide_True in H by (by rewrite He). destruct H as [Hset Hk].
  assert (index_of u index) as Hi1.
  { unfold index_of. rewrite Hk, decide_False; [done|]. intros [_ Hx]. symmetry in Hx. by apply group_key_ne_index in Hx. }
  destruct (updateIndex_calm (track hash s) (with_usr u w) index Hc' Hi1) as (w2 & Hu & Hq & Hi2 & Ho).
  exists w2. split_and!.
  - unfold commitOpen. rewrite Hd. cbn [wrap_err]. rewrite (SM_bind_ok (lift (Ok doc)) _ w w doc eq_refl).
    rewrite (SM_bind_ok _ _ w (with_usr u w) false).
    + unfold trackGroup. by rewrite (SM_bind_ok _ _ _ _ _ Hu).
    + unfold conflicted. by rewrite (bind_attempt _ _ _ _ _ Hset).
  - eapply quietly_trans; [by apply quietly_with_usr|done].
  - intros n k Hnk. rewrite Ho by naive_solver. cbn. rewrite Hk, decide_False; naive_solver.
  - by rewrite track_index in Hi2.
  - eapply group_at_only; [exact Ho|]. unfold group_at. cbn. rewrite Hk, decide_True by done.
    exists (stored s). split; [done|exact Hdec].
Qed.

Lemma commitComplete_calm hash w index e :
  calm (usr w) -> index_of (usr w) index -> contents (usr w) NamespaceSystem (groupStateKey a hash) = e ->
  exists w', commitComplete a hash e w = (w', Ok false) /\ quietly w w' /\ only_group hash (usr w) (usr w') /\
    index_of (usr w') (delete hash index) /\ group_at (usr w') hash None.
Proof.
  intros Hc Hi He.
  assert (exists w1, (match e with
      | Some e => conflicted "release: " (kv_Delete NamespaceSystem (groupStateKey a hash) (e_Version e))
      | None => mret false end) w = (w1, Ok false) /\ quietly w w1 /\
      forall n k, contents (usr w1) n k = if decide (n = NamespaceSystem /\ k = groupStateKey a hash)
                                          then None else contents (usr w) n k) as (w1 & H1 & Hq1 & Hk1).
  { destruct e as [e|].
    - destruct (law_Delete NamespaceSystem (groupStateKey a hash) (e_Version e) w Hc) as (u & Hr & Hc' & H).
      rewrite decide_True in H by (rewrite He; by right; right). destruct H as [Hdel Hk]. exists (with_usr u w). split_and!.
      + unfold conflicted. by rewrite (bind_attempt _ _ _ _ _ Hdel).
      + by apply quietly_with_usr.
      + exact Hk.
    - exists w. split_and!; [done|by repeat split; destruct w|]. intros n k. by case_decide as Hx; [destruct Hx as [-> ->]|]. }
  assert (index_of (usr w1) index) as Hi1.
  { unfold index_of. rewrite Hk1, decide_False; [done|]. intros [_ Hx]. symmetry in Hx. by apply group_key_ne_index in Hx. }
  destruct (updateIndex_calm (forget hash) w1 index (proj2 (proj2 Hq1)) Hi1) as (w2 & Hu & Hq & Hi2 & Ho).
  exists w2. split_and!.
  - unfold commitComplete. rewrite (SM_bind_ok _ _ _ _ _ H1). unfold forgetGroup. by rewrite (SM_bind_ok _ _ _ _ _ Hu).
  - by eapply quietly_trans.
  - intros n k Hnk. rewrite Ho by naive_solver. rewrite Hk1, decide_False; naive_solver.
  - by rewrite forget_index in Hi2.
  - eapply group_at_only; [exact Ho|]. unfold group_at. by rewrite Hk1, decide_True.
Qed.

(** What a fold starts from: the group there is, or one opened now. *)
Definition loaded (w w1 : world U) (msg : nat) (key : string) (og : option groupState) (s : groupState) : Prop :=
  match og with
  | Some g => s = g /\ w1 = with_usr (usr w1) w
  | None => s = opened key (peek w msg) (times w (clk w)) /\ w1 = (now (with_usr (usr w1) w)).1
  end.

(** The fold, as what [applyMessage] makes of the state it starts from. *)
Lemma foldLocked_calm msg key hash w index og :
  calm (usr w) -> index_of (usr w) index -> group_at (usr w) hash og ->
  exists w1 s, loaded w w1 msg key og s /\ same_rest (usr w) (usr w1) /\ calm (usr w1) /\
    (forall n k, contents (usr w1) n k = contents (usr w) n k) /\
    match applyMessage (ag_folding a) msg s w1 with
    | (w2, Err e) => foldLocked a msg key hash w = (w2, Err e)
    | (w2, Ok (s', None)) => storable s' ->
        exists w3, foldLocked a msg key hash w = (w3, Ok None) /\ quietly w2 w3 /\ only_group hash (usr w) (usr w3) /\
          index_of (usr w3) (<[ hash := entry_of s' ]> index) /\ group_at (usr w3) hash (Some (stored s'))
    | (w2, Ok (s', Some reason)) =>
        exists w3, foldLocked a msg key hash w = (w3, Ok (Some (s', reason))) /\ quietly w2 w3 /\
          only_group hash (usr w) (usr w3) /\ index_of (usr w3) (delete hash index) /\ group_at (usr w3) hash None
    end.
Proof.
  intros Hc Hi Hg. destruct (law_Get NamespaceSystem (groupStateKey a hash) w Hc) as (u & Hget & Hk & Hr & Hc').
  unfold group_at in Hg. set (e := contents (usr w) NamespaceSystem (groupStateKey a hash)) in *.
  assert (exists w1 s, loaded w w1 msg key og s /\ usr w1 = u /\ loadGroup msg key e (with_usr u w) = (w1, Ok s))
    as (w1 & s & Hl & Hu & Hload).
  { destruct e as [e|]; [destruct Hg as (g & -> & Hdec)|subst og].
    - exists (with_usr u w), g. split_and!; [by repeat split|done|]. unfold loadGroup, lift.
      pose proof (Hdec key sizeUnknown) as Hd. unfold blank in Hd. by rewrite Hd.
    - exists (now (with_usr u w)).1, (opened key (peek w msg) (times w (clk w))). by repeat split. }
  exists w1, s. rewrite Hu. split_and!; [done|done|done|done|].
  pose proof (applyMessage_keeps (ag_folding a) msg s w1) as Hkeep.
  assert (forall B (f : option (Entry any) -> M U B), (wrapping ("aggregate: read group " ++ quote key ++ ": ")
    (kv_Get NamespaceSystem (groupStateKey a hash)) ≫= f) w = f e (with_usr u w)) as Hread.
  { intros B f. by rewrite (bind_wrapping _ _ _ _ _ _ Hget). }
  unfold foldLocked, aggregateWriteAttempts. cbn [foldLocked_loop]. rewrite Hread.
  destruct (applyMessage (ag_folding a) msg s w1) as [w2 [[s' [reason|]]|err]] eqn:Ha; cbn in Hkeep.
  - assert (calm (usr w2)) as Hc2 by (by rewrite Hkeep, Hu).
    assert (index_of (usr w2) index) as Hi2 by (unfold index_of in *; by rewrite Hkeep, Hu, Hk).
    destruct (commitComplete_calm hash w2 index e Hc2 Hi2) as (w3 & Hcm & Hq & Ho & Hi3 & Hg3);
      [by rewrite Hkeep, Hu, Hk|].
    exists w3. split_and!; [|done| |done|done].
    + rewrite (SM_bind_ok _ _ _ _ _ Hload), (SM_bind_ok _ _ _ _ _ Ha). by rewrite (bind_wrapping _ _ _ _ _ _ Hcm).
    + intros n k Hnk. by rewrite Ho, Hkeep, Hu, Hk.
  - intros Hs. assert (calm (usr w2)) as Hc2 by (by rewrite Hkeep, Hu).
    assert (index_of (usr w2) index) as Hi2 by (unfold index_of in *; by rewrite Hkeep, Hu, Hk).
    destruct (commitOpen_calm hash s' w2 index e Hc2 Hi2) as (w3 & Hcm & Hq & Ho & Hi3 & Hg3);
      [by rewrite Hkeep, Hu, Hk|done|].
    exists w3. split_and!; [|done| |done|done].
    + rewrite (SM_bind_ok _ _ _ _ _ Hload), (SM_bind_ok _ _ _ _ _ Ha). by rewrite (bind_wrapping _ _ _ _ _ _ Hcm).
    + intros n k Hnk. by rewrite Ho, Hkeep, Hu, Hk.
  - by rewrite (SM_bind_ok _ _ _ _ _ Hload), (SM_bind_err _ _ _ _ _ Ha).
Qed.

(** Claiming a slot: nothing when there is one, refused when the block is full. *)
Lemma claimSlot_calm hash w index :
  calm (usr w) -> index_of (usr w) index ->
  exists w', only_index (usr w) (usr w') /\
    match index !! hash with
    | Some _ => claimSlot a hash w = (w', Ok (false, false)) /\ quietly w w' /\ index_of (usr w') index
    | None =>
        if ag_maxGroups a <=? Z.of_nat (size index)
        then claimSlot a hash w = (w', Ok (false, true)) /\ quietly w w' /\ index_of (usr w') index
        else claimSlot a hash w = (w', Ok (true, false)) /\ quietly (now w).1 w' /\
             index_of (usr w') (<[ hash := mkGroupEntry (times w (clk w)) 0 ]> index)
    end.
Proof.
  intros Hc Hi. destruct (readIndex_calm w index Hc Hi) as (w1 & Hr & Hq & Hk).
  assert (index_of (usr w1) index) as Hi1 by (unfold index_of in *; by rewrite Hk).
  unfold claimSlot, aggregateWriteAttempts. cbn [claimSlot_loop].
  assert (forall B (f : groupIndex * Z -> M U B), (readIndex a ≫= f) w
    = f (index, version_of (contents (usr w) NamespaceSystem (indexKey a))) w1) as Hread
    by (intros; by rewrite (SM_bind_ok _ _ _ _ _ Hr)).
  rewrite Hread. destruct (index !! hash) as [e|] eqn:E; [by exists w1; split; [intros n k _; apply Hk|split_and!]|].
  destruct (ag_maxGroups a <=? Z.of_nat (size index)); [by exists w1; split; [intros n k _; apply Hk|split_and!]|].
  destruct (writeIndex_calm (now w1).1 (<[ hash := mkGroupEntry (times w (clk w)) 0 ]> index)) as (w2 & Hw & Hq2 & Hi2 & Ho);
    [apply Hq|].
  destruct Hq as (Hq & Hr1 & Hc1). exists w2. split; [|split; [|split]].
  - intros n k Hn. rewrite Ho by done. apply Hk.
  - rewrite (SM_bind_ok now _ w1 (now w1).1 (times w (clk w))) by (rewrite Hq; done).
    change (usr (now w1).1) with (usr w1) in Hw. rewrite Hk in Hw. by rewrite (SM_bind_ok _ _ _ _ _ Hw).
  - destruct Hq2 as (Hq2 & Hr2 & Hc2). unfold quietly. split_and!; [|by etransitivity|done]. rewrite Hq2, Hq. done.
  - done.
Qed.

(** The clock a fold finds: claiming a slot reads it once. *)
Definition admitted_at (index : groupIndex) (hash : string) (w : world U) : world U :=
  match index !! hash with Some _ => w | None => (now w).1 end.

Lemma reserve_calm hash w index :
  calm (usr w) -> index_of (usr w) index -> is_Some (index !! hash) \/ Z.of_nat (size index) < ag_maxGroups a ->
  exists w' index' claimed, reserve a hash w = (w', Ok (true, claimed)) /\
    claimed = (if decide (index !! hash = None) then true else false) /\
    quietly (admitted_at index hash w) w' /\ only_index (usr w) (usr w') /\ index_of (usr w') index' /\
    (forall e, <[ hash := e ]> index' = <[ hash := e ]> index) /\ delete hash index' = delete hash index /\
    (claimed = false -> index' = index).
Proof.
  intros Hc Hi Hroom. destruct (claimSlot_calm hash w index Hc Hi) as (w' & Ho & H).
  unfold reserve, aggregateWriteAttempts, admitted_at. cbn [reserve_loop].
  destruct (index !! hash) as [e|] eqn:E.
  - destruct H as (H & Hq & Hi'). exists w', index, false. rewrite (SM_bind_ok _ _ _ _ _ H). by split_and!.
  - destruct (Z.leb_spec (ag_maxGroups a) (Z.of_nat (size index))); [destruct Hroom as [[? ?]|]; [done|lia]|].
    destruct H as (H & Hq & Hi'). exists w', (<[ hash := mkGroupEntry (times w (clk w)) 0 ]> index), true.
    rewrite (SM_bind_ok _ _ _ _ _ H). split_and!; try done.
    + intros e. exact (insert_insert_eq (M := gmap string) index hash _ _).
    + exact (delete_insert_eq (M := gmap string) index hash _).
Qed.

(** What [foldMessage] does is decided by what [applyMessage] makes of the group
    as it was read, or of one opened now. *)
Lemma foldMessage_calm msg key w index og :
  let hash := hashedKey key in
  calm (usr w) -> index_of (usr w) index -> group_at (usr w) hash og ->
  is_Some (index !! hash) \/ Z.of_nat (size index) < ag_maxGroups a ->
  exists w1 s, loaded (admitted_at index hash w) w1 msg key og s /\ same_rest (usr w) (usr w1) /\
    match applyMessage (ag_folding a) msg s w1 with
    | (w2, Err e) => exists w3, foldMessage a msg key w = (w3, Err e) /\ quietly w2 w3 /\
        only_index (usr w) (usr w3) /\ group_at (usr w3) hash og /\ index_of (usr w3) index
    | (w2, Ok (s', None)) => storable s' ->
        exists w3, foldMessage a msg key w = (w3, Ok false) /\ quietly w2 w3 /\ only_group hash (usr w) (usr w3) /\
          index_of (usr w3) (<[ hash := entry_of s' ]> index) /\ group_at (usr w3) hash (Some (stored s'))
    | (w2, Ok (s', Some reason)) =>
        exists w3, foldMessage a msg key w = (deliver a hash s' reason ≫= fun _ => mret false) w3 /\ quietly w2 w3 /\
          only_group hash (usr w) (usr w3) /\ index_of (usr w3) (delete hash index) /\ group_at (usr w3) hash None
    end.
Proof.
  intros hash Hc Hi Hg Hroom. destruct (reserve_calm hash w index Hc Hi Hroom)
    as (w0 & index' & claimed & Hres & Hclaimed & Hq0 & Ho0 & Hi0 & Hins & Hdel & Hsame).
  destruct Hq0 as (Hw0 & Hr0 & Hc0). assert (usr (admitted_at index hash w) = usr w) as Hadm
    by (unfold admitted_at; by destruct (index !! hash)). rewrite Hadm in Hr0.
  destruct (foldLocked_calm msg key hash w0 index' og Hc0 Hi0) as (w1 & s & Hl & Hr1 & Hc1 & Hk1 & H);
    [by eapply group_at_only|].
  exists w1, s. split; [|split; [by etransitivity|]].
  { unfold loaded in *. destruct og as [g|]; destruct Hl as [-> Hl]; (split; [|by rewrite Hl, Hw0]); [done|].
    rewrite Hw0. done. }
  assert (forall n k, ~ (n = NamespaceSystem /\ (k = indexKey a \/ k = groupStateKey a hash)) ->
    contents (usr w0) n k = contents (usr w) n k) as Ho1 by (intros; apply Ho0; naive_solver).
  unfold foldMessage. fold hash. rewrite (SM_bind_ok _ _ _ _ _ Hres). cbn [negb].
  pose proof (applyMessage_keeps (ag_folding a) msg s w1) as Hkeep.
  destruct (applyMessage (ag_folding a) msg s w1) as [w2 [[s' [reason|]]|e]]; cbn in Hkeep.
  - destruct H as (w3 & Hf & Hq & Ho & Hi3 & Hg3). exists w3. rewrite (bind_attempt _ _ _ _ _ Hf).
    split_and!; [done|done|by intros n k Hn; rewrite Ho, Ho1|by rewrite <-Hdel|done].
  - intros Hs. destruct (H Hs) as (w3 & Hf & Hq & Ho & Hi3 & Hg3). exists w3. rewrite (bind_attempt _ _ _ _ _ Hf).
    split_and!; [done|done|by intros n k Hn; rewrite Ho, Ho1|by rewrite <-Hins|done].
  - rewrite (bind_attempt _ _ _ _ _ H). clear H.
    assert (index_of (usr w2) index') as Hi2 by (unfold index_of in *; by rewrite Hkeep, Hk1).
    assert (only_index (usr w) (usr w2)) as Ho2 by (intros n k Hn; rewrite Hkeep, Hk1; by apply Ho0).
    destruct claimed.
    + destruct (updateIndex_calm (forget hash) w2 index') as (w3 & Hu & Hq & Hi3 & Ho3);
        [by rewrite Hkeep|done|]. exists w3. unfold forgetGroup. rewrite (SM_bind_ok _ _ _ _ _ Hu). rewrite forget_index in Hi3.
      split_and!; [done|done|by eapply only_index_trans|apply (group_at_only (usr w)); [by eapply only_index_trans|done]|].
      rewrite Hdel in Hi3. destruct (decide (index !! hash = None)) as [Hn|]; [|done].
      by rewrite (delete_id (M := gmap string) index hash Hn) in Hi3.
    + exists w2. rewrite Hsame in Hi2 by done.
      split_and!; [done|by repeat split; [destruct w2| |by rewrite Hkeep]|done|by apply (group_at_only (usr w))|done].
Qed.

(** ** The groups as a machine *)

(** The abstract state: the open groups and their slots, by hash. *)
Record groups : Type := mkGroups { gr_open : gmap string groupState; gr_slots : groupIndex }.

(** A store represents the groups whose documents it holds. *)
Definition represents (u : U) (G : groups) : Prop :=
  index_of u (gr_slots G) /\ forall hash, group_at u hash (gr_open G !! hash).

(** A group takes a message in, leaves, or stays as it is when the fold fails. *)
Definition joined (hash : string) (s : groupState) (G : groups) : groups :=
  mkGroups (<[ hash := stored s ]> (gr_open G)) (<[ hash := entry_of s ]> (gr_slots G)).
Definition left_ (hash : string) (G : groups) : groups :=
  mkGroups (delete hash (gr_open G)) (delete hash (gr_slots G)).

Lemma represents_update u u' hash G open slots og :
  represents u G -> only_group hash u u' -> index_of u' slots -> group_at u' hash og -> open !! hash = og ->
  (forall h, h ≠ hash -> open !! h = gr_open G !! h) -> represents u' (mkGroups open slots).
Proof.
  intros [Hi Hg] Ho Hi' Hg' Hop Hoth. split; [done|]. intros h. cbn. destruct (decide (h = hash)) as [->|Hne].
  - by rewrite Hop.
  - rewrite Hoth by done. specialize (Hg h). unfold group_at in *. rewrite Ho; [done|].
    intros [_ [H|H]]; [by apply group_key_ne_index in H|by apply group_key_inj in H].
Qed.

(** C8: folding refines a machine whose state is a map of groups.  With a slot to
    fold into and nobody interfering, what [foldMessage] does is decided by what
    [applyMessage] makes of the group as it was read (or of one opened now): a
    failed fold leaves every group as it was and gives a claimed slot back; an
    open group takes the message in, as its JSON will read back, under the
    deadline the index records; a complete one is out of the map before it is
    delivered. *)
Theorem fold_refines_groups msg key w G :
  let hash := hashedKey key in
  calm (usr w) -> represents (usr w) G ->
  is_Some (gr_slots G !! hash) \/ Z.of_nat (size (gr_slots G)) < ag_maxGroups a ->
  exists w1 s, loaded (admitted_at (gr_slots G) hash w) w1 msg key (gr_open G !! hash) s /\
    match applyMessage (ag_folding a) msg s w1 with
    | (w2, Err e) => exists w3, foldMessage a msg key w = (w3, Err e) /\ quietly w2 w3 /\
        represents (usr w3) G
    | (w2, Ok (s', None)) => storable s' ->
        exists w3, foldMessage a msg key w = (w3, Ok false) /\ quietly w2 w3 /\ represents (usr w3) (joined hash s' G)
    | (w2, Ok (s', Some reason)) =>
        exists w3, foldMessage a msg key w = (deliver a hash s' reason ≫= fun _ => mret false) w3 /\ quietly w2 w3 /\
          represents (usr w3) (left_ hash G)
    end.
Proof.
  intros hash Hc HG Hroom. destruct HG as [Hi Hg] eqn:E. clear E.
  destruct (foldMessage_calm msg key w (gr_slots G) (gr_open G !! hash) Hc Hi (Hg hash) Hroom) as (w1 & s & Hl & _ & H).
  exists w1, s. split; [done|].
  destruct (applyMessage (ag_folding a) msg s w1) as [w2 [[s' [reason|]]|e]].
  - destruct H as (w3 & Hf & Hq & Ho & Hi3 & Hg3). exists w3. split_and!; [done|done|].
    eapply (represents_update (usr w)); [by split|exact Ho|done|exact Hg3|apply lookup_delete_eq|].
    intros h Hh. by apply lookup_delete_ne.
  - intros Hs. destruct (H Hs) as (w3 & Hf & Hq & Ho & Hi3 & Hg3). exists w3. split_and!; [done|done|].
    eapply (represents_update (usr w)); [by split|exact Ho|done|exact Hg3|apply lookup_insert_eq|].
    intros h Hh. by apply lookup_insert_ne.
  - destruct H as (w3 & Hf & Hq & Ho & Hg3 & Hi3). exists w3. split_and!; [done|done|].
    split; [done|]. intros h. by apply (group_at_only (usr w)).
Qed.
End calm.

(** A block that completes at two messages and holds one group, over an empty
    store. *)
Definition sample_folding : folding := mkFolding None (fun _ => Ok (AInt 2)) None true 0 aggregateTimeoutFromFirst.
Definition sample_aggregate : aggregate (replica any unit) :=
  mkAggregate "flow/0" (fun _ => Ok (AStr "g")) sample_folding 1 aggregateOverflowFail None (fun _ => mret tt)
    (fun _ => "") id.
Definition sample_world (moves : list (store any -> store any)) : world (replica any unit) :=
  mkWorld {[ 0%nat := set_body (AStr "x") false zeroMessage ]} 1 (fun _ => Some "id") 0 (fun n => Z.of_nat n) 0
    (mkReplica (mkStore ∅ ∅ None false) moves tt) (mkObserved [] 0 0).

Lemma sample_represents : represents sample_aggregate (usr (sample_world [])) (mkGroups ∅ ∅).
Proof. split; [done|]. intros hash. unfold group_at. cbn. by rewrite lookup_empty. Qed.

Lemma fold_refines_groups_witness :
  exists w' s, foldMessage sample_aggregate 0 "g" (sample_world []) = (w', Ok false) /\
    represents sample_aggregate (usr w') (joined (hashedKey "g") s (mkGroups ∅ ∅)) /\
    g_Acc s = AArr [AStr "x"] /\ g_Count s = 1 /\ g_Size s = 2.
Proof.
  destruct (fold_refines_groups sample_aggregate 0 "g" (sample_world []) (mkGroups ∅ ∅)) as (w1 & s & [Hs Hw] & H).
  - reflexivity.
  - apply sample_represents.
  - right. reflexivity.
  - rewrite Hs in H. clear Hs s. rewrite Hw in H. revert H. generalize (usr w1). intros u.
    match goal with |- match ?run with _ => _ end -> _ =>
      assert (exists w2 s2, run = (w2, Ok (s2, None)) /\ g_Acc s2 = AArr [AStr "x"] /\ g_Count s2 = 1 /\ g_Size s2 = 2)
        as (w2 & s2 & Ha & H1 & H2 & H3) by (eexists _, _; split; [vm_compute; reflexivity|by vm_compute])
    end.
    rewrite Ha. intros H. assert (storable s2) as Hst; [|destruct (H Hst) as (w3 & Hf & _ & Hr); exists w3, s2; exact (conj Hf (conj Hr (conj H1 (conj H2 H3))))].
    clear - H1. unfold storable. rewrite H1. split; [done|]. pose proof json_max_depth_large. cbn. lia.
Defined.
