(* ===== verification/Rejoin.v ===== *)
(** Split, then aggregate: elements that come back in any order are rejoined in
    the order they were split in.

    The elements are the messages [Split.element] describes; they reach an
    aggregate with its default settings one after the other, as the stripe lock
    makes them. *)
From S2P Require Import Prelude GoStr F64 GoTime Message Config Store BlockPath Expr Engine Debug Builder Composites.
From S2P Require Import Split Sha256 KV Group Aggregate Folding.
From Stdlib Require Import String.
#[local] Open Scope string_scope.
#[local] Open Scope Z_scope.

(** ** Placing elements *)
Section placed.
Context (b : nat -> any).

Definition placed (js : list nat) : list any := foldl (fun items j => place items j (b j)) [] js.

Lemma place_lookup items i x j :
  place items i x !! j =
    if decide (j = i) then Some x
    else match items !! j with Some y => Some y | None => if decide (j < i)%nat then Some ANil else None end.
Proof.
  unfold place. destruct (decide (j = i)) as [->|Hj].
  - rewrite list_lookup_insert_eq; [done|]. rewrite length_app, length_replicate. lia.
  - rewrite list_lookup_insert_ne by done. destruct (items !! j) as [y|] eqn:E.
    + by rewrite lookup_app_l by (by eapply lookup_lt_Some).
    + apply lookup_ge_None in E. rewrite lookup_app_r by done. case_decide.
      * rewrite lookup_replicate_2; [done|lia].
      * apply lookup_replicate_None. lia.
Qed.

Lemma placed_lookup js j :
  placed js !! j = if decide (j ∈ js) then Some (b j)
                   else if decide (Exists (fun k => (j < k)%nat) js) then Some ANil else None.
Proof.
  unfold placed. induction js as [|k js IH] using rev_ind.
  - rewrite decide_False by apply not_elem_of_nil. rewrite decide_False; [done|]. by intros ?%Exists_nil.
  - rewrite foldl_app. cbn [foldl]. rewrite place_lookup, IH.
    destruct (decide (j = k)) as [->|Hjk]; [by rewrite decide_True by set_solver|].
    destruct (decide (j ∈ js)) as [Hin|Hin]; [by rewrite decide_True by set_solver|].
    rewrite (decide_False (P := j ∈ (js ++ [k])%list)) by set_solver.
    destruct (decide (Exists _ js)) as [He|He].
    + rewrite decide_True; [done|]. apply Exists_app. by left.
    + destruct (decide (j < k)%nat) as [Hlt|Hlt].
      * rewrite decide_True; [done|]. apply Exists_app. right. by constructor.
      * rewrite decide_False; [done|]. intros [?|[?|?%Exists_nil]%Exists_cons]%Exists_app; done.
Qed.

Lemma placed_all n js : js ≡ₚ seq 0 n -> placed js = map b (seq 0 n).
Proof.
  intros Hp. apply list_eq. intros j. rewrite placed_lookup, list_lookup_fmap.
  assert (j ∈ js <-> (j < n)%nat) as Hin by (rewrite Hp, elem_of_seq; lia).
  destruct (decide (j < n)%nat) as [Hlt|Hge].
  - rewrite decide_True by tauto. by rewrite lookup_seq_lt.
  - rewrite decide_False by tauto. rewrite lookup_seq_ge by lia. cbn. rewrite decide_False; [done|].
    rewrite Exists_exists. intros (k & Hk & Hjk). rewrite Hp, elem_of_seq in Hk. lia.
Qed.

(** Nothing in the array but elements and gaps. *)
Lemma placed_elem js x : x ∈ placed js -> x = ANil \/ exists j, j ∈ js /\ x = b j.
Proof.
  intros [j Hj]%list_elem_of_lookup. rewrite placed_lookup in Hj. repeat case_decide; simplify_eq; eauto.
Qed.
End placed.

(** ** Folding an element *)

(** The completion size a split announces, as the default expression reads it. *)
Definition reads_size (fd : folding) : Prop :=
  forall m n, Variables.Int (Vars m) varGroupSize = Some n ->
    exists v, fd_completionSize fd m = Ok v /\ asInt v = Some n.

(** A run that touches no message but [l], and allocates none. *)
Definition only_message {U} (l : nat) (w w' : world U) : Prop :=
  next w' = next w /\ ids w' = ids w /\ idn w' = idn w /\ forall k, k ≠ l -> peek w' k = peek w k.

Lemma withGroup_spec {U} msg s (w : world U) :
  exists w' g, withGroup msg s w = (w', Ok g) /\ usr w' = usr w /\ only_message msg w w' /\
    Variables.Int (Vars g) varGroupSize = Variables.Int (Vars (peek w msg)) varGroupSize.
Proof.
  eexists _, _. split; [reflexivity|]. split; [done|]. split.
  - repeat split. intros k Hk. unfold peek. cbn. by rewrite lookup_insert_ne.
  - unfold Variables.Int. by rewrite Vars_set_var_ne.
Qed.

(** The state a message leaves a group in, before its size is learned. *)
Definition appended (fd : folding) (m : Message) (t : Z) (s : groupState) : groupState :=
  let s := counted t (with_acc (AArr (placeInOrder (g_Acc s) m s)) s) in with_deadline (group_deadline fd s) s.
Definition learned (n : Z) (s : groupState) : groupState :=
  if 0 <=? g_Size s then s else if 0 <? n then with_size n s else s.
Definition by_size (s : groupState) : option string :=
  if (0 <=? g_Size s) && (g_Size s <=? g_Count s) then Some aggregateReasonSize else None.

Lemma applyMessage_append {U} fd msg s (w : world U) n :
  fd_appendMode fd = true -> fd_completionExpr fd = None -> reads_size fd ->
  Variables.Int (Vars (peek w msg)) varGroupSize = Some n ->
  exists w' t, let s' := learned n (appended fd (peek w msg) t s) in
    applyMessage fd msg s w = (w', Ok (s', by_size s')) /\ usr w' = usr w /\ only_message msg w w'.
Proof.
  intros Happ Hexp Hsize Hint. set (m := peek w msg) in *. set (t := times w (clk w)). set (w1 := (now w).1).
  exists (if 0 <=? g_Size (appended fd m t s) then w1 else (withGroup msg (appended fd m t s) w1).1), t. cbv zeta.
  assert (forall B (f : groupState -> M U B), (learnSize fd msg (appended fd m t s) ≫= f) w1 =
    f (learned n (appended fd m t s))
      (if 0 <=? g_Size (appended fd m t s) then w1 else (withGroup msg (appended fd m t s) w1).1)) as Hlearn.
  { intros B f. unfold learnSize, learned. destruct (0 <=? g_Size (appended fd m t s)); [done|].
    destruct (withGroup_spec msg (appended fd m t s) w1) as (w2 & g & Hg & _ & _ & Hn). rewrite Hg.
    change (peek w1 msg) with m in Hn. rewrite Hint in Hn. destruct (Hsize g n Hn) as (v & Hv & Hi).
    rewrite (SM_bind_ok _ _ w1 w2 (if 0 <? n then with_size n (appended fd m t s) else appended fd m t s)); [done|].
    rewrite (SM_bind_ok _ _ _ _ _ Hg), Hv. cbv zeta. cbn [wrap_err].
    rewrite (SM_bind_ok (lift (Ok v)) _ w2 w2 v eq_refl), Hi. done. }
  split_and!.
  - unfold applyMessage, accumulate. rewrite Happ.
    change ((learnSize fd msg (appended fd m t s) ≫= fun s' =>
      if (0 <=? g_Size s') && (g_Size s' <=? g_Count s') then mret (s', Some aggregateReasonSize)
      else match fd_completionExpr fd with
        | Some predicate =>
            g ← withGroup msg s';
            done ← lift (wrap_err "aggregate completionExpression: " (EvalCondition predicate g));
            mret (s', if (done : bool) then Some aggregateReasonExpression else None)
        | None => mret (s', None)
        end) w1 = (if 0 <=? g_Size (appended fd m t s) then w1 else (withGroup msg (appended fd m t s) w1).1,
                   Ok (learned n (appended fd m t s), by_size (learned n (appended fd m t s))))).
    rewrite Hlearn, Hexp. unfold by_size. by destruct (_ && _).
  - by destruct (0 <=? _).
  - destruct (0 <=? _); [by repeat split|].
    destruct (withGroup_spec msg (appended fd m t s) w1) as (w2 & g & -> & _ & Ho & _). exact Ho.
Qed.

Section rejoin.
Context {U : Type} `{HKV : !KV any U} `{HL : !KVLaws any U} (a : aggregate U) (got : U -> list Message).

(** The aggregate's settings are the defaults, up to where it stores and what it
    does about timeouts and overflow. *)
Record default_settings : Prop := {
  ds_append : fd_appendMode (ag_folding a) = true;
  ds_predicate : fd_completionExpr (ag_folding a) = None;
  ds_size : reads_size (ag_folding a);
  ds_correlation m id : Variables.String (Vars m) varGroupID = Some id ->
    EvalString (ag_render a) (ag_correlation a) m = Ok id;
  ds_response : ag_buildResponse a = None;
}.

(** The continuation notes what it is handed, apart from the store. *)
Record noting : Prop := {
  nt_rest u u' : same_rest u u' -> got u = got u';
  nt_cont l w : calm (usr w) -> exists u, ag_cont a l w = (with_usr u w, Ok tt) /\ calm u /\
    got u = (got (usr w) ++ [peek w l])%list /\ forall n k, contents u n k = contents (usr w) n k;
}.

Hypothesis Hds : default_settings.
Hypothesis Hnt : noting.

Context (p : Message) (vs : list any) (known : Z).
Local Abbreviation total := (List.length vs).
Local Abbreviation hash := (hashedKey (EventID p)).

(** A split of [vs]: the size is known up front or not, every body is plain
    JSON, and there are no more elements than positions are honoured for. *)
Record splitting : Prop := {
  sp_known : known = Z.of_nat total \/ known = sizeUnknown;
  sp_some : (0 < total)%nat;
  sp_few : Z.of_nat total <= maxPositionedIndex;
  sp_id : EventID p ≠ "";
  sp_plain v : v ∈ vs -> json_norm (copyBody v) = copyBody v /\ encodable (copyBody v) = true /\
    (S (S (nesting (copyBody v))) <= json_max_depth)%nat;
}.
Hypothesis Hsp : splitting.

Definition body_at (i : nat) : any := default ANil (copyBody <$> vs !! i).

Definition is_element (m : Message) (i : nat) : Prop :=
  exists v id, vs !! i = Some v /\ m = element p known total i v id.

(** What the group knows of its size after these positions came in. *)
Definition size_after (js : list nat) : Z :=
  if decide (known = sizeUnknown) then if decide (pred total ∈ js) then Z.of_nat total else sizeUnknown
  else if decide (js = []) then sizeUnknown else Z.of_nat total.

Definition holds_elements (s : groupState) (js : list nat) : Prop :=
  g_Key s = EventID p /\ g_Count s = Z.of_nat (List.length js) /\ g_Size s = size_after js /\
  match g_Acc s with AArr items => items | _ => [] end = placed body_at js /\
  g_CorrelationID s = CorrelationID p /\ g_TraceID s = TraceID p.

Lemma element_index i v id : Variables.Int (Vars (element p known total i v id)) varGroupIndex = Some (Z.of_nat i).
Proof. unfold Variables.Int, element. cbn [Vars]. by rewrite lookup_insert_ne, lookup_insert_eq. Qed.
Lemma element_size i v id :
  Variables.Int (Vars (element p known total i v id)) varGroupSize = Some (announced known total i).
Proof. unfold Variables.Int, element. cbn [Vars]. by rewrite lookup_insert_eq. Qed.
Lemma element_group i v id : Variables.String (Vars (element p known total i v id)) varGroupID = Some (EventID p).
Proof. unfold Variables.String, element. cbn [Vars]. rewrite !lookup_insert_ne by done. by rewrite lookup_insert_eq. Qed.
Lemma element_trace i v id : TraceID (element p known total i v id) = TraceID p.
Proof. unfold TraceID, Variables.String, element. cbn [Vars]. by rewrite !lookup_insert_ne by done. Qed.

Lemma announced_cases i : announced known total i =
  if decide (known = sizeUnknown) then if decide (S i = total) then Z.of_nat total else sizeUnknown else Z.of_nat total.
Proof.
  unfold announced. destruct (Z.eqb_spec known sizeUnknown), (decide (known = sizeUnknown)); try done.
  - destruct (Nat.eqb_spec (S i) total), (decide (S i = total)); done.
  - by destruct (sp_known Hsp).
Qed.

Lemma element_limit i v id s js : (i < total)%nat -> holds_elements s js ->
  Z.of_nat i < positionLimit (element p known total i v id) s.
Proof.
  intros Hi (_ & _ & Hs & _). unfold positionLimit. rewrite Hs, element_size, announced_cases.
  pose proof (sp_few Hsp) as Hf. unfold size_after.
  repeat case_decide; repeat (case_match; simplify_eq/=); unfold sizeUnknown in *; try lia.
Qed.

(** One element in: the group is what it was, with the element in its place. *)
Lemma appended_core fd t s js i v id :
  holds_elements s js -> (i < total)%nat -> vs !! i = Some v ->
  let s' := learned (announced known total i) (appended fd (element p known total i v id) t s) in
  holds_elements s' (js ++ [i]) /\ g_Acc s' = AArr (placed body_at (js ++ [i])).
Proof.
  intros Hc Hi Hv. pose proof (element_limit i v id s js Hi Hc) as Hlim.
  destruct Hc as (Hkey & Hcount & Hsize & Hacc & Hcorr & Htr).
  set (m := element p known total i v id) in *.
  assert (placeInOrder (g_Acc s) m s = placed body_at (js ++ [i])) as Hplace.
  { unfold placeInOrder, m. rewrite element_index, Hacc. fold m.
    assert ((Z.of_nat i <? 0) || (positionLimit m s <=? Z.of_nat i) = false) as ->.
    { apply orb_false_iff. split; [apply Z.ltb_ge|apply Z.leb_gt]; lia. }
    unfold placed. rewrite foldl_app. cbn [foldl]. rewrite Nat2Z.id. f_equal. unfold body_at. by rewrite Hv. }
  unfold learned. cbn [appended with_deadline counted with_acc g_Size].
  rewrite announced_cases, Hsize, <-Hplace.
  assert (size_after (js ++ [i]) = if 0 <=? size_after js then size_after js
    else let k := if decide (known = sizeUnknown) then if decide (S i = total) then Z.of_nat total else sizeUnknown else Z.of_nat total in
         if 0 <? k then k else size_after js) as Hafter.
  { unfold size_after. pose proof (sp_some Hsp) as Hn. rewrite (decide_False (P := (js ++ [i])%list = [])) by (by destruct js).
    destruct (decide (known = sizeUnknown)).
    - destruct (decide (pred total ∈ js)) as [Hin|Hin].
      + rewrite decide_True by set_solver. destruct (Z.leb_spec 0 (Z.of_nat total)); [done|lia].
      + destruct (decide (S i = total)) as [Hlast|Hlast].
        * rewrite decide_True by (apply elem_of_app; right; apply list_elem_of_singleton; lia). cbn.
          destruct (Z.ltb_spec 0 (Z.of_nat total)); [done|lia].
        * rewrite decide_False; [done|]. rewrite elem_of_app, list_elem_of_singleton. intros [?|?]; [done|lia].
    - destruct (decide (js = [])); cbn.
      + destruct (Z.ltb_spec 0 (Z.of_nat total)); [done|lia].
      + destruct (Z.leb_spec 0 (Z.of_nat total)); [done|lia]. }
  cbv zeta in *. unfold holds_elements. rewrite Hafter.
  assert (g_Count s + 1 = Z.of_nat (List.length (js ++ [i]))) as Hlen by (rewrite length_app, Hcount; cbn; lia).
  destruct (0 <=? size_after js); [by split_and!|]. destruct (0 <? _); by split_and!.
Qed.

Lemma plain_body j : json_norm (body_at j) = body_at j /\ encodable (body_at j) = true /\
  (S (S (nesting (body_at j))) <= json_max_depth)%nat.
Proof.
  unfold body_at. destruct (vs !! j) as [v|] eqn:E; cbn [fmap option_fmap option_map default id].
  - apply (sp_plain Hsp). by eapply list_elem_of_lookup_2.
  - split_and!; [done|done|]. pose proof json_max_depth_large. cbn. lia.
Qed.

Lemma plain_placed js : json_norm (AArr (placed body_at js)) = AArr (placed body_at js) /\
  encodable (AArr (placed body_at js)) = true /\ (nesting (AArr (placed body_at js)) < json_max_depth)%nat.
Proof.
  assert (forall x, x ∈ placed body_at js -> json_norm x = x /\ encodable x = true /\
    (S (S (nesting x)) <= json_max_depth)%nat) as Hx.
  { intros x [->|(j & _ & ->)]%placed_elem; [|apply plain_body]. pose proof json_max_depth_large. cbn.
    split_and!; [done|done|lia]. }
  split_and!.
  - cbn [json_norm]. f_equal. rewrite <-map_id. apply map_ext_Forall, Forall_forall. by intros x [? _]%Hx.
  - cbn [encodable]. apply forallb_forall. intros x Hin%list_elem_of_In. by apply Hx.
  - cbn [nesting]. pose proof json_max_depth_large as Hlarge.
    assert (forall l, (forall x, x ∈ l -> S (S (nesting x)) <= json_max_depth)%nat ->
      (foldr Nat.max 0 (map nesting l) + 2 <= json_max_depth)%nat) as Hf.
    { induction l as [|x l IH]; intros Hl; cbn; [lia|]. pose proof (Hl x ltac:(left)).
      pose proof (IH ltac:(intros y Hy; apply Hl; by right)). lia. }
    assert (foldr Nat.max 0%nat (map nesting (placed body_at js)) + 2 <= json_max_depth)%nat; [|lia].
    apply Hf. intros x Hin. by apply Hx.
Qed.

(** What a completed group hands on. *)
Definition rejoined (m : Message) : Prop :=
  Body m = AArr (map copyBody vs) /\ CorrelationID m = CorrelationID p /\ TraceID m = TraceID p /\
  Vars m !! varAggregateKey = Some (AStr (EventID p)) /\ Vars m !! varAggregateCount = Some (AInt (Z.of_nat total)) /\
  Vars m !! varAggregateReason = Some (AStr aggregateReasonSize).

Lemma release_spec s reason w id :
  ids w (idn w) = Some id -> calm (usr w) ->
  exists w' m, release a s reason w = (w', Ok tt) /\ got (usr w') = (got (usr w) ++ [m])%list /\ calm (usr w') /\
    (forall n k, contents (usr w') n k = contents (usr w) n k) /\ ids w' = ids w /\ next w' = S (next w) /\
    (forall k, k ≠ next w -> peek w' k = peek w k) /\
    Body m = g_Acc s /\ CorrelationID m = g_CorrelationID s /\ TraceID m = g_TraceID s /\
    Vars m !! varAggregateKey = Some (AStr (g_Key s)) /\ Vars m !! varAggregateCount = Some (AInt (g_Count s)) /\
    Vars m !! varAggregateReason = Some (AStr reason).
Proof.
  intros Hid Hc.
  set (m := set_var varAggregateReason (AStr reason) (set_var varAggregateCount (AInt (g_Count s))
    (set_var varAggregateKey (AStr (g_Key s)) (SetTraceID (g_TraceID s)
      (SetBody (g_Acc s) (mkMessage id (g_CorrelationID s) ∅ ANil "" false false)))))).
  set (w1 := mkWorld (<[next w := m]> (heap w)) (S (next w)) (ids w) (S (idn w)) (times w) (clk w) (usr w) (obs w)).
  destruct (nt_cont Hnt (next w) w1 Hc) as (u & Hcont & Hc' & Hgot & Hk).
  exists (with_usr u w1), m. split.
  { unfold release. rewrite (SM_bind_ok draw_id _ w _ (ids w (idn w)) eq_refl), Hid.
    etransitivity; [|apply (wrapping_run ("aggregate: continue with group " ++ quote (g_Key s) ++ ": ") _ _ _ _ Hcont)].
    reflexivity. }
  split_and!; try done.
  - cbn. rewrite Hgot. unfold peek. cbn. by rewrite lookup_insert_eq.
  - intros k Hne. unfold peek. cbn. by rewrite lookup_insert_ne.
  - subst m. cbn. unfold SetTraceID. by destruct (String.eqb (g_TraceID s) "").
  - subst m. cbn. unfold SetTraceID. by destruct (String.eqb (g_TraceID s) "").
  - subst m. unfold TraceID, Variables.String. rewrite !Vars_set_var_ne by done. unfold SetTraceID.
    destruct (String.eqb_spec (g_TraceID s) "") as [->|]; [done|]. by rewrite Vars_set_var_eq.
  - subst m. rewrite !Vars_set_var_ne by done. by rewrite Vars_set_var_eq.
  - subst m. rewrite Vars_set_var_ne by done. by rewrite Vars_set_var_eq.
  - subst m. by rewrite Vars_set_var_eq.
Qed.

(** The store while the elements at [js] are in, [index] having been there before. *)
Definition collecting (index : groupIndex) (js : list nat) (w : world U) : Prop :=
  calm (usr w) /\
  (exists now_, index_of a (usr w) now_ /\ delete hash now_ = delete hash index /\
     (is_Some (now_ !! hash) \/ Z.of_nat (size now_) < ag_maxGroups a)) /\
  exists og, group_at a (usr w) hash og /\ (js = [] /\ og = None \/ exists g, og = Some g /\ holds_elements g js).

(** The store once they all are, and the group was handed on. *)
Definition collected (index : groupIndex) (w : world U) : Prop :=
  calm (usr w) /\ index_of a (usr w) (delete hash index) /\ group_at a (usr w) hash None.

Definition partial (js : list nat) : Prop := NoDup js /\ forall j, j ∈ js -> (j < total)%nat.

Lemma partial_full js : partial js -> List.length js = total -> js ≡ₚ seq 0 total.
Proof.
  intros [Hnd Hlt] Hlen. apply submseteq_length_Permutation; [|rewrite length_seq; lia].
  apply NoDup_submseteq; [done|]. intros j Hj%Hlt. apply elem_of_seq. lia.
Qed.

Lemma partial_snoc js i : partial js -> i ∉ js -> (i < total)%nat -> partial (js ++ [i]).
Proof.
  intros [Hnd Hlt] Hi Hlti. split.
  - apply NoDup_app. split_and!; [done| |apply NoDup_singleton]. intros x Hx ->%list_elem_of_singleton. done.
  - intros j [?| ->%list_elem_of_singleton]%elem_of_app; auto.
Qed.

(** Size and count agree exactly when every element is in. *)
Lemma by_size_core s js : partial js -> holds_elements s js ->
  by_size s = if decide (List.length js = total) then Some aggregateReasonSize else None.
Proof.
  intros Hp (_ & Hcount & Hsize & _). pose proof (sp_some Hsp) as Hn. unfold by_size. rewrite Hcount, Hsize.
  assert (List.length js <= total)%nat as Hle.
  { destruct Hp as [Hnd Hlt]. rewrite <-(length_seq total 0). apply submseteq_length, NoDup_submseteq; [done|].
    intros j Hj%Hlt. apply elem_of_seq. lia. }
  destruct (decide (List.length js = total)) as [Hl|Hl].
  - assert (size_after js = Z.of_nat total) as ->.
    { unfold size_after. destruct (decide (known = sizeUnknown)).
      - rewrite decide_True; [done|]. rewrite (partial_full js Hp Hl). apply elem_of_seq. lia.
      - rewrite decide_False; [done|]. intros ->. cbn in Hl. lia. }
    rewrite Hl. by rewrite (proj2 (Z.leb_le 0 _)), (proj2 (Z.leb_le _ _)) by lia.
  - assert ((0 <=? size_after js) && (size_after js <=? Z.of_nat (List.length js)) = false) as ->; [|done].
    apply andb_false_iff. unfold size_after, sizeUnknown. repeat case_decide; cbn;
      (try by left); right; apply Z.leb_gt; lia.
Qed.

(** One element through the block. *)
Lemma process_element index js i l w idf :
  collecting index js w -> partial js -> i ∉ js -> (i < total)%nat -> (l < next w)%nat ->
  is_element (peek w l) i -> (forall k, ids w k = Some (idf k)) ->
  exists w', aggregate_Process a l w = (w', Ok (Some l)) /\ (next w <= next w')%nat /\
    (forall k, ids w' k = Some (idf k)) /\ (forall k, k ≠ l -> (k < next w)%nat -> peek w' k = peek w k) /\
    if decide (List.length (js ++ [i]) = total)
    then collected index w' /\ exists m, got (usr w') = (got (usr w) ++ [m])%list /\ rejoined m
    else collecting index (js ++ [i]) w' /\ got (usr w') = got (usr w).
Proof.
  intros (Hc & (cur & Hcur & Hdel & Hroom) & og & Hog & Hcore) Hp Hi Hlt Hl (v & id & Hv & Hm) Hids.
  destruct (foldMessage_calm a l (EventID p) w cur og Hc Hcur Hog Hroom) as (w1 & s & Hload & Hr1 & H).
  assert (heap w1 = heap w /\ next w1 = next w /\ ids w1 = ids w) as (Hh1 & Hn1 & Hi1).
  { unfold loaded, admitted_at in Hload. destruct og, (cur !! hash); destruct Hload as [_ ->]; done. }
  assert (peek w1 = peek w) as Hpeek1 by (unfold peek; by rewrite Hh1).
  assert (holds_elements s js) as Hs.
  { unfold loaded in Hload. destruct Hcore as [[-> ->]|(g & -> & Hg)]; destruct Hload as [-> _]; [|done].
    assert (peek (admitted_at cur hash w) l = peek w l) as -> by (unfold admitted_at; by destruct (cur !! hash)).
    rewrite Hm. unfold holds_elements, opened. cbn. rewrite element_trace. split_and!; try done.
    unfold size_after. case_decide; [|done]. rewrite decide_False; [done|apply not_elem_of_nil]. }
  destruct (applyMessage_append (ag_folding a) l s w1 (announced known total i) (ds_append Hds) (ds_predicate Hds) (ds_size Hds))
    as (w2 & t & Ha & Hu2 & Hn2 & Hi2 & _ & Hp2);
    [rewrite Hpeek1, Hm; apply element_size|].
  cbv zeta in Ha. rewrite Hpeek1, Hm in Ha.
  destruct (appended_core (ag_folding a) t s js i v id Hs Hlt Hv) as [Hs' Hacc].
  set (s' := learned _ _) in *. rewrite Ha in H.
  pose proof (partial_snoc js i Hp Hi Hlt) as Hp'. rewrite (by_size_core s' _ Hp' Hs') in H, Ha.
  assert (forall (r : M U bool) w3 w', foldMessage a l (EventID p) w = r w3 -> r w3 = (w', Ok false) ->
    aggregate_Process a l w = ((update l RequestStop w').1, Ok (Some l))) as Hproc.
  { intros r w3 w' Hf Hr. unfold aggregate_Process.
    rewrite (SM_bind_ok (load l) _ w w (peek w l) eq_refl).
    rewrite (SM_bind_ok (lift _) _ w w (EventID p)).
    - destruct (String.eqb_spec (EventID p) "") as [Hx|_]; [by destruct (sp_id Hsp)|].
      rewrite (SM_bind_ok _ _ _ _ _ (eq_trans Hf Hr)), (ds_response Hds). reflexivity.
    - unfold lift. rewrite (ds_correlation Hds _ (EventID p)); [done|]. rewrite Hm. apply element_group. }
  destruct (plain_placed (js ++ [i])) as (Hnorm & Henc & Hnest).
  destruct (decide (List.length (js ++ [i]) = total)) as [Hlast|Hmore].
  - destruct H as (w3 & Hf & (Hw3 & Hr3 & Hc3) & Ho & Hi3 & Hg3).
    destruct (release_spec s' aggregateReasonSize w3 (idf (idn w3))) as (w4 & m & Hrel & Hgot & Hc4 & Hk4 & Hids4 & Hn4 & Hp4 & Hm4);
      [by rewrite Hw3; cbn; rewrite Hi2, Hi1|done|].
    exists (update l RequestStop w4).1. split_and!.
    + eapply Hproc; [exact Hf|]. unfold deliver. cbv beta.
      rewrite (SM_bind_ok _ _ w3 w4 tt); [done|]. by rewrite (bind_attempt _ _ _ _ _ Hrel).
    + cbn. rewrite Hn4, Hw3. cbn. lia.
    + intros k. cbn. rewrite Hids4, Hw3. cbn. by rewrite Hi2, Hi1.
    + intros k Hk Hkn. rewrite peek_update, decide_False by done. rewrite Hp4 by (rewrite Hw3; cbn; lia).
      rewrite Hw3. change (peek w2 k = peek w k). by rewrite Hp2, Hpeek1.
    + split; [exact Hc4|]. rewrite <-Hdel. unfold index_of, group_at in *. split.
      * change (usr (update l RequestStop w4).1) with (usr w4). by rewrite Hk4.
      * change (usr (update l RequestStop w4).1) with (usr w4). by rewrite Hk4.
    + exists m. split; [cbn; rewrite Hgot; f_equal; apply (nt_rest Hnt); symmetry; etransitivity; [exact Hr1|by rewrite <-Hu2]|].
      destruct Hm4 as (Hb & Hcorr & Htr & Hkey & Hcount & Hreason). destruct Hs' as (Hsk & Hsc & _ & _ & Hscorr & Hstr).
      unfold rejoined. rewrite Hb, Hcorr, Htr, Hkey, Hcount, Hreason, Hsk, Hsc, Hscorr, Hstr, Hacc, Hlast.
      split_and!; try done. f_equal. rewrite (placed_all body_at total _ (partial_full _ Hp' Hlast)).
      apply list_eq. intros j. rewrite !list_lookup_fmap. destruct (decide (j < total)%nat) as [Hj|Hj].
      * rewrite lookup_seq_lt by done. cbn. unfold body_at. destruct (lookup_lt_is_Some_2 vs j Hj) as [x Hx]. by rewrite Hx.
      * rewrite lookup_seq_ge by lia. by rewrite lookup_ge_None_2 by lia.
  - destruct H as (w3 & Hf & (Hw3 & Hr3 & Hc3) & Ho & Hi3 & Hg3); [rewrite <-Hacc in Henc, Hnest; done|].
    exists (update l RequestStop w3).1. split_and!.
    + apply (Hproc (fun _ => (w3, Ok false)) w3); [exact Hf|reflexivity].
    + cbn. rewrite Hw3. cbn. lia.
    + intros k. cbn. rewrite Hw3. cbn. by rewrite Hi2, Hi1.
    + intros k Hk Hkn. rewrite peek_update, decide_False by done. rewrite Hw3. change (peek w2 k = peek w k). by rewrite Hp2, Hpeek1.
    + split; [exact Hc3|]. split.
      * exists (<[ hash := entry_of s' ]> cur). split_and!; [exact Hi3| |left; exists (entry_of s'); exact (lookup_insert_eq (M := gmap string) cur _ _)].
        rewrite <-Hdel. exact (delete_insert_eq (M := gmap string) cur hash _).
      * exists (Some (stored s')). split; [exact Hg3|]. right. exists (stored s'). split; [done|].
        unfold stored. rewrite Hacc, Hnorm, <-Hacc. destruct s'. exact Hs'.
    + cbn. symmetry. apply (nt_rest Hnt). etransitivity; [exact Hr1|]. by rewrite <-Hu2.
Qed.

Context (loc : nat -> nat).
Hypothesis Hloc : forall i j, (i < total)%nat -> (j < total)%nat -> (loc i = loc j) -> i = j.

(** The elements still to come are the messages the split left at [loc]. *)
Definition waiting (rest : list nat) (w : world U) : Prop :=
  forall i, i ∈ rest -> (loc i < next w)%nat /\ is_element (peek w (loc i)) i.

Lemma process_rest index idf rest : forall js w,
  collecting index js w -> partial (js ++ rest) -> rest ≠ [] -> List.length (js ++ rest) = total ->
  waiting rest w -> (forall k, ids w k = Some (idf k)) ->
  exists w', mapM (aggregate_Process a) (map loc rest) w = (w', Ok (map (Some ∘ loc) rest)) /\
    collected index w' /\ exists m, got (usr w') = (got (usr w) ++ [m])%list /\ rejoined m.
Proof.
  induction rest as [|i rest IH]; intros js w Hcol Hp Hne Hlen Hw Hids; [done|]. clear Hne.
  assert (partial js /\ (i ∉ js) /\ (i < total)%nat) as (Hpj & Hij & Hi).
  { destruct Hp as [(Hnd & Hdis & _)%NoDup_app Hlt]. split_and!.
    - split; [done|]. intros j Hj. apply Hlt. set_solver.
    - intros Hin. apply (Hdis i Hin). set_solver.
    - apply Hlt. set_solver. }
  destruct (Hw i) as [Hl Hel]; [set_solver|].
  destruct (process_element index js i (loc i) w idf Hcol Hpj Hij Hi Hl Hel Hids)
    as (w1 & H1 & Hn1 & Hids1 & Hpk & Hres).
  change (js ++ i :: rest)%list with (js ++ [i] ++ rest)%list in Hp, Hlen. rewrite app_assoc in Hp, Hlen.
  cbn [map mapM]. rewrite (SM_bind_ok _ _ _ _ _ H1).
  destruct rest as [|i2 rest].
  - rewrite app_nil_r in Hlen. rewrite decide_True in Hres by done. exists w1. by split.
  - rewrite decide_False in Hres by (rewrite length_app in Hlen; cbn in Hlen |- *; lia). destruct Hres as [Hcol1 Hgot1].
    destruct (IH (js ++ [i])%list w1 Hcol1 Hp ltac:(done) Hlen) as (w2 & H2 & Hc2 & m & Hgot & Hm); [|done|].
    + intros k Hk. destruct (Hw k) as [Hkl Hkel]; [set_solver|]. split; [lia|]. rewrite Hpk; [done| |done].
      intros He. assert (k = i) as ->.
      { apply Hloc; [|done|done]. apply (proj2 Hp). set_solver. }
      destruct Hp as [(_ & Hdis & _)%NoDup_app _]. apply (Hdis i); [|done]. apply elem_of_app. right. left.
    + exists w2. rewrite (SM_bind_ok _ _ _ _ _ H2). split_and!; [done|done|]. exists m. by rewrite Hgot, Hgot1.
Qed.

End rejoin.

(** Two elements that come back last first. *)
Definition default_aggregate : aggregate (replica any (list Message)) :=
  mkAggregate "flow/1" (fun m => Ok (default ANil (Vars m !! varGroupID)))
    (mkFolding None (fun m => Ok (default (AInt64 (-1)) (Vars m !! varGroupSize))) None true 0 aggregateTimeoutFromFirst)
    1000 aggregateOverflowFail None
    (fun l => m ← load l; u ← get_usr;
       set_usr (mkReplica (re_store u) (re_moves u) (re_rest u ++ [m])%list)) (fun _ => "") id.
Definition parted : Message := mkMessage "m" "c" ∅ (AStr "a,b") "" false false.
Definition parts : list any := [AStr "a"; AStr "b"].
Definition parts_world : world (replica any (list Message)) :=
  mkWorld {[ 0%nat := element parted 2 2 0 (AStr "a") "e0"; 1%nat := element parted 2 2 1 (AStr "b") "e1" ]} 2
    (fun _ => Some "id") 0 (fun n => Z.of_nat n) 0 (mkReplica (mkStore ∅ ∅ None false) [] []) (mkObserved [] 0 0).

Lemma default_aggregate_default : default_settings default_aggregate.
Proof.
  split; try done.
  - intros m n H. unfold Variables.Int in H. cbn. destruct (Vars m !! varGroupSize) as [v|]; [|done].
    exists v. split; [done|]. by destruct v; simplify_eq.
  - intros m id H. unfold Variables.String in H. unfold EvalString. cbn.
    destruct (Vars m !! varGroupID) as [[]|]; by simplify_eq.
Qed.
Lemma default_aggregate_notes : noting default_aggregate re_rest.
Proof.
  split; [done|]. intros l w Hc. eexists. split; [reflexivity|]. done.
Qed.
Lemma parts_splitting : splitting parted parts 2.
Proof.
  split; [by left|cbn; lia|done|done|]. pose proof json_max_depth_large.
  intros v [->|[->|[]%elem_of_nil]%elem_of_cons]%elem_of_cons; (split_and!; [done|done|cbn; lia]).
Qed.

