(* ===== verification/Contend.v ===== *)
(** An aggregate among other replicas: what a fold does when the store is
    written between its calls, and how the block keeps to its cap.

    The store is the in-memory one; [re_moves] is what the others write, one
    move before each call this replica makes. *)
From S2P Require Import Prelude GoStr F64 GoTime Message Config Store BlockPath Expr Engine Debug Builder Composites.
From S2P Require Import Split Sha256 KV Group Aggregate Folding.
From Stdlib Require Import String Ascii OrderedTypeEx.
#[local] Open Scope string_scope.
#[local] Open Scope Z_scope.

Section contend.
Context {R : Type} (a : aggregate (replica any R)).
Implicit Types w : world (replica any R).

(** A writer that goes by versions, and never deletes the group: an entry it
    changes gets a greater version. *)
Definition versioned (key : string) (move : store any -> store any) : Prop :=
  forall s, store_Get NamespaceSystem key (move s) = store_Get NamespaceSystem key s \/
    version_of (store_Get NamespaceSystem key s) < version_of (store_Get NamespaceSystem key (move s)).

Definition others_versioned (hash : string) w : Prop := Forall (versioned (groupStateKey a hash)) (re_moves (usr w)).

(** The entry a call at [w] finds, others having moved first. *)
Definition found (hash : string) w : option (Entry any) :=
  store_Get NamespaceSystem (groupStateKey a hash) (interfere (usr w)).
(** The entry this replica last saw. *)
Definition held_entry (hash : string) w : option (Entry any) :=
  store_Get NamespaceSystem (groupStateKey a hash) (re_store (usr w)).

Lemma interfere_versioned hash w : others_versioned hash w ->
  found hash w = held_entry hash w \/ version_of (held_entry hash w) < version_of (found hash w).
Proof.
  unfold others_versioned, found, held_entry, interfere. destruct (re_moves (usr w)) as [|move moves]; [by left|].
  intros [Hv _]%Forall_cons. apply Hv.
Qed.

Lemma Get_run ns key w :
  kv_Get ns key w = (with_usr (mkReplica (interfere (usr w)) (tail (re_moves (usr w))) (re_rest (usr w))) w,
                     Ok (store_Get ns key (interfere (usr w)))).
Proof. done. Qed.

Lemma others_tail hash w u : others_versioned hash w -> re_moves u = tail (re_moves (usr w)) ->
  others_versioned hash (with_usr u w).
Proof. unfold others_versioned. cbn. intros H ->. by destruct H. Qed.

Lemma usr_with_usr w u : usr (with_usr u w) = u.
Proof. done. Qed.

(** How a fold that returned [r] ended at [w']: with the message folded onto the
    entry [e] it had read, and the outcome committed by a write that found [e]
    still in place. *)
Definition folded_onto (msg : nat) (key hash : string) (r : option (groupState * string))
    (w' : world (replica any R)) : Prop :=
  exists e w0 w1 w2 s s' complete,
    loadGroup msg key e w0 = (w1, Ok s) /\ applyMessage (ag_folding a) msg s w1 = (w2, Ok (s', complete)) /\
    r = (fun reason => (s', reason)) <$> complete /\
    match complete, e with
    | None, _ => exists doc w3, encode_group s' = Ok doc /\ found hash w2 = e /\
        kv_Set NamespaceSystem (groupStateKey a hash) doc (version_of e) w2 = (w3, Ok (version_of e + 1)) /\
        trackGroup a hash s' w3 = (w', Ok tt)
    | Some _, Some e => found hash w2 = Some e /\ exists w3,
        kv_Delete NamespaceSystem (groupStateKey a hash) (e_Version e) w2 = (w3, Ok tt) /\
        forgetGroup a hash w3 = (w', Ok tt)
    | Some _, None => forgetGroup a hash w2 = (w', Ok tt)
    end.

(** An entry with a version: what the store makes. *)
Definition versions_entry (e : option (Entry any)) : Prop := e = None \/ 0 < version_of e.

Lemma found_versions hash w : others_versioned hash w -> versions_entry (held_entry hash w) ->
  versions_entry (found hash w).
Proof.
  intros Hv Hp. destruct (interfere_versioned hash w Hv) as [->|Hlt]; [done|]. right.
  destruct Hp as [Hp|]; [rewrite Hp in Hlt; done|lia].
Qed.

(** A write at the version read either finds the entry read or is refused, and
    a refused one has only let the others move. *)
Lemma Set_conflicted hash e doc w : held_entry hash w = e -> others_versioned hash w ->
  let key := groupStateKey a hash in
  let moved := with_usr (mkReplica (interfere (usr w)) (tail (re_moves (usr w))) (re_rest (usr w))) w in
  (found hash w = e /\ exists w', kv_Set NamespaceSystem key doc (version_of e) w = (w', Ok (version_of e + 1))) \/
  (version_of e < version_of (found hash w) /\
   kv_Set NamespaceSystem key doc (version_of e) w = (moved, Err ErrVersionConflict)).
Proof.
  intros He Hv key moved. destruct (interfere_versioned hash w Hv) as [Hf|Hlt]; rewrite He in *.
  - left. split; [done|]. cbn. unfold on_store, store_Set. unfold found in Hf. fold key in Hf.
    destruct (store_Get_write NamespaceSystem key doc (version_of e) (interfere (usr w)) NamespaceSystem key) as [H _];
      [by rewrite Hf|]. destruct (store_write _ _ _ _ _) as [s r]. cbn in H. subst r. by eexists.
  - right. split; [done|]. cbn. unfold on_store, store_Set. rewrite store_write_conflict; [done|].
    unfold found in Hlt. fold key in Hlt. lia.
Qed.

Lemma Delete_conflicted hash e w : held_entry hash w = Some e -> 0 < e_Version e -> others_versioned hash w ->
  let key := groupStateKey a hash in
  let moved := with_usr (mkReplica (interfere (usr w)) (tail (re_moves (usr w))) (re_rest (usr w))) w in
  (found hash w = Some e /\ exists w', kv_Delete NamespaceSystem key (e_Version e) w = (w', Ok tt)) \/
  (e_Version e < version_of (found hash w) /\
   kv_Delete NamespaceSystem key (e_Version e) w = (moved, Err ErrVersionConflict)).
Proof.
  intros He Hp Hv key moved. destruct (interfere_versioned hash w Hv) as [Hf|Hlt]; rewrite He in *.
  - left. split; [done|]. cbn. unfold on_store. unfold found in Hf. fold key in Hf.
    destruct (store_Get_Delete NamespaceSystem key (e_Version e) (interfere (usr w)) NamespaceSystem key) as [H _];
      [rewrite Hf; by right; right|]. destruct (store_Delete _ _ _ _) as [s r]. cbn in H. subst r. by eexists.
  - right. cbn in Hlt. split; [done|]. cbn. unfold on_store. rewrite store_Delete_conflict; [done|].
    unfold found in Hlt. fold key in Hlt. intros [?|[Hn|Hn]]; [lia| |lia]. rewrite Hn in Hlt. cbn in Hlt. lia.
Qed.

Lemma updateIndex_returns mutate w : exists w', updateIndex a mutate w = (w', Ok tt).
Proof.
  unfold updateIndex. generalize aggregateWriteAttempts as attempts. intros attempts. revert w.
  induction attempts as [|attempts IH]; intros w; [by eexists|]. cbn [updateIndex_loop].
  destruct (readIndex a w) as [w1 r] eqn:E1. rewrite (bind_attempt _ _ _ _ _ E1).
  destruct r as [[index version]|]; [|by eexists]. destruct (mutate index) as [index'|]; [|by eexists].
  destruct (writeIndex a index' version w1) as [w2 r] eqn:E2. rewrite (bind_attempt _ _ _ _ _ E2).
  destruct r as [[]|]; [apply IH|by eexists|by eexists].
Qed.

(** A store that lost a race is the others' doing: what they promise still holds. *)
Lemma moved_on hash w : others_versioned hash w -> versions_entry (held_entry hash w) ->
  let moved := with_usr (mkReplica (interfere (usr w)) (tail (re_moves (usr w))) (re_rest (usr w))) w in
  others_versioned hash moved /\ versions_entry (held_entry hash moved) /\ held_entry hash moved = found hash w.
Proof. intros Hv Hp moved. split_and!; [by apply others_tail|by apply (found_versions hash w)|done]. Qed.

Lemma commitOpen_races hash s w : others_versioned hash w -> versions_entry (held_entry hash w) ->
  let e := held_entry hash w in
  match commitOpen a hash e s w with
  | (w', Ok false) => exists doc w3, encode_group s = Ok doc /\ found hash w = e /\
      kv_Set NamespaceSystem (groupStateKey a hash) doc (version_of e) w = (w3, Ok (version_of e + 1)) /\
      trackGroup a hash s w3 = (w', Ok tt)
  | (w', Ok true) => others_versioned hash w' /\ versions_entry (held_entry hash w')
  | (_, Err _) => True
  end.
Proof.
  intros Hv Hp e. unfold commitOpen. destruct (encode_group s) as [doc|err]; [|done]. cbn [wrap_err].
  rewrite (SM_bind_ok (lift (Ok doc)) _ w w doc eq_refl).
  destruct (Set_conflicted hash e doc w eq_refl Hv) as [(Hf & w3 & Hset)|[_ Hset]].
  - rewrite (SM_bind_ok _ _ w w3 false) by (unfold conflicted; by rewrite (bind_attempt _ _ _ _ _ Hset)).
    destruct (updateIndex_returns (track hash s) w3) as [w' Hu]. unfold trackGroup at 1.
    rewrite (SM_bind_ok _ _ _ _ _ Hu). by exists doc, w3.
  - destruct (moved_on hash w Hv Hp) as (Hv' & Hp' & _).
    erewrite (SM_bind_ok _ _ w _ true) by (unfold conflicted; by rewrite (bind_attempt _ _ _ _ _ Hset)). by split.
Qed.

Lemma commitComplete_races hash w : others_versioned hash w -> versions_entry (held_entry hash w) ->
  match held_entry hash w, commitComplete a hash (held_entry hash w) w with
  | None, r => exists w', r = (w', Ok false) /\ forgetGroup a hash w = (w', Ok tt)
  | Some e, (w', Ok false) => found hash w = Some e /\ exists w3,
      kv_Delete NamespaceSystem (groupStateKey a hash) (e_Version e) w = (w3, Ok tt) /\
      forgetGroup a hash w3 = (w', Ok tt)
  | Some _, (w', Ok true) => others_versioned hash w' /\ versions_entry (held_entry hash w')
  | Some _, (_, Err _) => True
  end.
Proof.
  intros Hv Hp. destruct (moved_on hash w Hv Hp) as (Hv' & Hp' & _).
  destruct (held_entry hash w) as [e|] eqn:He; unfold commitComplete.
  - destruct Hp as [|Hp]; [done|].
    destruct (Delete_conflicted hash e w He Hp Hv) as [(Hf & w3 & Hdel)|[_ Hdel]].
    + rewrite (SM_bind_ok _ _ w w3 false) by (unfold conflicted; by rewrite (bind_attempt _ _ _ _ _ Hdel)).
      destruct (updateIndex_returns (forget hash) w3) as [w' Hu]. unfold forgetGroup at 1.
      rewrite (SM_bind_ok _ _ _ _ _ Hu). split; [done|]. by exists w3.
    + erewrite (SM_bind_ok _ _ w _ true) by (unfold conflicted; by rewrite (bind_attempt _ _ _ _ _ Hdel)). by split.
  - rewrite (SM_bind_ok (mret false) _ w w false eq_refl).
    destruct (updateIndex_returns (forget hash) w) as [w' Hu]. unfold forgetGroup at 1.
    rewrite (SM_bind_ok _ _ _ _ _ Hu). by exists w'.
Qed.

Lemma loadGroup_keeps msg key e : keeps_usr (U := replica any R) (loadGroup msg key e).
Proof. unfold loadGroup. keeps_usr. Qed.

Lemma keeps_others hash (w w' : world (replica any R)) : usr w' = usr w ->
  others_versioned hash w -> others_versioned hash w'.
Proof. unfold others_versioned. by intros ->. Qed.
Lemma keeps_held hash (w w' : world (replica any R)) : usr w' = usr w -> held_entry hash w' = held_entry hash w.
Proof. unfold held_entry. by intros ->. Qed.

(** C15: a fold never overwrites.  As long as the other replicas write by version
    and nobody deletes the group, a fold that succeeds, however many races it
    lost first, committed a state that is [applyMessage] of the very entry its
    write replaced: it folded the message onto the entry it read, and its write
    found that entry still there.  A complete group that was never stored has
    nothing to replace. *)
Theorem fold_never_overwrites msg key hash w w' r :
  others_versioned hash w -> versions_entry (held_entry hash w) ->
  foldLocked a msg key hash w = (w', Ok r) -> folded_onto msg key hash r w'.
Proof.
  unfold foldLocked. generalize aggregateWriteAttempts as attempts. intros attempts. revert w.
  induction attempts as [|attempts IH]; intros w Hv Hp; [done|]. cbn [foldLocked_loop]. intros H.
  destruct (moved_on hash w Hv Hp) as (Hv1 & Hp1 & He).
  rewrite (bind_wrapping _ _ _ _ _ _ (Get_run _ _ w)) in H. set (w0 := with_usr _ w) in *. fold (found hash w) in H.
  rewrite <-He in H. apply SM_bind_inv_ok in H as (w1 & s & Hload & H).
  apply SM_bind_inv_ok in H as (w2 & [s' complete] & Happly & H).
  pose proof (loadGroup_keeps msg key (held_entry hash w0) w0) as Hk1. rewrite Hload in Hk1.
  pose proof (applyMessage_keeps (ag_folding a) msg s w1) as Hk2. rewrite Happly in Hk2. cbn [fst] in Hk1, Hk2.
  assert (usr w2 = usr w0) as Hk by congruence. apply SM_bind_inv_ok in H as (w3 & conflict & Hcommit & H).
  rewrite <-(keeps_held hash w0 w2 Hk) in Hload, Hcommit. rewrite <-(keeps_held hash w0 w2 Hk) in Hp1.
  apply (keeps_others hash w0 w2 Hk) in Hv1. unfold wrapping in Hcommit.
  set (commit := match complete with Some _ => _ | None => _ end) in Hcommit.
  destruct (commit w2) as [w4 [b|]] eqn:Ec; [|done]. injection Hcommit as -> ->. subst commit.
  destruct complete as [reason|].
  - pose proof (commitComplete_races hash w2 Hv1 Hp1) as Hr. rewrite Ec in Hr.
    destruct (held_entry hash w2) as [e|] eqn:E.
    + destruct conflict; [destruct Hr; eapply IH; [done|done|exact H]|]. injection H as -> <-.
      exists (Some e), w0, w1, w2, s, s', (Some reason). by split_and!; try apply Hr.
    + destruct Hr as (w5 & [= <- ->] & Hr). injection H as -> <-. by exists None, w0, w1, w2, s, s', (Some reason).
  - pose proof (commitOpen_races hash s' w2 Hv1 Hp1) as Hr. cbn zeta in Hr. rewrite Ec in Hr.
    destruct conflict; [destruct Hr; eapply IH; [done|done|exact H]|]. injection H as -> <-.
    exists (held_entry hash w2), w0, w1, w2, s, s', None. by split_and!.
Qed.
End contend.

(** ** Overflow *)

(** Older first; between equals, the smaller hash: a total order. *)
Definition before (x y : string * Z) : Prop :=
  x.2 < y.2 \/ (x.2 = y.2 /\ (x.1 = y.1 \/ String.ltb x.1 y.1 = true)).

Lemma ltb_lt x y : String.ltb x y = true <-> String_as_OT.lt x y.
Proof.
  rewrite <-String_as_OT.cmp_lt. change (String_as_OT.cmp x y) with (String.compare x y).
  unfold String.ltb. by destruct (String.compare x y).
Qed.
Lemma ltb_total x y : String.ltb x y = false -> x = y \/ String.ltb y x = true.
Proof.
  unfold String.ltb. rewrite (String.compare_antisym y x). destruct (String.compare x y) eqn:E; cbn; [|done|by right].
  left. by apply String.compare_eq_iff.
Qed.
Lemma before_refl x : before x x.
Proof. right. split; [done|by left]. Qed.
Lemma before_trans x y z : before x y -> before y z -> before x z.
Proof.
  unfold before. intros [?|[? [Hxy|Hxy]]] [?|[? [Hyz|Hyz]]]; try (left; lia); right; (split; [lia|]).
  - left. congruence.
  - right. congruence.
  - right. congruence.
  - right. apply ltb_lt. eapply String_as_OT.lt_trans; by apply ltb_lt.
Qed.

Lemma older_before best kv : best.1 ≠ "" -> kv.1 ≠ "" ->
  let entry := (kv.1, ge_FirstAt kv.2) in
  (older best kv = best \/ older best kv = entry) /\ before (older best kv) best /\ before (older best kv) entry.
Proof.
  destruct best as [oldest firstAt], kv as [hash entry]. cbn. intros Hb Hk. rewrite (proj2 (String.eqb_neq _ _) Hb). cbn.
  destruct (Z.ltb_spec (ge_FirstAt entry) firstAt) as [Hlt|Hge]; cbn.
  { split_and!; [by right|by left|apply before_refl]. }
  destruct (Z.eqb_spec (ge_FirstAt entry) firstAt) as [Heq|Hne]; cbn.
  - destruct (String.ltb hash oldest) eqn:E; cbn.
    + split_and!; [by right|right; cbn; by auto|apply before_refl].
    + split_and!; [by left|apply before_refl|]. right. cbn. split; [done|].
      destruct (ltb_total _ _ E); auto.
  - split_and!; [by left|apply before_refl|left; cbn; lia].
Qed.

Lemma oldest_of entries best : best.1 ≠ "" -> (forall kv, kv ∈ entries -> kv.1 ≠ "") ->
  let victim := foldl older best entries in
  (victim = best \/ exists kv, kv ∈ entries /\ victim = (kv.1, ge_FirstAt kv.2)) /\ before victim best /\
  forall kv, kv ∈ entries -> before victim (kv.1, ge_FirstAt kv.2).
Proof.
  revert best. induction entries as [|kv entries IH]; intros best Hb Hall; cbn [foldl].
  { split_and!; [by left|apply before_refl|by intros kv ?%elem_of_nil]. }
  assert (kv.1 ≠ "") as Hk by (apply Hall; left).
  destruct (older_before best kv Hb Hk) as (Hor & H1 & H2).
  destruct (IH (older best kv)) as (Hv & H3 & H4).
  { by destruct Hor as [->| ->]. }
  { intros kv' Hin. apply Hall. by right. }
  split_and!.
  - destruct Hv as [->|(kv' & Hin & ->)]; [|right; exists kv'; split; [by right|done]].
    destruct Hor as [->| ->]; [by left|right; exists kv; split; [left|done]].
  - by eapply before_trans.
  - intros kv' [->|Hin]%elem_of_cons; [by eapply before_trans|by apply H4].
Qed.

Section overflow.
Context {U : Type} `{HKV : !KV any U} `{HL : !KVLaws any U} (a : aggregate U).

(** The group an overflow completes is the oldest one, whatever order Go
    ranges over the index in: the slot taken exists, no slot was opened before
    it, and among slots opened at the same instant its hash is the least.  An
    empty index has no victim. *)
Theorem oldest_is_oldest (index : groupIndex) :
  (forall entries, ag_order a entries ≡ₚ entries) -> index !! "" = None ->
  match index !! oldest a index with
  | Some victim => forall hash entry, index !! hash = Some entry ->
      before (oldest a index, ge_FirstAt victim) (hash, ge_FirstAt entry)
  | None => index = ∅ /\ oldest a index = ""
  end.
Proof.
  intros Hord Hne. unfold oldest. pose proof (Hord (map_to_list index)) as Hp.
  assert (forall kv, kv ∈ ag_order a (map_to_list index) <-> index !! kv.1 = Some kv.2) as Hin.
  { intros [h e]. rewrite Hp. apply (elem_of_map_to_list (M := gmap string)). }
  destruct (ag_order a (map_to_list index)) as [|[h e] entries] eqn:E.
  - apply Permutation_nil_l, eq_sym in Hp. apply (map_to_list_empty_iff (M := gmap string)) in Hp.
    cbn. rewrite Hne. done.
  - assert (h ≠ "") as Hh by (intros ->; specialize (Hin ("", e)); cbn in Hin; rewrite Hne in Hin; destruct Hin as [Hin _];
      by specialize (Hin (list_elem_of_here _ _))).
    cbn [foldl older]. change (String.eqb "" "") with true. cbn [orb].
    destruct (oldest_of entries (h, ge_FirstAt e)) as (Hv & H1 & H2); [done| |].
    { intros [h' e'] Hin' Hx. cbn in Hx. subst h'. specialize (Hin ("", e')). cbn in Hin. rewrite Hne in Hin.
      destruct Hin as [Hin _]. by specialize (Hin (list_elem_of_further _ _ _ Hin')). }
    set (victim := foldl older (h, ge_FirstAt e) entries) in *.
    assert (exists v, index !! victim.1 = Some v /\ ge_FirstAt v = victim.2) as (v & Hl & Hf).
    { destruct Hv as [->|([h' e'] & Hin' & ->)].
      - exists e. split; [|done]. apply (Hin (h, e)). left.
      - exists e'. split; [|done]. apply (Hin (h', e')). by right. }
    rewrite Hl, Hf. intros hash entry Hget. rewrite <-surjective_pairing. apply (Hin (hash, entry)) in Hget.
    apply elem_of_cons in Hget as [[= -> ->]|Hget]; [done|]. by apply (H2 (hash, entry)).
Qed.

(** A full block follows its policy.  A message that would open one group
    too many changes nothing in the store: under [fail] it is an error that
    names the cap, under [drop] it is dropped, under [complete] the oldest
    group is released and the slot is tried for again. *)
Theorem full_block_follows_policy msg key w index :
  let hash := hashedKey key in
  calm (usr w) -> index_of a (usr w) index -> index !! hash = None -> ag_maxGroups a <= Z.of_nat (size index) ->
  exists w1, quietly w w1 /\ only_index a (usr w) (usr w1) /\ index_of a (usr w1) index /\
    if String.eqb (ag_onOverflow a) aggregateOverflowDrop then foldMessage a msg key w = (w1, Ok true)
    else if String.eqb (ag_onOverflow a) aggregateOverflowComplete then
      exists w2, quietly w w2 /\ index_of a (usr w2) index /\
        reserve a hash w = (releaseOldest a index ≫= fun _ => reserve_loop a 4 hash) w2
    else foldMessage a msg key w =
      (w1, Err (ErrMsg ("aggregate: " ++ itoa (ag_maxGroups a) ++ " groups open (maxGroups); raise maxGroups, "
                        ++ "narrow the correlation, or set onOverflow"))).
Proof.
  intros hash Hc Hi Hnone Hfull. destruct (claimSlot_calm a hash w index Hc Hi) as (w1 & Ho & H). rewrite Hnone in H.
  rewrite (proj2 (Z.leb_le _ _) Hfull) in H. destruct H as (Hclaim & Hq & Hi1). exists w1. split_and!; [done..|].
  assert (forall A (f : bool * bool -> M U A), (reserve a hash ≫= f) w =
    ((admitted ← overflow a; if negb admitted then mret (false, false) else reserve_loop a 4 hash) ≫= f) w1) as Hres.
  { intros A f. unfold reserve, aggregateWriteAttempts. cbn [reserve_loop].
    unfold mbind, M_bind, SM_bind. by rewrite Hclaim. }
  destruct (String.eqb_spec (ag_onOverflow a) aggregateOverflowDrop) as [Hd|Hd];
    [|destruct (String.eqb_spec (ag_onOverflow a) aggregateOverflowComplete) as [Hcp|Hcp]].
  - unfold foldMessage. fold hash. rewrite Hres. unfold overflow. by rewrite Hd.
  - assert (calm (usr w1)) as Hc1 by apply Hq. destruct (readIndex_calm a w1 index Hc1 Hi1) as (w2 & Hr & Hq2 & Hk).
    exists w2. split_and!; [by eapply quietly_trans|by unfold index_of in *; rewrite Hk|].
    unfold reserve, aggregateWriteAttempts. cbn [reserve_loop]. rewrite (SM_bind_ok _ _ _ _ _ Hclaim). cbn [negb].
    unfold overflow. rewrite (proj2 (String.eqb_neq _ _) Hd), (proj2 (String.eqb_eq _ _) Hcp).
    unfold mbind, M_bind, SM_bind. rewrite Hr. by destruct (releaseOldest a index w2) as [w3 [[]|]].
  - unfold foldMessage. fold hash. rewrite Hres. unfold overflow.
    by rewrite (proj2 (String.eqb_neq _ _) Hd), (proj2 (String.eqb_neq _ _) Hcp).
Qed.
End overflow.

(** ** Races, concretely *)

(** Every write through the store goes by versions. *)
Lemma versioned_Set key k v expected : versioned key (fun s => (store_Set NamespaceSystem k v expected s).1).
Proof.
  intros s. unfold store_Set. destruct (decide (expected = version_of (store_Get NamespaceSystem k s))) as [He|He].
  - destruct (store_Get_write NamespaceSystem k v expected s NamespaceSystem key He) as [_ H]. rewrite H.
    case_decide as Hk; [|by left]. right. destruct Hk as [_ ->]. rewrite He. cbn. lia.
  - left. by rewrite store_write_conflict.
Qed.

(** The first message of a group of two is folded here while another replica
    stores it first. *)
Definition rival_group : groupState := mkGroup "g" 1 2 (AArr [AStr "first"]) "" "" 7 7 0.
Definition rival : store any -> store any := fun s =>
  (store_Set NamespaceSystem (groupStateKey sample_aggregate "h")
     (match encode_group rival_group with Ok doc => doc | Err _ => ANil end) 0 s).1.
Definition raced_world : world (replica any unit) := sample_world [id; rival].

Lemma raced_fold :
  (foldLocked sample_aggregate 0 "g" "h" raced_world).2 =
    Ok (Some (mkGroup "g" 2 2 (AArr [AStr "first"; AStr "x"]) "" "" 7 3 0, aggregateReasonSize)).
Proof. vm_compute. reflexivity. Qed.

Lemma fold_never_overwrites_witness :
  exists w' r, foldLocked sample_aggregate 0 "g" "h" raced_world = (w', Ok (Some r)) /\
    g_Acc r.1 = AArr [AStr "first"; AStr "x"] /\ folded_onto sample_aggregate 0 "g" "h" (Some r) w'.
Proof.
  pose proof raced_fold as H. destruct (foldLocked sample_aggregate 0 "g" "h" raced_world) as [w' res] eqn:E.
  cbn [snd] in H. subst res. exists w'. eexists. split; [reflexivity|]. split; [reflexivity|].
  refine (fold_never_overwrites sample_aggregate 0 "g" "h" raced_world w' _ _ _ E).
  - apply Forall_cons. split; [by intros ?; left|]. apply Forall_cons. split; [apply versioned_Set|by apply Forall_nil].
  - by left.
Defined.

Lemma oldest_is_oldest_witness :
  let index : groupIndex := {[ "b" := mkGroupEntry 5 0; "a" := mkGroupEntry 5 0; "c" := mkGroupEntry 9 0 ]} in
  oldest sample_aggregate index = "a" /\ before ("a", 5) ("b", 5).
Proof.
  intros index. split; [vm_compute; reflexivity|].
  pose proof (oldest_is_oldest sample_aggregate index (fun _ => Permutation_refl _) eq_refl) as H.
  exact (H "b" (mkGroupEntry 5 0) eq_refl).
Defined.

(** A block that holds no more groups refuses the message. *)
Definition full_store : store any :=
  (store_Set NamespaceSystem (indexKey sample_aggregate) (encode_index {[ "h" := mkGroupEntry 1 0 ]}) 0
     (mkStore ∅ ∅ None false)).1.
Definition full_world : world (replica any unit) :=
  with_usr (mkReplica full_store [] tt) (sample_world []).

Lemma full_block_follows_policy_witness :
  exists w', foldMessage sample_aggregate 0 "g" full_world = (w', Err (ErrMsg
    "aggregate: 1 groups open (maxGroups); raise maxGroups, narrow the correlation, or set onOverflow")) /\
    index_of sample_aggregate (usr w') {[ "h" := mkGroupEntry 1 0 ]}.
Proof.
  destruct (full_block_follows_policy sample_aggregate 0 "g" full_world {[ "h" := mkGroupEntry 1 0 ]})
    as (w' & _ & _ & Hi & H).
  - reflexivity.
  - vm_compute. reflexivity.
  - vm_compute. reflexivity.
  - vm_compute. discriminate.
  - exists w'. by split.
Defined.

(** ** What versions do not protect from *)

Section gone.
Context {R : Type} (a : aggregate (replica any R)).

(** Two replicas can both complete a group.  Deleting a key that is gone
    succeeds at any version, so two replicas that
    read the same group both take it: the delete that is meant to arbitrate
    between them never refuses the second. *)
Theorem completed_twice hash e s rest (w : world (replica any R)) :
  let key := groupStateKey a hash in
  re_moves (usr w) = id :: (fun st => (store_Delete NamespaceSystem key (e_Version e) st).1) :: rest ->
  store_Get NamespaceSystem key (re_store (usr w)) = Some e ->
  decode_group (mkGroup "" 0 0 ANil "" "" 0 0 0) (e_Value e) = Ok s ->
  exists w', takeStored a hash w = (w', Ok (Some s)).
Proof.
  intros key Hm Hg Hdec. unfold takeStored. fold key.
  assert (interfere (usr w) = re_store (usr w)) as Hcalm by (unfold interfere; by rewrite Hm).
  rewrite (bind_wrapping _ _ _ _ _ _ (Get_run _ _ w)). rewrite !Hcalm, Hg.
  set (w1 := with_usr _ w). rewrite Hdec. cbn [wrap_err]. rewrite (SM_bind_ok (lift (Ok s)) _ w1 w1 s eq_refl).
  assert (exists w2, kv_Delete NamespaceSystem key (e_Version e) w1 = (w2, Ok tt)) as [w2 Hdel].
  { cbn. unfold on_store, interfere. cbn. rewrite Hm. cbn [tail].
    destruct (store_Get_Delete NamespaceSystem key (e_Version e) (re_store (usr w)) NamespaceSystem key) as [_ H];
      [rewrite Hg; by right; right|]. rewrite decide_True in H by done.
    set (st := (store_Delete NamespaceSystem key (e_Version e) (re_store (usr w))).1) in *.
    unfold store_Delete at 1. unfold store_Get in H. rewrite H. by eexists. }
  rewrite (SM_bind_ok _ _ w1 w2 false) by (unfold conflicted; by rewrite (bind_attempt _ _ _ _ _ Hdel)).
  destruct (updateIndex_returns a (forget hash) w2) as [w' Hu]. exists w'. unfold forgetGroup.
  by rewrite (SM_bind_ok _ _ _ _ _ Hu).
Qed.
End gone.

(** The rival takes the group between the read and the delete. *)
Definition rival_doc : any := match encode_group rival_group with Ok doc => doc | Err _ => ANil end.
Definition taken_world : world (replica any unit) :=
  with_usr (mkReplica (store_Set NamespaceSystem (groupStateKey sample_aggregate "h") rival_doc 0 (mkStore ∅ ∅ None false)).1
    [id; fun st => (store_Delete NamespaceSystem (groupStateKey sample_aggregate "h") 1 st).1] tt) (sample_world []).

Lemma completed_twice_witness :
  (exists st, store_Delete NamespaceSystem (groupStateKey sample_aggregate "h") 1 (re_store (usr taken_world)) = (st, Ok tt)) /\
  exists w', takeStored sample_aggregate "h" taken_world = (w', Ok (Some rival_group)).
Proof.
  split; [eexists; vm_compute; reflexivity|].
  apply (completed_twice sample_aggregate "h" (mkEntry rival_doc 1) rival_group []).
  - reflexivity.
  - vm_compute. reflexivity.
  - destruct (encode_group_round_trip rival_group) as (doc & Hd & Hdec); [done| |].
    + pose proof json_max_depth_large. cbn. lia.
    + unfold rival_doc. rewrite Hd. apply (Hdec "" 0).
Defined.

(** A version is not monotonic across a delete: the object made next has
    version 1 again, and a writer that still holds an earlier entry's version
    overwrites it. *)
Theorem version_restarts {V} (s : store V) n k v old e :
  store_Get n k s = Some e -> e_Version e = 1 ->
  let s1 := (store_Delete n k 1 s).1 in
  let s2 := (store_Set n k v 0 s1).1 in
  store_Get n k s2 = Some (mkEntry v 1) /\ (store_Set n k old (e_Version e) s2).2 = Ok 2.
Proof.
  intros Hg Hv s1 s2. destruct (store_Get_Delete n k 1 s n k) as [_ H1]; [rewrite Hg; right; right; cbn; lia|].
  rewrite decide_True in H1 by done. fold s1 in H1.
  destruct (store_Get_write n k v 0 s1 n k) as [_ H2]; [by rewrite H1|]. rewrite decide_True in H2 by done.
  change (store_Get n k s2 = Some (mkEntry v 1)) in H2. split; [done|]. rewrite Hv.
  apply (store_Get_write n k old 1 s2 n k). by rewrite H2.
Qed.
