(* ===== verification/Cache.v ===== *)
(** The cache blocks: [blocks/controlflow/cache.go].

    cache-scope runs its body flow and keeps the body of the message that comes
    out, under a key and a deadline; invalidate-cache evicts it.  Both are
    written against the key-value interface. *)
From S2P Require Import Prelude GoStr F64 GoTime Message Config Store BlockPath Expr Engine Debug Builder Composites.
From S2P Require Import Split Sha256 KV Group Aggregate Folding.
From Stdlib Require Import String.
#[local] Open Scope string_scope.
#[local] Open Scope Z_scope.

Definition blockKindCacheScope : string := "cache-scope".
Definition blockKindInvalidateCache : string := "invalidate-cache".
Definition defaultCacheTTL : Z := 60 * Second.

(** A body that the document lacks is [None]: no bytes at all. *)
Record cacheEnvelope : Type := mkEnvelope { ce_ExpiresAt : Z; ce_Body : option any }.

Definition encode_envelope (env : cacheEnvelope) : res any :=
  match ce_Body env with
  | Some body => if parseable body then Ok (AMap {[ "expiresAt" := AInt (ce_ExpiresAt env); "body" := body ]})
                 else Err json_too_deep
  | None => Ok (AMap {[ "expiresAt" := AInt (ce_ExpiresAt env); "body" := ANil ]})
  end.

Definition decode_envelope (doc : any) : res cacheEnvelope :=
  if negb (parseable doc) then Err json_too_deep
  else match doc with
  | ANil => Ok (mkEnvelope 0 None)
  | AMap m => expires ← json_int (m !! "expiresAt"); mret (mkEnvelope expires (m !! "body"))
  | v => json_mismatch v "controlflow.cacheEnvelope"
  end.

Definition cacheKey (raw : string) : string := hashedKey raw.

(** [types/message.go]: the body as JSON, and back. *)
Definition BodyJSON (m : Message) : res any := wrap_err "encode body: " (marshal (Body m)).
Definition SetBodyJSON (raw : any) (m : Message) : res Message :=
  if parseable raw then Ok (SetBody (json_norm raw) m) else Err (ErrWrap "decode body: " json_too_deep "").

Definition resolveCacheTTL (raw : string) : res Z :=
  if String.eqb raw "" then Ok defaultCacheTTL
  else
    ttl ← wrap_err ("cache-scope ttl " ++ quote raw ++ ": ") (ParseDuration raw);
    if ttl <? 0 then Err (ErrMsg ("cache-scope ttl " ++ quote raw ++ " must not be negative")) else Ok ttl.

Section cache.
Context {U : Type} `{!KV any U}.

(** [cs_render] is [EvalString]'s rendering of a result that is no string. *)
Record cacheScope : Type := mkCacheScope {
  cs_body : processor U;
  cs_key : Program;
  cs_ttl : Z;
  cs_render : any -> string;
}.

(** The clock is read only for an envelope that can expire. *)
Definition decodeFreshEnvelope (value : any) : M U (option any) :=
  match decode_envelope value with
  | Err _ => mret None
  | Ok env =>
      if ce_ExpiresAt env =? 0 then mret (ce_Body env)
      else t ← now; mret (if ce_ExpiresAt env <=? t then None else ce_Body env)
  end.

Definition cache_store (c : cacheScope) (key : string) (expectedVersion : Z) (out : nat) : M U unit :=
  m ← load out;
  match BodyJSON m with
  | Err _ => mret tt
  | Ok body =>
      expires ← (if 0 <? cs_ttl c then t ← now; mret (wrap64 (t + cs_ttl c)) else mret 0);
      match encode_envelope (mkEnvelope expires (Some body)) with
      | Err _ => mret tt
      | Ok encoded => attempt (kv_Set NamespaceUserVolatile key encoded expectedVersion) ≫= fun _ => mret tt
      end
  end.

(** Whether the message was replayed from the cache. *)
Definition replay (msg : nat) (entry : res (option (Entry any))) : M U bool :=
  match entry with
  | Ok (Some e) =>
      cached ← decodeFreshEnvelope (e_Value e);
      match cached with
      | None => mret false
      | Some cached =>
          m ← load msg;
          match SetBodyJSON cached m with
          | Err _ => mret false
          | Ok m => update msg (fun _ => m) ≫= fun _ => mret true
          end
      end
  | _ => mret false
  end.

Definition cacheScope_Process (c : cacheScope) : processor U := fun msg =>
  m ← load msg;
  keyValue ← lift (wrap_err "cache-scope key: " (EvalString (cs_render c) (cs_key c) m));
  let key := cacheKey keyValue in
  entry ← attempt (kv_Get NamespaceUserVolatile key);
  hit ← replay msg entry;
  if (hit : bool) then mret (Some msg)
  else
    out ← cs_body c msg;
    match out with
    | None => mret None
    | Some out =>
        m ← load out;
        if StopRequested m then mret (Some out)
        else cache_store c key (match entry with Ok e => version_of e | Err _ => 0 end) out ≫= fun _ => mret (Some out)
    end.

Definition invalidateCache_Process (render : any -> string) (key : Program) : processor U := fun msg =>
  m ← load msg;
  keyValue ← lift (wrap_err "invalidate-cache key: " (EvalString render key m));
  wrapping ("invalidate-cache " ++ quote keyValue ++ ": ") (kv_Delete NamespaceUserVolatile (cacheKey keyValue) 0) ≫= fun _ =>
  mret (Some msg).

(** ** The factories *)
Definition newCacheScope (render : any -> string) (raw : Settings) (deps : BlockDeps U) : res (object U) :=
  '(key, ttl, body) ← DecodeStrict ["key"; "ttl"; "body"] (fun m =>
    k ← json_string (m !! "key");
    t ← json_string (m !! "ttl");
    f ← json_ptr decode_flow (m !! "body");
    mret (k, t, f)) raw;
  match body with
  | None => Err (ErrMsg "cache-scope block requires a body flow")
  | Some body =>
      if String.eqb key "" then Err (ErrMsg "cache-scope block requires a key expression")
      else
        flows ← SubFlowsOf deps;
        program ← d_Compile deps key;
        ttl ← resolveCacheTTL ttl;
        branch ← wrap_err "cache-scope body: " (Branch flows BranchBody body);
        mret (leaf (cacheScope_Process (mkCacheScope branch program ttl render)))
  end.

Definition newInvalidateCache (render : any -> string) (raw : Settings) (deps : BlockDeps U) : res (object U) :=
  key ← decode_settings (json_string (raw !! "key"));
  if String.eqb key "" then Err (ErrMsg "invalidate-cache requires a key expression")
  else program ← d_Compile deps key; mret (leaf (invalidateCache_Process render program)).
End cache.
Arguments cacheScope : clear implicits.

(** * Lemmas *)
Lemma decode_encode_envelope expires body :
  (nesting body < json_max_depth)%nat ->
  exists doc, encode_envelope (mkEnvelope expires (Some body)) = Ok doc /\
    decode_envelope doc = Ok (mkEnvelope expires (Some body)).
Proof.
  intros Hn. unfold encode_envelope. cbn [ce_Body ce_ExpiresAt].
  assert (parseable body = true) as -> by (apply Nat.leb_le; lia). eexists. split; [reflexivity|].
  unfold decode_envelope. rewrite (nesting_group_doc body).
  - cbn [negb]. rewrite lookup_insert_eq, lookup_insert_ne, lookup_singleton_eq by done. done.
  - intros k v [[_ <-]|[_ [_ <-]%lookup_singleton_Some]]%lookup_insert_Some; [by right|by left].
  - lia.
Qed.

Section memo.
Context {U : Type} `{HKV : !KV any U} `{HL : !KVLaws any U} (c : cacheScope U).

(** Nothing but the body of the message and the store was touched. *)
Definition replayed (msg : nat) (body : any) (w w' : world U) : Prop :=
  heap w' = <[ msg := SetBody body (peek w msg) ]> (heap w) /\ next w' = next w /\ idn w' = idn w /\
  (clk w <= clk w' <= S (clk w))%nat /\ same_rest (usr w) (usr w') /\ calm (usr w') /\
  forall n k, contents (usr w') n k = contents (usr w) n k.

Definition keyed (k : string) (w : world U) (msg : nat) : Prop :=
  EvalString (cs_render c) (cs_key c) (peek w msg) = Ok k.

(** An entry that a run at [w] would still take. *)
Definition fresh_at (expires : Z) (w : world U) : Prop := expires = 0 \/ times w (clk w) < expires.

(** A fresh entry answers, whatever the body flow would have done. *)
Lemma fresh_hit k msg w v doc expires body :
  keyed k w msg -> calm (usr w) -> contents (usr w) NamespaceUserVolatile (cacheKey k) = Some (mkEntry doc v) ->
  decode_envelope doc = Ok (mkEnvelope expires (Some body)) -> fresh_at expires w -> parseable body = true ->
  exists w', cacheScope_Process c msg w = (w', Ok (Some msg)) /\ replayed msg (json_norm body) w w'.
Proof.
  intros Hk Hc He Hd Hf Hp. destruct (law_Get NamespaceUserVolatile (cacheKey k) w Hc) as (u & Hget & Hcon & Hr & Hc').
  rewrite He in Hget. unfold cacheScope_Process.
  rewrite (SM_bind_ok (load msg) _ w w (peek w msg) eq_refl). unfold keyed in Hk. rewrite Hk. cbn [wrap_err].
  rewrite (SM_bind_ok (lift (Ok k)) _ w w k eq_refl). cbv zeta. rewrite (bind_attempt _ _ _ _ _ Hget).
  set (w1 := with_usr u w).
  assert (exists w2, (decodeFreshEnvelope doc : M U _) w1 = (w2, Ok (Some body)) /\
    heap w2 = heap w /\ next w2 = next w /\ idn w2 = idn w /\ (clk w <= clk w2 <= S (clk w))%nat /\ usr w2 = u)
    as (w2 & Hfresh & Hh & Hn & Hi & Hclk & Hu).
  { unfold decodeFreshEnvelope. rewrite Hd. cbn [ce_ExpiresAt ce_Body].
    destruct (Z.eqb_spec expires 0); [exists w1; split_and!; cbn; (done || lia)|].
    exists (now w1).1. destruct Hf as [Hf|Hf]; [done|].
    split_and!; try (cbn; (done || lia)). rewrite (SM_bind_ok now _ w1 (now w1).1 (times w (clk w)) eq_refl).
    destruct (Z.leb_spec expires (times w (clk w))); [lia|done]. }
  exists (update msg (fun _ => SetBody (json_norm body) (peek w2 msg)) w2).1. split.
  - rewrite (SM_bind_ok (replay msg _) _ w1 (update msg (fun _ => SetBody (json_norm body) (peek w2 msg)) w2).1 true); [done|].
    unfold replay. cbn [e_Value]. rewrite (SM_bind_ok _ _ _ _ _ Hfresh).
    rewrite (SM_bind_ok (load msg) _ w2 w2 (peek w2 msg) eq_refl). unfold SetBodyJSON. by rewrite Hp.
  - assert (peek w2 msg = peek w msg) as Hpk by (unfold peek; by rewrite Hh).
    unfold replayed. cbn. rewrite Hpk, Hh, Hn, Hi, Hu. split_and!; (done || lia).
Qed.

(** A run that finds nothing runs the body flow on the message as it came. *)
Lemma cold_miss k msg w :
  keyed k w msg -> calm (usr w) -> contents (usr w) NamespaceUserVolatile (cacheKey k) = None ->
  exists u, calm u /\ same_rest (usr w) u /\ (forall n k', contents u n k' = contents (usr w) n k') /\
    cacheScope_Process c msg w = (cs_body c msg ≫= fun out =>
      match out with
      | None => mret None
      | Some out => m ← load out; if StopRequested m then mret (Some out)
                    else cache_store c (cacheKey k) 0 out ≫= fun _ => mret (Some out)
      end) (with_usr u w).
Proof.
  intros Hk Hc He. destruct (law_Get NamespaceUserVolatile (cacheKey k) w Hc) as (u & Hget & Hcon & Hr & Hc').
  rewrite He in Hget. exists u. split_and!; [done..|]. unfold cacheScope_Process.
  rewrite (SM_bind_ok (load msg) _ w w (peek w msg) eq_refl). unfold keyed in Hk. rewrite Hk. cbn [wrap_err].
  rewrite (SM_bind_ok (lift (Ok k)) _ w w k eq_refl). cbv zeta. by rewrite (bind_attempt _ _ _ _ _ Hget).
Qed.

(** The deadline an entry written at [w] gets. *)
Definition deadline_at (w : world U) : Z := if 0 <? cs_ttl c then wrap64 (times w (clk w) + cs_ttl c) else 0.

Lemma cache_store_fresh key out w :
  calm (usr w) -> contents (usr w) NamespaceUserVolatile key = None ->
  encodable (Body (peek w out)) = true -> (nesting (Body (peek w out)) < json_max_depth)%nat ->
  exists w' doc, cache_store c key 0 out w = (w', Ok tt) /\ heap w' = heap w /\ next w' = next w /\
    calm (usr w') /\ same_rest (usr w) (usr w') /\
    contents (usr w') NamespaceUserVolatile key = Some (mkEntry doc 1) /\
    decode_envelope doc = Ok (mkEnvelope (deadline_at w) (Some (Body (peek w out)))).
Proof.
  intros Hc Hn He Hd. set (body := Body (peek w out)) in *.
  destruct (decode_encode_envelope (deadline_at w) body Hd) as (doc & Henc & Hdec).
  set (w1 := if 0 <? cs_ttl c then (now w).1 else w).
  assert (calm (usr w1) /\ usr w1 = usr w /\ heap w1 = heap w /\ next w1 = next w) as (Hc1 & Hu1 & Hh1 & Hn1)
    by (unfold w1; by destruct (0 <? cs_ttl c)).
  destruct (law_Set NamespaceUserVolatile key doc 0 w1 Hc1) as (u & Hr & Hc' & H).
  rewrite Hu1, Hn in H. rewrite decide_True in H by done. destruct H as [Hset Hcon].
  exists (with_usr u w1), doc. split_and!; [|done|done|done|by rewrite <-Hu1| |done].
  - unfold cache_store. rewrite (SM_bind_ok (load out) _ w w (peek w out) eq_refl).
    unfold BodyJSON, marshal. fold body. rewrite He. cbn [wrap_err].
    rewrite (SM_bind_ok _ _ w w1 (deadline_at w)) by (unfold w1, deadline_at; by destruct (0 <? cs_ttl c)).
    rewrite Henc. by rewrite (bind_attempt _ _ _ _ _ Hset).
  - cbn. by rewrite Hcon, decide_True.
Qed.

End memo.

(** A scope over a flow that answers "result", and one minute. *)
Definition sample_scope : cacheScope (replica any unit) :=
  mkCacheScope (fun l => update l (SetBody (AStr "result")) ≫= fun _ => mret (Some l)) (fun _ => Ok (AStr "k")) defaultCacheTTL
    (fun _ => "").

