(* ===== verification/Persist.v ===== *)
(** How the standalone store reaches the disk: [services/standalone/kv.go]
    (flusher, flush, close) and [services/standalone/persist.go].

    The store, its directory and the goroutine that flushes are one transition
    system: clients write at any time, the disk may refuse, and [close] may be
    called at any time. *)
From S2P Require Import Prelude GoStr Message Store KV.
From Stdlib Require Import String Ascii.
#[local] Open Scope string_scope.
#[local] Open Scope Z_scope.

(** ** File names *)
Definition snapshotExt : string := ".gob".

Definition isPlainNameByte (c : ascii) : bool :=
  let n := code c in
  ((97 <=? n) && (n <=? 122)) || ((65 <=? n) && (n <=? 90)) || ((48 <=? n) && (n <=? 57)) || (n =? 95) || (n =? 45).

(** ["0123456789ABCDEF"[z]]. *)
Definition upper_hex (z : Z) : ascii := ascii_of_nat (Z.to_nat (if z <? 10 then 48 + z else 55 + z)).

Fixpoint encodeName (namespace : string) : string :=
  match namespace with
  | EmptyString => ""
  | String c rest =>
      if isPlainNameByte c then String c (encodeName rest)
      else String "%" (String (upper_hex (Z.shiftr (code c) 4)) (String (upper_hex (Z.land (code c) 15)) (encodeName rest)))
  end.

(** One digit of [strconv.ParseUint(_, 16, 8)]. *)
Definition hex_value (c : ascii) : option Z :=
  let n := code c in
  if (48 <=? n) && (n <=? 57) then Some (n - 48)
  else if (65 <=? n) && (n <=? 70) then Some (n - 55)
  else if (97 <=? n) && (n <=? 102) then Some (n - 87)
  else None.

Fixpoint decodeName (name : string) : string :=
  match name with
  | EmptyString => ""
  | String c rest =>
      if Ascii.eqb c "%" then
        match rest with
        | String a (String b rest') =>
            match hex_value a, hex_value b with
            | Some x, Some y => String (ascii_of_nat (Z.to_nat (16 * x + y))) (decodeName rest')
            | _, _ => String c (decodeName rest)
            end
        | _ => String c (decodeName rest)
        end
      else String c (decodeName rest)
  end.

(** ** The directory *)

(** The files of the directory, by name; [None] is one that cannot be read or
    decoded.  gob is a faithful encoding of a namespace. *)
Abbreviation files V := (gmap string (option (gmap string (Entry V)))).

Section persist.
Context {V : Type}.
Abbreviation keys := (gmap string (Entry V)).

Definition file_name (namespace : string) : string := encodeName namespace ++ snapshotExt.

(** [os.ReadDir] sorts by name; of two files that decode to one namespace the
    later wins. *)
Definition load_file (fs : files V) (out : gmap string keys) (name : string) : gmap string keys :=
  if negb (HasSuffix name snapshotExt) then out
  else match fs !! name with
       | Some (Some ks) => <[ decodeName (TrimSuffix name snapshotExt) := ks ]> out
       | _ => out
       end.
Definition snapshot_load (fs : files V) : gmap string keys :=
  foldl (load_file fs) ∅ (sort_strings (map_to_list fs).*1).

(** What the disk does with a write: it may fail before the file is replaced,
    or after, when the directory is flushed. *)
Inductive disk : Type := Written | FailedBefore | FailedAfter.
#[global] Instance disk_eq_dec : EqDecision disk.
Proof. solve_decision. Defined.

Definition snapshot_write (d : disk) (namespace : string) (ks : keys) (fs : files V) : files V * bool :=
  let fs' := if decide (ks = ∅) then delete (file_name namespace) fs else <[ file_name namespace := Some ks ]> fs in
  match d with
  | Written => (fs', true)
  | FailedBefore => (fs, false)
  | FailedAfter => (fs', false)
  end.

Definition newStore (dir : string) (fs : files V) : store V :=
  mkStore (match newSnapshot dir with Some _ => snapshot_load fs | None => ∅ end) ∅ (newSnapshot dir) false.

(** ** The flusher *)

(** Where the flusher is: waiting for a nudge, letting a burst pass, or writing;
    gone once [done] was closed, after which [close] writes what is left. *)
Inductive phase : Type := Waiting | Delaying | Flushing | Exited | Closing | Closed.
#[global] Instance phase_eq_dec : EqDecision phase.
Proof. solve_decision. Defined.

Record system : Type := mkSystem {
  sy_store : store V;
  sy_files : files V;
  sy_phase : phase;
  sy_pending : gmap string keys;    (** gathered by flush, not written yet *)
  sy_done : bool;                   (** [done] is closed *)
}.

(** The first half of [flush], under the lock. *)
Definition gather (s : store V) : store V * gmap string keys :=
  (mkStore (ns s) ∅ (snap s) (wake s), set_to_map (fun n => (n, keys_of s n)) (dirty s)).

(** The second half, for one namespace. *)
Definition flush_one (d : disk) (namespace : string) (ks : keys) (sy : system) : system :=
  let '(fs, ok) := snapshot_write d namespace ks (sy_files sy) in
  mkSystem (if (ok : bool) then sy_store sy else touch namespace (sy_store sy)) fs (sy_phase sy)
    (delete namespace (sy_pending sy)) (sy_done sy).

(** A client's call, of which only what it does to the store matters here. *)
Inductive client_call : Type :=
  | CSet (namespace key : string) (value : V) (expected : Z)
  | CDelete (namespace key : string) (expected : Z).
Definition call_on (c : client_call) (s : store V) : store V :=
  match c with
  | CSet n k v e => (store_Set n k v e s).1
  | CDelete n k e => (store_Delete n k e s).1
  end.

Definition with_store (s : store V) (sy : system) : system :=
  mkSystem s (sy_files sy) (sy_phase sy) (sy_pending sy) (sy_done sy).
Definition at_phase (p : phase) (sy : system) : system :=
  mkSystem (sy_store sy) (sy_files sy) p (sy_pending sy) (sy_done sy).
Definition start_flush (p : phase) (sy : system) : system :=
  let '(s, pending) := gather (sy_store sy) in mkSystem s (sy_files sy) p pending (sy_done sy).

(** The flusher's own steps, and those of [close] once it was called. *)
Inductive flusher_step (d : disk) : relation system :=
  | step_wake sy : sy_phase sy = Waiting -> wake (sy_store sy) = true ->
      flusher_step d sy (at_phase Delaying
        (with_store (mkStore (ns (sy_store sy)) (dirty (sy_store sy)) (snap (sy_store sy)) false) sy))
  | step_timer sy : sy_phase sy = Delaying -> flusher_step d sy (start_flush Flushing sy)
  | step_file sy namespace ks : sy_phase sy = Flushing \/ sy_phase sy = Closing ->
      sy_pending sy !! namespace = Some ks -> flusher_step d sy (flush_one d namespace ks sy)
  | step_flushed sy : sy_phase sy = Flushing -> sy_pending sy = ∅ -> flusher_step d sy (at_phase Waiting sy)
  | step_exit sy : sy_done sy = true -> sy_phase sy = Waiting \/ sy_phase sy = Delaying ->
      flusher_step d sy (at_phase Exited sy)
  | step_drain sy : sy_phase sy = Exited -> flusher_step d sy (start_flush Closing sy)
  | step_closed sy : sy_phase sy = Closing -> sy_pending sy = ∅ -> flusher_step d sy (at_phase Closed sy).

Inductive store_step : relation system :=
  | step_flusher d sy sy' : flusher_step d sy sy' -> store_step sy sy'
  | step_client c sy : store_step sy (with_store (call_on c (sy_store sy)) sy)
  | step_close sy : store_step sy (mkSystem (sy_store sy) (sy_files sy) (sy_phase sy) (sy_pending sy) true).

Definition opened_on (dir : string) (fs : files V) : system := mkSystem (newStore dir fs) fs Waiting ∅ false.

(** ** What is on disk *)
Definition image (ks : keys) : option (option keys) := if decide (ks = ∅) then None else Some (Some ks).
(** The file of a namespace holds what memory does. *)
Definition saved (sy : system) (n : string) : Prop :=
  sy_files sy !! file_name n = image (keys_of (sy_store sy) n).

(** A directory that this store wrote: one file per namespace that persists. *)
Definition durable (n : string) : Prop := IsVolatileNamespace n = false /\ IsSecretNamespace n = false.
Definition own_directory (fs : files V) : Prop :=
  forall name content, fs !! name = Some content ->
    exists n ks, name = file_name n /\ durable n /\ content = Some ks /\ ks ≠ ∅.
End persist.
Arguments system : clear implicits.

(** * Names *)
Lemma decodeName_encodeName s : decodeName (encodeName s) = s.
Proof.
  induction s as [|c s IH]; [done|]. cbn [encodeName]. destruct (isPlainNameByte c) eqn:Hc.
  - cbn [decodeName]. destruct (Ascii.eqb_spec c "%") as [->|_]; [done|]. by rewrite IH.
  - cbn [decodeName]. destruct c as [[] [] [] [] [] [] [] []]; (discriminate Hc || (cbn; by rewrite IH)).
Qed.

Lemma decode_file_name n : decodeName (TrimSuffix (file_name n) snapshotExt) = n.
Proof. unfold file_name. by rewrite TrimSuffix_app, decodeName_encodeName. Qed.

Lemma HasSuffix_file_name n : HasSuffix (file_name n) snapshotExt = true.
Proof. apply HasSuffix_app. Qed.

#[global] Instance file_name_inj : Inj (=) (=) file_name.
Proof. intros m n H. by rewrite <-(decode_file_name m), H, decode_file_name. Qed.

Section lemmas.
Context {V : Type}.
Abbreviation keys := (gmap string (Entry V)).
Implicit Types (fs : files V) (sy : system V) (s : store V).

Lemma load_files_lookup fs names out n : own_directory fs -> (forall name, name ∈ names -> is_Some (fs !! name)) ->
  foldl (load_file fs) out names !! n =
    if decide (file_name n ∈ names) then match fs !! file_name n with Some (Some ks) => Some ks | _ => None end
    else out !! n.
Proof.
  intros Hclean. revert out. induction names as [|name names IH]; intros out Hall; [done|]. cbn [foldl].
  rewrite IH by (intros; apply Hall; by right). destruct (Hall name) as [content Hc]; [by left|].
  destruct (Hclean name content Hc) as (m & ks & -> & _ & -> & _). unfold load_file at 1.
  rewrite HasSuffix_file_name. cbn [negb]. rewrite Hc, decode_file_name.
  destruct (decide (file_name n ∈ names)) as [Hin|Hin].
  - by rewrite decide_True by (by right).
  - destruct (decide (n = m)) as [->|Hne].
    + rewrite lookup_insert_eq, decide_True by (by left). by rewrite Hc.
    + rewrite lookup_insert_ne, decide_False; [done| |done].
      intros [Heq%(inj file_name)|?]%elem_of_cons; [by subst|done].
Qed.

Lemma snapshot_load_lookup fs n : own_directory fs ->
  snapshot_load fs !! n = match fs !! file_name n with Some (Some ks) => Some ks | _ => None end.
Proof.
  intros Hclean. unfold snapshot_load.
  assert (forall name, name ∈ sort_strings (map_to_list fs).*1 <-> is_Some (fs !! name)) as Hin.
  { intros name. rewrite sort_strings_perm, list_elem_of_fmap. split.
    - intros ([k v] & -> & H%elem_of_map_to_list). by exists v.
    - intros [v H]. exists (name, v). split; [done|]. by apply elem_of_map_to_list. }
  rewrite load_files_lookup by (done || intros; by apply Hin). case_decide as H; [done|].
  rewrite Hin in H. destruct (fs !! file_name n) eqn:E; [|done]. by destruct H.
Qed.

(** ** The invariant *)
Definition leaving (p : phase) : bool := match p with Exited | Closing | Closed => true | _ => false end.
Definition listening (p : phase) : bool := match p with Flushing | Closing => true | _ => false end.

Record well_kept (sy : system V) : Prop := {
  wk_snap : exists dir, snap (sy_store sy) = Some dir;
  wk_dirty n : n ∈ dirty (sy_store sy) -> durable n;
  wk_pending n ks : sy_pending sy !! n = Some ks -> durable n;
  wk_writing : sy_pending sy ≠ ∅ -> listening (sy_phase sy) = true;
  wk_clean : own_directory (sy_files sy);
  wk_saved n : durable n -> n ∈ dirty (sy_store sy) \/
    match sy_pending sy !! n with Some ks => ks = keys_of (sy_store sy) n | None => saved sy n end;
  wk_scheduled : dirty (sy_store sy) ≠ ∅ ->
    wake (sy_store sy) = true \/ sy_phase sy = Delaying \/ sy_phase sy = Exited;
  wk_done : leaving (sy_phase sy) = true -> sy_done sy = true;
}.

Lemma persists_durable s n : (exists dir, snap s = Some dir) -> persists s n = true <-> durable n.
Proof.
  intros [dir Hd]. unfold persists, durable. rewrite Hd. destruct (IsVolatileNamespace n), (IsSecretNamespace n); naive_solver.
Qed.

(** What a client's call leaves of the store: one namespace changed, and touched
    when it persists. *)
Lemma call_on_spec c s : exists n ks, call_on c s = s \/ call_on c s = touch n (with_keys n ks s).
Proof.
  destruct c as [n k v e|n k e]; cbn.
  - unfold store_Set, store_write. destruct (negb _); [by exists n, ∅; left|]. cbn. eexists n, _. by right.
  - unfold store_Delete. destruct (_ !! k); [|by exists n, ∅; left]. destruct (_ && _); [by exists n, ∅; left|].
    cbn. eexists n, _. by right.
Qed.

Lemma snap_touch n s : snap (touch n s) = snap s.
Proof. unfold touch. by destruct (persists s n). Qed.
Lemma dirty_touch n s : (exists dir, snap s = Some dir) ->
  (durable n -> touch n s = mkStore (ns s) ({[ n ]} ∪ dirty s) (snap s) true) /\ (~ durable n -> touch n s = s).
Proof.
  intros Hs. unfold touch. pose proof (persists_durable s n Hs) as Hp. destruct (persists s n); cbn; naive_solver.
Qed.

Lemma client_well_kept c sy : well_kept sy -> well_kept (with_store (call_on c (sy_store sy)) sy).
Proof.
  intros [Hs Hd Hp Hw Hc Hk Hsch Hdone]. destruct (call_on_spec c (sy_store sy)) as (n & ks & [->| ->]); [by destruct sy|].
  assert (exists dir, snap (with_keys n ks (sy_store sy)) = Some dir) as Hs' by done.
  assert (forall m, m ≠ n -> keys_of (with_keys n ks (sy_store sy)) m = keys_of (sy_store sy) m) as Hsame
    by (intros m Hm; by rewrite keys_of_with, decide_False).
  destruct (dirty_touch n _ Hs') as [Ht Hnt].
  assert (Decision (durable n)) as [Hn|Hn] by (unfold durable; apply _).
  - rewrite (Ht Hn). split; cbn; try done.
    + intros m. rewrite elem_of_union, elem_of_singleton. intros [->|?]; [done|by apply Hd].
    + intros m Hm. destruct (decide (m = n)) as [->|Hne]; [left; set_solver|].
      destruct (Hk m Hm) as [?|H]; [left; set_solver|right]. unfold saved in *. cbn.
      change (keys_of (mkStore _ _ _ _) m) with (keys_of (with_keys n ks (sy_store sy)) m). by rewrite Hsame.
    + intros _. by left.
  - rewrite (Hnt Hn). split; cbn; try done. intros m Hm. assert (m ≠ n) as Hne by (by intros ->).
    destruct (Hk m Hm) as [?|H]; [by left|right]. unfold saved in *. cbn. by rewrite Hsame.
Qed.

(** A namespace is written, or stays dirty and is scheduled again. *)
Lemma flush_one_well_kept d n ks sy : sy_pending sy !! n = Some ks -> well_kept sy -> well_kept (flush_one d n ks sy).
Proof.
  intros Hn [Hs Hd Hp Hw Hc Hk Hsch Hdone]. pose proof (Hp n ks Hn) as Hdn.
  set (fs' := (if decide (ks = ∅) then delete (file_name n) (sy_files sy)
               else <[ file_name n := Some ks ]> (sy_files sy)) : files V).
  assert (own_directory fs') as Hc'.
  { intros name content. unfold fs'. case_decide as He.
    - intros [_ H]%lookup_delete_Some. by apply Hc.
    - intros [[<- <-]|[_ H]]%lookup_insert_Some; [by exists n, ks|by apply Hc]. }
  assert (fs' !! file_name n = image ks) as Hnew.
  { unfold fs', image. case_decide; [by rewrite lookup_delete_eq|by rewrite lookup_insert_eq]. }
  assert (forall m, m ≠ n -> fs' !! file_name m = sy_files sy !! file_name m) as Hold.
  { intros m Hm. assert (file_name n ≠ file_name m) by (by intros ?%(inj file_name)).
    unfold fs'. case_decide; [by rewrite lookup_delete_ne|by rewrite lookup_insert_ne]. }
  assert (forall m mk, delete n (sy_pending sy) !! m = Some mk -> sy_pending sy !! m = Some mk) as Hdel
    by (by intros m mk [_ ?]%lookup_delete_Some).
  assert (delete n (sy_pending sy) ≠ ∅ -> listening (sy_phase sy) = true) as Hw'
    by (intros _; apply Hw; intros He; by rewrite He, lookup_empty in Hn).
  unfold flush_one. cbn [snapshot_write]. destruct (dirty_touch n _ Hs) as [Ht _]. specialize (Ht Hdn).
  destruct d; cbn [snapshot_write]; fold fs'.
  - split; cbn; try done; [by intros m mk ?%Hdel; eapply Hp|]. intros m Hm.
    destruct (decide (m = n)) as [->|Hne].
    + rewrite lookup_delete_eq. destruct (Hk n Hm) as [?|H]; [by left|right]. rewrite Hn in H. subst ks. exact Hnew.
    + rewrite lookup_delete_ne by done. destruct (Hk m Hm) as [?|H]; [by left|right].
      destruct (sy_pending sy !! m); [done|]. unfold saved in *. cbn. by rewrite Hold.
  - rewrite Ht. split; cbn; try done.
    + intros m. rewrite elem_of_union, elem_of_singleton. intros [->|?]; [done|by apply Hd].
    + by intros m mk ?%Hdel; eapply Hp.
    + intros m Hm. destruct (decide (m = n)) as [->|Hne]; [left; set_solver|]. rewrite lookup_delete_ne by done.
      destruct (Hk m Hm) as [?|H]; [left; set_solver|by right].
    + by left.
  - rewrite Ht. split; cbn; try done.
    + intros m. rewrite elem_of_union, elem_of_singleton. intros [->|?]; [done|by apply Hd].
    + by intros m mk ?%Hdel; eapply Hp.
    + intros m Hm. destruct (decide (m = n)) as [->|Hne]; [left; set_solver|]. rewrite lookup_delete_ne by done.
      destruct (Hk m Hm) as [?|H]; [left; set_solver|right]. destruct (sy_pending sy !! m); [done|].
      unfold saved in *. cbn. by rewrite Hold.
    + by left.
Qed.

Lemma gathered s n : (gather s).2 !! n = if decide (n ∈ dirty s) then Some (keys_of s n) else None.
Proof.
  unfold gather. cbn [snd]. case_decide as H.
  - apply lookup_set_to_map; [by intros ????|]. by exists n.
  - apply eq_None_not_Some. intros [ks Hk]. apply lookup_set_to_map in Hk as (m & Hm & [= -> _]); [done|by intros ????].
Qed.

Lemma start_flush_well_kept p sy : listening p = true -> (leaving p = true -> sy_done sy = true) -> sy_pending sy = ∅ -> well_kept sy -> well_kept (start_flush p sy).
Proof.
  intros Hlisten Hl He [Hs Hd Hp Hw Hc Hk Hsch Hdone]. pose proof (gathered (sy_store sy)) as Hg. unfold gather in Hg. cbn [snd] in Hg.
  unfold start_flush, gather. split; cbn; try done.
  - intros n ks. rewrite Hg. case_decide; [|done]. intros _. by apply Hd.
  - intros n Hn. right. rewrite Hg. destruct (Hk n Hn) as [Hin|H].
    + by rewrite decide_True.
    + rewrite He, lookup_empty in H. by case_decide.
Qed.

Lemma at_phase_well_kept p sy : well_kept sy -> (sy_pending sy ≠ ∅ -> listening p = true) ->
  (dirty (sy_store sy) ≠ ∅ -> wake (sy_store sy) = true \/ p = Delaying \/ p = Exited) ->
  (leaving p = true -> sy_done sy = true) -> well_kept (at_phase p sy).
Proof. by intros [Hs Hd Hp Hw Hc Hk Hsch Hdone] ???. Qed.

(** Nothing is being written outside a flush. *)
Lemma idle_pending sy : well_kept sy -> listening (sy_phase sy) = false -> sy_pending sy = ∅.
Proof. intros Hwk Hl. destruct (decide (sy_pending sy = ∅)) as [|Hne]; [done|]. by rewrite (wk_writing sy Hwk Hne) in Hl. Qed.

Lemma flusher_well_kept d sy sy' : flusher_step d sy sy' -> well_kept sy -> well_kept sy'.
Proof.
  intros Hstep Hwk. destruct Hstep as [sy Hph Hwake|sy Hph|sy n ks Hph Hn|sy Hph He|sy Hd Hph|sy Hph|sy Hph He].
  - pose proof (idle_pending sy Hwk) as He. rewrite Hph in He. destruct Hwk as [Hs Hd Hp Hw Hc Hk Hsch Hdone].
    split; cbn; try done; [by rewrite He|by intros _; right; left].
  - apply start_flush_well_kept; [done..| |done]. apply idle_pending; [done|by rewrite Hph].
  - by apply flush_one_well_kept.
  - apply at_phase_well_kept; [done|done| |done]. intros Hdirty.
    destruct (wk_scheduled sy Hwk Hdirty) as [?|[Hx|Hx]]; [by left|by rewrite Hph in Hx..].
  - apply at_phase_well_kept; [done| |by intros _; right; right|done]. intros Hne. apply (wk_writing sy Hwk) in Hne.
    destruct Hph as [Hph|Hph]; by rewrite Hph in Hne.
  - pose proof (wk_done sy Hwk) as Hdone. rewrite Hph in Hdone.
    apply start_flush_well_kept; [done|done| |done]. apply idle_pending; [done|by rewrite Hph].
  - pose proof (wk_done sy Hwk) as Hdone. rewrite Hph in Hdone. apply at_phase_well_kept; [done|done| |done]. intros Hdirty.
    destruct (wk_scheduled sy Hwk Hdirty) as [?|[Hx|Hx]]; [by left|by rewrite Hph in Hx..].
Qed.

Lemma step_well_kept sy sy' : well_kept sy -> store_step sy sy' -> well_kept sy'.
Proof.
  intros Hwk Hst. revert Hwk. destruct Hst as [d sy1 sy2 Hf|c sy1|sy1]; intros Hwk.
  - by eapply flusher_well_kept.
  - by apply client_well_kept.
  - by destruct Hwk.
Qed.

Lemma opened_keys dir fs n : dir ≠ "" -> own_directory fs ->
  keys_of (newStore dir fs) n = match fs !! file_name n with Some (Some ks) => ks | _ => ∅ end.
Proof.
  intros Hd Hc. unfold keys_of, newStore, newSnapshot. rewrite (proj2 (String.eqb_neq _ _) Hd). cbn [ns].
  rewrite snapshot_load_lookup by done. by destruct (fs !! file_name n) as [[ks|]|].
Qed.

Lemma opened_well_kept dir fs : dir ≠ "" -> own_directory fs -> well_kept (opened_on dir fs).
Proof.
  intros Hd Hc. assert (snap (newStore (V := V) dir fs) = Some dir) as Hsnap
    by (unfold newStore, newSnapshot; by rewrite (proj2 (String.eqb_neq _ _) Hd)).
  split; cbn; try done; [by exists dir|]. intros n Hn. right. unfold saved. cbn. rewrite opened_keys by done.
  destruct (fs !! file_name n) as [content|] eqn:E; [|done].
  destruct (Hc _ _ E) as (m & ks & _ & _ & -> & Hne). unfold image. by rewrite decide_False.
Qed.

(** Whatever clients, the disk and [close] do. *)
Lemma reachable_well_kept dir fs sy : dir ≠ "" -> own_directory fs -> rtc store_step (opened_on dir fs) sy -> well_kept sy.
Proof.
  intros Hd Hc Hrun. eapply run_invariant; [|exact Hrun|by apply opened_well_kept]. apply step_well_kept.
Qed.

(** ** Settling *)
Definition phase_rank (p : phase) : nat :=
  match p with Closed => 0 | Closing => 1 | Exited => 2 | Waiting => 3 | Flushing => 4 | Delaying => 5 end.
Definition work_left (sy : system V) : nat :=
  ((if wake (sy_store sy) then 3 else 0) + phase_rank (sy_phase sy) + size (sy_pending sy) + size (dirty (sy_store sy)))%nat.

Definition closing (p : phase) : bool := match p with Closing | Closed => true | _ => false end.

(** What a quiet run from [sy0] keeps. *)
Definition settling (sy0 sy : system V) : Prop :=
  well_kept sy /\ ns (sy_store sy) = ns (sy_store sy0) /\ sy_done sy = sy_done sy0 /\
  if closing (sy_phase sy0) then dirty (sy_store sy) = dirty (sy_store sy0) /\ closing (sy_phase sy) = true
  else closing (sy_phase sy) = true -> dirty (sy_store sy) = ∅.

Lemma size_gathered s : (size (gather s).2 <= size (dirty s))%nat.
Proof.
  rewrite <-size_dom. apply subseteq_size. intros n [ks Hk]%elem_of_dom. rewrite gathered in Hk. by case_decide.
Qed.

Lemma settling_step sy0 sy sy' : settling sy0 sy -> flusher_step Written sy sy' ->
  settling sy0 sy' /\ (work_left sy' < work_left sy)%nat.
Proof.
  intros (Hwk & Hns & Hdone & Hcl) Hst. pose proof (flusher_well_kept _ _ _ Hst Hwk) as Hwk'.
  destruct Hst as [sy Hph Hwake|sy Hph|sy n ks Hph Hn|sy Hph He|sy Hd Hph|sy Hph|sy Hph He]; unfold settling, work_left.
  - cbn. rewrite Hph, Hwake. rewrite Hph in Hcl. split; [|cbn; lia]. split_and!; [done..|].
    destruct (closing (sy_phase sy0)); [by destruct Hcl|done].
  - pose proof (idle_pending sy Hwk) as He. rewrite Hph in He, Hcl. specialize (He eq_refl).
    pose proof (size_gathered (sy_store sy)) as Hsz. cbn in Hsz |- *. rewrite Hph, He, map_size_empty, size_empty. split; [|cbn; lia].
    split_and!; [done..|]. destruct (closing (sy_phase sy0)); [by destruct Hcl|done].
  - cbn. assert (size (delete n (sy_pending sy)) < size (sy_pending sy))%nat
      by (rewrite map_size_delete, Hn; cbn; destruct (size (sy_pending sy)) eqn:E;
          [apply map_size_empty_inv in E; by rewrite E, lookup_empty in Hn|lia]).
    split; [by split_and!|lia].
  - cbn. rewrite Hph. rewrite Hph in Hcl. split; [|cbn; lia]. split_and!; [done..|].
    destruct (closing (sy_phase sy0)); [by destruct Hcl|done].
  - cbn. split; [|by destruct Hph as [-> | ->]; cbn; lia]. split_and!; [done..|].
    destruct (closing (sy_phase sy0)); [|done]. destruct Hcl as [_ Hcl]. by destruct Hph as [Hph|Hph]; rewrite Hph in Hcl.
  - pose proof (idle_pending sy Hwk) as He. rewrite Hph in He, Hcl. specialize (He eq_refl).
    pose proof (size_gathered (sy_store sy)) as Hsz. cbn in Hsz |- *. rewrite Hph, He, map_size_empty, size_empty. split; [|cbn; lia].
    split_and!; [done..|]. destruct (closing (sy_phase sy0)); [by destruct Hcl|done].
  - cbn. rewrite Hph. rewrite Hph in Hcl. split; [|cbn; lia]. split_and!; [done..|].
    destruct (closing (sy_phase sy0)); [by destruct Hcl|by intros _; apply Hcl].
Qed.

(** Where a quiet run ends. *)
Definition settled (sy0 sy : system V) : Prop :=
  ns (sy_store sy) = ns (sy_store sy0) /\ sy_phase sy = (if sy_done sy0 then Closed else Waiting) /\
  forall n, durable n -> saved sy n \/ (n ∈ dirty (sy_store sy0) /\ closing (sy_phase sy0) = true).

Lemma settling_end sy0 sy : settling sy0 sy -> settled sy0 sy \/ red (flusher_step Written) sy.
Proof.
  intros (Hwk & Hns & Hdone & Hcl). destruct (sy_phase sy) eqn:Hph.
  - destruct (wake (sy_store sy)) eqn:Hw; [right; eexists; by apply step_wake|].
    destruct (sy_done sy) eqn:Hd; [right; eexists; by apply step_exit; [|left]|]. left. unfold settled.
    rewrite <-Hdone. split_and!; [done|done|]. intros n Hn. left.
    assert (dirty (sy_store sy) = ∅) as Hemp.
    { destruct (decide (dirty (sy_store sy) = ∅)) as [|Hne]; [done|].
      destruct (wk_scheduled sy Hwk Hne) as [Hx|[Hx|Hx]]; congruence. }
    pose proof (idle_pending sy Hwk) as He. rewrite Hph in He. specialize (He eq_refl).
    destruct (wk_saved sy Hwk n Hn) as [Hin|H]; [by rewrite Hemp in Hin|]. by rewrite He, lookup_empty in H.
  - right. eexists. by apply step_timer.
  - right. destruct (decide (sy_pending sy = ∅)) as [He|(n & ks & Hk)%map_choose].
    + eexists. by apply step_flushed.
    + eexists. apply step_file; [by left|done].
  - right. eexists. by apply step_drain.
  - right. destruct (decide (sy_pending sy = ∅)) as [He|(n & ks & Hk)%map_choose].
    + eexists. by apply step_closed.
    + eexists. apply step_file; [by right|done].
  - left. pose proof (wk_done sy Hwk) as Hd. rewrite Hph in Hd. specialize (Hd eq_refl). unfold settled.
    rewrite <-Hdone, Hd. split_and!; [done|done|]. intros n Hn. pose proof (idle_pending sy Hwk) as He.
    rewrite Hph in He. specialize (He eq_refl). destruct (wk_saved sy Hwk n Hn) as [Hin|H].
    + destruct (closing (sy_phase sy0)); [destruct Hcl as [Hcl _]; right; by rewrite <-Hcl|].
      by rewrite Hcl in Hin.
    + left. by rewrite He, lookup_empty in H.
Qed.

(** * The claims *)

(** C24: no write is forgotten.  Whatever clients, a failing disk and [close] do,
    in any order, every namespace that persists is in its file as it is in
    memory, or is dirty, or is about to be written as it is in memory; and while
    anything is dirty the flusher has a nudge waiting, is letting a burst pass,
    or is gone with [close] yet to write.  The directory holds nothing but
    namespaces that persist. *)
Theorem writes_never_forgotten dir fs sy :
  dir ≠ "" -> own_directory fs -> rtc store_step (opened_on dir fs) sy ->
  (forall n, durable n -> saved sy n \/ n ∈ dirty (sy_store sy) \/ sy_pending sy !! n = Some (keys_of (sy_store sy) n)) /\
  (dirty (sy_store sy) ≠ ∅ -> wake (sy_store sy) = true \/ sy_phase sy = Delaying \/ sy_phase sy = Exited) /\
  own_directory (sy_files sy).
Proof.
  intros Hd Hc Hrun. destruct (reachable_well_kept dir fs sy Hd Hc Hrun) as [_ _ _ _ Hcl Hk Hsch _].
  split_and!; [|done|done]. intros n Hn. destruct (Hk n Hn) as [?|H]; [by right; left|].
  destruct (sy_pending sy !! n) eqn:E; [subst; by right; right|by left].
Qed.

(** C25: the flusher settles.  From any state it can get into, once clients pause
    and the disk works, every run of the flusher (and of [close], if it was
    called) ends: back to waiting, or with [close] returned; memory is as it
    was, and every namespace that persists is in its file, apart from those
    clients wrote to after [close] had started its last flush. *)
Theorem flusher_settles dir fs sy :
  dir ≠ "" -> own_directory fs -> rtc store_step (opened_on dir fs) sy ->
  sn (flusher_step Written) sy /\
  forall sy', rtc (flusher_step Written) sy sy' -> nf (flusher_step Written) sy' -> settled sy sy'.
Proof.
  intros Hd Hc Hrun. apply (run_settles _ (settling sy) (settled sy) work_left).
  - intros x y. apply settling_step.
  - apply settling_end.
  - split_and!; [by eapply reachable_well_kept|done|done|]. by destruct (closing (sy_phase sy)).
Qed.

(** C26: a restart restores.  A store closed with nothing left dirty reads back,
    in a new process over the same directory, as it was: the namespaces that
    persist with the same values at the same versions, the others empty. *)
Theorem restart_restores dir fs sy n :
  dir ≠ "" -> own_directory fs -> rtc store_step (opened_on dir fs) sy -> sy_phase sy = Closed -> dirty (sy_store sy) = ∅ ->
  keys_of (newStore dir (sy_files sy)) n = if decide (durable n) then keys_of (sy_store sy) n else ∅.
Proof.
  intros Hd Hc Hrun Hph Hdirty. pose proof (reachable_well_kept dir fs sy Hd Hc Hrun) as Hwk.
  rewrite opened_keys by (done || apply (wk_clean sy Hwk)). case_decide as Hn.
  - pose proof (idle_pending sy Hwk) as He. rewrite Hph in He. specialize (He eq_refl).
    destruct (wk_saved sy Hwk n Hn) as [Hin|H]; [by rewrite Hdirty in Hin|]. rewrite He, lookup_empty in H.
    rewrite H. unfold image. by case_decide.
  - destruct (sy_files sy !! file_name n) as [content|] eqn:E; [|done].
    destruct (wk_clean sy Hwk _ _ E) as (m & ks & Hm & Hdur & _). apply (inj file_name) in Hm. by subst.
Qed.
End lemmas.

(** ** A run: one write reaches the disk and the store is closed *)
Definition written : system Z := with_store (call_on (CSet "user" "k" 7 0) (newStore "d" ∅)) (opened_on "d" ∅).
Definition closed_after (sy : system Z) : system Z :=
  at_phase Closed (flush_one Written "user" {[ "k" := mkEntry 7 1 ]} (start_flush Closing (at_phase Exited
    (mkSystem (sy_store sy) (sy_files sy) (sy_phase sy) (sy_pending sy) true)))).

Lemma written_reachable : rtc store_step (opened_on "d" ∅) written.
Proof. apply rtc_once. exact (step_client (CSet "user" "k" 7 0) (opened_on "d" ∅)). Qed.

Lemma clean_empty {V} : own_directory (∅ : files V).
Proof. intros name content H. by rewrite lookup_empty in H. Qed.

Lemma closed_reachable : rtc store_step (opened_on "d" ∅) (closed_after written).
Proof.
  eapply rtc_trans; [apply written_reachable|]. eapply rtc_l; [apply step_close|].
  eapply rtc_l; [eapply (step_flusher Written), step_exit; [reflexivity|left; reflexivity]|].
  eapply rtc_l; [eapply (step_flusher Written), step_drain; reflexivity|].
  eapply rtc_l; [eapply (step_flusher Written), (step_file _ _ "user" {[ "k" := mkEntry 7 1 ]}); [right|]; reflexivity|].
  eapply rtc_l; [eapply (step_flusher Written), step_closed; reflexivity|]. apply rtc_refl.
Qed.

Lemma writes_never_forgotten_witness :
  sy_files (closed_after written) !! "user.gob" = Some (Some {[ "k" := mkEntry 7 1 ]}) /\
  (saved written "user" \/ "user" ∈ dirty (sy_store written) \/
   sy_pending written !! "user" = Some (keys_of (sy_store written) "user")).
Proof.
  split; [reflexivity|].
  destruct (writes_never_forgotten "d" ∅ written) as (H & _ & _); [done|apply clean_empty|apply written_reachable|].
  by apply H.
Defined.

Lemma flusher_settles_witness :
  sn (flusher_step Written) written /\
  forall sy', rtc (flusher_step Written) written sy' -> nf (flusher_step Written) sy' -> saved sy' "user".
Proof.
  destruct (flusher_settles "d" ∅ written) as (Hsn & H); [done|apply clean_empty|apply written_reachable|].
  split; [exact Hsn|]. intros sy' Hrun Hnf. destruct (H sy' Hrun Hnf) as (_ & _ & Hsaved).
  destruct (Hsaved "user") as [Hs|[_ Hcl]]; [by split|exact Hs|discriminate Hcl].
Defined.

Lemma restart_restores_witness :
  store_Get "user" "k" (newStore "d" (sy_files (closed_after written))) = Some (mkEntry 7 1).
Proof.
  unfold store_Get. rewrite (restart_restores "d" ∅ (closed_after written) "user"); [reflexivity|done|apply clean_empty| |done|done].
  apply closed_reachable.
Defined.
