(* ===== verification/Pool.v ===== *)
(** The worker pool and the shutdown of a bound flow:
    [core/internal/pool/pool.go] and [core/runtime/boundflow.go] ([worker],
    [resume], [stop]), with the part of the fork block that uses the pool.

    What a run does to the pool is a tree of [work]: it finishes, it resumes a
    tail (another run), or it scatters branches over the pool and joins them.
    Everything else a run does takes no pool step and is left out, and so is the
    reaper of an aggregate, which resumes tails from a goroutine of its own until
    the blocks are stopped.  The system is
    executable: [step_thread] and [step_stop] say what each goroutine does next,
    and a run of the system is any interleaving of them. *)
From S2P Require Import Prelude.
#[local] Open Scope nat_scope.

Inductive work : Type :=
  | Finish
  | Resuming (tail rest : work)
  | Scattering (branches : list work) (rest : work).

(** ** pool.go *)
Definition pool_defaultWorkers : Z := 8.
Definition pool_defaultQueue : Z := 64.

(** A task of the pool: a resumed run, counted in [inflight], or the branch of a
    fork, which a wait group counts. *)
Inductive purpose : Type := Source | Counted | Branch (wg : nat).
Record task : Type := mkTask { tk_work : work; tk_purpose : purpose }.

Record Pool : Type := mkPool { po_workers : nat; po_queue : nat; po_tasks : list task; po_closed : bool }.

(** [New]: non-positive settings take the defaults. *)
Definition New (workers queue : Z) : Pool :=
  mkPool (Z.to_nat (if (workers <=? 0)%Z then pool_defaultWorkers else workers))
         (Z.to_nat (if (queue <=? 0)%Z then pool_defaultQueue else queue)) [] false.

Definition with_tasks (ts : list task) (p : Pool) : Pool := mkPool (po_workers p) (po_queue p) ts (po_closed p).

(** [None] is the panic: the queue is full, or its channel closed. *)
Definition Submit (t : task) (p : Pool) : option Pool :=
  if po_closed p then None
  else if Nat.ltb (length (po_tasks p)) (po_queue p) then Some (with_tasks (po_tasks p ++ [t]) p) else None.

Definition TrySubmit (t : task) (p : Pool) : Pool * bool :=
  if po_closed p then (p, false)
  else if Nat.ltb (length (po_tasks p)) (po_queue p) then (with_tasks (po_tasks p ++ [t]) p, true) else (p, false).

Definition close_pool (p : Pool) : Pool := mkPool (po_workers p) (po_queue p) (po_tasks p) true.

(** ** The goroutines *)

(** One activation on a goroutine's stack: what it is at, and what finishing it
    reports to. *)
Inductive doing : Type :=
  | Running (w : work)
  | Submitting (wg : nat) (branches : list work) (rest : work)
  | Joining (wg : nat) (rest : work).
Record frame : Type := mkFrame { fr_doing : doing; fr_purpose : purpose }.

Inductive role : Type := SourceWorker | PoolWorker.
#[global] Instance role_eq_dec : EqDecision role.
Proof. solve_decision. Defined.
Record thread : Type := mkThread { th_role : role; th_stack : list frame }.

(** How far [stop] got. *)
Inductive stopping : Type := Live | SourceStopped | SourceDrained | BlocksStopped | Quiet | PoolStopped.
#[global] Instance stopping_eq_dec : EqDecision stopping.
Proof. solve_decision. Defined.

Record flow_state : Type := mkFlowState {
  fs_source : list work;            (** what the source has yet to send *)
  fs_in : list work;                (** the channel [in] *)
  fs_buffer : nat;                  (** its capacity *)
  fs_pool : Pool;
  fs_threads : list thread;
  fs_inflight : nat;
  fs_groups : list nat;             (** wait groups of forks: tasks still to come *)
  fs_stop : stopping;
  fs_panicked : bool;
  fs_accepted : list work;          (** every message the source sent *)
  fs_finished : nat;                (** runs that ended *)
}.

Definition set_threads (ts : list thread) (s : flow_state) : flow_state :=
  mkFlowState (fs_source s) (fs_in s) (fs_buffer s) (fs_pool s) ts (fs_inflight s) (fs_groups s) (fs_stop s)
    (fs_panicked s) (fs_accepted s) (fs_finished s).
Definition set_pool (p : Pool) (s : flow_state) : flow_state :=
  mkFlowState (fs_source s) (fs_in s) (fs_buffer s) p (fs_threads s) (fs_inflight s) (fs_groups s) (fs_stop s)
    (fs_panicked s) (fs_accepted s) (fs_finished s).
Definition set_in (l : list work) (s : flow_state) : flow_state :=
  mkFlowState (fs_source s) l (fs_buffer s) (fs_pool s) (fs_threads s) (fs_inflight s) (fs_groups s) (fs_stop s)
    (fs_panicked s) (fs_accepted s) (fs_finished s).
Definition set_inflight (n : nat) (s : flow_state) : flow_state :=
  mkFlowState (fs_source s) (fs_in s) (fs_buffer s) (fs_pool s) (fs_threads s) n (fs_groups s) (fs_stop s)
    (fs_panicked s) (fs_accepted s) (fs_finished s).
Definition set_groups (g : list nat) (s : flow_state) : flow_state :=
  mkFlowState (fs_source s) (fs_in s) (fs_buffer s) (fs_pool s) (fs_threads s) (fs_inflight s) g (fs_stop s)
    (fs_panicked s) (fs_accepted s) (fs_finished s).
Definition set_stop (p : stopping) (s : flow_state) : flow_state :=
  mkFlowState (fs_source s) (fs_in s) (fs_buffer s) (fs_pool s) (fs_threads s) (fs_inflight s) (fs_groups s) p
    (fs_panicked s) (fs_accepted s) (fs_finished s).
Definition panic (s : flow_state) : flow_state :=
  mkFlowState (fs_source s) (fs_in s) (fs_buffer s) (fs_pool s) (fs_threads s) (fs_inflight s) (fs_groups s) (fs_stop s)
    true (fs_accepted s) (fs_finished s).
Definition one_finished (s : flow_state) : flow_state :=
  mkFlowState (fs_source s) (fs_in s) (fs_buffer s) (fs_pool s) (fs_threads s) (fs_inflight s) (fs_groups s) (fs_stop s)
    (fs_panicked s) (fs_accepted s) (S (fs_finished s)).

Definition set_stack (i : nat) (stack : list frame) (s : flow_state) : flow_state :=
  match fs_threads s !! i with
  | Some t => set_threads (<[ i := mkThread (th_role t) stack ]> (fs_threads s)) s
  | None => s
  end.

(** What the end of an activation reports: the end of a run and [inflight.Done],
    or [wg.Done]. *)
Definition report (p : purpose) (s : flow_state) : flow_state :=
  match p with
  | Source => one_finished s
  | Counted => one_finished (set_inflight (pred (fs_inflight s)) s)
  | Branch wg => set_groups (alter pred wg (fs_groups s)) s
  end.

(** [resume]: counted, then onto the pool when there is room, else run here. *)
Definition resume (i : nat) (tail : work) (below : list frame) (s : flow_state) : flow_state :=
  let s := set_inflight (S (fs_inflight s)) s in
  let '(p, ok) := TrySubmit (mkTask tail Counted) (fs_pool s) in
  let s := set_pool p s in
  if (ok : bool) then set_stack i below s else set_stack i (mkFrame (Running tail) Counted :: below) s.

(** The next step of the activation on top of goroutine [i]. *)
Definition step_frame (i : nat) (f : frame) (below : list frame) (s : flow_state) : option flow_state :=
  let continue d := mkFrame d (fr_purpose f) :: below in
  match fr_doing f with
  | Running Finish => Some (set_stack i below (report (fr_purpose f) s))
  | Running (Resuming tail rest) => Some (resume i tail (continue (Running rest)) s)
  | Running (Scattering branches rest) =>
      let wg := length (fs_groups s) in
      Some (set_stack i (continue (Submitting wg branches rest)) (set_groups (fs_groups s ++ [length branches]) s))
  | Submitting wg [] rest => Some (set_stack i (continue (Joining wg rest)) s)
  | Submitting wg (b :: branches) rest =>
      match Submit (mkTask b (Branch wg)) (fs_pool s) with
      | Some p => Some (set_stack i (continue (Submitting wg branches rest)) (set_pool p s))
      | None => Some (panic s)
      end
  | Joining wg rest =>
      if decide (fs_groups s !! wg = Some 0) then Some (set_stack i (continue (Running rest)) s) else None
  end.

(** A goroutine with nothing on its stack takes the next message or task. *)
Definition take_work (i : nat) (r : role) (s : flow_state) : option flow_state :=
  match r with
  | SourceWorker =>
      match fs_in s with
      | [] => None
      | w :: rest => Some (set_stack i [mkFrame (Running w) Source] (set_in rest s))
      end
  | PoolWorker =>
      match po_tasks (fs_pool s) with
      | [] => None
      | t :: rest => Some (set_stack i [mkFrame (Running (tk_work t)) (tk_purpose t)] (set_pool (with_tasks rest (fs_pool s)) s))
      end
  end.

Definition step_thread (i : nat) (s : flow_state) : option flow_state :=
  if fs_panicked s then None
  else match fs_threads s !! i with
  | None => None
  | Some t => match th_stack t with
              | [] => take_work i (th_role t) s
              | f :: below => step_frame i f below s
              end
  end.

(** The source sends while it runs and there is room. *)
Definition step_source (s : flow_state) : option flow_state :=
  match fs_stop s, fs_source s with
  | Live, w :: rest =>
      if fs_panicked s || negb (Nat.ltb (length (fs_in s)) (fs_buffer s)) then None
      else Some (mkFlowState rest (fs_in s ++ [w]) (fs_buffer s) (fs_pool s) (fs_threads s) (fs_inflight s)
                   (fs_groups s) Live (fs_panicked s) (fs_accepted s ++ [w]) (fs_finished s))
  | _, _ => None
  end.

Definition idle (r : role) (s : flow_state) : bool :=
  forallb (fun t => negb (bool_decide (th_role t = r)) || bool_decide (length (th_stack t) = 0)) (fs_threads s).

(** [stop]: the source is stopped and [in] closed, the source workers drain, the
    blocks are stopped, [inflight] is waited for, the pool is closed and its
    workers drain. *)
Definition step_stop (s : flow_state) : option flow_state :=
  if fs_panicked s then None
  else match fs_stop s with
  | Live => Some (set_stop SourceStopped s)
  | SourceStopped =>
      if bool_decide (length (fs_in s) = 0) && idle SourceWorker s then Some (set_stop SourceDrained s) else None
  | SourceDrained => Some (set_stop BlocksStopped s)
  | BlocksStopped => if Nat.eqb (fs_inflight s) 0 then Some (set_stop Quiet (set_pool (close_pool (fs_pool s)) s)) else None
  | Quiet =>
      if bool_decide (length (po_tasks (fs_pool s)) = 0) && idle PoolWorker s then Some (set_stop PoolStopped s) else None
  | PoolStopped => None
  end.

Inductive actor : Type := Thread (i : nat) | TheSource | TheStopper.
Definition act (a : actor) (s : flow_state) : option flow_state :=
  match a with Thread i => step_thread i s | TheSource => step_source s | TheStopper => step_stop s end.

Definition system_step : relation flow_state := fun s s' => exists a, act a s = Some s'.

(** A schedule, to run the system by. *)
Fixpoint run_schedule (schedule : list actor) (s : flow_state) : option flow_state :=
  match schedule with
  | [] => Some s
  | a :: schedule => match act a s with Some s => run_schedule schedule s | None => None end
  end.

(** [start]: the pool's workers and the flow's, all idle. *)
Definition started (messages : list work) (buffer workers : nat) (p : Pool) : flow_state :=
  mkFlowState messages [] buffer p
    (replicate workers (mkThread SourceWorker []) ++ replicate (po_workers p) (mkThread PoolWorker []))
    0 [] Live false [] 0.

(** * Shutting down *)

(** A run without forks. *)
Fixpoint plain (w : work) : bool :=
  match w with Finish => true | Resuming tail rest => plain tail && plain rest | Scattering _ _ => false end.

(** The runs a run causes, and the work it still is. *)
Fixpoint tails (w : work) : nat :=
  match w with Resuming tail rest => S (tails tail + tails rest) | _ => 0 end.
Definition runs (w : work) : nat := S (tails w).
Fixpoint weight (w : work) : nat :=
  match w with Finish => 1 | Resuming tail rest => 2 + weight tail + weight rest | Scattering _ _ => 0 end.

Definition frame_work (f : frame) : option work := match fr_doing f with Running w => Some w | _ => None end.
Definition frame_ok (r : role) (f : frame) : Prop :=
  (exists w, fr_doing f = Running w /\ plain w = true) /\
  (fr_purpose f = Counted \/ r = SourceWorker /\ fr_purpose f = Source).
Definition thread_ok (t : thread) : Prop := Forall (frame_ok (th_role t)) (th_stack t).
Definition task_ok (t : task) : Prop := plain (tk_work t) = true /\ tk_purpose t = Counted.

Definition counted_frame (f : frame) : nat := match fr_purpose f with Counted => 1 | _ => 0 end.
Definition frame_runs (f : frame) : nat := match fr_doing f with Running w => runs w | _ => 0 end.
Definition frame_weight (f : frame) : nat := match fr_doing f with Running w => weight w | _ => 0 end.
Definition over_frames (g : frame -> nat) (ts : list thread) : nat :=
  sum_list_with (fun t => sum_list_with g (th_stack t)) ts.
#[local] Arguments over_frames : simpl never.

Definition phase_left (p : stopping) : nat :=
  match p with Live => 5 | SourceStopped => 4 | SourceDrained => 3 | BlocksStopped => 2 | Quiet => 1 | PoolStopped => 0 end.
Definition still (s : flow_state) : nat :=
  phase_left (fs_stop s) + sum_list_with (fun w => 2 + weight w) (fs_source s)
  + sum_list_with (fun w => 1 + weight w) (fs_in s)
  + sum_list_with (fun t => 1 + weight (tk_work t)) (po_tasks (fs_pool s)) + over_frames frame_weight (fs_threads s).

Record sound (messages : list work) (s : flow_state) : Prop := {
  so_calm : fs_panicked s = false;
  so_plain : Forall (fun w => plain w = true) (fs_source s ++ fs_in s);
  so_tasks : Forall task_ok (po_tasks (fs_pool s));
  so_threads : Forall thread_ok (fs_threads s);
  so_inflight : fs_inflight s = length (po_tasks (fs_pool s)) + over_frames counted_frame (fs_threads s);
  so_runs : fs_finished s + sum_list_with runs (fs_in s) + sum_list_with (fun t => runs (tk_work t)) (po_tasks (fs_pool s))
            + over_frames frame_runs (fs_threads s) = sum_list_with runs (fs_accepted s);
  so_sent : fs_accepted s ++ fs_source s = messages;
  so_manned r : exists (i : nat) t, fs_threads s !! i = Some t /\ th_role t = r;
  so_drained : phase_left (fs_stop s) <= 3 -> fs_in s = [] /\ forall t, t ∈ fs_threads s -> th_role t = SourceWorker -> th_stack t = [];
  so_quiet : phase_left (fs_stop s) <= 1 -> po_tasks (fs_pool s) = [] /\ forall t, t ∈ fs_threads s -> th_stack t = [];
}.

Lemma sum_insert {A} (g : A -> nat) l i x y :
  l !! i = Some x -> sum_list_with g (<[ i := y ]> l) + g x = sum_list_with g l + g y.
Proof.
  revert i. induction l as [|z l IH]; intros [|i] H; try done; simpl in *.
  - injection H as ->. lia.
  - specialize (IH i H). lia.
Qed.
Lemma sum_snoc {A} (g : A -> nat) l x : sum_list_with g (l ++ [x]) = sum_list_with g l + g x.
Proof. induction l as [|y l IH]; cbn in *; lia. Qed.

Lemma over_set g i t stack ts : ts !! i = Some t ->
  over_frames g (<[ i := mkThread (th_role t) stack ]> ts) + sum_list_with g (th_stack t) = over_frames g ts + sum_list_with g stack.
Proof. intros H. exact (sum_insert (fun t => sum_list_with g (th_stack t)) ts i t (mkThread (th_role t) stack) H). Qed.

Lemma over_nothing g ts : (forall t, t ∈ ts -> th_stack t = []) -> over_frames g ts = 0.
Proof.
  unfold over_frames. induction ts as [|t ts IH]; intros H; [done|]. cbn. rewrite (H t) by left. cbn. apply IH.
  intros t' Ht. apply H. by right.
Qed.

Lemma idle_spec r s : idle r s = true <-> forall t, t ∈ fs_threads s -> th_role t = r -> th_stack t = [].
Proof.
  unfold idle. rewrite forallb_forall. split.
  - intros H t Ht%list_elem_of_In Hr. specialize (H t Ht). apply orb_true_iff in H as [H|H].
    + by rewrite bool_decide_true in H.
    + apply bool_decide_eq_true in H. by destruct (th_stack t).
  - intros H t Ht%list_elem_of_In. destruct (decide (th_role t = r)) as [Hr|Hr].
    + rewrite (H t Ht Hr). apply orb_true_r.
    + by rewrite bool_decide_false.
Qed.

(** Changing one stack. *)
Lemma manned_set (i : nat) t t' (ts : list thread) : ts !! i = Some t -> th_role t' = th_role t ->
  (forall r, exists (j : nat) u, ts !! j = Some u /\ th_role u = r) ->
  forall r, exists (j : nat) u, <[ i := t' ]> ts !! j = Some u /\ th_role u = r.
Proof.
  intros Hi Ht H r. destruct (H r) as (j & u & Hj & Hr). exists j. destruct (decide (i = j)) as [->|Hne].
  - rewrite Hi in Hj. injection Hj as ->. exists t'. split; [apply list_lookup_insert_eq; by eapply lookup_lt_Some|congruence].
  - exists u. by rewrite list_lookup_insert_ne.
Qed.
Lemma elem_set (i : nat) t' (ts : list thread) u : u ∈ <[ i := t' ]> ts -> u ∈ ts \/ u = t'.
Proof.
  intros [j Hj]%list_elem_of_lookup. apply list_lookup_insert_Some in Hj as [(_ & -> & _)|[_ Hj]]; [by right|].
  left. by eapply list_elem_of_lookup_2.
Qed.

(** One goroutine's step: what it leaves sound, and by how much it lowers what is
    still to do. *)
Lemma set_stack_eq i t stack s : fs_threads s !! i = Some t ->
  set_stack i stack s = set_threads (<[ i := mkThread (th_role t) stack ]> (fs_threads s)) s.
Proof. intros H. unfold set_stack. by rewrite H. Qed.

Lemma take_sound messages i t s s' : sound messages s -> fs_threads s !! i = Some t -> th_stack t = [] ->
  take_work i (th_role t) s = Some s' -> sound messages s' /\ still s' < still s.
Proof.
  intros [Hcalm Hpl Htk Hth Hin Hrun Hsent Hman Hdr Hq] Hi Hst Htake.
  pose proof (list_elem_of_lookup_2 _ _ _ Hi) as Hel. unfold take_work in Htake.
  destruct (th_role t) eqn:Hr.
  - destruct (fs_in s) as [|w rest] eqn:Ein; [done|]. injection Htake as <-.
    rewrite (set_stack_eq i t) by done. unfold still, set_threads, set_in. cbn.
    pose proof (over_set counted_frame i t [mkFrame (Running w) Source] _ Hi) as H1.
    pose proof (over_set frame_runs i t [mkFrame (Running w) Source] _ Hi) as H2.
    pose proof (over_set frame_weight i t [mkFrame (Running w) Source] _ Hi) as H3.
    rewrite Hst, Hr in H1, H2, H3. rewrite Hr. cbn in H1, H2, H3, Hrun. apply Forall_app in Hpl as [Hps Hpi].
    apply Forall_cons in Hpi as [Hw Hpi]. split; [|rewrite ?Ein; cbn; lia]. split; cbn; try done; try lia.
    + by apply Forall_app.
    + apply Forall_insert; [done|]. constructor; [|constructor]. split; [by exists w|]. by right.
    + by apply (manned_set i t).
    + intros Hp. destruct (Hdr Hp) as [Hx _]. done.
    + intros Hp. destruct (Hdr ltac:(lia)) as [Hx _]. done.
  - destruct (po_tasks (fs_pool s)) as [|[w p] rest] eqn:Etk; [done|]. injection Htake as <-.
    apply Forall_cons in Htk as [[Hw Hp] Htk]. cbn in Hw, Hp. subst p.
    rewrite (set_stack_eq i t) by done. unfold still, set_threads, set_pool. cbn.
    pose proof (over_set counted_frame i t [mkFrame (Running w) Counted] _ Hi) as H1.
    pose proof (over_set frame_runs i t [mkFrame (Running w) Counted] _ Hi) as H2.
    pose proof (over_set frame_weight i t [mkFrame (Running w) Counted] _ Hi) as H3.
    rewrite Hst, Hr in H1, H2, H3. rewrite Hr. cbn in H1, H2, H3, Hrun, Hin.
    split; [|rewrite ?Etk; cbn; lia]. split; cbn; try done; try lia.
    + apply Forall_insert; [done|]. constructor; [|constructor]. split; [by exists w|]. by left.
    + by apply (manned_set i t).
    + intros Hph. destruct (Hdr Hph) as [Hx Hy]. split; [done|]. intros u [Hu| ->]%elem_set Hur; [by apply Hy|done].
    + intros Hph. destruct (Hq Hph) as [Hx _]. done.
Qed.

(** A goroutine that is at something replaces its stack. *)
Lemma busy_phase messages i t f below s stack : sound messages s -> fs_threads s !! i = Some t -> th_stack t = f :: below ->
  let ts := <[ i := mkThread (th_role t) stack ]> (fs_threads s) in
  (phase_left (fs_stop s) <= 3 -> fs_in s = [] /\ forall u, u ∈ ts -> th_role u = SourceWorker -> th_stack u = []) /\
  ~ phase_left (fs_stop s) <= 1.
Proof.
  intros Hs Hi Hst ts. pose proof (list_elem_of_lookup_2 _ _ _ Hi) as Hel. split.
  - intros Hp. destruct (so_drained _ _ Hs Hp) as [Hx Hy]. split; [done|]. intros u [Hu| ->]%elem_set Hur; [by apply Hy|].
    cbn in Hur. specialize (Hy t Hel Hur). congruence.
  - intros Hp. destruct (so_quiet _ _ Hs Hp) as [_ Hy]. specialize (Hy t Hel). congruence.
Qed.

Lemma finish_sound messages i t f below s : sound messages s -> fs_threads s !! i = Some t -> th_stack t = f :: below ->
  fr_doing f = Running Finish ->
  let s' := set_stack i below (report (fr_purpose f) s) in sound messages s' /\ still s' < still s.
Proof.
  intros Hs Hi Hst Hd s'. destruct (busy_phase _ _ _ _ _ _ below Hs Hi Hst) as [Hdr Hq]. cbn zeta in Hdr.
  destruct Hs as [Hcalm Hpl Htk Hth Hin Hrun Hsent Hman _ _].
  pose proof (proj1 (Forall_lookup _ _) Hth i t Hi) as Ht. unfold thread_ok in Ht. rewrite Hst in Ht.
  apply Forall_cons in Ht as [[_ Hp] Hbelow].
  pose proof (over_set counted_frame i t below _ Hi) as H1. pose proof (over_set frame_runs i t below _ Hi) as H2.
  pose proof (over_set frame_weight i t below _ Hi) as H3. rewrite Hst in H1, H2, H3. destruct f as [d p]. cbn in Hd, Hp. subst d.
  cbn in H1, H2, H3. subst s'.
  assert (fs_threads (report p s) = fs_threads s) as Hsame by (by destruct p).
  cbn [fr_purpose]. rewrite (set_stack_eq i t) by (by rewrite Hsame). rewrite Hsame.
  destruct Hp as [->|[Hr ->]]; unfold still, set_threads; cbn; cbn in H1, H2, H3.
  - split; [|lia]. split; cbn; try done; try lia; [by apply Forall_insert|by apply (manned_set i t)].
  - split; [|lia]. split; cbn; try done; try lia; [by apply Forall_insert|by apply (manned_set i t)].
Qed.

Lemma resume_sound messages i t f below tail rest s : sound messages s -> fs_threads s !! i = Some t ->
  th_stack t = f :: below -> fr_doing f = Running (Resuming tail rest) ->
  let s' := resume i tail (mkFrame (Running rest) (fr_purpose f) :: below) s in sound messages s' /\ still s' < still s.
Proof.
  intros Hs Hi Hst Hd s'. pose proof (fun stack => busy_phase _ _ _ _ _ _ stack Hs Hi Hst) as Hph.
  destruct Hs as [Hcalm Hpl Htk Hth Hin Hrun Hsent Hman _ _].
  pose proof (proj1 (Forall_lookup _ _) Hth i t Hi) as Ht. unfold thread_ok in Ht. rewrite Hst in Ht.
  apply Forall_cons in Ht as [[(w & Hw & Hwp) Hp] Hbelow]. rewrite Hd in Hw. injection Hw as <-.
  apply andb_true_iff in Hwp as [Htail Hrest].
  assert (frame_ok (th_role t) (mkFrame (Running rest) (fr_purpose f))) as Hok by (split; [by exists rest|done]).
  assert (frame_ok (th_role t) (mkFrame (Running tail) Counted)) as Hok' by (split; [by exists tail|by left]).
  subst s'. unfold resume. destruct (TrySubmit (mkTask tail Counted) (fs_pool (set_inflight (S (fs_inflight s)) s))) as [p ok] eqn:E.
  cbn in E. unfold TrySubmit in E.
  set (stack1 := mkFrame (Running rest) (fr_purpose f) :: below). set (stack2 := mkFrame (Running tail) Counted :: stack1).
  pose proof (over_set counted_frame i t stack1 _ Hi) as H1. pose proof (over_set frame_runs i t stack1 _ Hi) as H2.
  pose proof (over_set frame_weight i t stack1 _ Hi) as H3. pose proof (over_set counted_frame i t stack2 _ Hi) as H4.
  pose proof (over_set frame_runs i t stack2 _ Hi) as H5. pose proof (over_set frame_weight i t stack2 _ Hi) as H6.
  rewrite Hst in H1, H2, H3, H4, H5, H6. destruct f as [d q]. cbn in Hd, Hok. subst d. subst stack1 stack2. cbn in H1, H2, H3, H4, H5, H6.
  assert (counted_frame (mkFrame (Running (Resuming tail rest)) q) = counted_frame (mkFrame (Running rest) q)) as Hcf by done.
  assert (runs tail = S (tails tail)) as Hrt by done.
  assert ((p = fs_pool s /\ ok = false) \/ (p = with_tasks (po_tasks (fs_pool s) ++ [mkTask tail Counted]) (fs_pool s) /\ ok = true)) as Hcase.
  { destruct (po_closed (fs_pool s)); [left; by injection E as <- <-|]. destruct (Nat.ltb _ _); [right|left]; by injection E as <- <-. }
  clear E. destruct Hcase as [[-> ->]|[-> ->]].
  - rewrite (set_stack_eq i t) by done. unfold still, set_threads, set_pool, set_inflight. cbn. cbn in *.
    destruct (Hph [mkFrame (Running tail) Counted; mkFrame (Running rest) q]) as [_ Hq].
    split; [|lia]. split; cbn; try done; try lia.
    + apply Forall_insert; [done|]. constructor; [done|]. by constructor.
    + by apply (manned_set i t).
    + apply Hph.
  - rewrite (set_stack_eq i t) by done. unfold still, set_threads, set_pool, set_inflight, with_tasks. cbn. cbn in *.
    destruct (Hph []) as [_ Hq]. rewrite !sum_snoc, ?length_app. cbn.
    split; [|lia]. split; cbn; rewrite ?sum_snoc, ?length_app; cbn; try done; try lia.
    + apply Forall_app. split; [done|]. by constructor.
    + apply Forall_insert; [done|]. by constructor.
    + by apply (manned_set i t).
    + apply Hph.
Qed.

Lemma frame_sound messages i t f below s s' : sound messages s -> fs_threads s !! i = Some t -> th_stack t = f :: below ->
  step_frame i f below s = Some s' -> sound messages s' /\ still s' < still s.
Proof.
  intros Hs Hi Hst Hstep. pose proof (proj1 (Forall_lookup _ _) (so_threads _ _ Hs) i t Hi) as Ht.
  unfold thread_ok in Ht. rewrite Hst in Ht. apply Forall_cons in Ht as [[(w & Hw & Hp) _] _].
  unfold step_frame in Hstep. rewrite Hw in Hstep. destruct w as [|tail rest|]; [| |done]; injection Hstep as <-.
  - by apply (finish_sound messages i t f).
  - by apply (resume_sound messages i t f).
Qed.

Lemma source_sound messages s s' : sound messages s -> step_source s = Some s' -> sound messages s' /\ still s' < still s.
Proof.
  intros [Hcalm Hpl Htk Hth Hin Hrun Hsent Hman Hdr Hq] Hstep. unfold step_source in Hstep.
  destruct (fs_stop s) eqn:Hp; try done. destruct (fs_source s) as [|w rest] eqn:Es; [done|].
  rewrite Hcalm in Hstep. destruct (Nat.ltb _ _); [|done]. injection Hstep as <-. apply Forall_app in Hpl as [Hps Hpi].
  apply Forall_cons in Hps as [Hw Hps]. unfold still. rewrite Es, Hp. cbn. rewrite !sum_snoc. split; [|lia].
  split; cbn; rewrite ?sum_snoc; try done; try lia.
  - apply Forall_app. split; [done|]. apply Forall_app. split; [done|]. by constructor.
  - rewrite <-Hsent, <-app_assoc. done.
Qed.

Lemma stop_sound messages s s' : sound messages s -> step_stop s = Some s' -> sound messages s' /\ still s' < still s.
Proof.
  intros [Hcalm Hpl Htk Hth Hin Hrun Hsent Hman Hdr Hq] Hstep. unfold step_stop in Hstep. rewrite Hcalm in Hstep.
  unfold still. destruct (fs_stop s) eqn:Hp; cbn in Hdr, Hq.
  - injection Hstep as <-. cbn. split; [|lia]. split; cbn; (done || lia).
  - destruct (bool_decide _ && idle SourceWorker s) eqn:E; [|done]. injection Hstep as <-.
    apply andb_true_iff in E as [E1%bool_decide_eq_true E2]. rewrite idle_spec in E2. cbn. split; [|lia].
    split; cbn; try done; try lia. intros _. split; [by destruct (fs_in s)|done].
  - injection Hstep as <-. cbn. split; [|lia]. split; cbn; try done; try lia. intros _. apply Hdr. lia.
  - destruct (Nat.eqb_spec (fs_inflight s) 0) as [H0|]; [|done]. injection Hstep as <-. cbn. split; [|lia].
    destruct (Hdr ltac:(lia)) as [Hempty Hidle]. split; cbn; try done; try lia. intros _.
    assert (po_tasks (fs_pool s) = []) as Htasks by (destruct (po_tasks (fs_pool s)); [done|cbn in Hin; lia]).
    split; [done|]. intros t Ht. destruct (th_role t) eqn:Hr; [by apply Hidle|].
    pose proof (proj1 (Forall_forall _ _) Hth t Ht) as Hok. unfold thread_ok in Hok. rewrite Hr in Hok.
    destruct (th_stack t) as [|f below] eqn:Hst; [done|]. exfalso.
    apply Forall_cons in Hok as [[_ [Hc|[? _]]] _]; [|done]. apply list_elem_of_lookup in Ht as [i Hi].
    pose proof (over_set counted_frame i t [] _ Hi) as H. rewrite Hst in H. cbn in H. unfold counted_frame at 2 in H.
    rewrite Hc in H. lia.
  - destruct (bool_decide _ && idle PoolWorker s) eqn:E; [|done]. injection Hstep as <-. cbn. split; [|lia].
    split; cbn; try done; try lia; intros _; [apply Hdr; lia|apply Hq; lia].
  - done.
Qed.

Lemma system_sound messages s s' : sound messages s -> system_step s s' -> sound messages s' /\ still s' < still s.
Proof.
  intros Hs [[i| |] Hstep]; cbn in Hstep.
  - unfold step_thread in Hstep. rewrite (so_calm _ _ Hs) in Hstep. destruct (fs_threads s !! i) as [t|] eqn:Hi; [|done].
    destruct (th_stack t) as [|f below] eqn:Hst; [by eapply take_sound|by eapply frame_sound].
  - by apply source_sound.
  - by apply stop_sound.
Qed.

(** Only a flow that has stopped has nothing left to do. *)
Definition stopped (messages : list work) (s : flow_state) : Prop :=
  fs_stop s = PoolStopped /\ fs_panicked s = false /\ fs_in s = [] /\ po_tasks (fs_pool s) = [] /\ fs_inflight s = 0 /\
  (forall t, t ∈ fs_threads s -> th_stack t = []) /\ fs_accepted s ++ fs_source s = messages /\
  fs_finished s = sum_list_with runs (fs_accepted s).

Lemma busy_steps messages s : sound messages s -> (forall t, t ∈ fs_threads s -> th_stack t = []) \/ red system_step s.
Proof.
  intros Hs. destruct (decide (Forall (fun t => th_stack t = []) (fs_threads s))) as [H|H].
  { left. by rewrite Forall_forall in H. }
  right. apply not_Forall_Exists in H; [|apply _]. apply Exists_exists in H as (t & Ht & Hne).
  destruct (th_stack t) as [|f below] eqn:Hst; [by destruct Hne|]. apply list_elem_of_lookup in Ht as [i Hi].
  pose proof (proj1 (Forall_lookup _ _) (so_threads _ _ Hs) i t Hi) as Hok. unfold thread_ok in Hok. rewrite Hst in Hok.
  apply Forall_cons in Hok as [[(w & Hw & Hp) _] _].
  assert (exists s', step_frame i f below s = Some s') as [s' Hs'].
  { unfold step_frame. rewrite Hw. destruct w; [by eexists|by eexists|done]. }
  exists s', (Thread i). cbn. unfold step_thread. by rewrite (so_calm _ _ Hs), Hi, Hst.
Qed.

Lemma system_progress messages s : sound messages s -> stopped messages s \/ red system_step s.
Proof.
  intros Hs. destruct (busy_steps messages s Hs) as [Hidle|]; [|by right]. pose proof (so_calm _ _ Hs) as Hcalm.
  assert (forall s', step_stop s = Some s' -> red system_step s) as Hstop by (intros s' H; by exists s', TheStopper).
  assert (forall r, idle r s = true) as Hi by (intros r; apply idle_spec; intros; by apply Hidle).
  assert (over_frames counted_frame (fs_threads s) = 0) as Hc0 by (by apply over_nothing).
  assert (forall r s', (forall i, take_work i r s = Some (s' i)) -> red system_step s) as Htake.
  { intros r s' H. destruct (so_manned _ _ Hs r) as (i & t & Ht & <-). exists (s' i), (Thread i). cbn. unfold step_thread.
    rewrite Hcalm, Ht, (Hidle t) by (by eapply list_elem_of_lookup_2). apply H. }
  unfold step_stop in Hstop. rewrite Hcalm in Hstop. destruct (fs_stop s) eqn:Hp.
  - right. by eapply Hstop.
  - right. destruct (fs_in s) as [|w rest] eqn:Ein; [rewrite Hi in Hstop; by eapply Hstop|].
    eapply (Htake SourceWorker). intros i. unfold take_work. by rewrite Ein.
  - right. by eapply Hstop.
  - right. destruct (po_tasks (fs_pool s)) as [|t rest] eqn:Etk.
    + pose proof (so_inflight _ _ Hs) as Hin. rewrite Etk, Hc0 in Hin. cbn in Hin. rewrite Hin in Hstop. by eapply Hstop.
    + eapply (Htake PoolWorker). intros i. unfold take_work. by rewrite Etk.
  - right. destruct (so_quiet _ _ Hs) as [Htk _]; [rewrite Hp; cbn; lia|]. rewrite Htk, Hi in Hstop. by eapply Hstop.
  - left. destruct (so_quiet _ _ Hs) as [Htk _]; [rewrite Hp; cbn; lia|].
    destruct (so_drained _ _ Hs) as [Hin _]; [rewrite Hp; cbn; lia|].
    pose proof (so_inflight _ _ Hs) as Hinf. pose proof (so_runs _ _ Hs) as Hr. rewrite Htk, Hc0 in Hinf. rewrite Htk, Hin in Hr.
    rewrite (over_nothing frame_runs) in Hr by done. cbn in Hinf, Hr. unfold stopped. split_and!; try done; [apply (so_sent _ _ Hs)|lia].
Qed.

Lemma started_sound messages buffer workers w q : 0 < workers -> Forall (fun m => plain m = true) messages ->
  sound messages (started messages buffer workers (New w q)).
Proof.
  intros Hw Hpl. unfold started. assert (0 < po_workers (New w q)) as Hpw.
  { unfold New, pool_defaultWorkers. cbn. destruct (Z.leb_spec w 0); lia. }
  assert (forall t, t ∈ replicate workers (mkThread SourceWorker []) ++ replicate (po_workers (New w q)) (mkThread PoolWorker []) ->
    th_stack t = []) as Hidle by (by intros t [[-> _]%elem_of_replicate|[-> _]%elem_of_replicate]%elem_of_app).
  split; cbn [fs_panicked fs_source fs_in fs_pool fs_threads fs_inflight fs_finished fs_accepted fs_stop phase_left]; try done; try lia.
  - by rewrite app_nil_r.
  - apply Forall_forall. intros t Ht. unfold thread_ok. by rewrite (Hidle t Ht).
  - by rewrite over_nothing.
  - by rewrite over_nothing.
  - intros [].
    + exists 0, (mkThread SourceWorker []). split; [|done]. by destruct workers; [lia|].
    + exists workers, (mkThread PoolWorker []). split; [|done].
      rewrite lookup_app_r, length_replicate, Nat.sub_diag by (rewrite length_replicate; lia).
      by destruct (po_workers (New w q)); [lia|].
Qed.

(** C27: a flow that took its runs apart drains, however its goroutines are
    scheduled and whenever it is stopped.  Without forks, every run of the
    system ends, and it ends with [stop] returned: every message the source got
    to send has been run, with every tail it resumed and every tail those
    resumed, exactly once; nothing is in flight, queued or on a goroutine, and
    nothing panicked on a closed pool. *)
Theorem resume_drains messages buffer workers w q :
  0 < workers -> Forall (fun m => plain m = true) messages ->
  sn system_step (started messages buffer workers (New w q)) /\
  forall s, rtc system_step (started messages buffer workers (New w q)) s -> nf system_step s -> stopped messages s.
Proof.
  intros Hw Hpl. apply (run_settles _ (sound messages) (stopped messages) still).
  - apply system_sound.
  - apply system_progress.
  - by apply started_sound.
Qed.

(** * Forks *)
Lemma run_schedule_rtc schedule s s' : run_schedule schedule s = Some s' -> rtc system_step s s'.
Proof.
  revert s. induction schedule as [|a schedule IH]; intros s; cbn; [by intros [= ->]|].
  destruct (act a s) as [s1|] eqn:E; [|done]. intros H. eapply rtc_l; [by exists a|]. by apply IH.
Qed.

(** A split over [n] elements with [tail] after it. *)
Definition split_over (n : nat) (tail : work) : work := Nat.iter n (Resuming tail) Finish.
(** A tail with a fork of one branch in it. *)
Definition forking : work := Scattering [Finish] Finish.

Definition defaults (messages : list work) : flow_state := started messages 64 8 (New 0 0).

(** The source worker resumes eight elements; each pool worker takes one, gets
    to its fork, queues the branch and waits for it. *)
Definition starving : list actor :=
  TheSource :: replicate 10 (Thread 0) ++ flat_map (fun i => replicate 4 (Thread i)) (seq 8 8) ++ replicate 3 TheStopper.
(** The source worker fills the queue, runs the next element itself, and gets to
    its fork. *)
Definition overfull : list actor := TheSource :: replicate 68 (Thread 0).

(** C28: a fork after a split can bring the flow down.  The tails a split resumes
    run on the pool, and a fork inside one submits its branches to the same
    pool and waits.  With the default sizes there is a schedule of eight elements
    in which every pool worker waits for a branch nobody is left to run: no step
    is possible, and [stop] never returns.  There is a schedule of sixty-five
    elements in which the tails fill the queue and the fork panics. *)
Theorem fork_in_a_tail :
  (exists s, rtc system_step (defaults [split_over 8 forking]) s /\ nf system_step s /\
     fs_stop s = BlocksStopped /\ fs_inflight s = 8 /\ length (po_tasks (fs_pool s)) = 8) /\
  (exists s, rtc system_step (defaults [split_over 65 forking]) s /\ fs_panicked s = true).
Proof.
  split.
  - destruct (run_schedule starving (defaults [split_over 8 forking])) as [s|] eqn:E; [|by vm_compute in E].
    exists s. split; [by eapply run_schedule_rtc|]. vm_compute in E. injection E as <-. split_and!; try reflexivity.
    intros [s' [[i| |] H]]; cbn in H; [|discriminate H|discriminate H].
    do 16 (destruct i as [|i]; [discriminate H|]). unfold step_thread in H. cbn in H. discriminate H.
  - destruct (run_schedule overfull (defaults [split_over 65 forking])) as [s|] eqn:E; [|by vm_compute in E].
    exists s. split; [by eapply run_schedule_rtc|]. vm_compute in E. by injection E as <-.
Qed.

(** A split over two elements, whose tails split again. *)
Lemma resume_drains_witness :
  let messages := [split_over 2 (split_over 1 Finish)] in
  sn system_step (started messages 1 1 (New 1 1)) /\
  forall s, rtc system_step (started messages 1 1 (New 1 1)) s -> nf system_step s -> fs_stop s = PoolStopped.
Proof.
  intros messages. destruct (resume_drains messages 1 1 1 1) as [Hsn H]; [lia|by repeat constructor|].
  split; [exact Hsn|]. intros s Hrun Hnf. exact (proj1 (H s Hrun Hnf)).
Defined.
