(* ===== verification/Registry.v ===== *)
(** Calling a flow by name: [core/eventbus.go], [core/runtime/flowregistry.go]
    and [core/runtime/implicitsource.go].

    The registry is one state behind a mutex; every operation on it, and every
    operation on a channel, is one atomic step.  A call is parked between its
    steps, so it is modelled with what the rest of the program does meanwhile as
    an argument: a list of operations, any of which may come from anywhere. *)
From S2P Require Import Prelude GoStr Message Store Engine.
From Stdlib Require Import String.
#[local] Open Scope string_scope.
#[local] Open Scope Z_scope.

(** * types/event.go *)
Inductive FlowEventKind : Type := FlowEventStarted | FlowEventCompleted | FlowEventDropped | FlowEventFailed.
#[global] Instance FlowEventKind_eq_dec : EqDecision FlowEventKind.
Proof. solve_decision. Defined.

Record FlowEvent : Type := mkFlowEvent {
  fe_Kind : FlowEventKind;
  fe_Flow : string;
  fe_EventID : string;
  fe_TraceID : string;
  fe_OccurredAt : Z;
  fe_Duration : Z;
  fe_Err : option goerr;
  fe_Block : string;
  fe_Result : option nat;      (** a message, by pointer *)
}.

(** * eventbus.go: handlers are called in turn, on the publisher's goroutine *)
Section bus.
Context {H : Type}.
Record EventBus : Type := mkEventBus {
  eb_nextID : Z;
  eb_subscribers : list (Z * H);
}.
Definition NewEventBus : EventBus := mkEventBus 0 [].

(** The bus and the id the returned function unsubscribes; a nil handler is not
    subscribed. *)
Definition Subscribe (handler : option H) (b : EventBus) : EventBus * option Z :=
  match handler with
  | None => (b, None)
  | Some h => (mkEventBus ((eb_nextID b + 1) `mod` 2 ^ 64) (eb_subscribers b ++ [(eb_nextID b, h)]), Some (eb_nextID b))
  end.
Fixpoint remove_first (id : Z) (l : list (Z * H)) : list (Z * H) :=
  match l with
  | [] => []
  | s :: l => if s.1 =? id then l else s :: remove_first id l
  end.
Definition unsubscribe (id : Z) (b : EventBus) : EventBus := mkEventBus (eb_nextID b) (remove_first id (eb_subscribers b)).
End bus.
Arguments EventBus : clear implicits.

Definition Publish {U} (b : EventBus (FlowEvent -> M U unit)) (e : FlowEvent) : M U unit :=
  foldr (fun s rest => s.2 e ≫= fun _ => rest) (mret tt) (eb_subscribers b).

(** * flowregistry.go *)
Record callResult : Type := mkCallResult { cr_msg : option nat; cr_err : option goerr }.
#[global] Instance callResult_eq_dec : EqDecision callResult.
Proof. solve_decision. Defined.

(** The input channel of a flow. *)
Record channel : Type := mkChannel { ch_capacity : nat; ch_items : list nat; ch_closed : bool }.

(** [chans] and [pending] of the registry, with the channels they point at: a
    reply channel holds one result at most. *)
Record flowRegistry : Type := mkRegistry {
  rg_chans : gmap string nat;
  rg_pending : gmap string nat;
  rg_inputs : gmap nat channel;
  rg_replies : gmap nat (option callResult);
  rg_next : nat;
}.
Definition newFlowRegistry : flowRegistry := mkRegistry ∅ ∅ ∅ ∅ 0.

Definition with_chans (c : gmap string nat) (r : flowRegistry) : flowRegistry :=
  mkRegistry c (rg_pending r) (rg_inputs r) (rg_replies r) (rg_next r).
Definition with_pending (p : gmap string nat) (r : flowRegistry) : flowRegistry :=
  mkRegistry (rg_chans r) p (rg_inputs r) (rg_replies r) (rg_next r).
Definition with_inputs (i : gmap nat channel) (r : flowRegistry) : flowRegistry :=
  mkRegistry (rg_chans r) (rg_pending r) i (rg_replies r) (rg_next r).
Definition with_replies (m : gmap nat (option callResult)) (r : flowRegistry) : flowRegistry :=
  mkRegistry (rg_chans r) (rg_pending r) (rg_inputs r) m (rg_next r).

Definition register_flow (name : string) (ch : nat) (r : flowRegistry) : res flowRegistry :=
  if String.eqb name "" then Err (ErrMsg "a callable flow requires a name")
  else match rg_chans r !! name with
       | Some _ => Err (ErrMsg ("flow " ++ quote name ++ " is already registered"))
       | None => Ok (with_chans (<[name := ch]> (rg_chans r)) r)
       end.
Definition deregister (name : string) (r : flowRegistry) : flowRegistry := with_chans (delete name (rg_chans r)) r.
Definition lookup_flow (name : string) (r : flowRegistry) : option nat := rg_chans r !! name.

Definition track_call (eventID : string) (r : flowRegistry) : flowRegistry * nat :=
  (mkRegistry (rg_chans r) (<[eventID := rg_next r]> (rg_pending r)) (rg_inputs r)
     (<[rg_next r := None]> (rg_replies r)) (S (rg_next r)), rg_next r).
Definition forget_call (eventID : string) (r : flowRegistry) : flowRegistry := with_pending (delete eventID (rg_pending r)) r.

Definition call_result (ev : FlowEvent) : callResult :=
  match fe_Kind ev with
  | FlowEventCompleted => mkCallResult (fe_Result ev) None
  | FlowEventFailed => mkCallResult None (fe_Err ev)
  | _ => mkCallResult None None
  end.
(** The send that never blocks: a reply channel that is full keeps what it has. *)
Definition offer (reply : nat) (res : callResult) (r : flowRegistry) : flowRegistry :=
  match rg_replies r !! reply with
  | Some None => with_replies (<[reply := Some res]> (rg_replies r)) r
  | _ => r
  end.
Definition onFlowEvent (ev : FlowEvent) (r : flowRegistry) : flowRegistry :=
  if decide (fe_Kind ev = FlowEventStarted) then r
  else match rg_pending r !! fe_EventID ev with
       | None => r
       | Some reply => offer reply (call_result ev) r
       end.

(** Channels of flows: one is made, received from, closed. *)
Definition make_input (capacity : nat) (r : flowRegistry) : flowRegistry * nat :=
  (mkRegistry (rg_chans r) (rg_pending r) (<[rg_next r := mkChannel capacity [] false]> (rg_inputs r))
     (rg_replies r) (S (rg_next r)), rg_next r).
Definition receive_input (ch : nat) (r : flowRegistry) : flowRegistry * option nat :=
  match rg_inputs r !! ch with
  | Some (mkChannel cap (m :: items) closed) => (with_inputs (<[ch := mkChannel cap items closed]> (rg_inputs r)) r, Some m)
  | _ => (r, None)
  end.
Definition close_input (ch : nat) (r : flowRegistry) : flowRegistry :=
  match rg_inputs r !! ch with
  | Some c => with_inputs (<[ch := mkChannel (ch_capacity c) (ch_items c) true]> (rg_inputs r)) r
  | None => r
  end.

Definition errFlowGone : goerr := ErrMsg "target flow is shutting down".
Definition not_registered (name : string) : goerr := ErrMsg ("flow " ++ quote name ++ " is not registered").

(** [Send]: the lookup and then the select, which takes [ctx.Done()] when the
    context is cancelled with [cancelled]; [None] while it blocks. *)
Definition Send_to (ch : nat) (name : string) (msg : nat) (cancelled : option goerr) (r : flowRegistry) : option (flowRegistry * res unit) :=
  match cancelled with
  | Some e => Some (r, Err (ErrWrap ("send to flow " ++ quote name ++ ": ") e ""))
  | None =>
      match rg_inputs r !! ch with
      | None => None
      | Some c =>
          if ch_closed c then Some (r, Err (ErrWrap ("send to flow " ++ quote name ++ ": ") errFlowGone ""))
          else if Nat.ltb (List.length (ch_items c)) (ch_capacity c)
          then Some (with_inputs (<[ch := mkChannel (ch_capacity c) (ch_items c ++ [msg])%list false]> (rg_inputs r)) r, Ok tt)
          else None
      end
  end.

(** * What else happens meanwhile *)
Inductive op : Type :=
  | ORegister (name : string) (ch : nat)
  | ODeregister (name : string)
  | OTrack (eventID : string)
  | OForget (eventID : string)
  | OTakeReply (reply : nat)
  | OEvent (ev : FlowEvent)
  | OSend (ch : nat) (name : string) (msg : nat)
  | OReceive (ch : nat)
  | OMake (capacity : nat)
  | OClose (ch : nat).
Definition apply_op (r : flowRegistry) (o : op) : flowRegistry :=
  match o with
  | ORegister name ch => match register_flow name ch r with Ok r' => r' | Err _ => r end
  | ODeregister name => deregister name r
  | OTrack eventID => (track_call eventID r).1
  | OForget eventID => forget_call eventID r
  | OTakeReply reply =>
      match rg_replies r !! reply with Some (Some _) => with_replies (<[reply := None]> (rg_replies r)) r | _ => r end
  | OEvent ev => onFlowEvent ev r
  | OSend ch name msg => match Send_to ch name msg None r with Some (r', _) => r' | None => r end
  | OReceive ch => (receive_input ch r).1
  | OMake capacity => (make_input capacity r).1
  | OClose ch => close_input ch r
  end.
Definition perform (ops : list op) (r : flowRegistry) : flowRegistry := foldl apply_op r ops.

(** [Call], with what happens before the flow is looked up, between the lookup
    and the send, and while the caller is parked; [sent] and [parked] are the
    errors of the context when the select takes its end instead.  [None] is a
    caller that is still blocked. *)
Definition Call (name eventID : string) (msg : nat) (before1 before2 meanwhile : list op) (sent parked : option goerr)
    (r : flowRegistry) : flowRegistry * option (res (option nat)) :=
  let '(r, reply) := track_call eventID r in
  let r := perform before1 r in
  match lookup_flow name r with
  | None => (forget_call eventID r, Some (Err (not_registered name)))
  | Some ch =>
      let r := perform before2 r in
      match Send_to ch name msg sent r with
      | None => (r, None)
      | Some (r, Err e) => (forget_call eventID r, Some (Err e))
      | Some (r, Ok tt) =>
          let r := perform meanwhile r in
          match parked, rg_replies r !! reply with
          | Some e, _ => (forget_call eventID r, Some (Err (ErrWrap ("call flow " ++ quote name ++ ": ") e "")))
          | None, Some (Some res) =>
              (forget_call eventID (with_replies (<[reply := None]> (rg_replies r)) r),
               Some (match cr_err res with Some e => Err e | None => Ok (cr_msg res) end))
          | None, _ => (r, None)
          end
      end
  end.

(** * implicitsource.go *)
Record implicitSource : Type := mkImplicitSource { is_name : string; is_out : nat }.
Definition implicit_Start (s : implicitSource) (r : flowRegistry) : res flowRegistry := register_flow (is_name s) (is_out s) r.
Definition implicit_Stop (s : implicitSource) (r : flowRegistry) : flowRegistry := deregister (is_name s) r.

#[local] Arguments Send_to : simpl never.
#[local] Arguments onFlowEvent : simpl never.
#[local] Arguments register_flow : simpl never.
#[local] Arguments receive_input : simpl never.
#[local] Arguments close_input : simpl never.

(** * Lemmas *)
Lemma perform_app ops1 ops2 r : perform (ops1 ++ ops2) r = perform ops2 (perform ops1 r).
Proof. apply foldl_app. Qed.

(** A call is made of operations like any other, so another call sees it as
    such. *)
Lemma call_is_operations name eventID msg before1 before2 meanwhile sent parked r :
  exists ops, (Call name eventID msg before1 before2 meanwhile sent parked r).1 = perform (OTrack eventID :: ops) r.
Proof.
  unfold Call. destruct (track_call eventID r) as [r1 reply] eqn:Et.
  assert (forall ops, perform (OTrack eventID :: ops) r = perform ops r1) as Hops by (intros ops; unfold perform; cbn [foldl apply_op]; by rewrite Et).
  setoid_rewrite Hops. destruct (lookup_flow name _) as [ch|].
  2:{ exists (before1 ++ [OForget eventID])%list. by rewrite perform_app. }
  destruct (Send_to ch name msg sent _) as [[r2 [[]|e]]|] eqn:Es.
  - destruct sent as [e|]; [done|].
    assert (perform (before1 ++ before2 ++ [OSend ch name msg] ++ meanwhile)%list r1 = perform meanwhile r2) as Hm.
    { rewrite !perform_app. f_equal. unfold perform at 1. cbn [foldl apply_op]. by rewrite Es. }
    destruct parked as [e|].
    { exists ((before1 ++ before2 ++ [OSend ch name msg] ++ meanwhile) ++ [OForget eventID])%list. by rewrite perform_app, Hm. }
    destruct (rg_replies (perform meanwhile r2) !! reply) as [[res|]|] eqn:Er.
    + exists ((before1 ++ before2 ++ [OSend ch name msg] ++ meanwhile) ++ [OTakeReply reply; OForget eventID])%list.
      rewrite perform_app, Hm. set (r3 := perform meanwhile r2) in *. unfold perform. cbn [foldl apply_op fst]. by rewrite Er.
    + eexists. by rewrite Hm.
    + eexists. by rewrite Hm.
  - exists (before1 ++ before2 ++ [OForget eventID])%list. rewrite !perform_app. set (r3 := perform before2 _) in *. unfold perform. cbn [foldl apply_op fst]. f_equal.
    unfold Send_to in Es.
    destruct sent; [by simplify_eq|]. destruct (rg_inputs _ !! ch) as [c|]; [|done].
    destruct (ch_closed c); [by simplify_eq|]. by destruct (Nat.ltb _ _).
  - exists (before1 ++ before2)%list. by rewrite perform_app.
Qed.

Definition registry_wf (r : flowRegistry) : Prop := forall e reply, rg_pending r !! e = Some reply -> (reply < rg_next r)%nat.

Lemma Send_to_fields ch name msg c r r' x : Send_to ch name msg c r = Some (r', x) ->
  rg_chans r' = rg_chans r /\ rg_pending r' = rg_pending r /\ rg_replies r' = rg_replies r /\ rg_next r' = rg_next r.
Proof.
  unfold Send_to. destruct c; [by intros [= <- <-]|]. destruct (rg_inputs r !! ch) as [c|]; [|done].
  destruct (ch_closed c); [by intros [= <- <-]|]. destruct (Nat.ltb _ _); [by intros [= <- <-]|done].
Qed.

Lemma offer_fields reply res r : rg_pending (offer reply res r) = rg_pending r /\ rg_next (offer reply res r) = rg_next r.
Proof. unfold offer. by destruct (rg_replies r !! reply) as [[]|]. Qed.

(** Only tracking and forgetting move what is pending, and nothing numbers a
    channel twice. *)
Lemma apply_op_pending r o :
  (rg_next r <= rg_next (apply_op r o))%nat /\
  rg_pending (apply_op r o) = match o with
    | OTrack e => <[e := rg_next r]> (rg_pending r)
    | OForget e => delete e (rg_pending r)
    | _ => rg_pending r
    end.
Proof.
  destruct o; cbn; try (split; [lia|done]).
  - unfold register_flow. destruct (String.eqb name ""); [done|]. by destruct (rg_chans r !! name).
  - by destruct (rg_replies r !! reply) as [[]|].
  - unfold onFlowEvent. case_decide; [done|]. destruct (rg_pending r !! _) as [reply|]; [|done].
    destruct (offer_fields reply (call_result ev) r) as [-> ->]. done.
  - destruct (Send_to ch name msg None r) as [[r' x]|] eqn:E; [|done]. by apply Send_to_fields in E as (_ & -> & _ & ->).
  - unfold receive_input. by destruct (rg_inputs r !! ch) as [[? [|? ?] ?]|].
  - unfold close_input. by destruct (rg_inputs r !! ch).
Qed.

Lemma perform_wf ops r : registry_wf r -> registry_wf (perform ops r).
Proof.
  revert r. induction ops as [|o ops IH]; intros r Hr; [done|]. apply IH. intros e reply.
  destruct (apply_op_pending r o) as [Hn ->]. destruct o; intros H; try (specialize (Hr e reply H); lia).
  - cbn. apply lookup_insert_Some in H as [[_ <-]|[_ H]]; [lia|]. specialize (Hr e reply H). lia.
  - apply lookup_delete_Some in H as [_ H]. specialize (Hr e reply H). lia.
Qed.

(** * A parked call *)
Definition terminal (e : string) (o : op) : option callResult :=
  match o with
  | OEvent ev => if decide (fe_Kind ev ≠ FlowEventStarted /\ fe_EventID ev = e) then Some (call_result ev) else None
  | _ => None
  end.
(** The outcome of the first terminal event of an invocation. *)
Definition first_outcome (e : string) (ops : list op) : option callResult := head (omap (terminal e) ops).
(** What nobody but the call itself does: event ids of calls are drawn at random
    and its reply channel is its own. *)
Definition leaves_call (e : string) (reply : nat) (o : op) : Prop :=
  match o with
  | OTrack e' | OForget e' => e' ≠ e
  | OTakeReply reply' => reply' ≠ reply
  | _ => True
  end.

Record parked_on (e : string) (reply : nat) (got : option callResult) (r : flowRegistry) : Prop := {
  po_pending : rg_pending r !! e = Some reply;
  po_reply : rg_replies r !! reply = Some got;
  po_alone : forall e', rg_pending r !! e' = Some reply -> e' = e;
  po_next : (reply < rg_next r)%nat;
}.

Lemma parked_step e reply got r o : parked_on e reply got r -> leaves_call e reply o ->
  parked_on e reply (match got with Some x => Some x | None => terminal e o end) (apply_op r o).
Proof.
  intros [Hp Hr Ha Hn] Hl. destruct (apply_op_pending r o) as [Hn' Hp'].
  assert (rg_pending (apply_op r o) !! e = Some reply /\ forall e', rg_pending (apply_op r o) !! e' = Some reply -> e' = e) as [Hpe Hae].
  { rewrite Hp'. destruct o; try done; cbn in Hl.
    - split; [by rewrite lookup_insert_ne|]. intros e' [[-> Heq]|[_ H]]%lookup_insert_Some; [lia|by apply Ha].
    - split; [by rewrite lookup_delete_ne|]. intros e' [_ H]%lookup_delete_Some. by apply Ha. }
  split; [done| |done|lia]. clear Hp' Hpe Hae Hn'.
  assert (match got with Some x => Some x | None => None end = got) as Hgot by by destruct got.
  destruct o; cbn; rewrite ?Hgot; try done.
  - unfold register_flow. destruct (String.eqb name ""); [done|]. by destruct (rg_chans r !! name).
  - rewrite lookup_insert_ne; [done|lia].
  - cbn in Hl. destruct (rg_replies r !! reply0) as [[]|]; [|done..]. cbn. by rewrite lookup_insert_ne.
  - unfold onFlowEvent. case_decide as Hk.
    { rewrite decide_False by tauto. by rewrite Hgot. }
    destruct (rg_pending r !! fe_EventID ev) as [reply'|] eqn:Ev.
    + destruct (decide (reply' = reply)) as [->|Hne].
      * apply Ha in Ev as Hid. unfold offer. rewrite Hr. destruct got; cbn; [done|]. rewrite lookup_insert_eq.
        by rewrite decide_True.
      * rewrite decide_False by (intros [_ Heq]; rewrite Heq in Ev; congruence). rewrite Hgot.
        unfold offer. destruct (rg_replies r !! reply') as [[]|]; [done| |done]. cbn. by rewrite lookup_insert_ne.
    + rewrite decide_False by (intros [_ Heq]; rewrite Heq in Ev; congruence). by rewrite Hgot.
  - destruct (Send_to ch name msg None r) as [[r' x]|] eqn:E; [|done]. by apply Send_to_fields in E as (_ & _ & -> & _).
  - unfold receive_input. by destruct (rg_inputs r !! ch) as [[? [|? ?] ?]|].
  - unfold close_input. by destruct (rg_inputs r !! ch).
Qed.

Lemma parked_run e reply got ops r : parked_on e reply got r -> Forall (leaves_call e reply) ops ->
  parked_on e reply (match got with Some x => Some x | None => first_outcome e ops end) (perform ops r).
Proof.
  intros H Hops. revert got r H. induction Hops as [|o ops Ho _ IH]; intros got r H; cbn; [by destruct got|].
  specialize (IH _ _ (parked_step _ _ _ _ _ H Ho)). unfold first_outcome in *. cbn.
  destruct got; [done|]. by destruct (terminal e o).
Qed.

(** A send that cannot go ahead. *)
Definition send_blocks (ch : nat) (r : flowRegistry) : Prop :=
  match rg_inputs r !! ch with
  | None => True
  | Some c => ch_closed c = false /\ (ch_capacity c <= List.length (ch_items c))%nat
  end.

(** C31: A call returns what its own invocation came to, whatever else runs.  From
    any state the registry can reach, and with anything happening between the
    steps of the call that does not use its event id or its reply channel (other
    calls under way among it), a call that returns without an error returns the
    message of the first terminal event published for its event id since it
    began, or no message when the flow dropped it; an error is the error of that
    event, or says that the flow is not registered, could not be sent to, or
    that the caller's context ended; and a call still blocked has seen no such
    event, or is waiting for room in the flow's channel.  A call that returned
    has left nothing behind under its event id. *)
Theorem call_answered (history before1 before2 meanwhile : list op) (name eventID : string) (msg : nat) (sent parked : option goerr)
    (Hown : Forall (leaves_call eventID (rg_next (perform history newFlowRegistry))) (before1 ++ before2 ++ meanwhile)) :
  let outcome := first_outcome eventID (before1 ++ before2 ++ meanwhile) in
  match Call name eventID msg before1 before2 meanwhile sent parked (perform history newFlowRegistry) with
  | (r, Some (Ok out)) => outcome = Some (mkCallResult out None) /\ rg_pending r !! eventID = None
  | (r, Some (Err e)) => rg_pending r !! eventID = None /\
      ((exists res, outcome = Some res /\ cr_err res = Some e) \/ e = not_registered name \/
       (exists x, e = ErrWrap ("send to flow " ++ quote name ++ ": ") x "" /\ (sent = Some x \/ x = errFlowGone)) \/
       (exists x, parked = Some x /\ e = ErrWrap ("call flow " ++ quote name ++ ": ") x ""))
  | (r, None) => rg_pending r !! eventID = Some (rg_next (perform history newFlowRegistry)) /\
      ((parked = None /\ outcome = None) \/
       exists ch, lookup_flow name (perform before1 (track_call eventID (perform history newFlowRegistry)).1) = Some ch /\ sent = None /\ send_blocks ch r)
  end.
Proof.
  set (r0 := perform history newFlowRegistry) in *. cbv zeta. unfold Call. cbn [track_call].
  assert (registry_wf r0) as Hwf by (apply perform_wf; intros e reply H; cbn in H; by rewrite lookup_empty in H).
  assert (parked_on eventID (rg_next r0) None (track_call eventID r0).1) as Hpark.
  { split; cbn; [apply lookup_insert_eq|apply lookup_insert_eq| |lia].
    intros e' [[-> _]|[_ H]]%lookup_insert_Some; [done|]. specialize (Hwf _ _ H). lia. }
  cbn [track_call fst] in Hpark. apply Forall_app in Hown as [H1 [H2 H3]%Forall_app].
  pose proof (parked_run _ _ _ _ _ Hpark H1) as P1. pose proof (parked_run _ _ _ _ _ P1 H2) as P2.
  set (r1 := perform before1 _) in *. destruct (lookup_flow name r1) as [ch|] eqn:Ech.
  2:{ split; [apply lookup_delete_eq|]. by right; left. }
  set (r2 := perform before2 r1) in *. destruct (Send_to ch name msg sent r2) as [[r3 [[]|e]]|] eqn:Es.
  - assert (parked_on eventID (rg_next r0) (first_outcome eventID (before1 ++ before2)) r3) as P3.
    { apply Send_to_fields in Es as (_ & Hp & Hr & Hn). destruct P2 as [A B C D].
      split; rewrite ?Hp, ?Hr, ?Hn; [done| |done|done]. rewrite B. f_equal. unfold first_outcome.
      rewrite omap_app. by destruct (omap _ before1). }
    pose proof (parked_run _ _ _ _ _ P3 H3) as [Pp Pr _ _]. clear P1 P2 P3.
    assert ((match first_outcome eventID (before1 ++ before2) with Some x => Some x | None => first_outcome eventID meanwhile end)
      = first_outcome eventID (before1 ++ before2 ++ meanwhile)) as Hout.
    { unfold first_outcome. rewrite app_assoc, (omap_app _ (before1 ++ before2)%list). by destruct (omap _ (before1 ++ before2)%list). }
    rewrite Hout in Pr. destruct parked as [e|].
    { split; [apply lookup_delete_eq|]. right; right; right. by exists e. }
    rewrite Pr. destruct (first_outcome eventID (before1 ++ before2 ++ meanwhile)) as [[m [e|]]|].
    + split; [apply lookup_delete_eq|]. left. eexists; split; [done|done].
    + split; [done|apply lookup_delete_eq].
    + split; [done|by left].
  - split; [apply lookup_delete_eq|]. right; right; left. unfold Send_to in Es. destruct sent as [x|].
    { injection Es as <- <-. exists x. split; [done|by left]. }
    destruct (rg_inputs r2 !! ch) as [c|]; [|done]. destruct (ch_closed c).
    + injection Es as <- <-. exists errFlowGone. split; [done|by right].
    + by destruct (Nat.ltb _ _).
  - split; [by destruct P2|]. right. exists ch. unfold Send_to in Es. destruct sent; [done|].
    split; [done|]. split; [done|]. unfold send_blocks.
    destruct (rg_inputs r2 !! ch) as [c|]; [|done]. destruct (ch_closed c); [done|]. split; [done|].
    destruct (Nat.ltb_spec (List.length (ch_items c)) (ch_capacity c)); [done|lia].
Qed.

(** Two calls of one flow at once: the first is answered by its own event, not
    by the earlier one of the other. *)
Lemma call_answered_witness :
  let ev id m := OEvent (mkFlowEvent FlowEventCompleted "f" id "" 0 0 None "" (Some m)) in
  (Call "f" "a" 7 [OTrack "b"] [] [OSend 0 "f" 8; OReceive 0; OReceive 0; ev "b" 8%nat; ev "a" 9%nat] None None
     (perform [OMake 4; ORegister "f" 0] newFlowRegistry)).2 = Some (Ok (Some 9%nat)).
Proof.
  cbv zeta.
  pose proof (call_answered [OMake 4; ORegister "f" 0] [OTrack "b"] []
    [OSend 0 "f" 8; OReceive 0; OReceive 0; OEvent (mkFlowEvent FlowEventCompleted "f" "b" "" 0 0 None "" (Some 8%nat));
     OEvent (mkFlowEvent FlowEventCompleted "f" "a" "" 0 0 None "" (Some 9%nat))] "f" "a" 7 None None
    ltac:(repeat constructor; done)) as H.
  cbv zeta in H. destruct (Call _ _ _ _ _ _ _ _ _) as [r [[out|e]|]] eqn:E.
  - destruct H as [H _]. vm_compute in H. injection H as <-. reflexivity.
  - vm_compute in E. discriminate E.
  - vm_compute in E. discriminate E.
Defined.
