(* ===== verification/BoundFlow.v ===== *)
(** A message through a bound flow: [run], [traceID] and [publish] of
    [core/runtime/boundflow.go] with its defaults and the start and stop of its
    blocks, [core/runtime/capacity.go], and the flow-ref block of
    [blocks/builtin/flowref.go] that calls one flow from another.

    The workers, the queue and the order of a shutdown are in [Pool], the
    registry a call goes through in [Registry]; here is what one run does and
    what its caller learns of it. *)
From S2P Require Import Prelude GoStr Message Config Store BlockEvents Engine Debug Builder Ownership Registry.
From Stdlib Require Import String Ascii.
#[local] Open Scope string_scope.
#[local] Open Scope Z_scope.

(** * Sizes *)
Definition defaultWorkers : Z := 8.
Definition defaultBuffer : Z := 64.
Definition workersPerProc : Z := 4.
Definition resolveWorkers (configured gomaxprocs : Z) : Z :=
  if 0 <? configured then configured else Z.max defaultWorkers (wrap64 (gomaxprocs * workersPerProc)).
Definition resolveBuffer (configured workers : Z) : Z :=
  if 0 <? configured then configured else Z.max defaultBuffer workers.
Definition workersOrigin (derived : bool) : string := if derived then "derived" else "configured".

(** * capacity.go *)
Record Capacity : Type := mkCapacity { cap_Limit : Z; cap_Setting : string }.
Record capacityBound : Type := mkCapacityBound { cb_component : string; cb_capacity : Capacity }.
Record capacityCheck : Type := mkCapacityCheck { ck_bounds : list capacityBound; ck_seen : gset string }.
Definition newCapacityCheck : capacityCheck := mkCapacityCheck [] ∅.
(** [add]: [reported] is what the component reports, if it can. *)
Definition capacity_add (component : string) (reported : option Capacity) (c : capacityCheck) : capacityCheck :=
  match reported with
  | None => c
  | Some capacity =>
      if decide (component ∈ ck_seen c) then c
      else mkCapacityCheck
             (ck_bounds c ++ (if 0 <? cap_Limit capacity then [mkCapacityBound component capacity] else []))%list
             ({[component]} ∪ ck_seen c)
  end.
(** [lookup]: a connector the wrapped lookup finds is recorded. *)
Definition capacity_lookup {C} (capacity_of : C -> option Capacity) (next : string -> option C) (name : string) (c : capacityCheck)
  : capacityCheck * option C :=
  match next name with
  | Some conn => (capacity_add name (capacity_of conn) c, Some conn)
  | None => (c, None)
  end.
Definition overCapacity (workers : Z) (bounds : list capacityBound) : list capacityBound :=
  filter (fun b => cap_Limit (cb_capacity b) < workers) bounds.

(** * boundflow.go *)
Section bound.
Context {U : Type}.

Record boundFlow : Type := mkBoundFlow {
  bf_name : string;
  bf_root : Flow U;
  bf_errorPath : option (Flow U);
  bf_bus : option (EventBus (FlowEvent -> M U unit));
}.

Definition lifecycleProcessors (bf : boundFlow) : list (lifecycle U) :=
  (LifecycleProcessors (bf_root bf) ++ from_option LifecycleProcessors [] (bf_errorPath bf))%list.
Fixpoint start_all (name : string) (procs : list (lifecycle U)) : M U unit :=
  match procs with
  | [] => mret tt
  | proc :: procs => wrapping ("flow " ++ quote name ++ ": start block: ") (Start proc) ≫= fun _ => start_all name procs
  end.
Definition startProcessors (bf : boundFlow) : M U unit := start_all (bf_name bf) (lifecycleProcessors bf).
(** [errors.Join]: nil for no error, and the texts on lines of their own. *)
Definition Join (errs : list goerr) : res unit :=
  match errs with [] => Ok tt | _ => Err (ErrMsg (join (String "010"%char "") (map error_text errs))) end.
Fixpoint stop_all (name : string) (procs : list (lifecycle U)) (errs : list goerr) : M U unit :=
  match procs with
  | [] => lift (Join errs)
  | proc :: procs =>
      r ← attempt (Stop proc);
      stop_all name procs (match r with Ok _ => errs | Err e => errs ++ [ErrWrap ("flow " ++ quote name ++ ": stop block: ") e ""] end)%list
  end.
Definition stopProcessors (bf : boundFlow) : M U unit := stop_all (bf_name bf) (lifecycleProcessors bf) [].

(** [tracing]: whether the process's tracer is enabled. *)
Definition traceID (tracing : bool) (msg : nat) : M U string :=
  m ← load msg;
  if negb tracing || negb (String.eqb (TraceID m) "") then mret (TraceID m)
  else
    id ← draw_id;
    match EnsureTraceID id m with
    | Ok (id, m) => update msg (fun _ => m) ≫= fun _ => mret id
    | Err _ => mret ""
    end.

Record flowOutcome : Type := mkFlowOutcome {
  fo_kind : FlowEventKind;
  fo_eventID : string;
  fo_traceID : string;
  fo_elapsed : Z;
  fo_err : option goerr;
  fo_result : option nat;
}.
Definition flow_event (name : string) (at_ : Z) (o : flowOutcome) : FlowEvent :=
  mkFlowEvent (fo_kind o) name (fo_eventID o) (fo_traceID o) at_ (fo_elapsed o) (fo_err o)
    (from_option FailingBlock "" (fo_err o)) (fo_result o).
Definition publish (bf : boundFlow) (o : flowOutcome) : M U unit :=
  match bf_bus bf with
  | None => mret tt
  | Some bus => at_ ← now; Publish bus (flow_event (bf_name bf) at_ o)
  end.

Definition terminal_outcome (eventID traceID : string) (elapsed : Z) (msg : nat) (r : res (option nat)) : flowOutcome :=
  match r with
  | Err e => mkFlowOutcome FlowEventFailed eventID traceID elapsed (Some e) (Some msg)
  | Ok None => mkFlowOutcome FlowEventDropped eventID traceID elapsed None (Some msg)
  | Ok (Some out) => mkFlowOutcome FlowEventCompleted eventID traceID elapsed None (Some out)
  end.

(** [run]: [proc] is the root flow, or the tail of it. *)
Definition run_message (tracing : bool) (bf : boundFlow) (msg : nat) (proc : processor U) : M U unit :=
  trace ← traceID tracing msg;
  m ← load msg;
  publish bf (mkFlowOutcome FlowEventStarted (EventID m) trace 0 None None) ≫= fun _ =>
  started ← now;
  r ← attempt (proc msg);
  r ← match r, bf_errorPath bf with
      | Err e, Some errorPath =>
          SetErrorVariable msg (bf_name bf) e ≫= fun _ =>
          alt ← attempt (Process errorPath msg);
          mret (match alt with
                | Err altErr => Err (ErrWrap "error path: " altErr "")
                | Ok out => Ok out
                end)
      | r, _ => mret r
      end;
  ended ← now;
  m ← load msg;
  publish bf (terminal_outcome (EventID m) trace (ended - started) msg r).
Definition handle (tracing : bool) (bf : boundFlow) (msg : nat) : M U unit := run_message tracing bf msg (Process (bf_root bf)).
End bound.
Arguments boundFlow : clear implicits.

(** * flowref.go *)
Definition json_bool (v : option any) : res bool :=
  match v with
  | None | Some ANil => Ok false
  | Some (ABool b) => Ok b
  | Some v => json_mismatch v "bool"
  end.
Record flowRefSettings : Type := mkFlowRefSettings { fs_Flow : string; fs_OneWay : bool }.
Definition decode_flowRef (raw : Settings) : res flowRefSettings :=
  decode_settings (
    flow ← json_string (raw !! "flow");
    oneWay ← json_bool (raw !! "oneWay");
    mret (mkFlowRefSettings flow oneWay)).

Section flow_ref.
Context {U : Type}.

Definition rekey (l : nat) : M U unit :=
  id ← draw_id;
  m ← load l;
  match Rekey id m with Ok (_, m) => update l (fun _ => m) | Err e => fail e end.

Definition flow_ref_error (flow : string) : string := "flow-ref " ++ quote flow ++ ": ".
Definition flowRef_Process (caller : FlowCaller U) (flow : string) (oneWay : bool) : processor U := fun msg =>
  sub ← clone_msg msg;
  wrapping (flow_ref_error flow) (rekey sub) ≫= fun _ =>
  if oneWay then wrapping (flow_ref_error flow) (caller_Send caller flow sub) ≫= fun _ => mret (Some msg)
  else
    result ← wrapping (flow_ref_error flow) (caller_Call caller flow sub);
    match result with
    | None => mret (Some msg)
    | Some result =>
        r ← load result;
        update msg (fun m => set_vars (fun vs => Vars r ∪ vs) (set_body (Body r) (RawContent r) m)) ≫= fun _ =>
        mret (Some msg)
    end.

Definition newFlowRef : BlockFactory U := fun raw deps =>
  cfg ← decode_flowRef raw;
  if String.eqb (fs_Flow cfg) "" then Err (ErrMsg "flow-ref requires a flow name")
  else match d_Flows deps with
       | None => Err (ErrMsg "flow-ref requires a flow caller (not available in this context)")
       | Some caller => Ok (leaf (flowRef_Process caller (fs_Flow cfg) (fs_OneWay cfg)))
       end.
End flow_ref.

(** * What a caller learns of a run *)

(** What a flow makes of a message: its root chain, and the error path when that
    fails. *)
Definition with_recovery {U} (name : string) (proc : processor U) (errorPath : option (processor U)) : processor U := fun msg =>
  r ← attempt (proc msg);
  match r, errorPath with
  | Ok out, _ => mret out
  | Err e, None => fail e
  | Err e, Some errorPath => SetErrorVariable msg name e ≫= fun _ => wrapping "error path: " (errorPath msg)
  end.

Definition answer (r : res (option nat)) : callResult :=
  match r with
  | Ok out => mkCallResult out None
  | Err e => mkCallResult None (Some e)
  end.

Lemma terminal_answer eventID trace elapsed msg r name at_ :
  call_result (flow_event name at_ (terminal_outcome eventID trace elapsed msg r)) = answer r.
Proof. by destruct r as [[]|]. Qed.

(** The trace id is the only thing a run writes before its flow begins. *)
Lemma traceID_spec {U} tracing msg (w : world U) : exists w' t,
  traceID tracing msg w = (w', Ok t) /\ usr w' = usr w /\ EventID (peek w' msg) = EventID (peek w msg) /\
  (forall k, k ≠ msg -> heap w' !! k = heap w !! k) /\ (tracing = false -> heap w' = heap w).
Proof.
  unfold traceID, load, mbind, M_bind, SM_bind. set (m := peek w msg).
  destruct (negb tracing || negb (String.eqb (TraceID m) "")) eqn:E; [by eexists _, _|].
  apply orb_false_iff in E as [Et%negb_false_iff Ei%negb_false_iff]. unfold draw_id, EnsureTraceID. rewrite Ei. cbn.
  destruct (ids w (idn w)) as [id|]; cbn; [|by eexists _, _].
  eexists _, _. split; [reflexivity|]. split; [done|]. cbn. unfold peek. cbn. rewrite lookup_insert_eq. split; [done|].
  split; [intros k Hk; by rewrite lookup_insert_ne|]. by rewrite Et.
Qed.
Section answering.
Context {U : Type} (reg : U -> flowRegistry) (put : flowRegistry -> U -> U).
Context (Hput : forall r u, reg (put r u) = r).

(** The registry's subscription: [onFlowEvent] under the mutex. *)
Definition registry_handler : FlowEvent -> M U unit := fun ev w =>
  (with_usr (put (onFlowEvent ev (reg (usr w))) (usr w)) w, Ok tt).

(** A subscriber that leaves the registry and the messages alone. *)
Definition quiet_handler (h : FlowEvent -> M U unit) : Prop := forall ev w,
  exists w', h ev w = (w', Ok tt) /\ reg (usr w') = reg (usr w) /\ heap w' = heap w.

Lemma publish_quiet subs ev w : Forall (fun s : Z * (FlowEvent -> M U unit) => quiet_handler s.2) subs ->
  exists w', Publish (mkEventBus 0 subs) ev w = (w', Ok tt) /\ reg (usr w') = reg (usr w) /\ heap w' = heap w.
Proof.
  intros H. revert w. induction H as [|s subs Hs _ IH]; intros w; [by exists w|].
  destruct (Hs ev w) as (w1 & E1 & R1 & H1). destruct (IH w1) as (w2 & E2 & R2 & H2).
  exists w2. unfold Publish in *. cbn [eb_subscribers foldr] in *. unfold mbind, M_bind, SM_bind in *. rewrite E1, E2. by rewrite R2, H2.
Qed.

Lemma publish_app n (subs1 subs2 : list (Z * (FlowEvent -> M U unit))) ev w :
  Publish (mkEventBus n (subs1 ++ subs2)) ev w =
  (Publish (mkEventBus n subs1) ev ≫= fun _ => Publish (mkEventBus n subs2) ev) w.
Proof.
  unfold Publish. cbn [eb_subscribers]. revert w. induction subs1 as [|s subs1 IH]; intros w; [done|].
  cbn [app foldr]. unfold mbind, M_bind, SM_bind in *. destruct (s.2 ev w) as [w1 [[]|e]]; [apply IH|done].
Qed.

(** The bus of a service: the registry is one of its subscribers. *)
Definition subscribed (bus : EventBus (FlowEvent -> M U unit)) : Prop :=
  exists subs1 id subs2, eb_subscribers bus = (subs1 ++ (id, registry_handler) :: subs2)%list /\
    Forall (fun s => quiet_handler s.2) (subs1 ++ subs2).

Lemma publish_wired bus ev w : subscribed bus ->
  exists w', Publish bus ev w = (w', Ok tt) /\ reg (usr w') = onFlowEvent ev (reg (usr w)) /\ heap w' = heap w.
Proof.
  destruct bus as [n subs]. intros (subs1 & id & subs2 & Hsubs & [H1 H2]%Forall_app). cbn in Hsubs. subst subs.
  destruct (publish_quiet subs1 ev w H1) as (w1 & E1 & R1 & Hh1).
  set (w2 := (registry_handler ev w1).1). destruct (publish_quiet subs2 ev w2 H2) as (w3 & E3 & R3 & Hh3).
  exists w3. rewrite publish_app. change (Publish (mkEventBus n subs1)) with (Publish (mkEventBus 0 subs1)).
  unfold mbind, M_bind, SM_bind. rewrite E1.
  assert (Publish (mkEventBus n ((id, registry_handler) :: subs2)) ev w1 = Publish (mkEventBus 0 subs2) ev w2) as -> by reflexivity.
  rewrite E3.
  split; [done|]. rewrite R3, Hh3. unfold w2, registry_handler. cbn. by rewrite Hput, R1, Hh1.
Qed.

(** A processor that leaves a parked call to be answered by the run: other calls
    may be made and answered, and the message keeps its event id. *)
Definition leaves_parked (e : string) (reply msg : nat) (p : processor U) : Prop := forall w,
  parked_on e reply None (reg (usr w)) -> EventID (peek w msg) = e ->
  parked_on e reply None (reg (usr (p msg w).1)) /\ EventID (peek (p msg w).1 msg) = e.

Lemma parked_answered e reply r ev : parked_on e reply None r -> fe_Kind ev ≠ FlowEventStarted -> fe_EventID ev = e ->
  parked_on e reply (Some (call_result ev)) (onFlowEvent ev r).
Proof.
  intros H Hk He. pose proof (parked_step e reply None r (OEvent ev) H I) as Hs. unfold terminal in Hs.
  by rewrite decide_True in Hs by done.
Qed.

Lemma set_error_spec l name err (w : world U) : exists w',
  SetErrorVariable l name err w = (w', Ok tt) /\ usr w' = usr w /\ EventID (peek w' l) = EventID (peek w l).
Proof.
  unfold SetErrorVariable, update. eexists; split; [reflexivity|]. split; [done|]. unfold peek at 1. cbn [heap with_heap].
  by rewrite lookup_insert_eq.
Qed.

(** The end of a run, from the state the flow left. *)
Lemma run_ends bf bus e reply trace started msg r w :
  bf_bus bf = Some bus -> subscribed bus -> parked_on e reply None (reg (usr w)) -> EventID (peek w msg) = e ->
  exists w', (ended ← now; m ← load msg; publish bf (terminal_outcome (EventID m) trace (ended - started) msg r)) w = (w', Ok tt) /\
    parked_on e reply (Some (answer r)) (reg (usr w')) /\ heap w' = heap w.
Proof.
  intros Hbus Hw Hp He. unfold mbind, M_bind, SM_bind, now, load, publish. rewrite Hbus. unfold mbind, M_bind, SM_bind.
  cbn [heap next ids idn times clk usr obs].
  set (w1 := mkWorld (heap w) (next w) (ids w) (idn w) (times w) (S (S (clk w))) (usr w) (obs w)). 
  set (ev := flow_event (bf_name bf) (times w (S (clk w)))
    (terminal_outcome (EventID (peek w msg)) trace (times w (clk w) - started) msg r)).
  destruct (publish_wired bus ev w1 Hw) as (w2 & E & Hr & Hh). exists w2. split; [exact E|]. split; [|done]. rewrite Hr.
  assert (call_result ev = answer r) as <- by apply terminal_answer.
  apply parked_answered; [exact Hp|by destruct r as [[]|]|by destruct r as [[]|]].
Qed.

(** The beginning, up to the flow itself. *)
Lemma run_starts tracing (bf : boundFlow U) bus msg (proc : processor U) w : bf_bus bf = Some bus -> subscribed bus ->
  exists w1 trace started, reg (usr w1) = reg (usr w) /\ EventID (peek w1 msg) = EventID (peek w msg) /\
    (forall k, k ≠ msg -> heap w1 !! k = heap w !! k) /\ (tracing = false -> heap w1 = heap w) /\
    run_message tracing bf msg proc w = (
      r ← attempt (proc msg);
      r ← match r, bf_errorPath bf with
          | Err e, Some errorPath =>
              SetErrorVariable msg (bf_name bf) e ≫= fun _ =>
              alt ← attempt (Process errorPath msg);
              mret (match alt with Err altErr => Err (ErrWrap "error path: " altErr "") | Ok out => Ok out end)
          | r, _ => mret r
          end;
      ended ← now;
      m ← load msg;
      publish bf (terminal_outcome (EventID m) trace (ended - started) msg r)) w1.
Proof.
  intros Hbus Hwired. destruct (traceID_spec tracing msg w) as (wa & trace & Et & Eu & Ei & Ek & Eh).
  set (wb := mkWorld (heap wa) (next wa) (ids wa) (idn wa) (times wa) (S (clk wa)) (usr wa) (obs wa)).
  set (o := mkFlowOutcome FlowEventStarted (EventID (peek wa msg)) trace 0 None None).
  destruct (publish_wired bus (flow_event (bf_name bf) (times wa (clk wa)) o) wb Hwired) as (wc & Ep & Er & Ehc).
  set (w1 := mkWorld (heap wc) (next wc) (ids wc) (idn wc) (times wc) (S (clk wc)) (usr wc) (obs wc)).
  assert (heap w1 = heap wa) as Hh by exact Ehc. assert (reg (usr w1) = reg (usr wa)) as Hr by exact Er.
  exists w1, trace, (times wc (clk wc)). split; [by rewrite Hr, Eu|]. split; [unfold peek in *; by rewrite Hh|].
  split; [by setoid_rewrite Hh|]. split; [by rewrite Hh|].
  assert (publish bf o wa = (wc, Ok tt)) as Hpub by (unfold publish; rewrite Hbus; exact Ep).
  unfold run_message. unfold mbind at 1 2 3 4, M_bind at 1 2 3 4, SM_bind at 1 2 3 4. rewrite Et. cbn [load now].
  change (publish bf _ wa) with (publish bf o wa). rewrite Hpub. reflexivity.
Qed.

(** C30: Calling a flow is running it.  When the flow is run for a message whose
    call is parked, on a bus the registry is subscribed to, the run always ends,
    and the caller's reply channel then holds exactly what the root chain makes
    of the message, or the error path when that fails: the message it came to, a
    drop, or the error nothing handled, which is the error path's own when that
    failed too.  The blocks may call other flows meanwhile; apart from minting a
    trace id the flow starts from the state the run was entered in, and
    publishing touches no message. *)
Theorem call_runs_flow tracing (bf : boundFlow U) bus msg (proc : processor U) e reply w
    (Hbus : bf_bus bf = Some bus) (Hwired : subscribed bus)
    (Hid : EventID (peek w msg) = e) (Hparked : parked_on e reply None (reg (usr w)))
    (Hproc : leaves_parked e reply msg proc)
    (Herror : forall errorPath, bf_errorPath bf = Some errorPath -> leaves_parked e reply msg (Process errorPath)) :
  exists w1, reg (usr w1) = reg (usr w) /\ (forall k, k ≠ msg -> heap w1 !! k = heap w !! k) /\ (tracing = false -> heap w1 = heap w) /\
    let '(w2, r) := with_recovery (bf_name bf) proc (Process <$> bf_errorPath bf) msg w1 in
    exists w3, run_message tracing bf msg proc w = (w3, Ok tt) /\
      parked_on e reply (Some (answer r)) (reg (usr w3)) /\ heap w3 = heap w2.
Proof.
  destruct (run_starts tracing bf bus msg proc w Hbus Hwired) as (w1 & trace & started & Hreg & Hid1 & Hother & Hheap & ->).
  exists w1. split_and!; [done|done|done|]. unfold with_recovery, mbind, M_bind, SM_bind, attempt.
  pose proof (fun r w2 => run_ends bf bus e reply trace started msg r w2 Hbus Hwired) as Hend. unfold mbind, M_bind, SM_bind in Hend.
  destruct (Hproc w1) as [Hp1 He1]; [by rewrite Hreg|congruence|]. destruct (proc msg w1) as [w2 r]. cbn [fst] in Hp1, He1.
  destruct r as [out|err]; [by apply (Hend (Ok out) w2)|]. destruct (bf_errorPath bf) as [ep|]; cbn [fmap option_fmap option_map].
  2:{ by apply (Hend (Err err) w2). }
  destruct (set_error_spec msg (bf_name bf) err w2) as (w4 & -> & Hu4 & He4).
  destruct (Herror ep eq_refl w4) as [Hp5 He5]; [by rewrite Hu4|congruence|]. unfold wrapping.
  destruct (Process ep msg w4) as [w5 r5]. cbn [fst] in Hp5, He5. destruct r5 as [out|altErr]; cbn [wrap_err].
  - by apply (Hend (Ok out) w5).
  - by apply (Hend (Err (ErrWrap "error path: " altErr "")) w5).
Qed.
End answering.

(** A flow whose only block fails and whose error path answers: the caller gets
    the message, with the failure on it. *)
Section example.
#[local] Abbreviation U := flowRegistry.
Definition down_block : Block U := mkBlock "q" "sql" "" (fun _ => fail (ErrMsg "down")) None None.
Definition excuse : Block U := mkBlock "sorry" "set" "" (fun l => update l (SetBody (AStr "sorry")) ≫= fun _ => mret (Some l)) None None.
Definition orders : boundFlow U :=
  mkBoundFlow "orders" (mkFlow "orders" [down_block] "orders" None) (Some (mkFlow "orders" [excuse] "orders" None))
    (Some (mkEventBus 1 [(0, registry_handler (fun r => r) (fun r _ => r))])).
Definition called_world : world U :=
  mkWorld {[ 0%nat := mkMessage "id" "" ∅ ANil "" false false ]} 1 (fun _ => Some "trace") 0 (fun n => Z.of_nat n) 0
    (track_call "id" newFlowRegistry).1 (mkObserved [] 0 0).
End example.

Lemma call_runs_flow_witness :
  exists w, run_message true orders 0 (Process (bf_root orders)) called_world = (w, Ok tt) /\
    rg_replies (usr w) !! 0%nat = Some (Some (mkCallResult (Some 0%nat) None)) /\ Body (peek w 0) = AStr "sorry".
Proof.
  assert (parked_on "id" 0 None (usr called_world)) as Hpark.
  { split; [reflexivity|reflexivity| |cbn; lia]. cbn. intros e' H. destruct (decide (e' = "id")) as [->|Hne]; [reflexivity|].
    rewrite lookup_insert_ne in H by congruence. discriminate H. }
  destruct (call_runs_flow (fun r => r) (fun r _ => r) (fun r u => eq_refl) true orders
    (mkEventBus 1 [(0, registry_handler (fun r => r) (fun r _ => r))]) 0 (Process (bf_root orders)) "id" 0 called_world eq_refl)
    as (w1 & _ & _ & _ & H).
  - exists [], 0, []. split; [reflexivity|constructor].
  - reflexivity.
  - exact Hpark.
  - intros w Hp He. split; [exact Hp|exact He].
  - intros ep [= <-] w Hp He. unfold Process. cbn [f_Blocks process_blocks]. cbn.
    unfold mbind, M_bind, SM_bind, attempt, load, update, mret, M_ret, SM_ret.
    match goal with |- context [StopRequested ?m] => destruct (StopRequested m) end;
      (split; [exact Hp|cbn; unfold peek; cbn; rewrite lookup_insert_eq; exact He]).
  - destruct (with_recovery _ _ _ _ _) as [w2 r] eqn:E. destruct H as (w3 & Hrun & [_ Hr _ _] & Hh).
    exists w3. split; [exact Hrun|]. vm_compute in Hrun. injection Hrun as <-. split; reflexivity.
Defined.

(** * Calling from a flow *)

(** What a two-way flow-ref makes of the caller's message and the called flow's
    result. *)
Definition folded (m result : Message) : Message :=
  set_vars (fun vs => Vars result ∪ vs) (set_body (Body result) (RawContent result) m).

Lemma rekey_spec {U} l (w : world U) : rekey l w =
  match ids w (idn w) with
  | Some id => (with_heap (<[l := set_event_id id (peek w l)]> (heap w))
      (mkWorld (heap w) (next w) (ids w) (S (idn w)) (times w) (clk w) (usr w) (obs w)), Ok tt)
  | None => (mkWorld (heap w) (next w) (ids w) (S (idn w)) (times w) (clk w) (usr w) (obs w), Err eventIDError)
  end.
Proof. unfold rekey, mbind, M_bind, SM_bind, draw_id, load, Rekey. by destruct (ids w (idn w)). Qed.

(** A flow-ref hands the flow a message of its own and takes back only its
    answer.  The called flow gets a copy of the message under a fresh event id;
    when it fails the block fails with its error, when it drops the message
    nothing changes, and when it answers, the answer's body, with its raw-content
    mode, replaces the caller's and its variables are laid over the caller's.
    Until then the caller's message is exactly what it was, whatever the flow
    did, provided the call stays clear of messages that are not its own. *)
Theorem flow_ref_folds_back {U} (caller : FlowCaller U) flow msg (w : world U)
    (Hmsg : (msg < next w)%nat)
    (Hcaller : forall sub n, owns sub n (fun _ => True) (caller_Call caller flow sub)) :
  let sub := next w in
  match ids w (idn w) with
  | None => exists w', flowRef_Process caller flow false msg w = (w', Err (ErrWrap (flow_ref_error flow) eventIDError "")) /\
      peek w' msg = peek w msg
  | Some id => exists w1,
      peek w1 sub = set_event_id id (Clone (peek w msg)) /\ (forall k, k ≠ sub -> peek w1 k = peek w k) /\ usr w1 = usr w /\
      let '(w2, r) := caller_Call caller flow sub w1 in
      peek w2 msg = peek w msg /\
      exists w', flowRef_Process caller flow false msg w =
          (w', match r with Ok _ => Ok (Some msg) | Err e => Err (ErrWrap (flow_ref_error flow) e "") end) /\
        peek w' msg = match r with Ok (Some out) => folded (peek w msg) (peek w2 out) | _ => peek w msg end /\
        usr w' = usr w2
  end.
Proof.
  cbv zeta. set (sub := next w). unfold flowRef_Process, clone_msg, wrapping, mbind, M_bind, SM_bind, load, alloc.
  rewrite rekey_spec. cbn [ids idn heap next times clk usr obs]. fold sub.
  destruct (ids w (idn w)) as [id|]; cbn [wrap_err].
  2:{ eexists. split; [reflexivity|]. unfold peek. cbn. rewrite lookup_insert_ne; [done|lia]. }
  set (w1 := with_heap _ _). exists w1.
  assert (peek w1 sub = set_event_id id (Clone (peek w msg)) /\ forall k, k ≠ sub -> peek w1 k = peek w k) as [Hsub Hother].
  { unfold w1, peek. cbn. rewrite lookup_insert_eq. cbn. rewrite lookup_insert_eq. split; [done|].
    intros k Hk. by rewrite !lookup_insert_ne. }
  split; [done|]. split; [done|]. split; [done|].
  destruct (Hcaller sub (S sub) w1) as (Hn & Hk & _); [done|].
  destruct (caller_Call caller flow sub w1) as [w2 r]. cbn [fst snd] in Hn, Hk.
  assert (peek w2 msg = peek w msg) as Hm.
  { unfold peek at 1. rewrite Hk by (unfold mine; lia). apply Hother. lia. }
  split; [done|]. destruct r as [[out|]|e]; cbn [wrap_err].
  - eexists. split; [reflexivity|]. split; [|reflexivity]. unfold peek at 1. cbn. rewrite lookup_insert_eq. cbn. by rewrite Hm.
  - by exists w2.
  - by exists w2.
Qed.

(** The called flow answers "pong" and leaves a variable. *)
Definition pong : FlowCaller unit :=
  mkFlowCaller (fun _ k => update k (fun m => set_var "from" (AStr "pong") (SetBody (AStr "pong") m)) ≫= fun _ => mret (Some k))
    (fun _ _ => mret tt).
Definition ping_world : world unit :=
  mkWorld {[ 0%nat := mkMessage "a" "" {[ "mine" := ABool true ]} (AStr "ping") "" false false ]} 1 (fun _ => Some "b") 0
    (fun _ => 0) 0 tt (mkObserved [] 0 0).

Lemma flow_ref_folds_back_witness : exists w',
  flowRef_Process pong "f" false 0%nat ping_world = (w', Ok (Some 0%nat)) /\
  peek w' 0%nat = mkMessage "a" "" {[ "mine" := ABool true; "from" := AStr "pong" ]} (AStr "pong") "" false false.
Proof.
  destruct (flow_ref_folds_back pong "f" 0%nat ping_world) as (w1 & _ & _ & _ & H).
  - cbn. lia.
  - intros sub n. eapply owns_bind; [apply owns_update; left; reflexivity|]. intros ? _. apply owns_ret. exact I.
  - destruct (caller_Call pong "f" _ w1) as [w2 r] eqn:E. destruct H as (_ & w' & Hrun & Hm & _).
    exists w'. vm_compute in Hrun. destruct r as [[out|]|e]; [|injection E as _ E; discriminate E|discriminate Hrun].
    injection Hrun as <-. split; [reflexivity|]. vm_compute. reflexivity.
Defined.
