(* ===== verification/Leases.v ===== *)
(** Claims on a name that expire: [core/lease.go] and
    [services/standalone/leases.go].

    Every operation runs under one mutex, so it is one step on the state; the
    clock readings it takes are its arguments.  The renewal goroutine of a lease
    is its ticks, which may come late or not at all. *)
From S2P Require Import Prelude GoTime.
From Stdlib Require Import String.
#[local] Open Scope Z_scope.

(** * core/lease.go: durations are nanoseconds *)
Definition DefaultLeaseTTL : Z := 30 * Second.
Definition MinLeaseTTL : Z := Second.

Record LeaseConfig : Type := mkLeaseConfig { lc_TTL : Z }.
Abbreviation LeaseOption := (LeaseConfig -> LeaseConfig).
Definition WithLeaseTTL (d : Z) : LeaseOption := fun _ => mkLeaseConfig d.
Definition NewLeaseConfig (opts : list LeaseOption) : LeaseConfig :=
  let cfg := foldl (fun cfg opt => opt cfg) (mkLeaseConfig DefaultLeaseTTL) opts in
  if lc_TTL cfg <=? 0 then mkLeaseConfig DefaultLeaseTTL
  else if lc_TTL cfg <? MinLeaseTTL then mkLeaseConfig MinLeaseTTL
  else cfg.

(** [noopLeases]: a claim is granted whatever was claimed before; it is done once
    it is closed. *)
Record grantedLease : Type := mkGrantedLease { gl_done : bool }.
Definition noop_Acquire : grantedLease * bool := (mkGrantedLease false, true).
Definition granted_Close (l : grantedLease) : grantedLease := mkGrantedLease true.

(** * standalone/leases.go *)
Definition renewDivisor : Z := 3.

Record heldLease : Type := mkHeldLease {
  hl_name : string;
  hl_deadline : Z;
  hl_done : nat;          (** how often the channel was closed: twice is a panic *)
  hl_lost : bool;
  hl_every : Z;           (** the interval its renewal goroutine was started with *)
}.

(** The leases handed out, by pointer, and who holds each name. *)
Record leases : Type := mkLeases {
  ls_held : gmap string nat;
  ls_all : gmap nat heldLease;
  ls_next : nat;
}.
Definition newLeases : leases := mkLeases ∅ ∅ 0.

Definition loseLocked (h : heldLease) : heldLease :=
  if hl_lost h then h else mkHeldLease (hl_name h) (hl_deadline h) (S (hl_done h)) true (hl_every h).

(** [Acquire]: [now1] is the reading the holder's deadline is compared with,
    [now2] the one the new deadline counts from. *)
Definition Acquire (name : string) (opts : list LeaseOption) (now1 now2 : Z) (l : leases) : leases * option nat :=
  let cfg := NewLeaseConfig opts in
  let grant (l : leases) :=
    (mkLeases (<[name := ls_next l]> (ls_held l))
       (<[ls_next l := mkHeldLease name (now2 + lc_TTL cfg) 0 false (lc_TTL cfg `quot` renewDivisor)]> (ls_all l))
       (S (ls_next l)), Some (ls_next l)) in
  match ls_held l !! name with
  | None => grant l
  | Some current =>
      match ls_all l !! current with
      | None => grant l
      | Some h =>
          if now1 <? hl_deadline h then (l, None)
          else grant (mkLeases (ls_held l) (<[current := loseLocked h]> (ls_all l)) (ls_next l))
      end
  end.

Definition closeAll (l : leases) : leases :=
  mkLeases ∅ (map_imap (fun i h => Some (if bool_decide (ls_held l !! hl_name h = Some i) then loseLocked h else h)) (ls_all l)) (ls_next l).

Definition lease_Close (i : nat) (l : leases) : leases :=
  match ls_all l !! i with
  | None => l
  | Some h =>
      mkLeases (if decide (ls_held l !! hl_name h = Some i) then delete (hl_name h) (ls_held l) else ls_held l)
        (<[i := loseLocked h]> (ls_all l)) (ls_next l)
  end.

Definition lease_extend (i : nat) (ttl now : Z) (l : leases) : leases * bool :=
  match ls_all l !! i with
  | None => (l, false)
  | Some h =>
      if hl_lost h then (l, false)
      else (mkLeases (ls_held l)
              (<[i := mkHeldLease (hl_name h) (now + ttl) (hl_done h) (hl_lost h) (hl_every h)]> (ls_all l)) (ls_next l), true)
  end.
(** A tick of [renew]. *)
Definition renew_tick (i : nat) (now : Z) (l : leases) : leases :=
  match ls_all l !! i with
  | None => l
  | Some h => (lease_extend i (hl_every h * renewDivisor) now l).1
  end.

(** * Runs *)
Inductive lease_op : Type :=
  | LAcquire (name : string) (opts : list LeaseOption) (now1 now2 : Z)
  | LClose (i : nat)
  | LTick (i : nat) (now : Z)
  | LCloseAll.
Definition lease_apply (l : leases) (o : lease_op) : leases :=
  match o with
  | LAcquire name opts now1 now2 => (Acquire name opts now1 now2 l).1
  | LClose i => lease_Close i l
  | LTick i now => renew_tick i now l
  | LCloseAll => closeAll l
  end.
Definition lease_run (ops : list lease_op) (l : leases) : leases := foldl lease_apply l ops.

(** * The invariant *)

(** A lease is live exactly when it holds its name, its channel is closed exactly
    when it is not, and its interval is one a ticker accepts. *)
Record leases_wf (l : leases) : Prop := {
  lw_fresh : forall i h, ls_all l !! i = Some h -> (i < ls_next l)%nat;
  lw_held : forall name i, ls_held l !! name = Some i -> exists h, ls_all l !! i = Some h /\ hl_name h = name;
  lw_live : forall i h, ls_all l !! i = Some h -> (hl_lost h = false <-> ls_held l !! hl_name h = Some i);
  lw_done : forall i h, ls_all l !! i = Some h -> hl_done h = if hl_lost h then 1%nat else 0%nat;
  lw_every : forall i h, ls_all l !! i = Some h -> 0 < hl_every h;
}.

Lemma NewLeaseConfig_min opts : MinLeaseTTL <= lc_TTL (NewLeaseConfig opts).
Proof.
  unfold NewLeaseConfig. set (cfg := foldl _ _ opts). unfold MinLeaseTTL, DefaultLeaseTTL, Second.
  destruct (Z.leb_spec (lc_TTL cfg) 0); cbn; [lia|]. destruct (Z.ltb_spec (lc_TTL cfg) (10 ^ 9)); cbn; lia.
Qed.

(** The renewal moves the deadline by what the interval makes of the TTL. *)
Lemma renewal_bounds opts : let ttl := lc_TTL (NewLeaseConfig opts) in let every := ttl `quot` renewDivisor in
  0 < every /\ ttl - 2 <= every * renewDivisor <= ttl.
Proof.
  cbv zeta. pose proof (NewLeaseConfig_min opts) as H. unfold MinLeaseTTL, Second, renewDivisor in *.
  rewrite Z.quot_div_nonneg by lia. pose proof (Z.div_mod (lc_TTL (NewLeaseConfig opts)) 3). 
  pose proof (Z.mod_pos_bound (lc_TTL (NewLeaseConfig opts)) 3). lia.
Qed.

Lemma lose_spec h : hl_name (loseLocked h) = hl_name h /\ hl_lost (loseLocked h) = true /\ hl_every (loseLocked h) = hl_every h /\
  (hl_done h = (if hl_lost h then 1 else 0) -> hl_done (loseLocked h) = 1)%nat.
Proof. unfold loseLocked. destruct (hl_lost h) eqn:E; cbn; split_and!; naive_solver. Qed.

Lemma wf_new : leases_wf newLeases.
Proof. split; cbn; intros * H; by rewrite lookup_empty in H. Qed.

(** Handing out a lease on a name no live lease holds. *)
Lemma wf_grant name deadline every l l' :
  leases_wf l -> 0 < every -> ls_next l' = ls_next l -> ls_held l' = ls_held l ->
  (forall i h, ls_all l' !! i = Some h -> exists h0, ls_all l !! i = Some h0 /\
     h = if decide (ls_held l !! name = Some i) then loseLocked h0 else h0) ->
  (forall i h0, ls_all l !! i = Some h0 -> is_Some (ls_all l' !! i)) ->
  leases_wf (mkLeases (<[name := ls_next l']> (ls_held l'))
    (<[ls_next l' := mkHeldLease name deadline 0 false every]> (ls_all l')) (S (ls_next l'))).
Proof.
  intros [Hf Hh Hl Hd He] Hpos Hn Hheld Hall Hkeep. rewrite Hn, Hheld.
  assert (forall i h, ls_all l' !! i = Some h -> (i < ls_next l)%nat) as Hf'.
  { intros i h H. destruct (Hall i h H) as (h0 & H0 & _). by apply (Hf i h0). }
  assert (forall i h, ls_all l' !! i = Some h -> hl_lost h = false -> hl_name h ≠ name /\ ls_held l !! hl_name h = Some i) as Hlive.
  { intros i h H Hlost. destruct (Hall i h H) as (h0 & H0 & ->). case_decide as Hc; [by destruct (lose_spec h0) as (_ & ? & _); congruence|].
    assert (ls_held l !! hl_name h0 = Some i) as Hi by by apply (Hl i h0). split; [|done]. intros <-. done. }
  assert (forall i h, ls_all l' !! i = Some h -> hl_done h = (if hl_lost h then 1 else 0)%nat /\ 0 < hl_every h /\
    (ls_held l !! hl_name h = Some i -> hl_name h ≠ name -> hl_lost h = false)) as Hrest.
  { intros i h H. destruct (Hall i h H) as (h0 & H0 & ->). destruct (lose_spec h0) as (Hln & Hll & Hle & Hld).
    specialize (Hd i h0 H0). specialize (He i h0 H0). case_decide as Hc.
    - rewrite Hll, Hle, Hln. split_and!; [by apply Hld|done|]. intros Hi Hne. exfalso. apply Hne.
      destruct (Hh _ _ Hc) as (h1 & Hh1 & Hn1). congruence.
    - split_and!; [done|done|]. intros Hi _. by apply (Hl i h0). }
  split; cbn.
  - intros i h [[<- _]|[_ H]]%lookup_insert_Some; [lia|]. specialize (Hf' i h H). lia.
  - intros name' i [[<- <-]|[Hne H]]%lookup_insert_Some; [eexists; by rewrite lookup_insert_eq|].
    destruct (Hh name' i H) as (h0 & H0 & Hn0). destruct (Hkeep i h0 H0) as [h Hi]. exists h.
    rewrite lookup_insert_ne by (specialize (Hf i h0 H0); lia). split; [done|].
    destruct (Hall i h Hi) as (h1 & H1 & ->). assert (h1 = h0) as -> by congruence.
    case_decide; [destruct (lose_spec h0) as (-> & _)|]; done.
  - intros i h [[<- <-]|[Hne H]]%lookup_insert_Some; cbn; [by rewrite lookup_insert_eq|]. split.
    + intros Hlost. destruct (Hlive i h H Hlost). by rewrite lookup_insert_ne.
    + intros [[_ Heq]|[Hn' Hi]]%lookup_insert_Some; [congruence|]. by apply (Hrest i h H).
  - intros i h [[<- <-]|[Hne H]]%lookup_insert_Some; [done|]. by apply (Hrest i h H).
  - intros i h [[<- <-]|[Hne H]]%lookup_insert_Some; [done|]. by apply (Hrest i h H).
Qed.

Lemma wf_acquire name opts now1 now2 l : leases_wf l -> leases_wf (Acquire name opts now1 now2 l).1.
Proof.
  intros Hwf. unfold Acquire. destruct (renewal_bounds opts) as [Hpos _]. cbv zeta in Hpos.
  destruct (ls_held l !! name) as [current|] eqn:Ec.
  - destruct (lw_held l Hwf name current Ec) as (h & Hc & Hname). rewrite Hc. destruct (now1 <? hl_deadline h); [done|].
    cbn [fst]. apply (wf_grant name _ _ l (mkLeases (ls_held l) (<[current := loseLocked h]> (ls_all l)) (ls_next l))); try done; cbn.
    + intros i h' [[<- <-]|[Hne H]]%lookup_insert_Some.
      * exists h. split; [done|]. by rewrite decide_True.
      * exists h'. split; [done|]. rewrite decide_False; [done|]. rewrite Ec. congruence.
    + intros i h0 Hi. destruct (decide (current = i)) as [->|]; [by rewrite lookup_insert_eq; eexists|].
      by rewrite lookup_insert_ne, Hi by done; eexists.
  - cbn [fst]. apply (wf_grant name _ _ l l); try done.
    + intros i h H. exists h. split; [done|]. rewrite decide_False; [done|]. by rewrite Ec.
Qed.

(** Changing one lease in place, its name and interval kept. *)
Lemma wf_close i l : leases_wf l -> leases_wf (lease_Close i l).
Proof.
  intros Hwf. unfold lease_Close. destruct (ls_all l !! i) as [h|] eqn:Hi; [|done].
  destruct Hwf as [Hf Hh Hl Hd He]. destruct (lose_spec h) as (Hln & Hll & Hle & Hld).
  assert (forall name j, (if decide (ls_held l !! hl_name h = Some i) then delete (hl_name h) (ls_held l) else ls_held l) !! name = Some j
    <-> ls_held l !! name = Some j /\ j ≠ i) as Hheld.
  { intros name j. case_decide as Hc.
    - rewrite lookup_delete_Some. split; [|intros [H Hne]; split; [intros <-; congruence|done]].
      intros [Hne H]. split; [done|]. intros ->. destruct (Hh _ _ H) as (h1 & H1 & Hn1). congruence.
    - split; [|by intros [? _]]. intros H. split; [done|]. intros ->. destruct (Hh _ _ H) as (h1 & H1 & Hn1). congruence. }
  split; cbn.
  - intros j h' [[<- _]|[_ H]]%lookup_insert_Some; [by apply (Hf i h)|by apply (Hf j h')].
  - intros name j [H Hne]%Hheld. destruct (Hh name j H) as (h' & H' & Hn'). exists h'. by rewrite lookup_insert_ne.
  - intros j h' H'. rewrite Hheld. apply lookup_insert_Some in H' as [[<- <-]|[Hne H']].
    + rewrite Hll. split; [done|]. by intros [_ ?].
    + rewrite (Hl j h' H'). split; [by intros ?; split|by intros [? _]].
  - intros j h' [[<- <-]|[_ H]]%lookup_insert_Some; [rewrite Hll; by apply Hld, (Hd i)|by apply (Hd j)].
  - intros j h' [[<- <-]|[_ H]]%lookup_insert_Some; [rewrite Hle; by apply (He i)|by apply (He j)].
Qed.

Lemma wf_tick i now l : leases_wf l -> leases_wf (renew_tick i now l).
Proof.
  intros Hwf. unfold renew_tick, lease_extend. destruct (ls_all l !! i) as [h|] eqn:Hi; [|done].
  destruct (hl_lost h) eqn:Hlost; [done|]. destruct Hwf as [Hf Hh Hl Hd He]. cbn [fst].
  assert (forall j h', <[i := mkHeldLease (hl_name h) (now + hl_every h * renewDivisor) (hl_done h) false (hl_every h)]> (ls_all l) !! j = Some h' ->
    exists h0, ls_all l !! j = Some h0 /\ hl_name h' = hl_name h0 /\ hl_lost h' = hl_lost h0 /\ hl_done h' = hl_done h0 /\ hl_every h' = hl_every h0) as Hsame.
  { intros j h' [[<- <-]|[_ H]]%lookup_insert_Some; [exists h|exists h']; by rewrite ?Hlost. }
  split; cbn.
  - intros j h' (h0 & H0 & _)%Hsame. by apply (Hf j h0).
  - intros name j H. destruct (Hh name j H) as (h0 & H0 & Hn0). destruct (decide (i = j)) as [->|Hne].
    + eexists. rewrite lookup_insert_eq. split; [done|]. cbn. congruence.
    + exists h0. by rewrite lookup_insert_ne.
  - intros j h' (h0 & H0 & -> & -> & _)%Hsame. by apply Hl.
  - intros j h' (h0 & H0 & _ & -> & -> & _)%Hsame. by apply (Hd j).
  - intros j h' (h0 & H0 & _ & _ & _ & ->)%Hsame. by apply (He j h0).
Qed.

Lemma wf_closeAll l : leases_wf l -> leases_wf (closeAll l).
Proof.
  intros [Hf Hh Hl Hd He].
  assert (forall i h, ls_all (closeAll l) !! i = Some h -> exists h0, ls_all l !! i = Some h0 /\ hl_lost h = true /\
    hl_name h = hl_name h0 /\ hl_every h = hl_every h0 /\ hl_done h = 1%nat) as Hall.
  { intros i h H. cbn in H. rewrite map_lookup_imap in H. destruct (ls_all l !! i) as [h0|] eqn:Hi; [|done].
    cbn in H. injection H as <-. exists h0. split; [done|]. destruct (lose_spec h0) as (Hln & Hll & Hle & Hld). case_bool_decide as Hc.
    - split_and!; try done. by apply Hld, (Hd i).
    - assert (hl_lost h0 = true) as Hlost.
      { destruct (hl_lost h0) eqn:E; [done|]. by destruct Hc; apply (Hl i h0). }
      split_and!; try done. rewrite (Hd i h0 Hi). by rewrite Hlost. }
  split.
  - intros i h (h0 & H0 & _)%Hall. by apply (Hf i h0).
  - intros name i H. cbn in H. by rewrite lookup_empty in H.
  - intros i h (h0 & H0 & -> & _)%Hall. cbn. rewrite lookup_empty. split; [done|]. by intros [=].
  - intros i h (h0 & H0 & -> & _ & _ & ->)%Hall. done.
  - intros i h (h0 & H0 & _ & _ & -> & _)%Hall. by apply (He i h0).
Qed.

Lemma wf_run ops l : leases_wf l -> leases_wf (lease_run ops l).
Proof.
  revert l. induction ops as [|o ops IH]; intros l Hwf; [done|]. apply IH.
  destruct o; cbn; auto using wf_acquire, wf_close, wf_tick, wf_closeAll.
Qed.

(** C34: A name has one holder.  Whatever was acquired, closed, renewed and closed
    altogether before, at most one lease of a name is live, and a lease is told
    it is gone, once, exactly when it is.  Acquire refuses a name, changing
    nothing, only when a live lease on it has not reached its deadline;
    otherwise it hands out a new one with the TTL asked for (the default when
    none was, a second at least), the lease it displaces, if any, being past its
    deadline and told so, and every lease on another name is left as it was. *)
Theorem lease_exclusive (ops : list lease_op) :
  let l := lease_run ops newLeases in
  let live l i name h := ls_all l !! i = Some h /\ hl_name h = name /\ hl_lost h = false in
  (forall name i j h h', live l i name h -> live l j name h' -> i = j) /\
  (forall i h, ls_all l !! i = Some h -> hl_done h = if hl_lost h then 1%nat else 0%nat) /\
  forall name opts now1 now2,
    match Acquire name opts now1 now2 l with
    | (l', None) => l' = l /\ exists i h, live l i name h /\ now1 < hl_deadline h
    | (l', Some i) =>
        (exists h, live l' i name h /\ hl_deadline h = now2 + lc_TTL (NewLeaseConfig opts)) /\
        (forall j h, live l j name h -> hl_deadline h <= now1 /\ exists h', ls_all l' !! j = Some h' /\ hl_lost h' = true /\ hl_done h' = 1%nat) /\
        (forall j h, ls_all l !! j = Some h -> hl_name h ≠ name -> ls_all l' !! j = Some h)
    end.
Proof.
  cbv zeta. set (l := lease_run ops newLeases). assert (leases_wf l) as Hwf by apply wf_run, wf_new.
  destruct Hwf as [Hf Hh Hl Hd He]. split_and!.
  - intros name i j h h' (Hi & <- & Hlive) (Hj & Hn & Hlive'). apply (Hl i h Hi) in Hlive. apply (Hl j h' Hj) in Hlive'. congruence.
  - exact Hd.
  - intros name opts now1 now2. unfold Acquire. destruct (ls_held l !! name) as [current|] eqn:Ec.
    + destruct (Hh name current Ec) as (h & Hc & Hname). rewrite Hc.
      assert (hl_lost h = false) as Hlive by (apply (Hl current h Hc); congruence).
      destruct (Z.ltb_spec now1 (hl_deadline h)); [by split; [|exists current, h]|]. cbn. destruct (lose_spec h) as (Hln & Hll & _ & Hld).
      split_and!.
      * eexists. rewrite lookup_insert_eq. by split.
      * intros j hj (Hj & Hnj & Hlj). assert (j = current) as -> by (apply (Hl j hj Hj) in Hlj; congruence).
        assert (hj = h) as -> by congruence. split; [lia|]. exists (loseLocked h).
        rewrite lookup_insert_ne by (specialize (Hf _ _ Hc); lia). rewrite lookup_insert_eq. split_and!; [done|done|].
        by apply Hld, (Hd current).
      * intros j hj Hj Hnj. rewrite lookup_insert_ne by (specialize (Hf _ _ Hj); lia). rewrite lookup_insert_ne; [done|]. congruence.
    + cbn. split_and!.
      * eexists. rewrite lookup_insert_eq. by split.
      * intros j hj (Hj & Hnj & Hlj). apply (Hl j hj Hj) in Hlj. congruence.
      * intros j hj Hj Hnj. rewrite lookup_insert_ne; [done|]. specialize (Hf _ _ Hj). lia.
Qed.

(** Nobody asks for the name after the deadline the last renewal set, and nobody
    gives the lease up. *)
Fixpoint timely (i : nat) (name : string) (ttl deadline : Z) (ops : list lease_op) : Prop :=
  match ops with
  | [] => True
  | LAcquire name' _ now1 _ :: ops => (name' = name -> now1 < deadline) /\ timely i name ttl deadline ops
  | LClose j :: ops => j ≠ i /\ timely i name ttl deadline ops
  | LTick j now :: ops => timely i name ttl (if decide (j = i) then now + ttl else deadline) ops
  | LCloseAll :: _ => False
  end.

(** A holder that renews in time keeps its name. *)
Theorem renewed_lease_kept l ops i h (Hwf : leases_wf l)
    (Hi : ls_all l !! i = Some h) (Hlive : hl_lost h = false)
    (Htimely : timely i (hl_name h) (hl_every h * renewDivisor) (hl_deadline h) ops) :
  exists h', ls_all (lease_run ops l) !! i = Some h' /\ hl_lost h' = false /\ hl_name h' = hl_name h.
Proof.
  revert l h Hwf Hi Hlive Htimely. induction ops as [|o ops IH]; intros l h Hwf Hi Hlive Ht; [by exists h|].
  assert (leases_wf (lease_apply l o)) as Hwf' by (apply (wf_run [o] l Hwf)).
  assert (exists h1, ls_all (lease_apply l o) !! i = Some h1 /\ hl_lost h1 = false /\ hl_name h1 = hl_name h /\ hl_every h1 = hl_every h /\
    timely i (hl_name h1) (hl_every h1 * renewDivisor) (hl_deadline h1) ops) as (h1 & Hi1 & Hl1 & Hn1 & _ & Ht1).
  { destruct o as [name opts now1 now2|j|j now|]; cbn in Ht |- *; [destruct Ht as [Hname Ht]|destruct Ht as [Hj Ht]| |done].
    - exists h. split; [|done]. unfold Acquire. destruct (ls_held l !! name) as [current|] eqn:Ec.
      + destruct (lw_held l Hwf name current Ec) as (hc & Hc & Hnc). rewrite Hc. destruct (Z.ltb_spec now1 (hl_deadline hc)); [done|]. cbn.
        rewrite lookup_insert_ne by (pose proof (lw_fresh l Hwf _ _ Hi); lia). rewrite lookup_insert_ne; [done|].
        intros ->. assert (hc = h) as -> by congruence. specialize (Hname (eq_sym Hnc)). lia.
      + cbn. rewrite lookup_insert_ne; [done|]. pose proof (lw_fresh l Hwf _ _ Hi). lia.
    - exists h. split; [|done]. unfold lease_Close. destruct (ls_all l !! j); [|done]. cbn. by rewrite lookup_insert_ne.
    - unfold renew_tick, lease_extend. case_decide as Hj.
      + subst j. rewrite Hi, Hlive. cbn. eexists. rewrite lookup_insert_eq. split; [done|]. done.
      + exists h. split; [|done]. destruct (ls_all l !! j) as [hj|]; [|done]. destruct (hl_lost hj); [done|]. cbn.
        by rewrite lookup_insert_ne. }
  destruct (IH _ _ Hwf' Hi1 Hl1 Ht1) as (h' & ? & ? & ?). exists h'. split_and!; [done|done|congruence].
Qed.
