(* ===== verification/Queues.v ===== *)
(** Queues and topics: [core/queues.go], [core/topics.go] and their in-process
    implementation [services/standalone/queues.go] and [topics.go].

    A Go channel operation is one step.  What a listener does with a message is
    between its receive and its answer, so the envelopes being handled are part
    of the state, and listeners on one subject are the steps that receive from
    it, however many there are. *)
From S2P Require Import Prelude GoStr Message.
From Stdlib Require Import String.
#[local] Open Scope string_scope.
#[local] Open Scope Z_scope.

(** * core/queues.go *)
Definition DefaultListeners : Z := 8.
Definition DefaultRequestTimeout : Z := 30 * 1000000000.
Definition errNoQueues : goerr := ErrMsg "queues: no queue backend configured".
Definition errNoTopics : goerr := ErrMsg "topics: no topic backend configured".

Record SubscribeConfig : Type := mkSubscribeConfig { sb_Listeners : Z }.
Definition WithListeners (n : Z) : SubscribeConfig -> SubscribeConfig := fun _ => mkSubscribeConfig n.
Definition NewSubscribeConfig (opts : list (SubscribeConfig -> SubscribeConfig)) : SubscribeConfig :=
  let cfg := foldl (fun cfg opt => opt cfg) (mkSubscribeConfig DefaultListeners) opts in
  if sb_Listeners cfg <=? 0 then mkSubscribeConfig DefaultListeners else cfg.

Record RequestConfig : Type := mkRequestConfig { rq_Timeout : Z }.
Definition WithTimeout (d : Z) : RequestConfig -> RequestConfig := fun _ => mkRequestConfig d.
Definition NewRequestConfig (opts : list (RequestConfig -> RequestConfig)) : RequestConfig :=
  let cfg := foldl (fun cfg opt => opt cfg) (mkRequestConfig DefaultRequestTimeout) opts in
  if rq_Timeout cfg <=? 0 then mkRequestConfig DefaultRequestTimeout else cfg.

(** * standalone/queues.go *)
Definition queueBuffer : nat := 1024.
Definition errQueueFull : goerr := ErrMsg "queues: subject buffer full".
Definition errNoResponder : goerr := ErrMsg "queues: no reply before deadline".

Record envelope : Type := mkEnvelope { en_msg : Message; en_reply : option nat }.

(** The channels, a reply channel holding one message at most, and the envelopes
    the listeners are handling. *)
Record queues : Type := mkQueues {
  qu_subjects : gmap string (list envelope);
  qu_replies : gmap nat (option Message);
  qu_next : nat;
  qu_running : list envelope;
}.
Definition newQueues : queues := mkQueues ∅ ∅ 0 [].

(** [channel]: made on first use. *)
Definition subject_channel (subject : string) (q : queues) : list envelope := default [] (qu_subjects q !! subject).
Definition put_channel (subject : string) (c : list envelope) (q : queues) : queues :=
  mkQueues (<[subject := c]> (qu_subjects q)) (qu_replies q) (qu_next q) (qu_running q).

(** [cancelled]: the error of the context, when the select takes its end. *)
Definition enqueue (cancelled : option goerr) (subject : string) (env : envelope) (q : queues) : queues * res unit :=
  let ch := subject_channel subject q in
  match cancelled with
  | Some e => (put_channel subject ch q, Err (ErrWrap ("queues: enqueue " ++ quote subject ++ ": ") e ""))
  | None =>
      if Nat.ltb (List.length ch) queueBuffer then (put_channel subject (ch ++ [env])%list q, Ok tt)
      else (put_channel subject ch q, Err errQueueFull)
  end.
Definition queue_Publish (cancelled : option goerr) (subject : string) (msg : Message) (q : queues) : queues * res unit :=
  enqueue cancelled subject (mkEnvelope (Clone msg) None) q.

(** [Request], up to where it waits on the reply channel it returns here, ... *)
Definition Request (cancelled : option goerr) (subject : string) (msg : Message) (q : queues) : queues * res nat :=
  let reply := qu_next q in
  let q := mkQueues (qu_subjects q) (<[reply := None]> (qu_replies q)) (S reply) (qu_running q) in
  match enqueue cancelled subject (mkEnvelope (Clone msg) (Some reply)) q with
  | (q, Err e) => (q, Err e)
  | (q, Ok tt) => (q, Ok reply)
  end.
(** ... and the rest of it; [None] while it is parked. *)
Definition await_reply (expired : bool) (reply : nat) (q : queues) : queues * option (res Message) :=
  if expired then (q, Some (Err errNoResponder))
  else match qu_replies q !! reply with
       | Some (Some r) => (mkQueues (qu_subjects q) (<[reply := None]> (qu_replies q)) (qu_next q) (qu_running q), Some (Ok r))
       | _ => (q, None)
       end.

(** [consume]: a listener takes an envelope, and later what the handler made of
    the message is sent where a reply is wanted. *)
Definition consume_take (subject : string) (q : queues) : queues * option envelope :=
  match subject_channel subject q with
  | env :: ch => (mkQueues (<[subject := ch]> (qu_subjects q)) (qu_replies q) (qu_next q) (qu_running q ++ [env])%list, Some env)
  | [] => (q, None)
  end.
Definition forward_reply (env : envelope) (outcome : res Message) (q : queues) : queues :=
  match en_reply env, outcome with
  | Some reply, Ok r =>
      match qu_replies q !! reply with
      | Some None => mkQueues (qu_subjects q) (<[reply := Some r]> (qu_replies q)) (qu_next q) (qu_running q)
      | _ => q
      end
  | _, _ => q
  end.
Definition consume_done (n : nat) (outcome : res Message) (q : queues) : queues * option envelope :=
  match qu_running q !! n with
  | None => (q, None)
  | Some env =>
      (forward_reply env outcome (mkQueues (qu_subjects q) (qu_replies q) (qu_next q) (delete n (qu_running q))), Some env)
  end.

(** ** Runs *)
Inductive queue_op : Type :=
  | QPublish (cancelled : option goerr) (subject : string) (msg : Message)
  | QRequest (cancelled : option goerr) (subject : string) (msg : Message)
  | QAwait (expired : bool) (reply : nat)
  | QTake (subject : string)
  | QDone (n : nat) (outcome : res Message).
(** What was seen: an envelope accepted, taken, handled. *)
Inductive queue_event : Type :=
  | Accepted (subject : string) (env : envelope)
  | Taken (subject : string) (env : envelope)
  | Handled (env : envelope) (outcome : res Message).
Definition queue_step (q : queues) (o : queue_op) : queues * list queue_event :=
  match o with
  | QPublish c subject msg =>
      let '(q, r) := queue_Publish c subject msg q in
      (q, if is_ok r then [Accepted subject (mkEnvelope (Clone msg) None)] else [])
  | QRequest c subject msg =>
      let '(q, r) := Request c subject msg q in
      (q, match r with Ok reply => [Accepted subject (mkEnvelope (Clone msg) (Some reply))] | Err _ => [] end)
  | QAwait expired reply => ((await_reply expired reply q).1, [])
  | QTake subject =>
      let '(q, env) := consume_take subject q in (q, match env with Some env => [Taken subject env] | None => [] end)
  | QDone n outcome =>
      let '(q, env) := consume_done n outcome q in (q, match env with Some env => [Handled env outcome] | None => [] end)
  end.
Fixpoint queue_run (ops : list queue_op) (q : queues) : queues * list queue_event :=
  match ops with
  | [] => (q, [])
  | o :: ops => let '(q, l1) := queue_step q o in let '(q, l2) := queue_run ops q in (q, (l1 ++ l2)%list)
  end.

(** * standalone/topics.go *)
Definition topicBuffer : nat := 1024.
Record topics : Type := mkTopics {
  tp_subs : gmap string (gset nat);
  tp_chans : gmap nat (list Message);
  tp_next : nat;
}.
Definition newTopics : topics := mkTopics ∅ ∅ 0.

(** The send to one subscriber: dropped when its buffer is full. *)
Definition topic_send (msg : Message) (sub : nat) (t : topics) : topics :=
  match tp_chans t !! sub with
  | None => t
  | Some ch =>
      if Nat.ltb (List.length ch) topicBuffer
      then mkTopics (tp_subs t) (<[sub := (ch ++ [Clone msg])%list]> (tp_chans t)) (tp_next t) else t
  end.
Definition topic_Publish (subject : string) (msg : Message) (t : topics) : topics :=
  foldr (topic_send msg) t (elements (default ∅ (tp_subs t !! subject))).
Definition topic_Subscribe (subject : string) (t : topics) : topics * nat :=
  (mkTopics (<[subject := {[tp_next t]} ∪ default ∅ (tp_subs t !! subject)]> (tp_subs t))
     (<[tp_next t := []]> (tp_chans t)) (S (tp_next t)), tp_next t).
Definition topic_Close (sub : nat) (subject : string) (t : topics) : topics :=
  match tp_subs t !! subject with
  | None => t
  | Some subs =>
      let subs := subs ∖ {[sub]} in
      mkTopics (if decide (subs = ∅) then delete subject (tp_subs t) else <[subject := subs]> (tp_subs t)) (tp_chans t) (tp_next t)
  end.
Definition consumeTopic (sub : nat) (t : topics) : topics * option Message :=
  match tp_chans t !! sub with
  | Some (msg :: ch) => (mkTopics (tp_subs t) (<[sub := ch]> (tp_chans t)) (tp_next t), Some msg)
  | _ => (t, None)
  end.

Inductive topic_op : Type :=
  | TPublish (subject : string) (msg : Message)
  | TSubscribe (subject : string)
  | TClose (sub : nat) (subject : string)
  | TTake (sub : nat).
Definition topic_apply (t : topics) (o : topic_op) : topics :=
  match o with
  | TPublish subject msg => topic_Publish subject msg t
  | TSubscribe subject => (topic_Subscribe subject t).1
  | TClose sub subject => topic_Close sub subject t
  | TTake sub => (consumeTopic sub t).1
  end.

(** * Queues: what arrives *)
Definition accepted (subject : string) (log : list queue_event) : list envelope :=
  omap (fun e => match e with Accepted s env => if decide (s = subject) then Some env else None | _ => None end) log.
Definition taken (subject : string) (log : list queue_event) : list envelope :=
  omap (fun e => match e with Taken s env => if decide (s = subject) then Some env else None | _ => None end) log.
Definition all_taken (log : list queue_event) : list envelope :=
  omap (fun e => match e with Taken _ env => Some env | _ => None end) log.
Definition handled (log : list queue_event) : list envelope :=
  omap (fun e => match e with Handled env _ => Some env | _ => None end) log.
Definition reply_ids (log : list queue_event) : list nat :=
  omap (fun e => match e with Accepted _ env => en_reply env | _ => None end) log.

Record queue_inv (q : queues) (log : list queue_event) : Prop := {
  qi_order : forall subject, accepted subject log = (taken subject log ++ subject_channel subject q)%list;
  qi_bound : forall subject, (List.length (subject_channel subject q) <= queueBuffer)%nat;
  qi_handled : all_taken log ≡ₚ handled log ++ qu_running q;
  qi_ids : NoDup (reply_ids log);
  qi_fresh : forall i, i ∈ reply_ids log -> (i < qu_next q)%nat;
  qi_replies : forall i r, qu_replies q !! i = Some (Some r) ->
    exists env, Handled env (Ok r) ∈ log /\ en_reply env = Some i;
}.

Lemma put_channel_lookup subject c q s : subject_channel s (put_channel subject c q) = if decide (s = subject) then c else subject_channel s q.
Proof.
  unfold subject_channel, put_channel. cbn. case_decide as Hs; [subst; by rewrite lookup_insert_eq|by rewrite lookup_insert_ne].
Qed.

(** A step that accepts an envelope or nothing. *)
Lemma enqueue_inv c subject env q log q' r :
  queue_inv q log -> (forall i, en_reply env = Some i -> (i < qu_next q)%nat /\ i ∉ reply_ids log) ->
  enqueue c subject env q = (q', r) ->
  qu_next q' = qu_next q /\ qu_replies q' = qu_replies q /\
  queue_inv q' (log ++ (if is_ok r then [Accepted subject env] else [])).
Proof.
  intros [Ho Hb Hh Hi Hf Hr] Henv H. unfold enqueue in H.
  assert (forall q0 r0, (put_channel subject (subject_channel subject q) q, Err r0 : res unit) = (q0, r) ->
    qu_next q0 = qu_next q /\ qu_replies q0 = qu_replies q /\ queue_inv q0 (log ++ (if is_ok r then [Accepted subject env] else []))) as Hrefused.
  { intros q0 r0 [= <- <-]. cbn [is_ok]. rewrite app_nil_r. split_and!; [done..|].
    assert (forall s, subject_channel s (put_channel subject (subject_channel subject q) q) = subject_channel s q) as Hs
      by (intros s; rewrite put_channel_lookup; by case_decide; subst).
    split; try done; intros s; by rewrite Hs. }
  destruct c as [e|]; [by eapply Hrefused|]. destruct (Nat.ltb_spec (List.length (subject_channel subject q)) queueBuffer); [|by eapply Hrefused].
  injection H as <- <-. cbn [is_ok]. split_and!; [done..|]. split; cbn [put_channel qu_running qu_next qu_replies].
  - intros s. unfold accepted, taken. rewrite !omap_app, put_channel_lookup. cbn.
    destruct (decide (subject = s)) as [<-|Hne].
    + rewrite decide_True, app_nil_r, app_assoc by done. f_equal. apply Ho.
    + rewrite decide_False, !app_nil_r by congruence. apply Ho.
  - intros s. rewrite put_channel_lookup. case_decide; [|apply Hb]. rewrite length_app. cbn. lia.
  - unfold all_taken, handled. rewrite !omap_app. cbn. by rewrite !app_nil_r.
  - unfold reply_ids. rewrite omap_app. cbn. destruct (en_reply env) as [i|]; [|by rewrite app_nil_r].
    apply NoDup_app. split_and!; [done| |apply NoDup_singleton]. intros j Hj ->%list_elem_of_singleton. by destruct (Henv i eq_refl).
  - intros i. unfold reply_ids. rewrite omap_app, elem_of_app. cbn. intros [H1|H1]; [by apply Hf|].
    destruct (en_reply env) as [j|]; [|by apply not_elem_of_nil in H1]. apply list_elem_of_singleton in H1 as ->. by apply Henv.
  - intros i m H1. destruct (Hr i m H1) as (e & ? & ?). exists e. rewrite elem_of_app. auto.
Qed.

Lemma await_inv expired reply q log : queue_inv q log -> queue_inv (await_reply expired reply q).1 log.
Proof.
  intros [Ho Hb Hh Hi Hf Hr]. unfold await_reply. destruct expired; [by split|].
  destruct (qu_replies q !! reply) as [[r|]|]; [|by split..]. split; try done. cbn.
  intros i m [[_ [=]]|[_ H]]%lookup_insert_Some. by apply Hr.
Qed.

Lemma take_inv subject q log q' env : queue_inv q log -> consume_take subject q = (q', env) ->
  queue_inv q' (log ++ match env with Some env => [Taken subject env] | None => [] end).
Proof.
  intros Hinv H. unfold consume_take in H. destruct (subject_channel subject q) as [|e ch] eqn:Ech; injection H as <- <-.
  { by rewrite app_nil_r. }
  destruct Hinv as [Ho Hb Hh Hi Hf Hr].
  assert (forall s, subject_channel s (mkQueues (<[subject:=ch]> (qu_subjects q)) (qu_replies q) (qu_next q) (qu_running q ++ [e]))
    = if decide (s = subject) then ch else subject_channel s q) as Hs by (intros s; apply put_channel_lookup).
  split; cbn [qu_running qu_next qu_replies].
  - intros s. rewrite Hs. unfold accepted, taken. rewrite !omap_app. cbn. rewrite app_nil_r.
    destruct (decide (subject = s)) as [<-|Hne].
    + rewrite decide_True by done. rewrite <- app_assoc. cbn. specialize (Ho subject). by rewrite Ech in Ho.
    + rewrite decide_False, app_nil_r by congruence. apply Ho.
  - intros s. rewrite Hs. case_decide; [|apply Hb]. specialize (Hb subject). rewrite Ech in Hb. cbn in Hb. lia.
  - unfold all_taken, handled in *. rewrite !omap_app. cbn. rewrite app_nil_r, app_assoc. by rewrite Hh.
  - unfold reply_ids in *. rewrite omap_app. cbn. by rewrite app_nil_r.
  - intros i. unfold reply_ids in *. rewrite omap_app. cbn. rewrite app_nil_r. apply Hf.
  - intros i m H1. destruct (Hr i m H1) as (e' & ? & ?). exists e'. rewrite elem_of_app. auto.
Qed.

Lemma done_inv n outcome q log q' env : queue_inv q log -> consume_done n outcome q = (q', env) ->
  queue_inv q' (log ++ match env with Some env => [Handled env outcome] | None => [] end).
Proof.
  intros Hinv H. unfold consume_done in H. destruct (qu_running q !! n) as [e|] eqn:En; injection H as <- <-.
  2:{ by rewrite app_nil_r. }
  destruct Hinv as [Ho Hb Hh Hi Hf Hr].
  set (q1 := mkQueues _ _ _ _). assert (qu_subjects (forward_reply e outcome q1) = qu_subjects q /\ qu_running (forward_reply e outcome q1) = delete n (qu_running q) /\
    qu_next (forward_reply e outcome q1) = qu_next q /\
    forall i m, qu_replies (forward_reply e outcome q1) !! i = Some (Some m) -> qu_replies q !! i = Some (Some m) \/ (en_reply e = Some i /\ outcome = Ok m))
    as (Hs & Hrun & Hn & Hrep).
  { unfold forward_reply. destruct (en_reply e) as [reply|]; [|by auto]. destruct outcome as [m|]; [|by auto].
    cbn. destruct (qu_replies q !! reply) as [[?|]|]; [by auto| |by auto]. cbn. split_and!; try done.
    intros i m' [[-> [= ->]]|[_ H]]%lookup_insert_Some; auto. }
  split; rewrite ?Hrun, ?Hn; unfold subject_channel in *; rewrite ?Hs.
  - intros s. unfold accepted, taken in *. rewrite !omap_app. cbn. rewrite !app_nil_r. apply Ho.
  - done.
  - unfold all_taken, handled in *. rewrite !omap_app. cbn. rewrite app_nil_r, <- app_assoc. cbn.
    rewrite Hh. f_equiv. by apply delete_Permutation.
  - unfold reply_ids in *. rewrite omap_app. cbn. by rewrite app_nil_r.
  - intros i. unfold reply_ids in *. rewrite omap_app. cbn. rewrite app_nil_r. apply Hf.
  - intros i m [H|[He ->]]%Hrep.
    + destruct (Hr i m H) as (e' & ? & ?). exists e'. rewrite elem_of_app. auto.
    + exists e. rewrite elem_of_app, list_elem_of_singleton. auto.
Qed.

Lemma queue_step_inv q log o q' l : queue_inv q log -> queue_step q o = (q', l) -> queue_inv q' (log ++ l).
Proof.
  intros Hinv H. destruct o as [c subject msg|c subject msg|expired reply|subject|n outcome]; cbn [queue_step] in H.
  - destruct (queue_Publish c subject msg q) as [q1 r] eqn:E. injection H as <- <-.
    by eapply enqueue_inv in E as (_ & _ & ?).
  - unfold Request in H. set (q1 := mkQueues _ _ _ _) in H.
    assert (queue_inv q1 log) as Hinv1.
    { destruct Hinv as [Ho Hb Hh Hi Hf Hr]. split; try done; cbn.
      - intros i Hin. specialize (Hf i Hin). lia.
      - intros i m [[_ [=]]|[_ Hm]]%lookup_insert_Some. by apply Hr. }
    destruct (enqueue c subject (mkEnvelope (Clone msg) (Some (qu_next q))) q1) as [q2 r] eqn:E.
    eapply enqueue_inv in E as (_ & _ & H2); [|exact Hinv1|].
    + destruct r as [[]|e]; injection H as <- <-; exact H2.
    + intros i [= <-]. split; [cbn; lia|]. intros Hin. pose proof (qi_fresh _ _ Hinv _ Hin). lia.
  - injection H as <- <-. rewrite app_nil_r. by apply await_inv.
  - destruct (consume_take subject q) as [q1 env] eqn:E. injection H as <- <-. by eapply take_inv.
  - destruct (consume_done n outcome q) as [q1 env] eqn:E. injection H as <- <-. by eapply done_inv.
Qed.

Lemma queue_run_inv ops q log q' l : queue_inv q log -> queue_run ops q = (q', l) -> queue_inv q' (log ++ l).
Proof.
  revert q log l. induction ops as [|o ops IH]; intros q log l Hinv H; cbn in H; [injection H as <- <-; by rewrite app_nil_r|].
  destruct (queue_step q o) as [q1 l1] eqn:E1. destruct (queue_run ops q1) as [q2 l2] eqn:E2. injection H as <- <-.
  rewrite app_assoc. eapply IH; [|exact E2]. by eapply queue_step_inv.
Qed.

Lemma queue_inv_new : queue_inv newQueues [].
Proof.
  split; try done; cbn.
  - intros subject. unfold subject_channel, queueBuffer. cbn. rewrite lookup_empty. cbn. lia.
  - constructor.
  - intros i H. by apply not_elem_of_nil in H.
Qed.

(** C35: Every message accepted is handled once, in order.  However publishers,
    requesters and any number of listeners interleave: what the listeners of a
    subject have taken, followed by what is still in its channel, is exactly
    what was accepted on it, in the order it was accepted, so nothing is lost,
    duplicated or overtaken; the channel never holds more than its buffer; every
    envelope taken is handled once or still being handled; no two requests share
    a reply channel, and a reply waiting in one is what a handler returned, with
    no error, for the very envelope that request sent. *)
Theorem queue_delivers_once (ops : list queue_op) :
  let '(q, log) := queue_run ops newQueues in
  (forall subject, accepted subject log = (taken subject log ++ subject_channel subject q)%list /\
     (List.length (subject_channel subject q) <= queueBuffer)%nat) /\
  all_taken log ≡ₚ handled log ++ qu_running q /\
  NoDup (reply_ids log) /\
  forall i r, qu_replies q !! i = Some (Some r) ->
    exists subject env, Accepted subject env ∈ log /\ en_reply env = Some i /\ Handled env (Ok r) ∈ log.
Proof.
  destruct (queue_run ops newQueues) as [q log] eqn:E.
  pose proof (queue_run_inv _ _ _ _ _ queue_inv_new E) as [Ho Hb Hh Hi Hf Hr]. cbn [app] in *.
  split_and!; [by split|done|done|]. intros i r H. destruct (Hr i r H) as (env & He & Hrep).
  assert (env ∈ all_taken log) as Ht.
  { rewrite Hh, elem_of_app. left. apply list_elem_of_omap. by exists (Handled env (Ok r)). }
  apply list_elem_of_omap in Ht as ([| subject env'|] & Hin & Heq); [done| |done]. injection Heq as ->.
  assert (env ∈ accepted subject log) as Hacc.
  { rewrite Ho, elem_of_app. left. apply list_elem_of_omap. exists (Taken subject env). split; [done|]. by rewrite decide_True. }
  apply list_elem_of_omap in Hacc as ([s env'| |] & Hin' & Heq); [|done|done]. case_decide; [|done]. injection Heq as ->. subst s.
  by exists subject, env.
Qed.

(** * Topics: one subscriber does not hold up another *)

(** What becomes of one subscriber's channel, from the operations on its subject
    and its own receives alone. *)
Fixpoint inbox (sub : nat) (subject : string) (ops : list topic_op) (open : bool) (ch : list Message) : list Message :=
  match ops with
  | [] => ch
  | TPublish s msg :: ops =>
      inbox sub subject ops open
        (if open && String.eqb s subject && Nat.ltb (List.length ch) topicBuffer then (ch ++ [Clone msg])%list else ch)
  | TClose sub' s :: ops => inbox sub subject ops (open && negb (Nat.eqb sub' sub && String.eqb s subject)) ch
  | TTake sub' :: ops => inbox sub subject ops open (if Nat.eqb sub' sub then tail ch else ch)
  | TSubscribe _ :: ops => inbox sub subject ops open ch
  end.

(** Subscriber [sub] is of [subject] alone, and its buffer is [ch]. *)
Record subscriber (t : topics) (sub : nat) (subject : string) (open : bool) (ch : list Message) : Prop := {
  sr_chan : tp_chans t !! sub = Some ch;
  sr_next : (sub < tp_next t)%nat;
  sr_subs : forall s, sub ∈ default ∅ (tp_subs t !! s) <-> (open = true /\ s = subject);
}.

Lemma topic_send_fields msg sub t : tp_subs (topic_send msg sub t) = tp_subs t /\ tp_next (topic_send msg sub t) = tp_next t.
Proof. unfold topic_send. destruct (tp_chans t !! sub); [|done]. by destruct (Nat.ltb _ _). Qed.

Lemma topic_publish_chans msg l t sub ch : NoDup l -> tp_chans t !! sub = Some ch ->
  tp_subs (foldr (topic_send msg) t l) = tp_subs t /\ tp_next (foldr (topic_send msg) t l) = tp_next t /\
  tp_chans (foldr (topic_send msg) t l) !! sub =
    Some (if bool_decide (sub ∈ l) && Nat.ltb (List.length ch) topicBuffer then (ch ++ [Clone msg])%list else ch).
Proof.
  intros Hnd Hch. induction Hnd as [|x l Hx Hnd IH]; cbn [foldr]; [by rewrite Hch|].
  set (t' := foldr (topic_send msg) t l) in *.
  destruct IH as (Hs & Hn & Hc). destruct (topic_send_fields msg x t') as [-> ->].
  split_and!; [done|done|]. unfold topic_send. destruct (decide (x = sub)) as [->|Hne].
  - rewrite (bool_decide_false (sub ∈ l)) in Hc by done. cbn [andb] in Hc. rewrite Hc. rewrite (bool_decide_true (sub ∈ sub :: l)) by (by left). cbn [andb].
    destruct (Nat.ltb (List.length ch) topicBuffer); [cbn; by rewrite lookup_insert_eq|done].
  - assert (bool_decide (sub ∈ x :: l) = bool_decide (sub ∈ l)) as -> by (apply bool_decide_ext; set_solver).
    destruct (tp_chans t' !! x) as [cx|]; [|done]. destruct (Nat.ltb (List.length cx) topicBuffer); [|done].
    cbn. by rewrite lookup_insert_ne.
Qed.

Lemma subscriber_step t sub subject open ch o : subscriber t sub subject open ch ->
  exists open' ch', subscriber (topic_apply t o) sub subject open' ch' /\
    forall ops, inbox sub subject (o :: ops) open ch = inbox sub subject ops open' ch'.
Proof.
  intros [Hc Hn Hs]. destruct o as [s msg|s|sub' s|sub']; cbn [topic_apply inbox].
  - exists open. eexists. split; [|reflexivity].
    destruct (topic_publish_chans msg (elements (default ∅ (tp_subs t !! s))) t sub ch (NoDup_elements _) Hc) as (H1 & H2 & H3).
    unfold topic_Publish. split; [|by rewrite H2|by rewrite H1].
    rewrite H3. f_equal. assert (bool_decide (sub ∈ elements (default ∅ (tp_subs t !! s))) = open && String.eqb s subject) as ->; [|done].
    apply eq_true_iff_eq. rewrite bool_decide_eq_true, elem_of_elements, Hs, andb_true_iff, String.eqb_eq. done.
  - exists open, ch. split; [|done]. cbn. split; cbn; [rewrite lookup_insert_ne; [done|lia]|lia|].
    intros s'. destruct (decide (s = s')) as [->|Hne]; [rewrite lookup_insert_eq|rewrite lookup_insert_ne by done; apply Hs].
    cbn. rewrite elem_of_union, elem_of_singleton, Hs. split; [intros [->|?]; [lia|done]|by right].
  - exists (open && negb (Nat.eqb sub' sub && String.eqb s subject)), ch. split; [|done]. unfold topic_Close.
    destruct (tp_subs t !! s) as [subs|] eqn:Es.
    2:{ split; [done|done|]. intros s'. rewrite Hs. destruct (Nat.eqb_spec sub' sub) as [->|], (String.eqb_spec s subject) as [->|]; cbn; rewrite ?andb_true_r; try done.
        rewrite andb_false_r. split; [|by intros [[=] _]]. intros [-> ->]. specialize (Hs subject). rewrite Es in Hs. cbn in Hs. set_solver. }
    split; [done|done|]. cbn [tp_subs]. intros s'.
    assert ((sub ∈ default ∅ ((if decide (subs ∖ {[sub']} = ∅) then delete s (tp_subs t) else <[s := subs ∖ {[sub']}]> (tp_subs t)) !! s')) <->
      (sub ∈ default ∅ (tp_subs t !! s') /\ ~ (sub' = sub /\ s = s'))) as ->.
    { destruct (decide (s = s')) as [->|Hne].
      - rewrite Es. cbn. case_decide as He; [rewrite lookup_delete_eq|rewrite lookup_insert_eq]; cbn; set_solver.
      - case_decide; [rewrite lookup_delete_ne by done|rewrite lookup_insert_ne by done]; naive_solver. }
    rewrite Hs, andb_true_iff, negb_true_iff, andb_false_iff, Nat.eqb_neq, String.eqb_neq.
    split; [intros [[-> ->] H]; split; [|done]; split; [done|]; destruct (decide (sub' = sub)); [right; intros ->; by apply H|by left]|].
    intros [[-> H] ->]. split; [done|]. intros [-> ->]. by destruct H.
  - exists open. eexists. split; [|reflexivity]. unfold consumeTopic.
    destruct (Nat.eqb_spec sub' sub) as [->|Hne].
    + rewrite Hc. destruct ch as [|m ch]; cbn; [done|]. split; cbn; [by rewrite lookup_insert_eq|done|done].
    + destruct (tp_chans t !! sub') as [[|m c]|]; cbn; [done| |done]. split; cbn; [by rewrite lookup_insert_ne|done|done].
Qed.

Lemma topics_fresh ops t : (forall s x, x ∈ default ∅ (tp_subs t !! s) -> (x < tp_next t)%nat) ->
  forall s x, x ∈ default ∅ (tp_subs (foldl topic_apply t ops) !! s) -> (x < tp_next (foldl topic_apply t ops))%nat.
Proof.
  revert t. induction ops as [|o ops IH]; intros t Hf; [done|]. apply IH. intros s x. destruct o as [s' msg|s'|sub s'|sub]; cbn.
  - unfold topic_Publish. set (l := elements _). assert (tp_subs (foldr (topic_send msg) t l) = tp_subs t /\ tp_next (foldr (topic_send msg) t l) = tp_next t) as [-> ->]; [|apply Hf].
    induction l as [|y l [IH1 IH2]]; [done|]. cbn [foldr]. by destruct (topic_send_fields msg y (foldr (topic_send msg) t l)) as [-> ->].
  - destruct (decide (s' = s)) as [->|Hne]; [rewrite lookup_insert_eq|rewrite lookup_insert_ne by done]; cbn.
    + rewrite elem_of_union, elem_of_singleton. intros [->|H]; [lia|]. specialize (Hf s x H). lia.
    + intros H. specialize (Hf s x H). lia.
  - unfold topic_Close. destruct (tp_subs t !! s') as [subs|] eqn:Es; [|apply Hf]. cbn.
    case_decide; (destruct (decide (s' = s)) as [->|Hne];
      [rewrite ?lookup_delete_eq, ?lookup_insert_eq|rewrite ?lookup_delete_ne, ?lookup_insert_ne by done; by apply Hf]); cbn; [set_solver|].
    intros Hx. apply (Hf s). rewrite Es. cbn. set_solver.
  - unfold consumeTopic. destruct (tp_chans t !! sub) as [[|m c]|]; apply Hf.
Qed.

(** What a subscriber receives depends on nothing but the messages published on
    its subject while it is open and on how fast it reads: other subscribers,
    however slow, and other subjects make no difference. *)
Theorem topic_subscribers_independent (before after : list topic_op) (subject : string) :
  let '(t, sub) := topic_Subscribe subject (foldl topic_apply newTopics before) in
  tp_chans (foldl topic_apply t after) !! sub = Some (inbox sub subject after true []).
Proof.
  destruct (topic_Subscribe subject (foldl topic_apply newTopics before)) as [t sub] eqn:E.
  assert (exists open ch, subscriber t sub subject open ch /\ open = true /\ ch = []) as (open & ch & Hsub & -> & ->).
  { injection E as <- <-. exists true, []. split; [|done]. pose proof (topics_fresh before newTopics) as Hf.
    set (t0 := foldl topic_apply newTopics before) in *.
    assert (forall s x, x ∈ default ∅ (tp_subs t0 !! s) -> (x < tp_next t0)%nat) as Hfresh.
    { apply Hf. intros s x H. cbn in H. rewrite lookup_empty in H. set_solver. }
    split; cbn; [by rewrite lookup_insert_eq|lia|]. intros s.
    destruct (decide (subject = s)) as [->|Hne]; [rewrite lookup_insert_eq|rewrite lookup_insert_ne by done]; cbn.
    - rewrite elem_of_union, elem_of_singleton. naive_solver.
    - split; [intros H; specialize (Hfresh s _ H); lia|naive_solver]. }
  clear E. generalize true, (@nil Message), t, Hsub. clear. induction after as [|o ops IH]; intros open ch t Hsub; [by apply sr_chan in Hsub|].
  destruct (subscriber_step _ _ _ _ _ o Hsub) as (open' & ch' & Hsub' & ->). by apply IH.
Qed.
