(* ===== verification/Dotenv.v ===== *)
(** The .env format: [core/dotenv/dotenv.go].

    A file is a string of bytes.  [Format] writes what [Parse] reads back; the
    theorems say when, and where the two part. *)
From S2P Require Import Prelude GoStr.
From Stdlib Require Import String Ascii.
#[local] Open Scope string_scope.
#[local] Open Scope Z_scope.

(** ** The standard library *)

(** [bufio.Scanner] with its default buffer. *)
Definition MaxScanTokenSize : Z := 65536.
Definition ErrTooLong : goerr := ErrMsg "bufio.Scanner: token too long".
Definition line_feed : ascii := ascii_of_nat 10.
Definition return_byte : ascii := ascii_of_nat 13.
Definition tab : ascii := ascii_of_nat 9.
Definition double_quote : ascii := ascii_of_nat 34.
Definition single_quote : ascii := ascii_of_nat 39.
Definition backslash : ascii := ascii_of_nat 92.

Fixpoint drop_last_empty (l : list string) : list string :=
  match l with [] => [] | [s] => if String.eqb s "" then [] else [s] | s :: l => s :: drop_last_empty l end.
Definition scan_lines (data : string) : list string := drop_last_empty (split_on line_feed data).
Definition token (line : string) : option string :=
  if Z.of_nat (String.length line) <? MaxScanTokenSize then Some (trim_suffix_byte line return_byte) else None.

(** ** dotenv.go *)
Definition needsQuoting : list ascii :=
  [" "%char; tab; line_feed; return_byte; "#"%char; double_quote; single_quote; backslash].
Definition invalidInKey : list ascii :=
  ["="%char; " "%char; tab; line_feed; return_byte; "#"%char; double_quote; single_quote].

Fixpoint unescape (value : string) : string :=
  match value with
  | String a rest =>
      if Ascii.eqb a backslash then
        match rest with
        | EmptyString => String a ""
        | String b rest =>
            String (if Ascii.eqb b "n" then line_feed else if Ascii.eqb b "r" then return_byte
                    else if Ascii.eqb b "t" then tab else b) (unescape rest)
        end
      else String a (unescape rest)
  | EmptyString => ""
  end.

(** The last byte, dropped. *)
Fixpoint but_last (s : string) : string :=
  match s with EmptyString => "" | String a EmptyString => "" | String a r => String a (but_last r) end.

Definition unquote (value : string) : string :=
  match value with
  | String first (String _ _ as rest) =>
      if negb (Ascii.eqb first double_quote) && negb (Ascii.eqb first single_quote) then value
      else if negb (ends_with value first) then value
      else if Ascii.eqb first single_quote then but_last rest
      else unescape (but_last rest)
  | _ => value
  end.

Fixpoint escape (value : string) : string :=
  match value with
  | EmptyString => ""
  | String a rest =>
      (if Ascii.eqb a backslash then String backslash (String backslash "")
       else if Ascii.eqb a double_quote then String backslash (String double_quote "")
       else if Ascii.eqb a line_feed then String backslash "n"
       else if Ascii.eqb a return_byte then String backslash "r"
       else if Ascii.eqb a tab then String backslash "t"
       else String a "") ++ escape rest
  end.

Definition quote_value (value : string) : string :=
  if negb (String.eqb value "") && negb (existsb (contains_byte value) needsQuoting)
     && String.eqb (TrimSpace value) value
  then value
  else String double_quote (escape value ++ String double_quote "").

(** The [%q] of one of the bytes of [invalidInKey]. *)
Definition quote_byte (a : ascii) : string :=
  String single_quote ((if Ascii.eqb a line_feed then String backslash "n" else if Ascii.eqb a tab then String backslash "t"
    else if Ascii.eqb a return_byte then String backslash "r"
    else if Ascii.eqb a single_quote then String backslash (String single_quote "") else String a "")
    ++ String single_quote "").
(** [strings.IndexAny], as the byte it found. *)
Fixpoint first_of (s : string) (cs : list ascii) : option ascii :=
  match s with
  | EmptyString => None
  | String a rest => if existsb (Ascii.eqb a) cs then Some a else first_of rest cs
  end.

Definition checkKey (key : string) : res unit :=
  if String.eqb key "" then Err (ErrMsg "variable name is empty")
  else match first_of key invalidInKey with
  | Some a => Err (ErrMsg ("variable name " ++ quote key ++ " contains " ++ quote_byte a))
  | None =>
      if negb (String.eqb (TrimSpace key) key)
      then Err (ErrMsg ("variable name " ++ quote key ++ " starts or ends with whitespace")) else Ok tt
  end.

Definition TrimPrefix (s prefix : string) : string :=
  if has_prefix s prefix then str_drop (String.length prefix) s else s.

Definition parse_error (line : Z) (what : string) : goerr :=
  ErrMsg ("parse .env line " ++ itoa line ++ ": " ++ what).

Fixpoint parse_lines (line : Z) (lines : list string) (values : gmap string string) : res (gmap string string) :=
  match lines with
  | [] => Ok values
  | text :: lines =>
      match token text with
      | None => Err (ErrWrap "read .env: " ErrTooLong "")
      | Some text =>
          let raw := TrimSpace text in
          if String.eqb raw "" || has_prefix raw "#" then parse_lines (line + 1) lines values
          else
            let raw := TrimPrefix raw "export " in
            match cut raw "=" with
            | None => Err (parse_error line ("missing '=' in " ++ quote raw))
            | Some (key, value) =>
                let key := TrimSpace key in
                if String.eqb key "" then Err (parse_error line "empty variable name")
                else parse_lines (line + 1) lines (<[ key := unquote (TrimSpace value) ]> values)
            end
      end
  end.
Definition Parse (data : string) : res (gmap string string) := parse_lines 1 (scan_lines data) ∅.

Definition format_line (key value : string) : string := key ++ "=" ++ quote_value value.
Fixpoint format_keys (values : gmap string string) (keys : list string) : res string :=
  match keys with
  | [] => Ok ""
  | key :: keys =>
      checkKey key ≫= fun _ =>
      rest ← format_keys values keys;
      mret (format_line key (default "" (values !! key)) ++ String line_feed rest)
  end.
Definition Format (values : gmap string string) : res string :=
  format_keys values (sort_strings (map_to_list values).*1).

Example parse_quoted : Parse "export A = 'x y'" = Ok {[ "A" := "x y" ]}.
Proof. vm_compute. reflexivity. Qed.
Example format_spaced : Format {[ "A" := "x y"; "B" := "" ]} =
  Ok ("A=" ++ String double_quote ("x y" ++ String double_quote (String line_feed ("B=" ++
      String double_quote (String double_quote (String line_feed "")))))).
Proof. vm_compute. reflexivity. Qed.

(** * Trimming *)
Lemma drop_prefix_app p l r : drop_prefix p l = Some r -> l = (p ++ r)%list.
Proof.
  revert l. induction p as [|a p IH]; intros [|b l]; cbn; try done; [by intros [= <-]|by intros [= <-]|].
  destruct (Ascii.eqb_spec a b) as [->|]; [|done]. by intros ->%IH.
Qed.

Lemma strip_any_spec seps l : strip_any seps l = None <-> forall p, p ∈ seps -> drop_prefix p l = None.
Proof.
  induction seps as [|p seps IH]; cbn; [by split; [intros _ q ?%elem_of_nil|]|].
  destruct (drop_prefix p l) eqn:E.
  - split; [done|]. intros H. rewrite H in E; [done|by left].
  - rewrite IH. split; [by intros H q [->|Hq]%elem_of_cons; [|apply H]|intros H q Hq; apply H; by right].
Qed.
Lemma strip_any_some seps l r : strip_any seps l = Some r -> exists p, p ∈ seps /\ l = (p ++ r)%list.
Proof.
  induction seps as [|p seps IH]; cbn; [done|]. destruct (drop_prefix p l) eqn:E.
  - intros [= <-]. exists p. split; [by left|by apply drop_prefix_app].
  - intros (q & Hq & ->)%IH. exists q. split; [by right|done].
Qed.

Lemma trim_front_length fuel seps l : (List.length (trim_front fuel seps l) <= List.length l)%nat.
Proof.
  revert l. induction fuel as [|fuel IH]; intros l; cbn; [done|]. destruct (strip_any seps l) as [r|] eqn:E; [|done].
  apply strip_any_some in E as (p & _ & ->). specialize (IH r). rewrite length_app. lia.
Qed.

(** Nothing is trimmed exactly when no separator is at the front. *)
Lemma trim_front_id seps l : (forall p, p ∈ seps -> p ≠ []) ->
  trim_front (List.length l) seps l = l <-> strip_any seps l = None.
Proof.
  intros Hne. destruct l as [|a l]; cbn [List.length].
  - split; [|done]. intros _. apply strip_any_spec. intros p Hp. destruct p; [by destruct (Hne [] Hp)|done].
  - cbn [trim_front]. destruct (strip_any seps (a :: l)) as [r|] eqn:E; [|done]. split; [|done]. intros H.
    apply (f_equal (@List.length _)) in H. pose proof (trim_front_length (List.length l) seps r).
    apply strip_any_some in E as (p & Hp & E). apply (f_equal (@List.length _)) in E. rewrite length_app in E. cbn in E, H.
    destruct p; [by destruct (Hne [] Hp)|cbn in E; lia].
Qed.

Lemma white_space_nonempty p : p ∈ white_space -> p ≠ [].
Proof. intros Hp ->. assert (forallb (fun p => negb (Nat.eqb (List.length p) 0)) white_space = true) as H by reflexivity.
  rewrite forallb_forall in H. apply list_elem_of_In in Hp. by specialize (H [] Hp).
Qed.
Lemma rev_white_space_nonempty p : p ∈ map (@rev ascii) white_space -> p ≠ [].
Proof.
  intros (q & -> & Hq)%list_elem_of_fmap Hp. apply (white_space_nonempty q Hq). apply (f_equal (@rev _)) in Hp.
  by rewrite rev_involutive in Hp.
Qed.

(** A text that no space begins or ends. *)
Definition tight (l : list ascii) : Prop :=
  strip_any white_space l = None /\ strip_any (map (@rev ascii) white_space) (rev l) = None.

Lemma trim_list_id l : trim_list l = l <-> tight l.
Proof.
  unfold trim_list, tight. set (front := trim_front (List.length l) white_space l). split.
  - intros H. assert (front = l) as Hf.
    { assert (List.length front = List.length l) as Hlen.
      { apply (f_equal (@List.length _)) in H. rewrite length_rev in H.
        pose proof (trim_front_length (List.length front) (map (@rev ascii) white_space) (rev front)) as Ha.
        rewrite length_rev in Ha. pose proof (trim_front_length (List.length l) white_space l) as Hb. fold front in Hb. lia. }
      unfold front in *. destruct l as [|a l]; [done|]. cbn [List.length trim_front] in *.
      destruct (strip_any white_space (a :: l)) as [r|] eqn:E; [|done]. exfalso.
      pose proof (trim_front_length (List.length l) white_space r). apply strip_any_some in E as (p & Hp & E).
      apply (f_equal (@List.length _)) in E. rewrite length_app in E. cbn in E, Hlen.
      destruct p; [by destruct (white_space_nonempty [] Hp)|cbn in E; lia]. }
    rewrite Hf in H. split.
    + apply trim_front_id; [apply white_space_nonempty|exact Hf].
    + apply trim_front_id; [apply rev_white_space_nonempty|]. apply (f_equal (@rev _)) in H.
      rewrite rev_involutive in H. by rewrite length_rev.
  - intros [H1 H2]. apply trim_front_id in H1; [|apply white_space_nonempty]. fold front in H1. rewrite H1.
    apply trim_front_id in H2; [|apply rev_white_space_nonempty]. rewrite length_rev in H2. by rewrite H2, rev_involutive.
Qed.

Lemma TrimSpace_id s : TrimSpace s = s <-> tight (list_ascii_of_string s).
Proof.
  unfold TrimSpace. rewrite <-trim_list_id. split; intros H.
  - by rewrite <-H at 2; rewrite list_ascii_of_string_of_list_ascii.
  - by rewrite H, string_of_list_ascii_of_string.
Qed.

(** * Text of a line *)
Lemma drop_prefix_barrier p x c y r : c ∉ p -> drop_prefix p (x ++ c :: y) = Some r -> is_Some (drop_prefix p x).
Proof.
  revert x. induction p as [|a p IH]; intros [|b x] Hc; cbn; [by eexists|by eexists| |].
  - destruct (Ascii.eqb_spec a c) as [->|]; [|done]. by destruct Hc; left.
  - destruct (Ascii.eqb_spec a b); [|done]. apply IH. intros H. apply Hc. by right.
Qed.

Lemma no_equals p : p ∈ white_space -> ("="%char ∉ p) /\ ("="%char ∉ rev p).
Proof.
  intros Hp. assert (forallb (fun p => negb (existsb (Ascii.eqb "=") p)) white_space = true) as H by (vm_compute; reflexivity).
  rewrite forallb_forall in H. apply list_elem_of_In in Hp. specialize (H p Hp). apply negb_true_iff in H.
  assert ("="%char ∉ p) as Hn; [|split; [done|]].
  - intros Hin%list_elem_of_In. assert (existsb (Ascii.eqb "=") p = true) as Hx; [|congruence].
    apply existsb_exists. by exists "="%char.
  - intros Hin%list_elem_of_In. apply in_rev in Hin. by apply Hn, list_elem_of_In.
Qed.

Lemma tight_line x y : tight x -> strip_any (map (@rev ascii) white_space) (rev y) = None -> tight (x ++ "="%char :: y).
Proof.
  intros [H1 _] H2. rewrite strip_any_spec in H1, H2. split; apply strip_any_spec; intros p Hp.
  - destruct (drop_prefix p (x ++ "="%char :: y)) eqn:E; [|done].
    apply drop_prefix_barrier in E as [? Hx]; [by rewrite H1 in Hx|by apply no_equals].
  - apply list_elem_of_fmap in Hp as (q & -> & Hq).
    replace (rev (x ++ "="%char :: y)) with (rev y ++ "="%char :: rev x)%list by (rewrite rev_app_distr; cbn; by rewrite <-app_assoc).
    destruct (drop_prefix (rev q) _) eqn:E; [|done].
    apply drop_prefix_barrier in E as [? Hx]; [|by apply no_equals]. rewrite H2 in Hx; [done|].
    apply list_elem_of_fmap. by exists q.
Qed.

Lemma list_ascii_app s1 s2 : list_ascii_of_string (s1 ++ s2) = (list_ascii_of_string s1 ++ list_ascii_of_string s2)%list.
Proof. induction s1 as [|a s1 IH]; [done|]. change (a :: list_ascii_of_string (s1 ++ s2) = a :: list_ascii_of_string s1 ++ list_ascii_of_string s2)%list. by rewrite IH. Qed.

(** Quotes keep a value from being trimmed. *)
Lemma tight_quoted x : tight (double_quote :: x ++ [double_quote]).
Proof.
  assert (forall p, p ∈ white_space -> forall l, drop_prefix p (double_quote :: l) = None /\ drop_prefix (rev p) (double_quote :: l) = None) as H.
  { intros p Hp l. assert (forallb (fun p => match p, rev p with
      | a :: _, b :: _ => negb (Ascii.eqb a double_quote) && negb (Ascii.eqb b double_quote) | _, _ => false end) white_space = true)
      as Hall by (vm_compute; reflexivity).
    rewrite forallb_forall in Hall. apply list_elem_of_In in Hp. specialize (Hall p Hp).
    destruct p as [|a p]; [done|]. destruct (rev (a :: p)) as [|b q]; [done|].
    apply andb_true_iff in Hall as [Ha%negb_true_iff Hb%negb_true_iff]. cbn. by rewrite Ha, Hb. }
  split; apply strip_any_spec.
  - intros p Hp. by apply H.
  - intros p (q & -> & Hq)%list_elem_of_fmap. cbn. rewrite rev_app_distr. cbn. by apply H.
Qed.

Lemma contains_ends s c : contains_byte s c = false -> ends_with s c = false.
Proof.
  induction s as [|a s IH]; [done|]. cbn. intros H. apply orb_false_iff in H as [Ha Hs].
  destruct s; [done|by apply IH].
Qed.
Lemma trim_suffix_byte_id s c : contains_byte s c = false -> trim_suffix_byte s c = s.
Proof.
  induction s as [|a s IH]; [done|]. cbn. intros H. apply orb_false_iff in H as [Ha Hs].
  destruct s; [by rewrite Ha|]. by rewrite (IH Hs).
Qed.

(** ** Quoting *)
Lemma contains_byte_cons a s c : contains_byte (String a s) c = Ascii.eqb a c || contains_byte s c.
Proof. done. Qed.

Lemma escape_plain v : contains_byte (escape v) line_feed = false /\ contains_byte (escape v) return_byte = false.
Proof.
  induction v as [|a v [IH1 IH2]]; [done|]. cbn [escape]. rewrite !contains_byte_app, IH1, IH2, !orb_false_r.
  repeat (match goal with |- context [Ascii.eqb a ?b] => destruct (Ascii.eqb_spec a b) end; [subst; done|]).
  rewrite !contains_byte_cons, !orb_false_r. by split; apply Ascii.eqb_neq.
Qed.

Lemma unescape_escape v : unescape (escape v) = v.
Proof.
  induction v as [|a v IH]; [done|]. cbn [escape].
  repeat (match goal with |- context [Ascii.eqb a ?b] => destruct (Ascii.eqb_spec a b) end; [subst; rewrite !cons_app, nil_app; cbn [unescape]; rewrite Ascii.eqb_refl, IH; reflexivity|]).
  rewrite cons_app, nil_app. cbn [unescape]. rewrite (proj2 (Ascii.eqb_neq a backslash)) by done. by rewrite IH.
Qed.

Lemma but_last_app s c : but_last (s ++ String c "") = s.
Proof. induction s as [|a s IH]; [done|]. rewrite cons_app. cbn [but_last]. rewrite IH. by destruct s. Qed.

(** What a written value looks like on its line, and that it reads back. *)
Lemma quote_value_spec v : let q := quote_value v in
  tight (list_ascii_of_string q) /\ contains_byte q line_feed = false /\ contains_byte q return_byte = false /\
  unquote q = v.
Proof.
  unfold quote_value. destruct (negb (String.eqb v "") && negb (existsb (contains_byte v) needsQuoting)
    && String.eqb (TrimSpace v) v) eqn:E; cbv zeta.
  - apply andb_true_iff in E as [E Ht%String.eqb_eq]. apply andb_true_iff in E as [_ Hn%negb_true_iff].
    assert (forall c, c ∈ needsQuoting -> contains_byte v c = false) as Hc.
    { intros c Hin%list_elem_of_In. destruct (contains_byte v c) eqn:Hv; [|done].
      assert (existsb (contains_byte v) needsQuoting = true) as Hx; [|congruence]. apply existsb_exists. by exists c. }
    split_and!; [by apply TrimSpace_id|apply Hc; set_solver|apply Hc; set_solver|].
    unfold unquote. destruct v as [|a [|b v]]; [done|done|].
    assert (Ascii.eqb a double_quote = false) as ->.
    { specialize (Hc double_quote ltac:(set_solver)). rewrite contains_byte_cons in Hc. by apply orb_false_iff in Hc as [? _]. }
    assert (Ascii.eqb a single_quote = false) as ->; [|done].
    specialize (Hc single_quote ltac:(set_solver)). rewrite contains_byte_cons in Hc. by apply orb_false_iff in Hc as [? _].
  - destruct (escape_plain v) as [H1 H2]. split_and!.
    + cbn [list_ascii_of_string]. rewrite list_ascii_app. apply tight_quoted.
    + rewrite contains_byte_cons, contains_byte_app, H1. done.
    + rewrite contains_byte_cons, contains_byte_app, H2. done.
    + unfold unquote. destruct (escape v ++ String double_quote "") as [|b r] eqn:Eq; [by destruct (escape v)|].
      rewrite <-Eq. cbn [negb andb]. rewrite Ascii.eqb_refl. cbn [negb andb].
      change (String double_quote (escape v ++ String double_quote "")) with (String double_quote (escape v) ++ String double_quote "").
      rewrite ends_with_app. cbn [negb]. rewrite but_last_app. apply unescape_escape.
Qed.

(** ** Names *)
Lemma first_of_none s cs c : first_of s cs = None -> c ∈ cs -> contains_byte s c = false.
Proof.
  intros H Hc. induction s as [|a s IH]; [done|]. cbn [first_of] in H. destruct (existsb (Ascii.eqb a) cs) eqn:E; [done|].
  rewrite contains_byte_cons. rewrite (IH H), orb_false_r. destruct (Ascii.eqb_spec a c) as [->|]; [|done].
  assert (existsb (Ascii.eqb c) cs = true) as Hx; [|congruence]. apply existsb_exists. exists c.
  split; [by apply list_elem_of_In|apply Ascii.eqb_refl].
Qed.

Lemma checkKey_ok key : checkKey key = Ok tt ->
  key ≠ "" /\ tight (list_ascii_of_string key) /\ forall c, c ∈ invalidInKey -> contains_byte key c = false.
Proof.
  unfold checkKey. destruct (String.eqb_spec key ""); [done|]. destruct (first_of key invalidInKey) eqn:E; [done|].
  destruct (String.eqb_spec (TrimSpace key) key) as [Ht|]; [|done]. intros _.
  split_and!; [done|by apply TrimSpace_id|]. intros c. by apply first_of_none.
Qed.

Lemma cut_byte k c q : contains_byte k c = false -> cut (k ++ String c q) (String c "") = Some (k, q).
Proof.
  induction k as [|a k IH]; intros H.
  - rewrite nil_app. cbn [cut has_prefix]. rewrite Ascii.eqb_refl. by destruct q.
  - rewrite contains_byte_cons in H. apply orb_false_iff in H as [Ha Hk]. rewrite cons_app. cbn [cut has_prefix].
    assert (Ascii.eqb c a = false) as -> by (by rewrite Ascii.eqb_sym). cbn [andb]. by rewrite IH.
Qed.

Lemma has_prefix_barrier k c r p b : has_prefix (k ++ String c r) p = true -> contains_byte p c = false ->
  contains_byte p b = true -> contains_byte k b = true.
Proof.
  revert k. induction p as [|a p IH]; intros [|x k]; rewrite ?nil_app, ?cons_app; cbn [has_prefix]; try done; rewrite !contains_byte_cons.
  - intros [Ha%Ascii.eqb_eq _]%andb_true_iff [Hc _]%orb_false_iff. subst a. by rewrite Ascii.eqb_refl in Hc.
  - intros [Ha%Ascii.eqb_eq Hp]%andb_true_iff [_ Hc]%orb_false_iff. subst a.
    destruct (Ascii.eqb x b); [done|]. cbn. by apply IH.
Qed.

(** * Reading back *)
Lemma scan_line line rest : contains_byte line line_feed = false ->
  scan_lines (line ++ String line_feed rest) = line :: scan_lines rest.
Proof.
  intros H. unfold scan_lines. rewrite split_on_app, (split_on_none _ _ H). cbn [app].
  pose proof (split_on_nonempty line_feed rest). by destruct (split_on line_feed rest).
Qed.

Definition short (k v : string) : Prop := Z.of_nat (String.length (format_line k v)) < MaxScanTokenSize.
#[global] Instance short_dec k v : Decision (short k v).
Proof. unfold short. apply _. Defined.

Lemma parse_format_line n key v lines values : checkKey key = Ok tt ->
  parse_lines n (format_line key v :: lines) values =
    if decide (short key v) then parse_lines (n + 1) lines (<[ key := v ]> values)
    else Err (ErrWrap "read .env: " ErrTooLong "").
Proof.
  intros Hkey. destruct (checkKey_ok key Hkey) as (Hne & Hkt & Hkc). destruct (quote_value_spec v) as (Hqt & Hqn & Hqr & Hun).
  set (q := quote_value v) in *. cbn [parse_lines]. unfold token, short, format_line. fold q.
  destruct (decide _) as [Hs|Hs].
  2:{ destruct (Z.ltb_spec (Z.of_nat (String.length (key ++ "=" ++ q))) MaxScanTokenSize); [done|done]. }
  rewrite (proj2 (Z.ltb_lt _ _) Hs). change (key ++ "=" ++ q) with (key ++ String "=" q).
  rewrite trim_suffix_byte_id.
  2:{ rewrite contains_byte_app, contains_byte_cons, Hqr, (Hkc return_byte) by set_solver. done. }
  assert (TrimSpace (key ++ String "=" q) = key ++ String "=" q) as ->.
  { apply TrimSpace_id. rewrite list_ascii_app. cbn [list_ascii_of_string]. apply tight_line; [done|apply Hqt]. }
  assert (String.eqb (key ++ String "=" q) "" = false) as -> by (by destruct key).
  assert (has_prefix (key ++ String "=" q) "#" = false) as ->.
  { destruct (has_prefix _ "#") eqn:E; [|done]. eapply (has_prefix_barrier key "=" q "#" "#") in E; [|done|done].
    rewrite Hkc in E; [done|set_solver]. }
  cbn [orb]. unfold TrimPrefix.
  destruct (has_prefix (key ++ String "=" q) "export ") eqn:E.
  { eapply (has_prefix_barrier key "=" q _ " ") in E; [|done|done]. rewrite Hkc in E; [done|set_solver]. }
  rewrite cut_byte by (apply Hkc; set_solver). rewrite (proj2 (TrimSpace_id key) Hkt), (proj2 (TrimSpace_id q) Hqt), Hun.
  by rewrite (proj2 (String.eqb_neq _ _) Hne).
Qed.

Lemma format_line_newline key v : checkKey key = Ok tt -> contains_byte (format_line key v) line_feed = false.
Proof.
  intros Hkey. destruct (checkKey_ok key Hkey) as (_ & _ & Hkc). destruct (quote_value_spec v) as (_ & Hqn & _ & _).
  unfold format_line. rewrite !contains_byte_app, Hqn, Hkc by set_solver. done.
Qed.

(** Inserting, key by key, what [m] holds. *)
Definition reread (m : gmap string string) (keys : list string) (values : gmap string string) : gmap string string :=
  foldl (fun values key => <[ key := default "" (m !! key) ]> values) values keys.

Lemma format_keys_parse m keys data n values : format_keys m keys = Ok data ->
  parse_lines n (scan_lines data) values =
    if decide (Forall (fun key => short key (default "" (m !! key))) keys) then Ok (reread m keys values)
    else Err (ErrWrap "read .env: " ErrTooLong "").
Proof.
  revert data n values. induction keys as [|key keys IH]; intros data n values H; cbn [format_keys] in H.
  - injection H as <-. by rewrite decide_True by constructor.
  - destruct (checkKey key) as [[]|] eqn:Hk; [|done]. cbn in H.
    destruct (format_keys m keys) as [rest|] eqn:E; [|done]. injection H as <-.
    rewrite scan_line by (by apply format_line_newline). rewrite parse_format_line by done.
    destruct (decide (short key (default "" (m !! key)))) as [Hs|Hs].
    + rewrite (IH rest _ _ eq_refl). destruct (decide (Forall _ keys)) as [Hf|Hf].
      * rewrite decide_True by (by constructor). done.
      * rewrite decide_False; [done|]. by intros [_ ?]%Forall_cons.
    + rewrite decide_False; [done|]. by intros [? _]%Forall_cons.
Qed.

Lemma reread_lookup m keys values k :
  reread m keys values !! k = if decide (k ∈ keys) then Some (default "" (m !! k)) else values !! k.
Proof.
  revert values. induction keys as [|key keys IH]; intros values; [done|]. unfold reread in *. cbn [foldl].
  rewrite IH. destruct (decide (k ∈ keys)) as [Hin|Hin].
  - by rewrite decide_True by (by right).
  - destruct (decide (k = key)) as [->|Hne].
    + by rewrite lookup_insert_eq, decide_True by (by left).
    + rewrite lookup_insert_ne, decide_False; [done| |done]. by intros [?|?]%elem_of_cons.
Qed.

Lemma format_keys_error m keys e : format_keys m keys = Err e -> exists key, key ∈ keys /\ checkKey key = Err e.
Proof.
  induction keys as [|key keys IH]; cbn [format_keys]; [done|]. destruct (checkKey key) as [[]|e'] eqn:Hk; cbn.
  - destruct (format_keys m keys) as [rest|e'']; [done|]. intros [= ->]. destruct (IH eq_refl) as (k & Hin & He).
    exists k. split; [by right|done].
  - intros [= ->]. exists key. split; [by left|done].
Qed.

(** C29: Parse undoes Format, up to the length of a line.  A map of variables is
    refused, with the error of one of its names, or written as a file that reads
    back as exactly that map, whatever bytes the values hold; but a file with a
    line that does not fit the scanner's buffer (64 KiB) is one Parse refuses to
    read. *)
Theorem dotenv_round_trip (m : gmap string string) :
  match Format m with
  | Ok data => Parse data =
      if decide (map_Forall short m) then Ok m else Err (ErrWrap "read .env: " ErrTooLong "")
  | Err e => exists key v, m !! key = Some v /\ checkKey key = Err e
  end.
Proof.
  unfold Format, Parse. set (keys := sort_strings (map_to_list m).*1).
  assert (forall k, k ∈ keys <-> is_Some (m !! k)) as Hkeys.
  { intros k. unfold keys. rewrite sort_strings_perm, list_elem_of_fmap. split.
    - intros ([k' v] & -> & H%elem_of_map_to_list). by exists v.
    - intros [v H]. exists (k, v). split; [done|]. by apply elem_of_map_to_list. }
  destruct (format_keys m keys) as [data|e] eqn:E.
  - rewrite (format_keys_parse m keys data 1 ∅ E). destruct (decide (map_Forall short m)) as [Hm|Hm].
    + rewrite decide_True.
      * f_equal. apply map_eq. intros k. rewrite reread_lookup. destruct (m !! k) as [v|] eqn:Hk.
        -- by rewrite decide_True by (apply Hkeys; by rewrite Hk).
        -- rewrite decide_False by (rewrite Hkeys, Hk; by intros [? ?]). apply lookup_empty.
      * apply Forall_forall. intros k [v Hv]%Hkeys. rewrite Hv. by apply (Hm k v).
    + rewrite decide_False; [done|]. intros Hf. apply Hm. intros k v Hv. rewrite Forall_forall in Hf.
      specialize (Hf k). rewrite Hv in Hf. apply Hf, Hkeys. by rewrite Hv.
  - apply format_keys_error in E as (key & [v Hv]%Hkeys & He). by exists key, v.
Qed.
