(* ===== verification/Env.v ===== *)
(** The environment of a config: [core/runtime/env.go].

    Where a declared variable takes its value from, and the substitution of
    [${NAME}] references in the node tree of a document.  A document is a tree
    of YAML nodes; the parser, the decoder and the reading of files are
    parameters.  The rewriting is in place in the code: a tree whose
    substitution failed is dropped by its caller, so the model returns the new
    tree or the error. *)
From S2P Require Import Prelude GoStr F64 Message Config Dotenv.
From Stdlib Require Import String Ascii.
#[local] Open Scope string_scope.
#[local] Open Scope Z_scope.

(** * Values from outside the config *)

(** [os.ReadFile]: the contents, or whether the file is missing. *)
Inductive file_result : Type :=
  | FileData (data : string)
  | FileMissing
  | FileFails (e : goerr).

(** The process: its environment and the files it can read. *)
Record OS : Type := mkOS {
  LookupEnv : string -> option string;
  ReadFile : string -> file_result;
}.
Definition Getenv (os : OS) (name : string) : string := default "" (LookupEnv os name).

Inductive ResourceKind : Type := ResourceKindEnv | ResourceKindTemplate.
(** [core.ResourceLoader], with [Load]. *)
Abbreviation ResourceLoader := (ResourceKind -> string -> res string).
Definition ErrResourceNotFound : goerr := ErrMsg "resource: not found".
Definition NoopResourceLoader : ResourceLoader := fun _ _ => Err ErrResourceNotFound.

Abbreviation vars := (gmap string string).

Definition envFileVar : string := "OCTO_ENV_FILE".
Definition defaultEnvFile : string := ".env".
Definition DotEnvPaths (os : OS) : list string :=
  let extra := Getenv os envFileVar in
  [defaultEnvFile] ++ (if String.eqb extra "" then [] else [extra]).

(** [for k, v := range values { merged[k] = v }]. *)
Definition overlay (merged values : vars) : vars := values ∪ merged.

Fixpoint load_files (os : OS) (paths : list string) (merged : vars) : res vars :=
  match paths with
  | [] => Ok merged
  | path :: paths =>
      match ReadFile os path with
      | FileMissing => load_files os paths merged
      | FileFails e => Err (ErrWrap ("read .env file " ++ quote path ++ ": ") e "")
      | FileData data =>
          match Parse data with
          | Err e => Err (ErrWrap (quote path ++ ": ") e "")
          | Ok values => load_files os paths (overlay merged values)
          end
      end
  end.
Definition loadDotEnv (os : OS) : res vars := load_files os (DotEnvPaths os) ∅.

(** What one env resource contributes: nothing when it is missing, does not
    load or does not parse. *)
Definition resource_values (loader : ResourceLoader) (id : string) : vars :=
  match loader ResourceKindEnv id with
  | Err _ => ∅
  | Ok data => match Parse data with Err _ => ∅ | Ok values => values end
  end.
Definition loadEnvResources (loader : ResourceLoader) (ids : list string) : vars :=
  foldl (fun merged id => overlay merged (resource_values loader id)) ∅ ids.

Definition lookupEnv (os : OS) (name : string) (dotenv : vars) : option string :=
  match LookupEnv os name with
  | Some v => Some v
  | None => dotenv !! name
  end.

Fixpoint resolve_decls (os : OS) (decls : list EnvVar) (dotenv resolved : vars) : res vars :=
  match decls with
  | [] => Ok resolved
  | decl :: decls =>
      if String.eqb (ev_Name decl) "" then Err (ErrMsg "env declaration requires a name")
      else match lookupEnv os (ev_Name decl) dotenv with
        | Some value => resolve_decls os decls dotenv (<[ev_Name decl := value]> resolved)
        | None =>
            if ev_Required decl
            then Err (ErrMsg ("required environment variable " ++ quote (ev_Name decl) ++ " is not set"))
            else match ev_Default decl with
              | Some d => resolve_decls os decls dotenv (<[ev_Name decl := d]> resolved)
              | None => resolve_decls os decls dotenv resolved
              end
        end
  end.
Definition resolveEnv (os : OS) (decls : list EnvVar) (dotenv : vars) : res vars := resolve_decls os decls dotenv ∅.

(** The new [.env] map, and the names handed to [report]. *)
Fixpoint standInUnset (os : OS) (decls : list EnvVar) (dotenv : vars) (reported : list string) : vars * list string :=
  match decls with
  | [] => (dotenv, reported)
  | decl :: decls =>
      match lookupEnv os (ev_Name decl) dotenv with
      | Some _ => standInUnset os decls dotenv reported
      | None =>
          if ev_Required decl
          then standInUnset os decls (<[ev_Name decl := ""]> dotenv) (reported ++ [ev_Name decl])%list
          else match ev_Default decl with
            | None => standInUnset os decls (<[ev_Name decl := ""]> dotenv) reported
            | Some _ => standInUnset os decls dotenv reported
            end
      end
  end.

Record envDecls : Type := mkEnvDecls {
  ed_Env : list EnvVar;
  ed_Resources : ResourcesConfig;
}.

(** [resolveDeclared]: what was reported, and the resolved values with the set
    of declared names.  [unset] tells whether [WithUnsetEnv] was given. *)
Definition resolveDeclared (os : OS) (decls : envDecls) (loader : ResourceLoader) (unset : bool)
  : list string * res (vars * gset string) :=
  match loadDotEnv os with
  | Err e => ([], Err e)
  | Ok dotenv =>
      let dotenv := overlay dotenv (loadEnvResources loader (rs_Env (ed_Resources decls))) in
      let '(dotenv, reported) := if unset then standInUnset os (ed_Env decls) dotenv [] else (dotenv, []) in
      (reported,
       resolved ← resolveEnv os (ed_Env decls) dotenv;
       mret (resolved, list_to_set (map ev_Name (ed_Env decls))))
  end.

(** * Documents *)
Inductive NodeKind : Type := ZeroNode | DocumentNode | SequenceNode | MappingNode | ScalarNode | AliasNode.
#[global] Instance NodeKind_eq_dec : EqDecision NodeKind.
Proof. solve_decision. Defined.

(** [yaml.Node]: an alias names its anchor in [n_Value]; positions and comments
    are left out. *)
Inductive Node : Type := mkNode {
  n_Kind : NodeKind;
  n_Style : Z;
  n_Tag : string;
  n_Value : string;
  n_Anchor : string;
  n_Content : list Node;
}.
Definition with_value (v : string) (n : Node) : Node :=
  mkNode (n_Kind n) (n_Style n) (n_Tag n) v (n_Anchor n) (n_Content n).
Definition with_tag (t : string) (n : Node) : Node :=
  mkNode (n_Kind n) (n_Style n) t (n_Value n) (n_Anchor n) (n_Content n).
Definition with_style (s : Z) (n : Node) : Node :=
  mkNode (n_Kind n) s (n_Tag n) (n_Value n) (n_Anchor n) (n_Content n).
Definition with_content (c : list Node) (n : Node) : Node :=
  mkNode (n_Kind n) (n_Style n) (n_Tag n) (n_Value n) (n_Anchor n) c.

Definition strTag : string := "!!str".
Definition literalSections : gset string := {[ "env"; "resources" ]}.

(** [placeholderPattern]: [$], an opening brace, a name, a closing brace. *)
Definition name_start (a : ascii) : bool :=
  let c := code a in ((65 <=? c) && (c <=? 90)) || ((97 <=? c) && (c <=? 122)) || (c =? 95).
Definition name_char (a : ascii) : bool := name_start a || ((48 <=? code a) && (code a <=? 57)).
Fixpoint name_run (s : string) : string * string :=
  match s with
  | String a r => if name_char a then let '(name, rest) := name_run r in (String a name, rest) else ("", s)
  | EmptyString => ("", "")
  end.
(** The name of the reference [s] begins with, and what follows it. *)
Definition placeholder (s : string) : option (string * string) :=
  match s with
  | String d (String b r) =>
      if Ascii.eqb d "$" && Ascii.eqb b "{" then
        let '(name, rest) := name_run r in
        match name, rest with
        | String a _, String c rest => if name_start a && Ascii.eqb c "}" then Some (name, rest) else None
        | _, _ => None
        end
      else None
  | _ => None
  end.
Definition reference (name : string) : string := "${" ++ name ++ "}".

Definition exactPlaceholder (s : string) : option string :=
  match placeholder s with Some (name, "") => Some name | _ => None end.

Section substitutor.
(** [yaml.Unmarshal] of a text into an [any]. *)
Variable yaml_value : string -> res any.
Variable resolved : vars.
Variable declared : gset string.

Definition undeclared (name : string) : goerr :=
  ErrMsg ("config references undeclared environment variable " ++ quote name ++ " (add it under env:)").
Definition unresolved (name : string) : goerr :=
  ErrMsg ("environment variable " ++ quote name ++ " is referenced but not set and has no default").
Definition env_resolve (name : string) : res string :=
  if decide (name ∈ declared) then
    match resolved !! name with Some value => Ok value | None => Err (unresolved name) end
  else Err (undeclared name).

Definition coerce (value : string) : any :=
  if String.eqb value "" then AStr ""
  else match yaml_value value with
    | Err _ | Ok ANil => AStr value
    | Ok ((ABool _ | AInt _ | AInt64 _ | AFloat _) as out) => out
    | Ok _ => AStr value
    end.

(** [ReplaceAllStringFunc] with the closure that keeps the last error in
    [subErr]; each reference is longer than nothing, so the length of the text
    is fuel enough. *)
Fixpoint replace_all (fuel : nat) (s : string) (subErr : option goerr) : string * option goerr :=
  match fuel, s with
  | O, _ => (s, subErr)
  | _, EmptyString => ("", subErr)
  | S fuel, String a r =>
      match placeholder s with
      | Some (name, rest) =>
          match env_resolve name with
          | Ok value => let '(out, e) := replace_all fuel rest subErr in (value ++ out, e)
          | Err err => let '(out, e) := replace_all fuel rest (Some err) in (reference name ++ out, e)
          end
      | None => let '(out, e) := replace_all fuel r subErr in (String a out, e)
      end
  end.

Definition scalar (n : Node) : res Node :=
  match exactPlaceholder (n_Value n) with
  | Some name =>
      value ← env_resolve name;
      let n := with_value value n in
      mret (match coerce value with
            | AStr _ => with_tag strTag n
            | _ => with_style 0 (with_tag "" n)
            end)
  | None =>
      match replace_all (String.length (n_Value n)) (n_Value n) None with
      | (_, Some e) => Err e
      | (out, None) => Ok (with_value out n)
      end
  end.

(** The loop of a mapping, two nodes at a time: a key and its value. *)
Definition map_values (f : Node -> res Node) (literal : Node -> bool) : list Node -> res (list Node) :=
  fix go l :=
    match l with
    | key :: value :: l =>
        value ← (if literal key then Ok value else f value);
        l ← go l;
        mret (key :: value :: l)
    | l => mret l
    end.

(** [substitutor.node]: the values of a mapping, each element of a sequence,
    the child of a document. *)
Fixpoint node (n : Node) (topLevel : bool) : res Node :=
  match n_Kind n with
  | ScalarNode => scalar n
  | MappingNode =>
      content ← map_values (fun value => node value false)
        (fun key => topLevel && bool_decide (n_Value key ∈ literalSections)) (n_Content n);
      mret (with_content content n)
  | DocumentNode | SequenceNode =>
      content ← mapM (fun child => node child (topLevel && bool_decide (n_Kind n = DocumentNode))) (n_Content n);
      mret (with_content content n)
  | ZeroNode | AliasNode => Ok n
  end.
Definition substituteDocument (doc : option Node) : res (option Node) :=
  match doc with
  | None => Ok None
  | Some doc => doc ← node doc true; mret (Some doc)
  end.
End substitutor.

(** * References *)
Lemma name_run_spec s name rest : name_run s = (name, rest) <->
  s = name ++ rest /\ Forall (fun a => name_char a = true) (list_ascii_of_string name) /\
  (forall a r, rest = String a r -> name_char a = false).
Proof.
  revert name rest. induction s as [|a s IH]; intros name rest; cbn [name_run].
  - split; [intros [= <- <-]; split_and!; [done|constructor|done]|].
    intros (H & _ & _). destruct name; rewrite ?nil_app, ?cons_app in H; [by subst|done].
  - destruct (name_char a) eqn:Ha.
    + destruct (name_run s) as [nm rs] eqn:E. split.
      * intros [= <- <-]. destruct (proj1 (IH nm rs) eq_refl) as (-> & Hf & Hr). rewrite cons_app. split_and!; [done| |done].
        by constructor.
      * intros (H & Hf & Hr). destruct name as [|b name]; rewrite ?nil_app, ?cons_app in H.
        -- subst rest. by rewrite (Hr a s eq_refl) in Ha.
        -- injection H as <- ->. apply Forall_cons in Hf as [_ Hf].
           assert ((nm, rs) = (name, rest)) as [= <- <-]; [|done]. by apply IH.
    + split.
      * intros [= <- <-]. split_and!; [done|constructor|]. by intros b r [= <- <-].
      * intros (H & Hf & Hr). destruct name as [|b name]; rewrite ?nil_app, ?cons_app in H; [by subst|].
        injection H as <- ->. apply Forall_cons in Hf as [Hb _]. congruence.
Qed.

Definition is_name (name : string) : Prop :=
  (exists a r, name = String a r /\ name_start a = true) /\
  Forall (fun a => name_char a = true) (list_ascii_of_string name).

Lemma placeholder_spec s name rest :
  placeholder s = Some (name, rest) <-> is_name name /\ s = reference name ++ rest.
Proof.
  unfold placeholder, reference. split.
  - destruct s as [|d [|b r]]; [done..|]. destruct (Ascii.eqb_spec d "$") as [->|]; [|done].
    destruct (Ascii.eqb_spec b "{") as [->|]; [|done]. cbn [andb]. destruct (name_run r) as [nm rs] eqn:E.
    apply name_run_spec in E as (-> & Hf & _). destruct nm as [|a nm]; [done|]. destruct rs as [|c rs]; [done|].
    destruct (name_start a) eqn:Ha; [|done]. destruct (Ascii.eqb_spec c "}") as [->|]; [|done]. intros [= <- <-].
    split; [split; [by eauto|done]|]. rewrite !cons_app, nil_app, !cons_app, app_str_assoc. done.
  - intros [[(a & r & -> & Ha) Hf] ->]. rewrite !cons_app, nil_app, !Ascii.eqb_refl. cbn [andb].
    assert (name_run ((String a r ++ "}") ++ rest) = (String a r, String "}" rest)) as E.
    { apply name_run_spec. split_and!; [by rewrite app_str_assoc|done|]. by intros b x [= <- <-]. }
    rewrite cons_app, cons_app in E. rewrite !cons_app. rewrite E, Ha. done.
Qed.

Lemma exactPlaceholder_spec s name : exactPlaceholder s = Some name <-> is_name name /\ s = reference name.
Proof.
  unfold exactPlaceholder. split.
  - destruct (placeholder s) as [[n rest]|] eqn:E; [|done]. destruct rest; [|done]. intros [= <-].
    apply placeholder_spec in E as [? ->]. split; [done|]. by rewrite app_str_nil_r.
  - intros [Hn ->]. assert (placeholder (reference name) = Some (name, "")) as ->; [|done].
    apply placeholder_spec. split; [done|]. by rewrite app_str_nil_r.
Qed.

(** The names a text refers to. *)
Fixpoint text_names (fuel : nat) (s : string) : list string :=
  match fuel, s with
  | S fuel, String a r =>
      match placeholder s with
      | Some (name, rest) => name :: text_names fuel rest
      | None => text_names fuel r
      end
  | _, _ => []
  end.

Definition value_names (f : Node -> list string) (literal : Node -> bool) : list Node -> list string :=
  fix go l :=
    match l with
    | key :: value :: l => ((if literal key then [] else f value) ++ go l)%list
    | _ => []
    end.
Definition literal_key (topLevel : bool) (key : Node) : bool := topLevel && bool_decide (n_Value key ∈ literalSections).

(** The names reached from a node, in the order of the walk. *)
Fixpoint reached (n : Node) (topLevel : bool) : list string :=
  match n_Kind n with
  | ScalarNode => text_names (String.length (n_Value n)) (n_Value n)
  | MappingNode => value_names (fun value => reached value false) (literal_key topLevel) (n_Content n)
  | DocumentNode | SequenceNode =>
      n_Content n ≫= fun child => reached child (topLevel && bool_decide (n_Kind n = DocumentNode))
  | ZeroNode | AliasNode => []
  end.

Lemma node_ind' (P : Node -> Prop) :
  (forall n, Forall P (n_Content n) -> P n) -> forall n, P n.
Proof.
  intros H. fix IH 1. intros [k s t v a c]. apply H. cbn. induction c as [|x c IHc]; constructor; [apply IH|apply IHc].
Qed.

(** The values of a mapping the walk enters, and what becomes of its content. *)
Fixpoint entered (literal : Node -> bool) (l : list Node) : list Node :=
  match l with
  | key :: value :: l => ((if literal key then [] else [value]) ++ entered literal l)%list
  | _ => []
  end.
Inductive entries (R : Node -> Node -> Prop) (literal : Node -> bool) : list Node -> list Node -> Prop :=
  | entries_end l : (List.length l <= 1)%nat -> entries R literal l l
  | entries_kept key value l k : literal key = true -> entries R literal l k ->
      entries R literal (key :: value :: l) (key :: value :: k)
  | entries_value key value value' l k : literal key = false -> R value value' -> entries R literal l k ->
      entries R literal (key :: value :: l) (key :: value' :: k).

Section mapping.
Context (literal : Node -> bool).

Lemma value_names_elem f name l : name ∈ value_names f literal l <-> exists x, x ∈ entered literal l /\ name ∈ f x.
Proof.
  induction l as [|x|key value l IH] using list_pair_ind; cbn; [set_solver..|].
  rewrite elem_of_app, IH. destruct (literal key); set_solver.
Qed.

Lemma entered_content l x : x ∈ entered literal l -> x ∈ l.
Proof. induction l as [|y|key value l IH] using list_pair_ind; cbn; [set_solver..|]. destruct (literal key); set_solver. Qed.

Lemma map_values_ok f l k : map_values f literal l = Ok k <-> entries (fun x y => f x = Ok y) literal l k.
Proof.
  revert k. induction l as [|x|key value l IH] using list_pair_ind; intros k; cbn.
  - split; [intros [= <-]; constructor; cbn; lia|by inversion 1].
  - split; [intros [= <-]; constructor; cbn; lia|by inversion 1].
  - rewrite res_bind_ok. setoid_rewrite res_bind_ok. setoid_rewrite IH. split.
    + intros (w & Hw & l' & Hl & [= <-]). destruct (literal key) eqn:E; [injection Hw as <-|]; by econstructor.
    + inversion 1 as [? Hlen|? ? ? ? E|? ? ? ? ? E]; simplify_eq/=; [lia| |]; rewrite E; eauto.
Qed.

Lemma map_values_err f l e : map_values f literal l = Err e -> exists x, x ∈ entered literal l /\ f x = Err e.
Proof.
  induction l as [|x|key value l IH] using list_pair_ind; [done..|]. cbn. destruct (literal key).
  - cbn. destruct (map_values f literal l) as [|e'] eqn:E; [done|]. rewrite ?E. intros [= ->]. naive_solver.
  - destruct (f value) as [w|e'] eqn:Ef; cbn; [|intros [= ->]; set_solver].
    destruct (map_values f literal l) as [|e'] eqn:E; rewrite ?E; [done|]. intros [= ->].
    destruct (IH eq_refl) as (x & ? & ?). exists x. set_solver.
Qed.

Lemma entries_iff R R' l k : Forall (fun x => forall y, R x y <-> R' x y) l -> entries R literal l k <-> entries R' literal l k.
Proof.
  intros H. split; intros Hk; induction Hk; repeat (apply Forall_cons in H as [? H]); constructor; naive_solver.
Qed.
End mapping.

(** * What substitution means *)
Section specification.
Context (yaml_value : string -> res any) (resolved : vars) (declared : gset string).
#[local] Abbreviation env_resolve := (env_resolve resolved declared).
#[local] Abbreviation scalar := (scalar yaml_value resolved declared).
#[local] Abbreviation node := (node yaml_value resolved declared).
#[local] Abbreviation replace_all := (replace_all resolved declared).

(** A text with every reference replaced by its variable's value, which is not
    looked at again. *)
Inductive rendered : string -> string -> Prop :=
  | rendered_end : rendered "" ""
  | rendered_reference name rest value out :
      is_name name -> env_resolve name = Ok value -> rendered rest out ->
      rendered (reference name ++ rest) (value ++ out)
  | rendered_char a r out :
      (forall name rest, is_name name -> String a r ≠ reference name ++ rest) -> rendered r out ->
      rendered (String a r) (String a out).

(** A scalar whose whole text is one reference takes the variable's own type. *)
Definition typed (value : string) (n : Node) : Node :=
  match coerce yaml_value value with
  | AStr _ => with_tag strTag (with_value value n)
  | _ => with_style 0 (with_tag "" (with_value value n))
  end.

Inductive substituted : bool -> Node -> Node -> Prop :=
  | substituted_reference top n name value :
      n_Kind n = ScalarNode -> is_name name -> n_Value n = reference name -> env_resolve name = Ok value ->
      substituted top n (typed value n)
  | substituted_text top n out :
      n_Kind n = ScalarNode -> (forall name, is_name name -> n_Value n ≠ reference name) -> rendered (n_Value n) out ->
      substituted top n (with_value out n)
  | substituted_mapping top n content :
      n_Kind n = MappingNode -> entries (substituted false) (literal_key top) (n_Content n) content ->
      substituted top n (with_content content n)
  | substituted_document top n content :
      n_Kind n = DocumentNode -> Forall2 (substituted top) (n_Content n) content -> substituted top n (with_content content n)
  | substituted_sequence top n content :
      n_Kind n = SequenceNode -> Forall2 (substituted false) (n_Content n) content -> substituted top n (with_content content n)
  | substituted_alias top n : n_Kind n = AliasNode \/ n_Kind n = ZeroNode -> substituted top n n.

Lemma placeholder_none s : placeholder s = None <-> forall name rest, is_name name -> s ≠ reference name ++ rest.
Proof.
  split.
  - intros H name rest Hn ->. by rewrite (proj2 (placeholder_spec _ name rest) (conj Hn eq_refl)) in H.
  - intros H. destruct (placeholder s) as [[name rest]|] eqn:E; [|done]. apply placeholder_spec in E as [Hn E]. by destruct (H name rest).
Qed.

Lemma placeholder_shorter s name rest : placeholder s = Some (name, rest) -> (String.length rest < String.length s)%nat.
Proof. intros [_ ->]%placeholder_spec. unfold reference. rewrite !length_app_str. cbn. lia. Qed.

Lemma rendered_view s out : rendered s out <->
  match placeholder s with
  | Some (name, rest) => exists value o, env_resolve name = Ok value /\ rendered rest o /\ out = value ++ o
  | None => match s with
    | EmptyString => out = ""
    | String a r => exists o, rendered r o /\ out = String a o
    end
  end.
Proof.
  split.
  - intros [|name rest value o Hn Hv Ho|a r o Hno Ho]; [done| |].
    + rewrite (proj2 (placeholder_spec _ name rest) (conj Hn eq_refl)). by exists value, o.
    + rewrite (proj2 (placeholder_none _) Hno). by exists o.
  - destruct (placeholder s) as [[name rest]|] eqn:E.
    + apply placeholder_spec in E as [Hn ->]. intros (value & o & Hv & Ho & ->). by constructor.
    + destruct s as [|a r]; [intros ->; constructor|]. intros (o & Ho & ->). constructor; [by apply placeholder_none|done].
Qed.

Lemma replace_all_ok fuel s sub out : (String.length s <= fuel)%nat ->
  replace_all fuel s sub = (out, None) <-> sub = None /\ rendered s out.
Proof.
  revert s sub out. induction fuel as [|fuel IH]; intros s sub out Hf; destruct s as [|a r];
    rewrite rendered_view; cbn in Hf; try lia; [cbn; naive_solver..|].
  cbn [replace_all]. destruct (placeholder (String a r)) as [[name rest]|] eqn:E.
  - pose proof (placeholder_shorter _ _ _ E) as Hlt. cbn in Hlt.
    destruct (env_resolve name) as [value|err] eqn:Er.
    + destruct (replace_all fuel rest sub) as [o e] eqn:Eo.
      assert (forall o', (o, e) = (o', None) <-> sub = None /\ rendered rest o') as Hrec by (intros o'; rewrite <- Eo; apply IH; lia).
      naive_solver.
    + destruct (replace_all fuel rest (Some err)) as [o e] eqn:Eo.
      assert (forall o', (o, e) = (o', None) <-> Some err = None /\ rendered rest o') as Hrec by (intros o'; rewrite <- Eo; apply IH; lia).
      naive_solver.
  - destruct (replace_all fuel r sub) as [o e] eqn:Eo.
    assert (forall o', (o, e) = (o', None) <-> sub = None /\ rendered r o') as Hrec by (intros o'; rewrite <- Eo; apply IH; lia).
    naive_solver.
Qed.

Lemma replace_all_err fuel s sub out e : replace_all fuel s sub = (out, Some e) ->
  sub = Some e \/ exists name, name ∈ text_names fuel s /\ env_resolve name = Err e.
Proof.
  revert s sub out. induction fuel as [|fuel IH]; intros [|a r] sub out; cbn [replace_all text_names]; [naive_solver..|].
  destruct (placeholder (String a r)) as [[name rest]|].
  - destruct (env_resolve name) as [value|err] eqn:Er.
    + destruct (replace_all fuel rest sub) as [o e'] eqn:Eo. intros [= <- ->].
      destruct (IH _ _ _ Eo) as [?|(x & ? & ?)]; [by left|right; exists x; set_solver].
    + destruct (replace_all fuel rest (Some err)) as [o e'] eqn:Eo. intros [= <- ->]. right.
      destruct (IH _ _ _ Eo) as [[= <-]|(x & ? & ?)]; [exists name; set_solver|exists x; set_solver].
  - destruct (replace_all fuel r sub) as [o e'] eqn:Eo. intros [= <- ->]. by apply IH in Eo.
Qed.

Lemma rendered_names fuel s out name : rendered s out -> name ∈ text_names fuel s -> is_ok (env_resolve name) = true.
Proof.
  revert s out. induction fuel as [|fuel IH]; intros [|a r] out; cbn [text_names]; [set_solver..|]. rewrite rendered_view.
  destruct (placeholder (String a r)) as [[n rest]|].
  - intros (value & o & Hv & Ho & _) [->|Hin]%elem_of_cons; [by rewrite Hv|by eapply IH].
  - intros (o & Ho & _). by apply IH with o.
Qed.

Lemma text_names_reference name : is_name name -> text_names (String.length (reference name)) (reference name) = [name].
Proof.
  intros Hn. assert (placeholder (reference name) = Some (name, "")) as E.
  { apply placeholder_spec. split; [done|]. by rewrite app_str_nil_r. }
  unfold reference in *. rewrite cons_app in *. cbn [String.length text_names]. rewrite E. by destruct (String.length _).
Qed.

Lemma scalar_ok top n n' : n_Kind n = ScalarNode -> scalar n = Ok n' <-> substituted top n n'.
Proof.
  intros Hk. unfold Env.scalar. destruct (exactPlaceholder (n_Value n)) as [name|] eqn:E.
  - apply exactPlaceholder_spec in E as [Hn Hv]. rewrite res_bind_ok. split.
    + intros (value & Hr & [= <-]). by eapply substituted_reference.
    + inversion 1 as [? ? m value ? Hm Hv' Hr|? ? out ? Hno| | | |? ? [?|?]]; simplify_eq; try congruence.
      * assert (exactPlaceholder (n_Value n) = Some m) as Em by (by apply exactPlaceholder_spec).
        assert (exactPlaceholder (n_Value n) = Some name) as En by (by apply exactPlaceholder_spec).
        rewrite En in Em. simplify_eq. by exists value.
      * by destruct (Hno name).
  - assert (forall name, is_name name -> n_Value n ≠ reference name) as Hno.
    { intros name Hn Hv. by rewrite (proj2 (exactPlaceholder_spec _ name) (conj Hn Hv)) in E. }
    pose proof (replace_all_ok (String.length (n_Value n)) (n_Value n) None) as Hall.
    destruct (replace_all _ _ None) as [o [e|]] eqn:Eo.
    + split; [done|]. inversion 1 as [? ? m value ? Hm Hv' Hr|? ? out ? _ Hr| | | |? ? [?|?]]; simplify_eq; try congruence.
      * by destruct (Hno m).
      * by pose proof (proj2 (Hall out ltac:(lia)) (conj eq_refl Hr)).
    + split.
      * intros [= <-]. apply substituted_text; [done..|]. by apply (Hall o).
      * inversion 1 as [? ? m value ? Hm Hv' Hr|? ? out ? _ Hr| | | |? ? [?|?]]; simplify_eq; try congruence.
        -- by destruct (Hno m).
        -- by injection (proj2 (Hall out ltac:(lia)) (conj eq_refl Hr)) as ->.
Qed.

Lemma scalar_names n : let names := text_names (String.length (n_Value n)) (n_Value n) in
  match scalar n with
  | Ok _ => forall name, name ∈ names -> is_ok (env_resolve name) = true
  | Err e => exists name, name ∈ names /\ env_resolve name = Err e
  end.
Proof.
  intros names. subst names. unfold Env.scalar. destruct (exactPlaceholder (n_Value n)) as [name|] eqn:E.
  - apply exactPlaceholder_spec in E as [Hn ->]. rewrite text_names_reference by done.
    destruct (env_resolve name) as [v|e] eqn:Er; cbn.
    + intros m ->%list_elem_of_singleton. by rewrite Er.
    + exists name. by rewrite list_elem_of_singleton.
  - destruct (replace_all _ _ None) as [o [e|]] eqn:Eo.
    + apply replace_all_err in Eo as [?|?]; [done|done].
    + apply replace_all_ok in Eo as [_ Hr]; [|done]. intros name. by eapply rendered_names.
Qed.

(** The names a computation looks up decide whether it succeeds. *)
Definition decided_by {A} (r : res A) (names : list string) : Prop :=
  match r with
  | Ok _ => forall name, name ∈ names -> is_ok (env_resolve name) = true
  | Err e => exists name, name ∈ names /\ env_resolve name = Err e
  end.

Lemma decided_mapM (f : Node -> res Node) names c :
  (forall x, x ∈ c -> decided_by (f x) (names x)) -> decided_by (mapM f c) (c ≫= names).
Proof.
  intros H. destruct (mapM f c) as [k|e] eqn:E.
  - apply mapM_res_ok in E. intros name (x & Hname & Hx)%list_elem_of_bind. specialize (H x Hx).
    apply list_elem_of_lookup in Hx as [i Hi]. destruct (Forall2_lookup_l _ _ _ _ _ E Hi) as (y & _ & Hy).
    rewrite Hy in H. by apply H.
  - apply mapM_res_err in E as (x & Hx & He). specialize (H x Hx). rewrite He in H. destruct H as (name & ? & ?).
    exists name. split; [|done]. apply list_elem_of_bind. by exists x.
Qed.

Lemma decided_values literal (f : Node -> res Node) names c :
  (forall x, x ∈ c -> decided_by (f x) (names x)) -> decided_by (map_values f literal c) (value_names names literal c).
Proof.
  intros H. destruct (map_values f literal c) as [k|e] eqn:E.
  - apply map_values_ok in E. intros name (x & Hx & Hname)%value_names_elem. pose proof (H x (entered_content _ _ _ Hx)) as Hd.
    clear H. induction E as [l Hl|key v l k' Hlit E IH|key v v' l k' Hlit Hv E IH]; cbn in Hx; try rewrite Hlit in Hx; cbn in Hx.
    + destruct l as [|? [|? l]]; cbn in Hx, Hl; [set_solver..|lia].
    + by apply IH.
    + apply elem_of_cons in Hx as [->|Hx]; [|by apply IH]. rewrite Hv in Hd. by apply Hd.
  - apply map_values_err in E as (x & Hx & He). pose proof (H x (entered_content _ _ _ Hx)) as Hd. rewrite He in Hd.
    destruct Hd as (name & ? & ?). exists name. split; [|done]. apply value_names_elem. by exists x.
Qed.

Lemma decided_with_content n r names : decided_by r names ->
  decided_by (content ← r; mret (with_content content n) : res Node) names.
Proof. by destruct r. Qed.

Lemma node_names n top : decided_by (node n top) (reached n top).
Proof.
  revert top. induction n as [n IH] using node_ind'. rewrite Forall_forall in IH. intros top.
  pose proof (scalar_names n) as Hs. destruct n as [[] s t v a c]; cbn in IH |- *; try (cbn; set_solver).
  - apply decided_with_content, decided_mapM. intros x Hx. by apply IH.
  - apply decided_with_content, decided_mapM. intros x Hx. by apply IH.
  - apply decided_with_content, decided_values. intros x Hx. by apply IH.

Qed.

Lemma with_content_ok n (r : res (list Node)) n' :
  (content ← r; mret (with_content content n)) = Ok n' <-> exists content, r = Ok content /\ n' = with_content content n.
Proof. rewrite res_bind_ok. split; intros (c & -> & H); exists c; (split; [done|]); [by injection H as <-|by rewrite H]. Qed.

Lemma mapM_substituted (f : Node -> res Node) (R : Node -> Node -> Prop) c k :
  (forall x, x ∈ c -> forall y, f x = Ok y <-> R x y) -> mapM f c = Ok k <-> Forall2 R c k.
Proof.
  intros H. rewrite mapM_res_ok.
  split; intros Hk; revert H; (induction Hk as [|x y c k Hxy Hk IH]; intros H; constructor;
    [apply H; [left|done]|apply IH; intros z Hz; apply H; by right]).
Qed.

Lemma node_ok n top n' : node n top = Ok n' <-> substituted top n n'.
Proof.
  revert top n'. induction n as [n IH] using node_ind'. rewrite Forall_forall in IH. intros top n'.
  assert (forall t, forall x, x ∈ n_Content n -> forall y, node x t = Ok y <-> substituted t x y) as Hsub by auto.
  destruct (n_Kind n) eqn:Hk.
  - destruct n; cbn in Hk; subst. cbn. split; [intros [= <-]; apply substituted_alias; by right|].
    by inversion 1.
  - destruct n as [k s t v a c]; cbn in Hk, Hsub; subst k. cbn [Env.node n_Kind n_Content].
    rewrite with_content_ok. setoid_rewrite (mapM_substituted _ (substituted top)).
    2:{ intros x Hx y. rewrite bool_decide_true, andb_true_r by done. by apply Hsub. }
    split; [intros (content & Hc & ->); by apply substituted_document|]. inversion 1; simplify_eq/=; eauto; naive_solver.
  - destruct n as [k s t v a c]; cbn in Hk, Hsub; subst k. cbn [Env.node n_Kind n_Content].
    rewrite with_content_ok. setoid_rewrite (mapM_substituted _ (substituted false)).
    2:{ intros x Hx y. rewrite bool_decide_false, andb_false_r by done. by apply Hsub. }
    split; [intros (content & Hc & ->); by apply substituted_sequence|]. inversion 1; simplify_eq/=; eauto; naive_solver.
  - destruct n as [k s t v a c]; cbn in Hk, Hsub; subst k. cbn [Env.node n_Kind n_Content].
    rewrite with_content_ok. setoid_rewrite map_values_ok.
    setoid_rewrite (entries_iff _ _ (substituted false)). 2:{ apply Forall_forall. intros x Hx y. by apply Hsub. }
    split; [intros (content & Hc & ->); by apply substituted_mapping|]. inversion 1; simplify_eq/=; eauto; naive_solver.
  - rewrite <- scalar_ok by done. destruct n; cbn in Hk; by subst.
  - destruct n; cbn in Hk; subst. cbn. split; [intros [= <-]; apply substituted_alias; by left|].
    by inversion 1.
Qed.
End specification.

(** C36: A document is rewritten exactly where the format says.  Substitution
    succeeds exactly when every reference it reaches names a declared variable
    that has a value, and then the new document is the one the specification
    [substituted] describes: every scalar value has its references replaced by
    the values (looked at once, a value is not expanded again), a value that is
    a lone reference takes the variable's own type, and mapping keys, aliases
    and the env and resources sections are as they were; otherwise the error is
    that of a reference the document holds. *)
Theorem substitution_exact (yaml_value : string -> res any) (resolved : vars) (declared : gset string) (doc : Node) :
  (forall doc', substituteDocument yaml_value resolved declared (Some doc) = Ok (Some doc') <->
    substituted yaml_value resolved declared true doc doc') /\
  match substituteDocument yaml_value resolved declared (Some doc) with
  | Ok _ => forall name, name ∈ reached doc true -> name ∈ declared /\ is_Some (resolved !! name)
  | Err e => exists name, name ∈ reached doc true /\
      (((name ∉ declared) /\ e = undeclared name) \/ (name ∈ declared /\ resolved !! name = None /\ e = unresolved name))
  end.
Proof.
  cbn [substituteDocument]. split.
  - intros doc'. rewrite <- node_ok, res_bind_ok. split; [by intros (x & Hx & [= <-])|intros H; by exists doc'].
  - pose proof (node_names yaml_value resolved declared doc true) as H.
    assert (forall name, match env_resolve resolved declared name with
      | Ok _ => name ∈ declared /\ is_Some (resolved !! name)
      | Err e => ((name ∉ declared) /\ e = undeclared name) \/ (name ∈ declared /\ resolved !! name = None /\ e = unresolved name)
      end) as Hname.
    { intros name. unfold env_resolve. destruct (decide (name ∈ declared)); [|by left].
      destruct (resolved !! name) eqn:E; [by split; [|eexists]|by right]. }
    destruct (node _ _ _ doc true) as [n|e]; cbn in H |- *.
    + intros name Hin. specialize (Hname name). specialize (H name Hin). by destruct (env_resolve _ _ name).
    + destruct H as (name & Hin & He). exists name. specialize (Hname name). by rewrite He in Hname.
Qed.

(** * Where values come from *)

(** The value of a variable, from the highest precedence down. *)
Definition effective (os : OS) (dotenv : vars) (d : EnvVar) : option string :=
  match lookupEnv os (ev_Name d) dotenv with
  | Some v => Some v
  | None => if ev_Required d then None else ev_Default d
  end.
Definition declaration (decls : list EnvVar) (name : string) : option EnvVar :=
  head (filter (fun d => ev_Name d = name) decls).
(** A declaration a run refuses. *)
Definition refused (os : OS) (dotenv : vars) (d : EnvVar) : bool :=
  String.eqb (ev_Name d) "" || (ev_Required d && negb (bool_decide (is_Some (lookupEnv os (ev_Name d) dotenv)))).

Definition decl_error (d : EnvVar) : goerr :=
  if String.eqb (ev_Name d) "" then ErrMsg "env declaration requires a name"
  else ErrMsg ("required environment variable " ++ quote (ev_Name d) ++ " is not set").

Lemma resolve_decls_step os d decls dotenv acc : resolve_decls os (d :: decls) dotenv acc =
  if refused os dotenv d then Err (decl_error d)
  else resolve_decls os decls dotenv (match effective os dotenv d with Some v => <[ev_Name d := v]> acc | None => acc end).
Proof.
  cbn [resolve_decls]. unfold refused, effective, decl_error. destruct (String.eqb (ev_Name d) ""); [done|].
  destruct (lookupEnv os (ev_Name d) dotenv); cbn.
  - by rewrite andb_false_r.
  - by destruct (ev_Required d); [|destruct (ev_Default d)].
Qed.

Lemma declaration_cons d decls name : declaration (d :: decls) name = if decide (ev_Name d = name) then Some d else declaration decls name.
Proof. unfold declaration. rewrite filter_cons. by destruct (decide (ev_Name d = name)). Qed.

Lemma declaration_none decls name : name ∉ map ev_Name decls -> declaration decls name = None.
Proof.
  induction decls as [|d decls IH]; cbn; [done|]. rewrite declaration_cons. intros H.
  rewrite decide_False by set_solver. apply IH. set_solver.
Qed.

Lemma declaration_elem decls name d : declaration decls name = Some d -> d ∈ decls /\ ev_Name d = name.
Proof.
  induction decls as [|d' decls IH]; [done|]. rewrite declaration_cons. destruct (decide (ev_Name d' = name)).
  - intros [= ->]. split; [by left|done].
  - intros H. destruct (IH H). split; [by right|done].
Qed.

Lemma resolve_decls_spec os decls dotenv acc : NoDup (map ev_Name decls) ->
  match resolve_decls os decls dotenv acc with
  | Ok resolved => Forall (fun d => refused os dotenv d = false) decls /\
      forall name, resolved !! name =
        match declaration decls name ≫= effective os dotenv with Some v => Some v | None => acc !! name end
  | Err e => exists d, d ∈ decls /\ refused os dotenv d = true /\ e = decl_error d
  end.
Proof.
  revert acc. induction decls as [|d decls IH]; intros acc Hnd; [by split|]. rewrite resolve_decls_step.
  apply NoDup_cons in Hnd as [Hd Hnd]. destruct (refused os dotenv d) eqn:Hr; [exists d; set_solver|].
  specialize (IH (match effective os dotenv d with Some v => <[ev_Name d := v]> acc | None => acc end) Hnd).
  destruct (resolve_decls os decls dotenv _) as [resolved|e]; [|destruct IH as (d' & ? & ?); exists d'; set_solver].
  destruct IH as [Hf Hl]. split; [by constructor|]. intros name. rewrite Hl, declaration_cons.
  destruct (decide (ev_Name d = name)) as [<-|Hne].
  - rewrite declaration_none by done. cbn. destruct (effective os dotenv d); [by rewrite lookup_insert_eq|done].
  - destruct (declaration decls name ≫= effective os dotenv); [done|].
    destruct (effective os dotenv d); [by rewrite lookup_insert_ne|done].
Qed.

Definition file_values (os : OS) (path : string) : vars :=
  match ReadFile os path with
  | FileData data => match Parse data with Ok values => values | Err _ => ∅ end
  | _ => ∅
  end.

Lemma load_files_overlay os paths merged dotenv : load_files os paths merged = Ok dotenv ->
  dotenv = foldl overlay merged (map (file_values os) paths).
Proof.
  revert merged. induction paths as [|path paths IH]; intros merged; cbn [load_files foldl map]; [by intros [= ->]|].
  assert (overlay merged ∅ = merged) as Hm by (unfold overlay; by rewrite (left_id_L ∅ (∪))).
  unfold file_values at 1. destruct (ReadFile os path) as [data| |]; [|rewrite Hm; apply IH|done].
  destruct (Parse data) as [values|]; [|done]. apply IH.
Qed.

Lemma resources_overlay loader ids : loadEnvResources loader ids = foldl overlay ∅ (map (resource_values loader) ids).
Proof. unfold loadEnvResources. generalize (∅ : vars). induction ids as [|id ids IH]; intros m; cbn; [done|apply IH]. Qed.

(** Of maps overlaid in turn, the last that knows a name gives its value. *)
Lemma overlay_lookup (ms : list vars) name : foldl overlay ∅ ms !! name = head (omap (lookup name) (reverse ms)).
Proof.
  induction ms as [|m ms IH] using rev_ind; [apply lookup_empty|]. rewrite foldl_app, reverse_snoc. cbn.
  unfold overlay at 1. rewrite lookup_union, IH. destruct (m !! name); cbn; [by destruct (head _)|by destruct (head _)].
Qed.

(** What variables can be read from beside the process environment, highest
    precedence first. *)
Definition layers (os : OS) (loader : ResourceLoader) (ids : list string) : list vars :=
  (reverse (map (resource_values loader) ids) ++ reverse (map (file_values os) (DotEnvPaths os)))%list.
Definition supply (os : OS) (loader : ResourceLoader) (ids : list string) (name : string) : option string :=
  match LookupEnv os name with
  | Some v => Some v
  | None => head (omap (lookup name) (layers os loader ids))
  end.

Lemma supply_lookup os loader ids files name : loadDotEnv os = Ok files ->
  lookupEnv os name (overlay files (loadEnvResources loader ids)) = supply os loader ids name.
Proof.
  intros Hf. apply load_files_overlay in Hf as ->. unfold lookupEnv, supply, layers. destruct (LookupEnv os name); [done|].
  unfold overlay at 1. rewrite lookup_union, resources_overlay, !overlay_lookup, omap_app.
  destruct (omap _ (reverse (map (resource_values _) _))); cbn; [by destruct (head _)|by destruct (head _)].
Qed.

(** A declaration that resolves to nothing unless something stands in. *)
Definition wanted (os : OS) (dotenv : vars) (d : EnvVar) : bool :=
  ev_Required d && negb (bool_decide (is_Some (lookupEnv os (ev_Name d) dotenv))).

Lemma lookupEnv_insert_ne os name name' v dotenv : name ≠ name' -> lookupEnv os name (<[name' := v]> dotenv) = lookupEnv os name dotenv.
Proof. intros H. unfold lookupEnv. by rewrite lookup_insert_ne. Qed.

Lemma stand_in_spec os decls dotenv reported dotenv' reported' : NoDup (map ev_Name decls) ->
  standInUnset os decls dotenv reported = (dotenv', reported') ->
  reported' = (reported ++ map ev_Name (filter (fun d => wanted os dotenv d = true) decls))%list /\
  (forall name, name ∉ map ev_Name decls -> lookupEnv os name dotenv' = lookupEnv os name dotenv) /\
  forall d, d ∈ decls -> effective os dotenv' d = Some (default "" (effective os dotenv d)) /\ wanted os dotenv' d = false.
Proof.
  revert dotenv reported. induction decls as [|d decls IH]; intros dotenv reported; cbn [standInUnset map].
  { intros _ [= <- <-]. split_and!; [by rewrite app_nil_r|done|set_solver]. }
  intros [Hd Hnd]%NoDup_cons H.
  assert (exists dot rep, standInUnset os decls dot rep = (dotenv', reported') /\
    rep = (reported ++ (if wanted os dotenv d then [ev_Name d] else []))%list /\
    (forall name, name ≠ ev_Name d -> lookupEnv os name dot = lookupEnv os name dotenv) /\
    effective os dot d = Some (default "" (effective os dotenv d)) /\ wanted os dot d = false)
    as (dot & rep & H' & -> & Hsame & Heff & Hw).
  { unfold wanted, effective. destruct (lookupEnv os (ev_Name d) dotenv) as [v|] eqn:El.
    - exists dotenv, reported. rewrite El. cbn. rewrite andb_false_r, app_nil_r. done.
    - assert (forall w, lookupEnv os (ev_Name d) (<[ev_Name d := w]> dotenv) = Some w) as Hins.
      { intros w. unfold lookupEnv in *. destruct (LookupEnv os (ev_Name d)); [done|]. by rewrite lookup_insert_eq. }
      destruct (ev_Required d) eqn:Er; [|destruct (ev_Default d) as [v|] eqn:Ed]; cbn.
      + eexists _, _. split; [exact H|]. rewrite Hins. split_and!; try done. intros name Hne. by apply lookupEnv_insert_ne.
      + exists dotenv, reported. rewrite El. cbn. by rewrite app_nil_r.
      + eexists _, _. split; [exact H|]. rewrite Hins, app_nil_r. split_and!; try done. intros name Hne. by apply lookupEnv_insert_ne. }
  apply IH in H' as (-> & Hout & Hin); [|done]. split_and!.
  - rewrite <- app_assoc. f_equal. rewrite filter_cons.
    assert (filter (fun d => wanted os dot d = true) decls = filter (fun d => wanted os dotenv d = true) decls) as ->.
    { apply filter_agree. intros x Hx. unfold wanted. rewrite Hsame; [done|]. intros Heq. apply Hd. rewrite <- Heq.
      apply list_elem_of_In, in_map, list_elem_of_In, Hx. }
    by destruct (wanted os dotenv d); cbn; [rewrite decide_True|rewrite decide_False].
  - intros name Hname. rewrite Hout by set_solver. apply Hsame. set_solver.
  - intros d' [->|Hd']%elem_of_cons.
    + unfold effective, wanted in *. rewrite Hout by done. done.
    + destruct (Hin d' Hd') as [He Hw']. split; [|done]. rewrite He. unfold effective. rewrite Hsame; [done|].
      intros Heq. apply Hd. rewrite <- Heq. apply list_elem_of_In, in_map, list_elem_of_In, Hd'.
Qed.

(** The value of a declared variable when [value] is what supplies it from
    outside: what nobody supplies has its default, if it need not be supplied;
    [unset] puts the empty string where there would be no value. *)
Definition value_of (unset : bool) (value : string -> option string) (d : EnvVar) : option string :=
  match value (ev_Name d), ev_Required d, ev_Default d with
  | Some v, _, _ => Some v
  | None, false, Some v => Some v
  | None, _, _ => if unset then Some "" else None
  end.

(** Where the value of a declared variable comes from.  When the .env files
    load, a variable has the value the process environment gives it, else the
    one of the last env resource that supplies it, else of $OCTO_ENV_FILE, else
    of ./.env; a required variable none of them supplies is refused whatever its
    default, an optional one has its default, and a name that resolves to
    nothing has no value.  [WithUnsetEnv] refuses no variable: those without a
    value get the empty string, a default still standing, and exactly the
    required ones a run would refuse are reported, in order. *)
Lemma environment_precedence (os : OS) (decls : envDecls) (loader : ResourceLoader) (unset : bool)
    (Hnames : NoDup (map ev_Name (ed_Env decls))) :
  match loadDotEnv os with
  | Err e => resolveDeclared os decls loader unset = ([], Err e)
  | Ok _ =>
      let value := supply os loader (rs_Env (ed_Resources decls)) in
      let missing d := ev_Required d = true /\ value (ev_Name d) = None in
      let '(reported, r) := resolveDeclared os decls loader unset in
      reported = (if unset then map ev_Name (filter missing (ed_Env decls)) else []) /\
      match r with
      | Ok (resolved, declared) =>
          declared = list_to_set (map ev_Name (ed_Env decls)) /\
          (unset = false -> forall d, d ∈ ed_Env decls -> ~ missing d) /\
          forall name, resolved !! name = declaration (ed_Env decls) name ≫= value_of unset value
      | Err e => exists d, d ∈ ed_Env decls /\ (ev_Name d = "" \/ (unset = false /\ missing d)) /\ e = decl_error d
      end
  end.
Proof.
  unfold resolveDeclared. destruct (loadDotEnv os) as [files|e] eqn:Ef; [|done]. cbv zeta.
  set (dotenv := overlay files (loadEnvResources loader (rs_Env (ed_Resources decls)))).
  assert (forall name, supply os loader (rs_Env (ed_Resources decls)) name = lookupEnv os name dotenv) as Hsup
    by (intros name; by rewrite <- (supply_lookup _ _ _ _ _ Ef)).
  assert (forall d, wanted os dotenv d = true <-> ev_Required d = true /\ supply os loader (rs_Env (ed_Resources decls)) (ev_Name d) = None) as Hmiss.
  { intros d. rewrite Hsup. unfold wanted. destruct (ev_Required d), (lookupEnv os (ev_Name d) dotenv); naive_solver. }
  destruct unset.
  - destruct (standInUnset os (ed_Env decls) dotenv []) as [dotenv' reported] eqn:Es.
    destruct (stand_in_spec _ _ _ _ _ _ Hnames Es) as (-> & _ & Hin). split; [cbn; f_equal; by apply filter_agree|].
    pose proof (resolve_decls_spec os _ dotenv' ∅ Hnames) as Hr. unfold resolveEnv.
    destruct (resolve_decls os (ed_Env decls) dotenv' ∅) as [resolved|e]; cbn.
    + split_and!; [done|done|]. intros name. destruct Hr as [_ ->].
      destruct (declaration (ed_Env decls) name) as [d|] eqn:Ed; cbn; [|apply lookup_empty].
      apply declaration_elem in Ed as [Hd <-]. rewrite (proj1 (Hin d Hd)). unfold effective, value_of. rewrite Hsup.
      by destruct (lookupEnv os (ev_Name d) dotenv), (ev_Required d), (ev_Default d).
    + destruct Hr as (d & Hd & Hr & ->). exists d. split_and!; [done| |done]. left. destruct (Hin d Hd) as [_ Hw].
      unfold refused in Hr. unfold wanted in Hw. rewrite Hw, orb_false_r in Hr. by apply String.eqb_eq.
  - split; [done|]. pose proof (resolve_decls_spec os _ dotenv ∅ Hnames) as Hr. unfold resolveEnv.
    destruct (resolve_decls os (ed_Env decls) dotenv ∅) as [resolved|e]; cbn.
    + destruct Hr as [Hf Hl]. rewrite Forall_forall in Hf. split_and!; [done| |].
      * intros _ d Hd Hm%Hmiss. specialize (Hf d Hd). unfold refused in Hf. apply orb_false_iff in Hf as [_ Hf].
        unfold wanted in Hm. congruence.
      * intros name. rewrite Hl. destruct (declaration (ed_Env decls) name) as [d|] eqn:Ed; cbn; [|apply lookup_empty].
        apply declaration_elem in Ed as [Hd <-]. unfold effective, value_of. rewrite Hsup.
        by destruct (lookupEnv os (ev_Name d) dotenv), (ev_Required d), (ev_Default d).
    + destruct Hr as (d & Hd & Hr & ->). exists d. split_and!; [done| |done]. unfold refused in Hr.
      apply orb_true_iff in Hr as [Hn|Hw]; [left; by apply String.eqb_eq|right]. split; [done|]. by apply Hmiss.
Qed.

(** An anchor in a literal section is not rewritten, and an alias to it carries
    the reference out of the section as it is. *)
Lemma aliased_literal_kept :
  let str v anchor := mkNode ScalarNode 0 "!!str" v anchor [] in
  let doc := mkNode DocumentNode 0 "" "" "" [mkNode MappingNode 0 "!!map" "" ""
    [str "resources" ""; mkNode SequenceNode 0 "!!seq" "" "" [str "${NAME}.env" "e"];
     str "service" ""; mkNode AliasNode 0 "" "e" "" []]] in
  substituteDocument (fun _ => Err (ErrMsg "")) {[ "NAME" := "prod" ]} {[ "NAME" ]} (Some doc) = Ok (Some doc).
Proof. vm_compute. reflexivity. Qed.
