(* ===== verification/Merge.v ===== *)
(** From the documents of a config to one typed config: [core/runtime/config.go],
    and the template aliases of [core/runtime/resources.go].

    [resolveDocuments] gathers the declarations of every document, resolves the
    environment once, substitutes, decodes and merges.  The YAML decoder is a
    parameter; reading the files is not modelled, their names are. *)
From S2P Require Import Prelude GoStr F64 Message Config Dotenv Env.
From Stdlib Require Import String Ascii.
#[local] Open Scope string_scope.
#[local] Open Scope Z_scope.

(** * Which files *)
Definition TestFileSuffix : string := "_test".

(** [filepath.Ext]: from the last dot of the last path element. *)
Fixpoint ext_from (s : string) (best : string) : string :=
  match s with
  | EmptyString => best
  | String a r => ext_from r (if Ascii.eqb a "." then s else if Ascii.eqb a "/" then "" else best)
  end.
Definition Ext (name : string) : string := ext_from name "".

Definition isYAML (name : string) : bool :=
  let ext := ToLower (Ext name) in String.eqb ext ".yaml" || String.eqb ext ".yml".

Definition IsTestFile (name : string) : bool := HasSuffix (TrimSuffix name (Ext name)) TestFileSuffix.
Definition IsConfigFile (name : string) : bool := isYAML name && negb (IsTestFile name).

(** The files of a directory that [loadDir] parses, in order: [entries] are the
    names [os.ReadDir] lists, each with whether it is a directory. *)
Definition loadDir (dir : string) (entries : list (string * bool)) : res (list string) :=
  match filter (fun e => e.2 = false /\ IsConfigFile e.1 = true) entries with
  | [] => Err (ErrMsg ("no .yaml/.yml config files in " ++ quote dir))
  | files => Ok (sort_strings files.*1)
  end.

(** * Merging *)
Record ConfigFile : Type := mkConfigFile {
  cf_Path : string;
  cf_Config : Config;
}.

Record configMerger : Type := mkMerger {
  cm_merged : Config;
  cm_serviceFile : option string;
  cm_connectors : gmap string string;
  cm_processors : gmap string string;
  cm_flows : gmap string string;
  cm_env : gset string;
  cm_envRes : gset string;
  cm_tplRes : gset string;
}.
Definition newConfigMerger : configMerger := mkMerger empty_config None ∅ ∅ ∅ ∅ ∅ ∅.

Definition whereTwice (first second : string) : string :=
  if String.eqb first "" || String.eqb second "" then "more than once"
  else if String.eqb first second then "more than once in " ++ first
  else "in both " ++ first ++ " and " ++ second.

Definition claimed_twice (kind name first path : string) : goerr :=
  ErrMsg (kind ++ " " ++ quote name ++ " is defined " ++ whereTwice first path).
Definition claimName (seen : gmap string string) (name kind path : string) : res (gmap string string) :=
  match seen !! name with
  | Some first => Err (claimed_twice kind name first path)
  | None => Ok (<[name := path]> seen)
  end.

Definition with_merged (c : Config) (m : configMerger) : configMerger :=
  mkMerger c (cm_serviceFile m) (cm_connectors m) (cm_processors m) (cm_flows m) (cm_env m) (cm_envRes m) (cm_tplRes m).

Definition twice_declared (first path : string) : goerr := ErrMsg ("service identity is declared " ++ whereTwice first path).
Definition addService (svc : ServiceConfig) (path : string) (m : configMerger) : res configMerger :=
  if decide (svc = mkServiceConfig "" "") then Ok m
  else match cm_serviceFile m with
    | Some first => Err (twice_declared first path)
    | None =>
        let c := cm_merged m in
        Ok (mkMerger (mkConfig svc (cfg_Env c) (cfg_Connectors c) (cfg_Processors c) (cfg_Flows c) (cfg_Resources c) (cfg_ResolvedEnv c))
              (Some path) (cm_connectors m) (cm_processors m) (cm_flows m) (cm_env m) (cm_envRes m) (cm_tplRes m))
    end.

(** A loop that appends what has a key not seen before. *)
Fixpoint append_new {A} (key : A -> string) (l : list A) (seen : gset string) (acc : list A) : gset string * list A :=
  match l with
  | [] => (seen, acc)
  | x :: l =>
      if decide (key x ∈ seen) then append_new key l seen acc
      else append_new key l ({[key x]} ∪ seen) (acc ++ [x])%list
  end.

Definition addEnv (env : list EnvVar) (m : configMerger) : configMerger :=
  let c := cm_merged m in
  let '(seen, decls) := append_new ev_Name env (cm_env m) (cfg_Env c) in
  mkMerger (mkConfig (cfg_Service c) decls (cfg_Connectors c) (cfg_Processors c) (cfg_Flows c) (cfg_Resources c) (cfg_ResolvedEnv c))
    (cm_serviceFile m) (cm_connectors m) (cm_processors m) (cm_flows m) seen (cm_envRes m) (cm_tplRes m).

Definition template_key (t : TemplateResource) : string :=
  if String.eqb (tr_As t) "" then tr_Resource t else tr_As t.
Definition addResources (r : ResourcesConfig) (m : configMerger) : configMerger :=
  let c := cm_merged m in
  let '(seenEnv, env) := append_new (fun id => id) (rs_Env r) (cm_envRes m) (rs_Env (cfg_Resources c)) in
  let '(seenTpl, tpl) := append_new template_key (rs_Templates r) (cm_tplRes m) (rs_Templates (cfg_Resources c)) in
  mkMerger (mkConfig (cfg_Service c) (cfg_Env c) (cfg_Connectors c) (cfg_Processors c) (cfg_Flows c)
             (mkResourcesConfig env tpl) (cfg_ResolvedEnv c))
    (cm_serviceFile m) (cm_connectors m) (cm_processors m) (cm_flows m) (cm_env m) seenEnv seenTpl.

(** The three loops that claim a name and append; an unnamed flow claims none. *)
Fixpoint claim_all {A} (name : A -> string) (claims : A -> bool) (kind path : string) (l : list A)
    (seen : gmap string string) (acc : list A) : res (gmap string string * list A) :=
  match l with
  | [] => Ok (seen, acc)
  | x :: l =>
      seen ← (if claims x then claimName seen (name x) kind path else Ok seen);
      claim_all name claims kind path l seen (acc ++ [x])%list
  end.

Definition merger_add (file : ConfigFile) (m : configMerger) : res configMerger :=
  let cfg := cf_Config file in
  m ← addService (cfg_Service cfg) (cf_Path file) m;
  let m := addResources (cfg_Resources cfg) (addEnv (cfg_Env cfg) m) in
  let c := cm_merged m in
  '(connectors, cs) ← claim_all cc_Name (fun _ => true) "connector" (cf_Path file) (cfg_Connectors cfg) (cm_connectors m) (cfg_Connectors c);
  '(processors, ps) ← claim_all p_Name (fun _ => true) "processor" (cf_Path file) (cfg_Processors cfg) (cm_processors m) (cfg_Processors c);
  '(flows, fs) ← claim_all fc_Name (fun f => negb (String.eqb (fc_Name f) "")) "flow" (cf_Path file) (cfg_Flows cfg) (cm_flows m) (cfg_Flows c);
  mret (mkMerger (mkConfig (cfg_Service c) (cfg_Env c) cs ps fs (cfg_Resources c) (cfg_ResolvedEnv c))
          (cm_serviceFile m) connectors processors flows (cm_env m) (cm_envRes m) (cm_tplRes m)).

Fixpoint merge_files (files : list ConfigFile) (m : configMerger) : res Config :=
  match files with
  | [] => Ok (cm_merged m)
  | file :: files => m ← merger_add file m; merge_files files m
  end.
Definition MergeConfigs (files : list ConfigFile) : res Config := merge_files files newConfigMerger.

(** * Documents *)
Record document : Type := mkDocument {
  doc_path : string;
  doc_node : option Node;
}.

Section documents.
(** [yaml.Node.Decode] into the declarations and into a config, and
    [yaml.Unmarshal] of a value. *)
Variable decode_decls : Node -> res envDecls.
Variable decode_config : Node -> res Config.
Variable yaml_value : string -> res any.

Definition empty_node (n : option Node) : bool :=
  match n with None => true | Some n => bool_decide (n_Kind n = ZeroNode) end.

Fixpoint merge_decls (docs : list document) (seenVar seenRes : gset string) (merged : envDecls) : res envDecls :=
  match docs with
  | [] => Ok merged
  | doc :: docs =>
      match doc_node doc with
      | None => merge_decls docs seenVar seenRes merged
      | Some n =>
          if decide (n_Kind n = ZeroNode) then merge_decls docs seenVar seenRes merged
          else match decode_decls n with
            | Err e => Err (ErrWrap "parse config: " e "")
            | Ok decls =>
                let '(seenVar, env) := append_new ev_Name (ed_Env decls) seenVar (ed_Env merged) in
                let '(seenRes, ids) := append_new (fun id => id) (rs_Env (ed_Resources decls)) seenRes (rs_Env (ed_Resources merged)) in
                merge_decls docs seenVar seenRes (mkEnvDecls env (mkResourcesConfig ids (rs_Templates (ed_Resources merged))))
            end
      end
  end.
Definition mergeEnvDecls (docs : list document) : res envDecls :=
  merge_decls docs ∅ ∅ (mkEnvDecls [] (mkResourcesConfig [] [])).

(** [dsl.Decode]. *)
Definition Decode (doc : option Node) : res Config :=
  match doc with
  | None => Ok empty_config
  | Some n =>
      if decide (n_Kind n = ZeroNode) then Ok empty_config
      else wrap_err "parse config: " (decode_config n)
  end.

Definition with_resolved (resolved : gmap string string) (c : Config) : Config :=
  mkConfig (cfg_Service c) (cfg_Env c) (cfg_Connectors c) (cfg_Processors c) (cfg_Flows c) (cfg_Resources c) resolved.

(** The names reported beside the outcome. *)
Definition resolveDocuments (os : OS) (docs : list document) (loader : ResourceLoader) (unset : bool) : list string * res Config :=
  match mergeEnvDecls docs with
  | Err e => ([], Err e)
  | Ok decls =>
      let '(reported, r) := resolveDeclared os decls loader unset in
      (reported,
       '(resolved, declared) ← r;
       configs ← mapM (fun doc =>
         n ← substituteDocument yaml_value resolved declared (doc_node doc);
         cfg ← Decode n;
         mret (mkConfigFile (doc_path doc) cfg)) docs;
       cfg ← MergeConfigs configs;
       mret (with_resolved resolved cfg))
  end.
End documents.

(** * Templates *)
Definition template_aliases (templates : list TemplateResource) : gmap string string :=
  foldl (fun m t => if String.eqb (tr_As t) "" then m else <[tr_As t := tr_Resource t]> m) ∅ templates.
Definition aliasingLoader (base : ResourceLoader) (aliases : gmap string string) : ResourceLoader := fun kind id =>
  match kind with
  | ResourceKindTemplate => base kind (default id (aliases !! id))
  | ResourceKindEnv => base kind id
  end.
Definition withTemplateAliases (base : ResourceLoader) (templates : list TemplateResource) : ResourceLoader :=
  let aliases := template_aliases templates in
  if decide (aliases = ∅) then base else aliasingLoader base aliases.

(** [ParseTemplate] is of the expression language. *)
Fixpoint warmTemplates (ParseTemplate : string -> res unit) (loader : ResourceLoader) (templates : list TemplateResource) : res unit :=
  match templates with
  | [] => Ok tt
  | t :: templates =>
      if String.eqb (tr_Resource t) "" then Err (ErrMsg "template resource requires a resource id")
      else
        data ← wrap_err ("template resource " ++ quote (tr_Resource t) ++ ": ") (loader ResourceKindTemplate (tr_Resource t));
        _ ← wrap_err ("template resource " ++ quote (tr_Resource t) ++ ": ") (ParseTemplate data);
        warmTemplates ParseTemplate loader templates
  end.

(** * What a merge amounts to *)

(** The first element of each key. *)
Fixpoint first_by {A} (key : A -> string) (l : list A) : list A :=
  match l with
  | [] => []
  | x :: l => x :: filter (fun y => key y ≠ key x) (first_by key l)
  end.

Lemma first_by_new {A} (key : A -> string) (l : list A) seen acc :
  append_new key l seen acc = (list_to_set (map key l) ∪ seen, (acc ++ filter (fun x => key x ∉ seen) (first_by key l))%list).
Proof.
  revert seen acc. induction l as [|x l IH]; intros seen acc; cbn [append_new first_by map].
  - f_equal; [set_solver|by rewrite app_nil_r].
  - rewrite filter_cons. destruct (decide (key x ∈ seen)) as [Hin|Hin].
    + rewrite IH, decide_False by naive_solver. f_equal; [set_solver|]. f_equal.
      rewrite list_filter_filter. apply filter_agree. intros y _. naive_solver congruence.
    + rewrite IH, decide_True by done. f_equal; [set_solver|]. rewrite <- app_assoc. do 2 f_equal. cbn. f_equal.
      rewrite list_filter_filter. apply filter_agree. intros y _. set_solver.
Qed.

Lemma first_by_app {A} (key : A -> string) (l1 l2 : list A) :
  first_by key (l1 ++ l2) = (first_by key l1 ++ filter (fun x => key x ∉ (list_to_set (map key l1) : gset string)) (first_by key l2))%list.
Proof.
  induction l1 as [|x l1 IH]; cbn [first_by app map].
  - rewrite filter_all; [done|]. intros y _. set_solver.
  - rewrite IH, filter_app, list_filter_filter. f_equal. f_equal. apply filter_agree. intros y _. set_solver.
Qed.

Lemma first_by_keys {A} (key : A -> string) (l : list A) k : k ∈ map key (first_by key l) <-> k ∈ map key l.
Proof.
  induction l as [|x l IH]; cbn [first_by map]; [done|]. rewrite !elem_of_cons, <- IH. split.
  - intros [->|H]; [by left|right]. apply list_elem_of_fmap in H as (y & -> & [_ Hy]%list_elem_of_filter).
    apply list_elem_of_fmap. by exists y.
  - intros [->|H]; [by left|]. destruct (decide (k = key x)) as [->|Hne]; [by left|right].
    apply list_elem_of_fmap in H as (y & -> & Hy). apply list_elem_of_fmap. exists y. split; [done|].
    apply list_elem_of_filter. by split.
Qed.

Lemma first_by_nodup {A} (key : A -> string) (l : list A) : NoDup (map key (first_by key l)).
Proof.
  induction l as [|x l IH]; cbn [first_by map]; constructor.
  - intros (y & Hy & [Hne _]%list_elem_of_filter)%list_elem_of_fmap. congruence.
  - clear -IH. induction (first_by key l) as [|y k IHk]; [constructor|]. rewrite filter_cons.
    apply NoDup_cons in IH as [Hy IH]. destruct (decide _); [|by apply IHk]. cbn. constructor; [|by apply IHk].
    intros (z & Hz & [_ Hin]%list_elem_of_filter)%list_elem_of_fmap. apply Hy. rewrite Hz. apply list_elem_of_fmap. by exists z.
Qed.

(** What a file claims, per kind. *)
Definition connector_names (f : ConfigFile) : list string := map cc_Name (cfg_Connectors (cf_Config f)).
Definition processor_names (f : ConfigFile) : list string := map p_Name (cfg_Processors (cf_Config f)).
Definition flow_names (f : ConfigFile) : list string :=
  map fc_Name (filter (fun fl => negb (String.eqb (fc_Name fl) "") = true) (cfg_Flows (cf_Config f))).
Definition has_service (f : ConfigFile) : Prop := cfg_Service (cf_Config f) ≠ mkServiceConfig "" "".
#[global] Instance has_service_dec f : Decision (has_service f).
Proof. unfold has_service. apply _. Defined.

(** What [seen] holds once the files of [done] were added. *)
Definition claimed (names : ConfigFile -> list string) (seen : gmap string string) (done : list ConfigFile) : Prop :=
  NoDup (done ≫= names) /\
  (forall n, n ∈ done ≫= names -> is_Some (seen !! n)) /\
  (forall n p, seen !! n = Some p -> exists f, f ∈ done /\ n ∈ names f /\ p = cf_Path f).

Lemma claim_all_spec {A} (name : A -> string) claims kind path (l : list A) seen acc :
  let names := map name (filter (fun x => claims x = true) l) in
  match claim_all name claims kind path l seen acc with
  | Ok (seen', acc') => acc' = (acc ++ l)%list /\ NoDup names /\ (forall n, n ∈ names -> seen !! n = None) /\
      forall n, seen' !! n = if decide (n ∈ names) then Some path else seen !! n
  | Err e => exists n first, n ∈ names /\ e = claimed_twice kind n first path /\
      (seen !! n = Some first \/ (first = path /\ ~ NoDup names))
  end.
Proof.
  revert seen acc. induction l as [|x l IH]; intros seen acc; cbn [claim_all].
  { cbn. split_and!; [by rewrite app_nil_r|constructor|set_solver|done]. }
  rewrite filter_cons. destruct (claims x) eqn:Hx; cbn.
  - unfold claimName. destruct (seen !! name x) as [first|] eqn:Hs; cbn.
    { exists (name x), first. rewrite list_elem_of_fmap. split_and!; [|done|by left]. exists x. set_solver. }
    specialize (IH (<[name x := path]> seen) (acc ++ [x])%list). cbn in IH.
    destruct (claim_all name claims kind path l _ _) as [[seen' acc']|e].
    + destruct IH as (-> & Hnd & Hnone & Hl). rewrite <- app_assoc. split_and!; [done| | |].
      * constructor; [|done]. intros Hin. specialize (Hnone _ Hin). by rewrite lookup_insert_eq in Hnone.
      * intros n [->|Hn]%elem_of_cons; [done|]. specialize (Hnone n Hn). by apply lookup_insert_None in Hnone as [? _].
      * intros n. rewrite Hl. destruct (decide (n = name x)) as [->|Hne].
        -- rewrite lookup_insert_eq. repeat case_decide; set_solver.
        -- rewrite lookup_insert_ne by done. repeat case_decide; set_solver.
    + destruct IH as (n & first & Hn & -> & Hor). exists n, first. split_and!; [by right|done|].
      destruct Hor as [Hor|[-> Hor]].
      * destruct (decide (n = name x)) as [->|Hne].
        -- rewrite lookup_insert_eq in Hor. injection Hor as <-. right. split; [done|]. by intros [? _]%NoDup_cons.
        -- rewrite lookup_insert_ne in Hor by done. by left.
      * right. split; [done|]. by intros [_ ?]%NoDup_cons.
  - specialize (IH seen (acc ++ [x])%list). cbn in IH. by rewrite <- app_assoc in IH.
Qed.

(** A file's names claimed: the invariant moves on, or two files of those added
    so far name the same thing. *)
Lemma claim_step {A} (get : Config -> list A) (name : A -> string) claims kind names seen acc done f :
  (forall f, names f = map name (filter (fun x => claims x = true) (get (cf_Config f)))) -> claimed names seen done ->
  match claim_all name claims kind (cf_Path f) (get (cf_Config f)) seen acc with
  | Ok (seen', acc') => acc' = (acc ++ get (cf_Config f))%list /\ claimed names seen' (done ++ [f])%list
  | Err e => ~ NoDup ((done ++ [f])%list ≫= names) /\
      exists n f1, f1 ∈ (done ++ [f])%list /\ n ∈ names f1 /\ n ∈ names f /\ e = claimed_twice kind n (cf_Path f1) (cf_Path f)
  end.
Proof.
  intros Hnames (Hnd & Hall & Hfrom). pose proof (claim_all_spec name claims kind (cf_Path f) (get (cf_Config f)) seen acc) as H.
  cbv zeta in H. rewrite <- Hnames in H. unfold claimed. rewrite bind_app. cbn. rewrite app_nil_r.
  destruct (claim_all _ _ _ _ _ _ _) as [[seen' acc']|e].
  - destruct H as (-> & Hf & Hnone & Hl). split_and!; [done| | |].
    + apply NoDup_app. split_and!; [done| |done]. intros n Hn Hn'. specialize (Hall n Hn). rewrite (Hnone n Hn') in Hall. by destruct Hall.
    + intros n. rewrite Hl, elem_of_app. case_decide; [done|]. intros [?|?]; [by apply Hall|done].
    + intros n p. rewrite Hl. case_decide.
      * intros [= <-]. exists f. set_solver.
      * intros Hs. destruct (Hfrom n p Hs) as (f' & ? & ? & ?). exists f'. set_solver.
  - destruct H as (n & first & Hn & -> & [Hs|[-> Hd]]).
    + destruct (Hfrom n first Hs) as (f1 & Hf1 & Hn1 & ->). split.
      * intros (_ & Hdis & _)%NoDup_app. apply (Hdis n); [apply list_elem_of_bind; by exists f1|done].
      * exists n, f1. set_solver.
    + split; [by intros (_ & _ & ?)%NoDup_app|]. exists n, f. set_solver.
Qed.

Definition all {A} (get : Config -> list A) (files : list ConfigFile) : list A := files ≫= fun f => get (cf_Config f).
Definition service_of (files : list ConfigFile) : option ConfigFile := head (filter has_service files).

(** The config the files describe together: what they list is concatenated, and
    of several declarations of a variable or a resource the first counts. *)
Definition combined (files : list ConfigFile) : Config :=
  mkConfig (from_option (fun f => cfg_Service (cf_Config f)) (mkServiceConfig "" "") (service_of files))
    (first_by ev_Name (all cfg_Env files)) (all cfg_Connectors files) (all cfg_Processors files) (all cfg_Flows files)
    (mkResourcesConfig (first_by (fun id => id) (all (fun c => rs_Env (cfg_Resources c)) files))
      (first_by template_key (all (fun c => rs_Templates (cfg_Resources c)) files))) ∅.
Definition mergeable (files : list ConfigFile) : Prop :=
  NoDup (files ≫= connector_names) /\ NoDup (files ≫= processor_names) /\ NoDup (files ≫= flow_names) /\
  (List.length (filter has_service files) <= 1)%nat.

(** An error names two of the files that declare the same thing. *)
Definition collision (files : list ConfigFile) (e : goerr) : Prop :=
  exists f1 f2, f1 ∈ files /\ f2 ∈ files /\
    ((has_service f1 /\ has_service f2 /\ e = twice_declared (cf_Path f1) (cf_Path f2)) \/
     exists kind names n, In (kind, names) [("connector", connector_names); ("processor", processor_names); ("flow", flow_names)] /\
       n ∈ names f1 /\ n ∈ names f2 /\ e = claimed_twice kind n (cf_Path f1) (cf_Path f2)).

Record merged_inv (m : configMerger) (done : list ConfigFile) : Prop := {
  mi_merged : cm_merged m = combined done;
  mi_file : cm_serviceFile m = cf_Path <$> service_of done;
  mi_service : (List.length (filter has_service done) <= 1)%nat;
  mi_connectors : claimed connector_names (cm_connectors m) done;
  mi_processors : claimed processor_names (cm_processors m) done;
  mi_flows : claimed flow_names (cm_flows m) done;
  mi_env : cm_env m = list_to_set (map ev_Name (all cfg_Env done));
  mi_envRes : cm_envRes m = list_to_set (map (fun id => id) (all (fun c => rs_Env (cfg_Resources c)) done));
  mi_tplRes : cm_tplRes m = list_to_set (map template_key (all (fun c => rs_Templates (cfg_Resources c)) done));
}.

Lemma all_snoc {A} (get : Config -> list A) done f : all get (done ++ [f])%list = (all get done ++ get (cf_Config f))%list.
Proof. unfold all. rewrite bind_app. cbn. by rewrite app_nil_r. Qed.

Lemma mergeable_prefix done f rest : mergeable (done ++ f :: rest)%list -> mergeable (done ++ [f])%list.
Proof.
  assert (forall names : ConfigFile -> list string, NoDup ((done ++ f :: rest)%list ≫= names) -> NoDup ((done ++ [f])%list ≫= names)) as Hn.
  { intros names. change (f :: rest) with ([f] ++ rest)%list. rewrite app_assoc, bind_app. by intros (? & _)%NoDup_app. }
  intros (? & ? & ? & Hs). split_and!; [by apply Hn..|].
  change (f :: rest) with ([f] ++ rest)%list in Hs. rewrite app_assoc, filter_app, length_app in Hs. lia.
Qed.

Lemma first_by_snoc {A} (key : A -> string) (l1 l2 : list A) seen : seen = list_to_set (map key l1) ->
  append_new key l2 seen (first_by key l1) = (list_to_set (map key (l1 ++ l2)%list), first_by key (l1 ++ l2)%list).
Proof. intros ->. rewrite first_by_new, first_by_app. f_equal. rewrite map_app, list_to_set_app_L. set_solver. Qed.

Lemma add_service m done f : merged_inv m done ->
  match addService (cfg_Service (cf_Config f)) (cf_Path f) m with
  | Ok m1 => let c := combined (done ++ [f])%list in
      m1 = mkMerger (mkConfig (cfg_Service c) (cfg_Env (cm_merged m)) (cfg_Connectors (cm_merged m)) (cfg_Processors (cm_merged m))
               (cfg_Flows (cm_merged m)) (cfg_Resources (cm_merged m)) (cfg_ResolvedEnv (cm_merged m)))
             (cf_Path <$> service_of (done ++ [f])%list) (cm_connectors m) (cm_processors m) (cm_flows m) (cm_env m) (cm_envRes m) (cm_tplRes m) /\
      (List.length (filter has_service (done ++ [f])%list) <= 1)%nat
  | Err e => ~ mergeable (done ++ [f])%list /\ collision (done ++ [f])%list e
  end.
Proof.
  intros [Hm Hfile Hlen _ _ _ _ _ _]. unfold addService, mergeable, combined, service_of in *. cbn in *. rewrite filter_app.
  assert (filter has_service [f] = if decide (has_service f) then [f] else []) as Hone.
  { rewrite filter_cons. by destruct (decide (has_service f)). }
  rewrite Hone. destruct (decide (has_service f)) as [Hf|Hf]; unfold has_service in Hf at 1.
  - rewrite decide_False by done. destruct (filter has_service done) as [|f1 fs] eqn:E; cbn in Hfile, Hlen; rewrite Hfile; cbn.
    + split; [|lia]. reflexivity.
    + split; [rewrite length_app; cbn; lia|]. exists f1, f.
      assert (f1 ∈ filter has_service done) as [Hf1 Hin]%list_elem_of_filter by (rewrite E; by left).
      split_and!; [set_solver..|]. by left.
  - rewrite decide_True by (by destruct (decide (cfg_Service (cf_Config f) = mkServiceConfig "" ""))). rewrite app_nil_r.
    split; [|done]. rewrite <- Hfile. destruct m as [c ? ? ? ? ? ? ?]. cbn in Hm |- *. subst c. reflexivity.
Qed.

(** A name claimed twice in the files so far. *)
Lemma claim_clash (kind : string) (names : ConfigFile -> list string) done f e :
  In (kind, names) [("connector", connector_names); ("processor", processor_names); ("flow", flow_names)] ->
  (~ NoDup ((done ++ [f])%list ≫= names) /\
   exists n f1, f1 ∈ (done ++ [f])%list /\ n ∈ names f1 /\ n ∈ names f /\ e = claimed_twice kind n (cf_Path f1) (cf_Path f)) ->
  ~ mergeable (done ++ [f])%list /\ collision (done ++ [f])%list e.
Proof.
  intros Hin (Hnd & n & f1 & Hf1 & Hn1 & Hn & ->). split.
  - intros (? & ? & ? & _). cbn in Hin. destruct Hin as [[= <- <-]|[[= <- <-]|[[= <- <-]|[]]]]; done.
  - exists f1, f. split_and!; [done|set_solver|]. right. exists kind, names, n. done.
Qed.

Lemma merger_step m done f : merged_inv m done ->
  match merger_add f m with
  | Ok m' => merged_inv m' (done ++ [f])%list
  | Err e => ~ mergeable (done ++ [f])%list /\ collision (done ++ [f])%list e
  end.
Proof.
  intros Hinv. pose proof (add_service m done f Hinv) as Hs. destruct Hinv as [Hm _ _ Hc Hp Hf He Hr Ht]. unfold merger_add.
  destruct (addService _ _ m) as [m1|e]; [|exact Hs]. destruct Hs as [-> Hlen]. cbn [mbind res_bind]. unfold addEnv, addResources.
  cbn [cm_merged cm_env cm_envRes cm_tplRes cfg_Env cfg_Resources]. rewrite Hm. cbn [combined cfg_Env cfg_Resources rs_Env rs_Templates].
  rewrite (first_by_snoc ev_Name _ _ _ He). cbn [cm_merged cm_env cm_envRes cm_tplRes cfg_Env cfg_Resources rs_Env rs_Templates].
  rewrite (first_by_snoc _ _ _ _ Hr), (first_by_snoc template_key _ _ _ Ht).
  cbn [cm_merged cm_connectors cm_processors cm_flows cfg_Connectors cfg_Processors cfg_Flows].
  pose proof (claim_step cfg_Connectors cc_Name (fun _ => true) "connector" connector_names _ (all cfg_Connectors done) done f
    ltac:(intros g; unfold connector_names; by rewrite filter_all) Hc) as H1.
  destruct (claim_all _ _ "connector" _ _ _ _) as [[seen1 cs]|e]; cbn [mbind res_bind];
    [destruct H1 as [-> H1]|apply (claim_clash "connector" connector_names); [by left|exact H1]].
  pose proof (claim_step cfg_Processors p_Name (fun _ => true) "processor" processor_names _ (all cfg_Processors done) done f
    ltac:(intros g; unfold processor_names; by rewrite filter_all) Hp) as H2.
  destruct (claim_all _ _ "processor" _ _ _ _) as [[seen2 ps]|e]; cbn [mbind res_bind];
    [destruct H2 as [-> H2]|apply (claim_clash "processor" processor_names); [by right; left|exact H2]].
  pose proof (claim_step cfg_Flows fc_Name (fun fl => negb (String.eqb (fc_Name fl) "")) "flow" flow_names _ (all cfg_Flows done) done f
    ltac:(done) Hf) as H3.
  destruct (claim_all _ _ "flow" _ _ _ _) as [[seen3 fs]|e]; cbn [mbind res_bind];
    [destruct H3 as [-> H3]|apply (claim_clash "flow" flow_names); [by right; right; left|exact H3]].
  split; cbn; unfold combined; rewrite ?all_snoc; done.
Qed.

Lemma merge_files_spec files m done : merged_inv m done ->
  match merge_files files m with
  | Ok cfg => mergeable (done ++ files)%list /\ cfg = combined (done ++ files)%list
  | Err e => ~ mergeable (done ++ files)%list /\ collision (done ++ files)%list e
  end.
Proof.
  revert m done. induction files as [|f files IH]; intros m done Hinv; cbn [merge_files].
  - rewrite app_nil_r. destruct Hinv as [Hm _ Hlen [Hc _] [Hp _] [Hf _] _ _ _]. done.
  - pose proof (merger_step m done f Hinv) as H. destruct (merger_add f m) as [m'|e]; cbn [mbind res_bind].
    + specialize (IH m' (done ++ [f])%list H). by rewrite <- app_assoc in IH.
    + destruct H as [Hno (f1 & f2 & Hf1 & Hf2 & H)]. split; [by intros ?%mergeable_prefix|]. exists f1, f2. set_solver.
Qed.

Lemma merged_empty : merged_inv newConfigMerger [].
Proof. split; cbn; try done; [lia|..]; (split_and!; [constructor|set_solver|by intros n p ?%lookup_empty_Some]). Qed.

(** Merging is concatenation, or an error that says who collides.  Files
    merge exactly when no two connectors, no two processors and no two named
    flows share a name and at most one file declares the service identity; the
    result lists everything in the order of the files, the first declaration of
    a variable, an env resource or a template name standing.  Otherwise the
    error names two of the files that declare the same thing. *)
Theorem merge_exact (files : list ConfigFile) :
  match MergeConfigs files with
  | Ok cfg => mergeable files /\ cfg = combined files
  | Err e => ~ mergeable files /\ collision files e
  end.
Proof. exact (merge_files_spec files newConfigMerger [] merged_empty). Qed.

(** * Loading *)
Lemma declaration_first_by l name : declaration (first_by ev_Name l) name = declaration l name.
Proof.
  induction l as [|d l IH]; cbn [first_by]; [done|]. rewrite !declaration_cons. destruct (decide (ev_Name d = name)) as [|Hne]; [done|].
  rewrite <- IH. unfold declaration. rewrite list_filter_filter. f_equal. apply filter_agree. intros y _. naive_solver congruence.
Qed.

Section loading.
Context (decode_decls : Node -> res envDecls) (decode_config : Node -> res Config) (yaml_value : string -> res any).

(** What one document declares, as the decoder reads it. *)
Definition declarations_of (doc : document) : envDecls :=
  match doc_node doc with
  | Some n => if decide (n_Kind n = ZeroNode) then mkEnvDecls [] (mkResourcesConfig [] [])
              else match decode_decls n with Ok d => d | Err _ => mkEnvDecls [] (mkResourcesConfig [] []) end
  | None => mkEnvDecls [] (mkResourcesConfig [] [])
  end.
Definition declared_in (docs : list document) : list EnvVar := docs ≫= fun doc => ed_Env (declarations_of doc).
Definition imported_in (docs : list document) : list string := docs ≫= fun doc => rs_Env (ed_Resources (declarations_of doc)).

Lemma merge_decls_spec docs l1 l2 tpl decls :
  merge_decls decode_decls docs (list_to_set (map ev_Name l1)) (list_to_set (map (fun id => id) l2))
    (mkEnvDecls (first_by ev_Name l1) (mkResourcesConfig (first_by (fun id => id) l2) tpl)) = Ok decls ->
  ed_Env decls = first_by ev_Name (l1 ++ declared_in docs)%list /\
  rs_Env (ed_Resources decls) = first_by (fun id => id) (l2 ++ imported_in docs)%list.
Proof.
  revert l1 l2. induction docs as [|doc docs IH]; intros l1 l2; cbn [merge_decls]; unfold declared_in, imported_in in *; cbn.
  { intros [= <-]. by rewrite !app_nil_r. }
  unfold declarations_of at 1 3. destruct (doc_node doc) as [n|]; [|apply IH]. case_decide; [apply IH|].
  destruct (decode_decls n) as [d|]; [|done]. cbn [ed_Env ed_Resources rs_Env rs_Templates].
  rewrite (first_by_snoc ev_Name l1 _ _ eq_refl), (first_by_snoc (fun id => id) l2 _ _ eq_refl). rewrite !app_assoc. apply IH.
Qed.

Lemma mergeEnvDecls_spec docs decls : mergeEnvDecls decode_decls docs = Ok decls ->
  ed_Env decls = first_by ev_Name (declared_in docs) /\ rs_Env (ed_Resources decls) = first_by (fun id => id) (imported_in docs).
Proof. apply (merge_decls_spec docs [] [] []). Qed.

(** A document and what became of it. *)
Definition document_read (resolved : gmap string string) (declared : gset string) (doc : document) (file : ConfigFile) : Prop :=
  cf_Path file = doc_path doc /\
  exists n', Decode decode_config n' = Ok (cf_Config file) /\
    match doc_node doc with
    | None => n' = None
    | Some n => exists m, n' = Some m /\ substituted yaml_value resolved declared true n m
    end.

Lemma document_reads resolved declared doc file :
  (n ← substituteDocument yaml_value resolved declared (doc_node doc);
   cfg ← Decode decode_config n;
   mret (mkConfigFile (doc_path doc) cfg)) = Ok file ->
  document_read resolved declared doc file /\
  forall n name, doc_node doc = Some n -> name ∈ reached n true -> name ∈ declared /\ is_Some (resolved !! name).
Proof.
  intros (n' & Hn & (cfg & Hc & [= <-])%res_bind_ok)%res_bind_ok. unfold document_read. cbn.
  destruct (doc_node doc) as [n|]; cbn in Hn.
  - apply res_bind_ok in Hn as (m & Hm & [= <-]). pose proof (node_names yaml_value resolved declared n true) as Hnames.
    rewrite Hm in Hnames. apply node_ok in Hm. split; [split; [done|]; exists (Some m); split; [done|]; by exists m|].
    intros n0 name [= <-] Hin. specialize (Hnames name Hin). unfold env_resolve in Hnames.
    case_decide; [|done]. by destruct (resolved !! name).
  - injection Hn as <-. split; [split; [done|]; by exists None|done].
Qed.

(** What a loaded config is.  The declarations of all documents count as one
    list, of which the first for a name stands, so a variable declared in one
    file serves a reference in another; each has the value the process
    environment gives it, else the last env resource that supplies it, else
    $OCTO_ENV_FILE, else ./.env, else its default if it is not required.  Every
    name a document refers to has such a value.  The config is the merge of the
    documents' own, each decoded after its references were substituted, and
    carries the values for expressions to read; what was reported beside it are
    the required variables nobody supplied, when that was asked for. *)
Theorem config_resolves os docs loader unset reported cfg
    (Hload : resolveDocuments decode_decls decode_config yaml_value os docs loader unset = (reported, Ok cfg)) :
  let decls := declared_in docs in
  let value := supply os loader (first_by (fun id => id) (imported_in docs)) in
  (forall name, cfg_ResolvedEnv cfg !! name = declaration decls name ≫= value_of unset value) /\
  (forall doc n name, doc ∈ docs -> doc_node doc = Some n -> name ∈ reached n true ->
     exists d, declaration decls name = Some d /\ is_Some (value_of unset value d)) /\
  (exists configs,
     Forall2 (document_read (cfg_ResolvedEnv cfg) (list_to_set (map ev_Name decls))) docs configs /\
     mergeable configs /\ cfg = with_resolved (cfg_ResolvedEnv cfg) (combined configs)) /\
  reported = if unset
    then map ev_Name (filter (fun d => ev_Required d = true /\ value (ev_Name d) = None) (first_by ev_Name decls)) else [].
Proof.
  cbv zeta. unfold resolveDocuments in Hload. destruct (mergeEnvDecls decode_decls docs) as [ds|] eqn:Hds; [|done].
  apply mergeEnvDecls_spec in Hds as [He Hi]. 
  pose proof (environment_precedence os ds loader unset ltac:(rewrite He; apply first_by_nodup)) as Henv.
  rewrite He, Hi in Henv. destruct (loadDotEnv os) as [files|]; [|by rewrite Henv in Hload]. cbv zeta in Henv.
  destruct (resolveDeclared os ds loader unset) as [rep [[resolved declared]|]]; [|done]. cbn [mbind res_bind] in Hload.
  injection Hload as -> Hload. destruct Henv as (Hrep & Hdecl & _ & Hres).
  apply res_bind_ok in Hload as (configs & Hc & (c & Hm & [= <-])%res_bind_ok).
  assert (declared = list_to_set (map ev_Name (declared_in docs))) as ->.
  { rewrite Hdecl. apply set_eq. intros n. rewrite !elem_of_list_to_set. apply first_by_keys. }
  apply mapM_res_ok in Hc. cbn. setoid_rewrite declaration_first_by in Hres. split_and!; [done| | |done].
  - intros doc n name Hdoc Hn Hname. apply list_elem_of_lookup in Hdoc as [i Hdoc].
    destruct (Forall2_lookup_l _ _ _ _ _ Hc Hdoc) as (file & _ & Hfile). apply document_reads in Hfile as [_ Hnames].
    destruct (Hnames n name Hn Hname) as [_ Hv]. rewrite Hres in Hv.
    destruct (declaration (declared_in docs) name) as [d|]; [by exists d|by destruct Hv].
  - exists configs. pose proof (merge_files_spec configs newConfigMerger [] merged_empty) as Hspec.
    unfold MergeConfigs in Hm. rewrite Hm in Hspec. destruct Hspec as [Hok ->]. split_and!; [|done|done].
    eapply Forall2_impl; [exact Hc|]. intros doc file H. by apply document_reads in H as [? _].
Qed.
End loading.

(** Two files: one declares the variables, the other refers to them. *)
Definition text_node (v : string) : Node := mkNode ScalarNode 0 "!!str" v "" [].
Definition entry_doc (path key v : string) : document :=
  mkDocument path (Some (mkNode DocumentNode 0 "" "" "" [mkNode MappingNode 0 "!!map" "" "" [text_node key; text_node v]])).
Definition sole_entry (n : Node) : option (string * string) :=
  match n_Content n with [m] => match n_Content m with [k; v] => Some (n_Value k, n_Value v) | _ => None end | _ => None end.
Definition shop_decls (n : Node) : res envDecls :=
  Ok (match sole_entry n with
      | Some ("env", v) => mkEnvDecls [mkEnvVar v None true; mkEnvVar "PORT" (Some "80") false] (mkResourcesConfig [] [])
      | _ => mkEnvDecls [] (mkResourcesConfig [] [])
      end).
Definition shop_config (n : Node) : res Config :=
  Ok (match sole_entry n with
      | Some ("flow", v) => with_flows [mkFlowConfig v None [] [] 0 0 0] empty_config
      | _ => empty_config
      end).
Definition shop_os : OS :=
  mkOS (fun name => if String.eqb name "HOST" then Some "prod" else None)
       (fun path => if String.eqb path ".env" then FileData ("HOST=dev" ++ String line_feed "PORT=8080") else FileMissing).
Definition shop_docs : list document := [entry_doc "a.yaml" "flow" "${HOST}:${PORT}"; entry_doc "b.yaml" "env" "HOST"].

Lemma config_resolves_witness :
  exists cfg, resolveDocuments shop_decls shop_config (fun _ => Err (ErrMsg "")) shop_os shop_docs NoopResourceLoader false = ([], Ok cfg) /\
    map fc_Name (cfg_Flows cfg) = ["prod:8080"] /\ cfg_ResolvedEnv cfg !! "PORT" = Some "8080".
Proof.
  destruct (resolveDocuments shop_decls shop_config (fun _ => Err (ErrMsg "")) shop_os shop_docs NoopResourceLoader false)
    as [reported [cfg|e]] eqn:E; [|vm_compute in E; discriminate E].
  pose proof (config_resolves shop_decls shop_config (fun _ => Err (ErrMsg "")) shop_os shop_docs NoopResourceLoader false reported cfg E)
    as (Hvals & _ & _ & ->).
  exists cfg. split; [reflexivity|]. split; [vm_compute in E; injection E as <-; reflexivity|].
  rewrite Hvals. vm_compute. reflexivity.
Defined.
