(* ===== verification/Transcript.v ===== *)
(** The conversation an AI block holds with a model: [core/llm.go], the sizing
    of [blocks/ai/contextmeter.go] and the pruning of
    [blocks/ai/agentmemory.go].

    JSON documents that the program carries without reading (the arguments of a
    tool call, the schema of a tool) are their text. *)
From S2P Require Import Prelude GoStr F64 Message.
From Stdlib Require Import String Ascii Floats.SpecFloat.
#[local] Open Scope string_scope.
#[local] Open Scope Z_scope.

Definition nl : string := String (ascii_of_nat 10) EmptyString.

(** ** The data: [core/llm.go] *)
Definition LLMRoleUser : string := "user".
Definition LLMRoleAssistant : string := "assistant".
Definition LLMRoleTool : string := "tool".

Record LLMAttachment : Type := mkAttachment { at_MimeType : string; at_Data : string; at_Name : string }.
Record LLMThinkingBlock : Type := mkThinking { th_Text : string; th_Signature : string; th_Redacted : string }.
Record LLMToolCall : Type := mkToolCall {
  tc_ID : string;
  tc_Name : string;
  tc_Input : string;
  tc_Signature : string;
}.
Record LLMToolResult : Type := mkToolResult {
  tr_ToolCallID : string;
  tr_Tool : string;
  tr_Content : string;
  tr_IsError : bool;
}.
Record LLMMessage : Type := mkLLMMessage {
  lm_Role : string;
  lm_Text : string;
  lm_Attachments : list LLMAttachment;
  lm_Thinking : list LLMThinkingBlock;
  lm_ToolCalls : list LLMToolCall;
  lm_ToolResults : list LLMToolResult;
}.
Record LLMUsage : Type := mkUsage {
  us_InputTokens : Z;
  us_OutputTokens : Z;
  us_ThinkingTokens : Z;
  us_CachedTokens : Z;
  us_CacheWriteTokens : Z;
  us_PromptTokens : Z;
  us_ReportedCostUSD : option f64;
}.
Record LLMTool : Type := mkTool { tl_Name : string; tl_Description : string; tl_InputSchema : string }.

(** [LLMToolChoiceTool] names its tool; nothing in the blocks uses it. *)
Inductive LLMToolChoice : Type := ChoiceAuto | ChoiceAny | ChoiceNone | ChoiceTool (name : string).

Record LLMRequest : Type := mkRequest {
  rq_System : string;
  rq_Messages : list LLMMessage;
  rq_Tools : list LLMTool;
  rq_ToolChoice : LLMToolChoice;
  rq_MaxTokens : Z;
}.

Definition LLMStopEndTurn : string := "end_turn".
Definition LLMStopToolUse : string := "tool_use".
Definition LLMStopMaxTokens : string := "max_tokens".
Definition LLMStopRefusal : string := "refusal".

Record LLMResponse : Type := mkResponse {
  rs_Text : string;
  rs_ToolCalls : list LLMToolCall;
  rs_StopReason : string;
  rs_Raw : LLMMessage;
  rs_Media : list LLMAttachment;
  rs_Usage : option LLMUsage;
  rs_Model : string;
}.

Record LLMStreamEvent : Type := mkStreamEvent {
  se_Kind : string;
  se_Name : string;
  se_Text : string;
  se_Tool : string;
  se_ToolCallID : string;
  se_Index : Z;
}.

Definition user_turn (text : string) : LLMMessage := mkLLMMessage LLMRoleUser text [] [] [] [].
Definition tool_turn (results : list LLMToolResult) : LLMMessage := mkLLMMessage LLMRoleTool "" [] [] [] results.
Definition is_role (role : string) (m : LLMMessage) : bool := String.eqb (lm_Role m) role.

(** ** The size of a transcript *)
Definition charsPerToken : Z := 4.
Definition mediaCharsPerToken : Z := 750.

Definition sum (l : list Z) : Z := foldr Z.add 0 l.
Definition bytes (s : string) : Z := Z.of_nat (String.length s).
Definition message_chars (m : LLMMessage) : Z :=
  bytes (lm_Text m)
  + sum (map (fun t => bytes (th_Text t) + bytes (th_Redacted t)) (lm_Thinking m))
  + sum (map (fun c => bytes (tc_Input c)) (lm_ToolCalls m))
  + sum (map (fun r => bytes (tr_Content r)) (lm_ToolResults m))
  + sum (map (fun a => bytes (at_Data a) * charsPerToken / mediaCharsPerToken) (lm_Attachments m)).
Definition estimateTokens (msgs : list LLMMessage) : Z := sum (map message_chars msgs) / charsPerToken.

(** ** The context meter: [contextmeter.go] *)
Definition minTokenScale : f64 := f_lit 1 2.
Definition maxTokenScale : f64 := f_of_Z 4.

(** The built-in [min] and [max] on float64. *)
Definition float_max (x y : f64) : f64 :=
  match x, y with
  | S754_nan, _ | _, S754_nan => S754_nan
  | S754_zero s, S754_zero s' => S754_zero (s && s')
  | _, _ => if f_lt x y then y else x
  end.
Definition float_min (x y : f64) : f64 :=
  match x, y with
  | S754_nan, _ | _, S754_nan => S754_nan
  | S754_zero s, S754_zero s' => S754_zero (s || s')
  | _, _ => if f_lt y x then y else x
  end.

Definition clampScale (scale : f64) : f64 :=
  match scale with
  | S754_nan | S754_infinity _ => f_one
  | _ => float_min (float_max scale minTokenScale) maxTokenScale
  end.

Record contextMeter : Type := mkMeter {
  cm_overhead : Z;
  cm_scale : f64;
  cm_last : Z;
  cm_prevEst : Z;
  cm_prevMeasured : Z;
  cm_havePrev : bool;
}.
Definition newContextMeter : contextMeter := mkMeter 0 f_one 0 0 0 false.

(** [seed(est, size)] *)
Definition meter_seed (est size : Z) (m : contextMeter) : contextMeter :=
  if (est <=? 0) || (size <=? 0) then m
  else mkMeter (cm_overhead m) (clampScale (f_div (f_of_Z size) (f_of_Z est))) (cm_last m) (cm_prevEst m)
         (cm_prevMeasured m) (cm_havePrev m).

Definition sizeOf (est : Z) (m : contextMeter) : Z :=
  if est <=? 0 then 0
  else
    let scale := if f_eq (cm_scale m) f_zero then f_one else cm_scale m in
    f_to_int (math_round (f_mul scale (f_of_Z est))).

Definition meter_observe (est measured : Z) (m : contextMeter) : contextMeter :=
  if (est <=? 0) || (measured <=? 0) then m
  else
    let scale :=
      if cm_havePrev m && negb (est =? cm_prevEst m)
      then clampScale (f_div (f_of_Z (measured - cm_prevMeasured m)) (f_of_Z (est - cm_prevEst m)))
      else cm_scale m in
    let m := mkMeter (cm_overhead m) scale (cm_last m) (cm_prevEst m) (cm_prevMeasured m) (cm_havePrev m) in
    mkMeter (wrap64 (measured - sizeOf est m)) scale measured est measured true.

Definition observeResponse (est : Z) (resp : LLMResponse) (m : contextMeter) : contextMeter :=
  match rs_Usage resp with None => m | Some u => meter_observe est (us_PromptTokens u) m end.

Definition meter_predict (est : Z) (m : contextMeter) : Z := Z.max 0 (wrap64 (cm_overhead m + sizeOf est m)).
Definition meter_measured (m : contextMeter) : Z := cm_last m.
Definition sizeOfMessages (msgs : list LLMMessage) (m : contextMeter) : Z := sizeOf (estimateTokens msgs) m.

(** ** Pruning: [agentmemory.go] *)
Definition fits (maxTokens : Z) (meter : contextMeter) (msgs : list LLMMessage) : bool :=
  meter_predict (estimateTokens msgs) meter <=? maxTokens.

Fixpoint drop_oldest (maxTokens : Z) (meter : contextMeter) (kept : list LLMMessage) : list LLMMessage :=
  match kept with
  | _ :: rest =>
      match rest with
      | [] => kept
      | _ :: _ => if fits maxTokens meter kept then kept else drop_oldest maxTokens meter rest
      end
  | [] => []
  end.

Fixpoint trimToValidStart (msgs : list LLMMessage) : list LLMMessage :=
  match msgs with
  | [] => []
  | m :: rest => if is_role LLMRoleUser m then msgs else trimToValidStart rest
  end.

(** From the final user turn onward: nothing when there is none. *)
Fixpoint lastExchange (msgs : list LLMMessage) : list LLMMessage :=
  match msgs with
  | [] => []
  | m :: rest => match lastExchange rest with
                 | [] => if is_role LLMRoleUser m then msgs else []
                 | found => found
                 end
  end.

Definition pruneMemory (msgs : list LLMMessage) (maxTokens : Z) (meter : contextMeter) : list LLMMessage :=
  match trimToValidStart (drop_oldest maxTokens meter msgs) with
  | [] => lastExchange msgs
  | valid => valid
  end.

(** How many of the oldest turns a summary replaces: enough for the rest to fit
    half of the conversation's budget, and then the tool turns that follow. *)
Fixpoint over_budget (keepBudget : Z) (meter : contextMeter) (msgs : list LLMMessage) : nat :=
  match msgs with
  | [] => 0%nat
  | _ :: rest => if keepBudget <? sizeOfMessages msgs meter then S (over_budget keepBudget meter rest) else 0%nat
  end.
Fixpoint leading_tools (msgs : list LLMMessage) : nat :=
  match msgs with
  | [] => 0%nat
  | m :: rest => if is_role LLMRoleTool m then S (leading_tools rest) else 0%nat
  end.
Definition summary_cut (transcript : list LLMMessage) (maxTokens : Z) (meter : contextMeter) : nat :=
  let keepBudget := Z.max 0 (wrap64 (maxTokens - cm_overhead meter)) / 2 in
  let cut := over_budget keepBudget meter transcript in
  (cut + leading_tools (drop cut transcript))%nat.

(** What the model is asked to summarize. *)
Definition turn_text (m : LLMMessage) : string :=
  (if String.eqb (lm_Text m) "" then "" else lm_Role m ++ ": " ++ lm_Text m ++ nl)
  ++ String.concat "" (map (fun c => "assistant called tool " ++ tc_Name c ++ "(" ++ tc_Input c ++ ")" ++ nl) (lm_ToolCalls m))
  ++ String.concat "" (map (fun r => "tool result: " ++ tr_Content r ++ nl) (lm_ToolResults m)).
Definition transcript_text (transcript : list LLMMessage) : string := String.concat "" (map turn_text transcript).
Definition summary_turn (summary : string) : LLMMessage :=
  user_turn ("Summary of earlier conversation:" ++ nl ++ summary).

(** ** What compaction may not touch: [agentcontext.go] *)
Definition protectedSuffix (msgs : list LLMMessage) : nat :=
  let i := (List.length msgs - leading_tools (rev msgs))%nat in
  if Nat.eqb i (List.length msgs) then i
  else match i with
       | O => i
       | S j => match msgs !! j with
                | Some m => match lm_ToolCalls m with [] => i | _ :: _ => j end
                | None => i
                end
       end.

(** * Lemmas *)

(** ** What a provider accepts

    It accepts a conversation that opens on a user turn and in which the results
    of the tools follow the calls: an assistant turn with calls is followed by
    the tool turn with its results, in the order of the calls, and there is no
    other tool turn. *)
Definition answers_calls (m t : LLMMessage) : Prop := map tr_ToolCallID (lm_ToolResults t) = map tc_ID (lm_ToolCalls m).
#[global] Instance answers_dec m t : Decision (answers_calls m t).
Proof. unfold answers_calls. solve_decision. Defined.

Fixpoint paired (msgs : list LLMMessage) : bool :=
  match msgs with
  | [] => true
  | m :: rest =>
      match lm_ToolCalls m with
      | [] => negb (is_role LLMRoleTool m) && paired rest
      | _ :: _ => negb (is_role LLMRoleTool m) && negb (is_role LLMRoleUser m) &&
          match rest with
          | t :: rest => is_role LLMRoleTool t && bool_decide (answers_calls m t) && bool_decide (lm_ToolCalls t = []) && paired rest
          | [] => false
          end
      end
  end.
Definition opens_on_user (msgs : list LLMMessage) : bool :=
  match msgs with m :: _ => is_role LLMRoleUser m | [] => false end.
Definition replayable (msgs : list LLMMessage) : bool := opens_on_user msgs && paired msgs.

(** *** Cutting and joining *)
Lemma paired_user m rest : is_role LLMRoleUser m = true -> paired (m :: rest) = true -> paired rest = true.
Proof. intros Hm. cbn. rewrite Hm. destruct (lm_ToolCalls m); [by intros [_ ?]%andb_prop|]. by rewrite andb_false_r. Qed.

Lemma paired_cons m rest : paired (m :: rest) = true ->
  is_role LLMRoleTool m = false /\
  ((lm_ToolCalls m = [] /\ paired rest = true) \/
   (is_role LLMRoleUser m = false /\ lm_ToolCalls m <> [] /\ exists t rest', rest = t :: rest' /\ is_role LLMRoleTool t = true /\
      answers_calls m t /\ lm_ToolCalls t = [] /\ paired rest' = true)).
Proof.
  cbn. destruct (lm_ToolCalls m) eqn:Hc.
  - intros [Hm%negb_true_iff Hr]%andb_prop. eauto.
  - intros [[Hm%negb_true_iff Hu%negb_true_iff]%andb_prop H]%andb_prop. split; [done|]. right.
    destruct rest as [|t rest]; [done|]. apply andb_prop in H as [H Hr]. apply andb_prop in H as [H Ht].
    apply andb_prop in H as [Hrole Ha]. split; [done|]. split; [done|]. exists t, rest.
    apply bool_decide_eq_true in Ha. by apply bool_decide_eq_true in Ht.
Qed.

Lemma paired_exchange m t rest :
  is_role LLMRoleTool m = false -> is_role LLMRoleUser m = false -> lm_ToolCalls m <> [] ->
  is_role LLMRoleTool t = true -> answers_calls m t -> lm_ToolCalls t = [] -> paired (m :: t :: rest) = paired rest.
Proof.
  intros Hm Hu Hc Ht Ha Hn. cbn. destruct (lm_ToolCalls m); [done|]. rewrite Hm, Hu, Ht.
  by rewrite !bool_decide_eq_true_2.
Qed.

Lemma paired_plain m rest : is_role LLMRoleTool m = false -> lm_ToolCalls m = [] -> paired (m :: rest) = paired rest.
Proof. intros Hm Hc. cbn. by rewrite Hc, Hm. Qed.

(** Induction on a paired transcript, a turn or an exchange at a time. *)
Lemma paired_ind (P : list LLMMessage -> Prop) :
  P [] ->
  (forall m rest, is_role LLMRoleTool m = false -> lm_ToolCalls m = [] -> paired rest = true -> P rest -> P (m :: rest)) ->
  (forall m t rest, is_role LLMRoleTool m = false -> is_role LLMRoleUser m = false -> lm_ToolCalls m <> [] -> is_role LLMRoleTool t = true ->
     answers_calls m t -> lm_ToolCalls t = [] -> paired rest = true -> P rest -> P (m :: t :: rest)) ->
  forall msgs, paired msgs = true -> P msgs.
Proof.
  intros H0 H1 H2 msgs. remember (List.length msgs) as n eqn:Hn. revert msgs Hn.
  induction (lt_wf n) as [n _ IH]. intros [|m rest] -> Hp; [done|].
  apply paired_cons in Hp as [Hm [[Hc Hr]|(Hu & Hc & t & rest' & -> & Ht & Ha & Hn & Hr)]].
  - apply H1; [done..|]. eapply IH; [|done..]. cbn. lia.
  - apply H2; [done..|]. eapply IH; [|done..]. cbn. lia.
Qed.

Lemma paired_app l1 l2 : paired l1 = true -> paired l2 = true -> paired (l1 ++ l2)%list = true.
Proof.
  intros H1 H2. revert l1 H1. apply paired_ind; cbn [app].
  - done.
  - intros m rest Hm Hc _ IH. by rewrite paired_plain.
  - intros m t rest Hm Hu Hc Ht Ha Hn _ IH. by rewrite paired_exchange.
Qed.

Definition at_seam (l : list LLMMessage) : Prop :=
  match l with [] => True | m :: _ => is_role LLMRoleTool m = false end.

Lemma paired_split l1 l2 : paired (l1 ++ l2)%list = true -> at_seam l2 -> paired l1 = true /\ paired l2 = true.
Proof.
  remember (l1 ++ l2)%list as l eqn:Hl. intros Hp Hs. revert l Hp l1 Hl.
  refine (paired_ind _ _ _ _); [intros l1 Hl|intros m rest Hm Hc Hr IH l1 Hl|intros m t rest Hm Hu Hc Ht Ha Hn Hr IH l1 Hl].
  - symmetry in Hl. apply app_eq_nil in Hl as [-> ->]. done.
  - destruct l1 as [|x l1]; cbn in Hl; [subst l2; split; [done|]; by rewrite paired_plain|].
    injection Hl as <- ->. rewrite paired_plain by done. by apply IH.
  - destruct l1 as [|x l1]; cbn in Hl; [subst l2; split; [done|]; by rewrite paired_exchange|].
    injection Hl as <- Hl. destruct l1 as [|y l1]; cbn in Hl; [subst l2; cbn in Hs; congruence|].
    injection Hl as <- ->. rewrite paired_exchange by done. by apply IH.
Qed.

Lemma paired_snoc_tool pre x : paired (pre ++ [x])%list = true -> is_role LLMRoleTool x = true ->
  exists pre' a, pre = (pre' ++ [a])%list /\ is_role LLMRoleTool a = false /\ lm_ToolCalls a <> [] /\ paired [a; x] = true /\ paired pre' = true.
Proof.
  intros Hp Hx. remember (pre ++ [x])%list as l eqn:Hl. revert l Hp pre Hl.
  refine (paired_ind _ _ _ _); [intros pre Hl|intros m rest Hm Hc Hr IH pre Hl|intros m t rest Hm Hu Hc Ht Ha Hn Hr IH pre Hl].
  - by destruct pre.
  - destruct pre as [|y pre]; [injection Hl as -> ->; congruence|]. injection Hl as <- Hl.
    destruct (IH pre Hl) as (pre' & a & -> & ? & ? & ? & ?). exists (m :: pre'), a.
    rewrite (paired_plain m) by done. by split_and!.
  - destruct pre as [|y pre]; [by injection Hl|]. injection Hl as <- Hl. destruct pre as [|z pre].
    + injection Hl as -> ->. exists [], m. split; [done|]. split_and!; [done..| |done]. by rewrite paired_exchange.
    + injection Hl as <- Hl. destruct (IH pre Hl) as (pre' & a & -> & ? & ? & ? & ?). exists (m :: t :: pre'), a.
      rewrite (paired_exchange m) by done. by split_and!.
Qed.

(** *** Pruning *)
Lemma user_not_tool m : is_role LLMRoleUser m = true -> is_role LLMRoleTool m = false.
Proof. unfold is_role. intros ->%String.eqb_eq. reflexivity. Qed.

Lemma drop_oldest_suffix n meter msgs : drop_oldest n meter msgs `suffix_of` msgs.
Proof.
  induction msgs as [|m rest IH]; [done|]. cbn [drop_oldest]. destruct rest as [|r rest]; [done|].
  destruct (fits n meter (m :: r :: rest)); [done|]. by apply suffix_cons_r.
Qed.

Lemma trim_suffix msgs : trimToValidStart msgs `suffix_of` msgs.
Proof.
  induction msgs as [|m rest IH]; [done|]. cbn. destruct (is_role LLMRoleUser m); [done|]. by apply suffix_cons_r.
Qed.

Lemma last_exchange_suffix msgs : lastExchange msgs `suffix_of` msgs.
Proof.
  induction msgs as [|m rest IH]; [done|]. cbn [lastExchange]. destruct (lastExchange rest) eqn:E.
  - destruct (is_role LLMRoleUser m); [done|]. apply suffix_nil.
  - by apply suffix_cons_r.
Qed.

Lemma last_exchange_none msgs : lastExchange msgs = [] <-> Forall (fun m => is_role LLMRoleUser m = false) msgs.
Proof.
  induction msgs as [|m rest IH]; [done|]. cbn [lastExchange]. rewrite Forall_cons.
  destruct (lastExchange rest) eqn:E.
  - destruct (is_role LLMRoleUser m); naive_solver.
  - split; [done|]. intros [_ H]. by apply IH in H.
Qed.

Lemma last_exchange_opens msgs : lastExchange msgs <> [] -> opens_on_user (lastExchange msgs) = true.
Proof.
  induction msgs as [|m rest IH]; [done|]. cbn [lastExchange]. destruct (lastExchange rest) eqn:E.
  - destruct (is_role LLMRoleUser m) eqn:Em; [|done]. cbn. by rewrite Em.
  - intros _. by apply IH.
Qed.

Lemma trim_opens msgs : trimToValidStart msgs <> [] -> opens_on_user (trimToValidStart msgs) = true.
Proof.
  induction msgs as [|m rest IH]; [done|]. cbn. destruct (is_role LLMRoleUser m) eqn:E; [|done]. cbn. by rewrite E.
Qed.

(** A suffix that opens on a user turn holds the last exchange. *)
Lemma last_exchange_least l msgs : l `suffix_of` msgs -> opens_on_user l = true -> lastExchange msgs `suffix_of` l.
Proof.
  intros [pre ->] Ho. induction pre as [|m pre IH]; [apply last_exchange_suffix|]. cbn [app lastExchange].
  destruct (lastExchange (pre ++ l)) as [|] eqn:E; [|done].
  exfalso. apply last_exchange_none in E. apply Forall_app in E as [_ E].
  destruct l as [|u l]; [done|]. apply Forall_cons in E as [E _]. cbn in Ho. congruence.
Qed.

Lemma suffix_replayable l msgs : l `suffix_of` msgs -> paired msgs = true -> opens_on_user l = true -> replayable l = true.
Proof.
  intros [pre ->] Hp Ho. unfold replayable. rewrite Ho. cbn. apply (paired_split pre l Hp).
  destruct l as [|u l]; [done|]. cbn in *. by apply user_not_tool.
Qed.

Lemma prune_shape msgs n meter :
  pruneMemory msgs n meter `suffix_of` msgs /\ lastExchange msgs `suffix_of` pruneMemory msgs n meter /\
  (pruneMemory msgs n meter = [] <-> lastExchange msgs = []) /\
  (pruneMemory msgs n meter <> [] -> opens_on_user (pruneMemory msgs n meter) = true).
Proof.
  unfold pruneMemory. destruct (trimToValidStart (drop_oldest n meter msgs)) as [|u l] eqn:E.
  - split_and!; [apply last_exchange_suffix|done|done|]. apply last_exchange_opens.
  - assert (opens_on_user (u :: l) = true) as Ho by (rewrite <-E; apply trim_opens; by rewrite E).
    assert ((u :: l) `suffix_of` msgs) as Hs.
    { etransitivity; [|apply drop_oldest_suffix]. rewrite <-E. apply trim_suffix. }
    split_and!; [done|by apply last_exchange_least| |done].
    split; [done|]. intros H. apply last_exchange_none in H. destruct Hs as [pre ->].
    apply Forall_app in H as [_ [H _]%Forall_cons]. cbn in Ho. congruence.
Qed.

Lemma prune_paired msgs n meter : paired msgs = true -> paired (pruneMemory msgs n meter) = true.
Proof.
  intros Hp. destruct (prune_shape msgs n meter) as (Hs & _ & _ & Ho).
  destruct (pruneMemory msgs n meter) as [|u l] eqn:E; [done|].
  apply (suffix_replayable _ _ Hs) in Hp; [|by apply Ho]. by apply andb_prop in Hp as [_ ?].
Qed.

(** *** The protected end *)
Lemma leading_tools_length msgs : (leading_tools msgs <= List.length msgs)%nat.
Proof. induction msgs as [|m msgs IH]; cbn; [done|]. destruct (is_role LLMRoleTool m); lia. Qed.

Lemma protected_snoc pre x :
  is_role LLMRoleTool x = false -> protectedSuffix (pre ++ [x])%list = List.length (pre ++ [x])%list.
Proof.
  intros Hx. unfold protectedSuffix. rewrite rev_app_distr. cbn [rev app leading_tools]. rewrite Hx, Nat.sub_0_r.
  by rewrite Nat.eqb_refl.
Qed.

Lemma protected_exchange pre a t :
  is_role LLMRoleTool a = false -> lm_ToolCalls a <> [] -> is_role LLMRoleTool t = true ->
  protectedSuffix (pre ++ [a; t])%list = List.length pre.
Proof.
  intros Ha Hc Ht. unfold protectedSuffix. rewrite rev_app_distr. cbn [rev app leading_tools]. rewrite Ht, Ha.
  rewrite length_app. cbn [List.length]. replace (List.length pre + 2 - 1)%nat with (S (List.length pre)) by lia.
  destruct (Nat.eqb_spec (S (List.length pre)) (List.length pre + 2)); [lia|].
  rewrite lookup_app_r, Nat.sub_diag by lia. cbn. by destruct (lm_ToolCalls a).
Qed.

Lemma protected_split msgs : paired msgs = true ->
  paired (take (protectedSuffix msgs) msgs) = true /\ paired (drop (protectedSuffix msgs) msgs) = true /\
  (opens_on_user msgs = true -> (0 < protectedSuffix msgs)%nat).
Proof.
  intros Hp. destruct msgs as [|x pre _] using rev_ind; [done|].
  destruct (is_role LLMRoleTool x) eqn:Hx.
  - destruct (paired_snoc_tool _ _ Hp Hx) as (pre' & a & -> & Ha & Hc & Hax & Hp').
    rewrite <-app_assoc in *. cbn [app] in *. rewrite (protected_exchange _ _ _ Ha Hc Hx), take_app_length, drop_app_length.
    split_and!; [done..|]. destruct pre' as [|y pre']; [|cbn; lia]. cbn. intros Hu.
    apply paired_cons in Hax as [_ [[? _]|[Hn _]]]; congruence.
  - rewrite (protected_snoc _ _ Hx), firstn_all, drop_all. split_and!; [done..|]. rewrite length_app. cbn. lia.
Qed.

(** *** The cut of a summary *)
Lemma leading_tools_seam msgs : at_seam (drop (leading_tools msgs) msgs).
Proof. induction msgs as [|m msgs IH]; cbn; [done|]. destruct (is_role LLMRoleTool m) eqn:E; cbn; [done|by rewrite E]. Qed.

Lemma summary_seam transcript n meter : at_seam (drop (summary_cut transcript n meter) transcript).
Proof. unfold summary_cut. cbv zeta. rewrite <-drop_drop. apply leading_tools_seam. Qed.

Lemma summary_replayable transcript n meter summary :
  paired transcript = true ->
  replayable (summary_turn summary :: drop (summary_cut transcript n meter) transcript) = true.
Proof.
  intros Hp. unfold replayable. cbn [opens_on_user]. change (is_role _ _) with true. cbn [andb].
  rewrite paired_plain by done. rewrite <-(take_drop (summary_cut transcript n meter) transcript) in Hp.
  apply paired_split in Hp as [_ Hp]; [done|]. apply summary_seam.
Qed.

(** *** The scale of a meter *)
Lemma SFcompare_antisym x y : SFcompare y x = CompOpp <$> SFcompare x y.
Proof.
  unfold SFcompare. destruct x as [[]|[]| |[] m e], y as [[]|[]| |[] m' e']; try done; cbn [fmap option_fmap option_map].
  all: f_equal; rewrite (Z.compare_antisym e e');
    change (Pos.compare_cont Eq m' m) with (Pos.compare_cont (CompOpp Eq) m' m);
    rewrite <-Pos.compare_cont_antisym; destruct (e ?= e'); cbn; try done; by destruct (Pos.compare_cont Eq m m').
Qed.

Lemma f_not_lt_le x y : is_nan x = false -> is_nan y = false -> f_lt x y = false -> f_le y x = true.
Proof.
  unfold f_le, f_lt, SFltb, SFleb. intros Hx Hy. rewrite (SFcompare_antisym x y).
  destruct (SFcompare x y) as [[]|] eqn:E; try done. exfalso. revert E.
  unfold SFcompare. by destruct x as [[]|[]| |[] m e], y as [[]|[]| |[] m' e'].
Qed.

Definition within (x lo hi : f64) : bool := f_le lo x && f_le x hi.

Lemma clamp_within scale : within (clampScale scale) minTokenScale maxTokenScale = true.
Proof.
  assert (forall x, is_nan x = false -> within (float_min (float_max x minTokenScale) maxTokenScale) minTokenScale maxTokenScale = true) as H.
  { intros x Hx. assert (float_max x minTokenScale = if f_lt x minTokenScale then minTokenScale else x) as ->
      by (destruct x; done).
    destruct (f_lt x minTokenScale) eqn:E; [done|]. apply f_not_lt_le in E; [|done..].
    assert (float_min x maxTokenScale = if f_lt maxTokenScale x then maxTokenScale else x) as -> by (destruct x; done).
    destruct (f_lt maxTokenScale x) eqn:F; [done|]. apply f_not_lt_le in F; [|done..]. unfold within. by rewrite E, F. }
  destruct scale; [by apply H|done|done|by apply H].
Qed.

(** *** What a meter says *)
Inductive reading_of : Type := Seeded (est size : Z) | Observed (est measured : Z).
Definition after_reading (m : contextMeter) (r : reading_of) : contextMeter :=
  match r with Seeded est size => meter_seed est size m | Observed est measured => meter_observe est measured m end.
Definition after_readings : contextMeter -> list reading_of -> contextMeter := foldl after_reading.

Lemma reading_within m r : within (cm_scale m) minTokenScale maxTokenScale = true ->
  within (cm_scale (after_reading m r)) minTokenScale maxTokenScale = true.
Proof.
  intros Hm. destruct r as [est size|est measured]; cbn; unfold meter_seed, meter_observe; destruct (_ || _); [done| |done|];
    cbn; [apply clamp_within|]. destruct (_ && _); [apply clamp_within|done].
Qed.

Lemma readings_within rs m : within (cm_scale m) minTokenScale maxTokenScale = true ->
  within (cm_scale (after_readings m rs)) minTokenScale maxTokenScale = true.
Proof. revert m. induction rs as [|r rs IH]; intros m Hm; [done|]. apply IH. by apply reading_within. Qed.

(** Whatever a provider reports, the rate at which a conversation is sized
    stays between half and four times the estimate; a prediction is never
    negative and never more than an int64; and the conversation that was just
    measured is predicted at exactly what was measured. *)
Theorem meter_bounded rs est measured :
  let m := after_readings newContextMeter rs in
  within (cm_scale m) minTokenScale maxTokenScale = true /\
  (forall e, 0 <= meter_predict e m <= int64_max) /\
  (0 < est -> 0 < measured <= int64_max -> meter_predict est (meter_observe est measured m) = measured).
Proof.
  intros m. split_and!.
  - by apply readings_within.
  - intros e. unfold meter_predict. pose proof (wrap64_range (cm_overhead m + sizeOf e m)) as H. unfold in_int64, int64_min, int64_max in *. lia.
  - intros He Hm. unfold meter_observe. assert ((est <=? 0) || (measured <=? 0) = false) as -> by lia. cbv zeta.
    set (scale := if _ && _ then _ else _). unfold meter_predict. cbn [cm_overhead].
    match goal with |- context [sizeOf est ?m1] => set (s := sizeOf est m1) end.
    match goal with |- context [sizeOf est ?m2] => change (sizeOf est m2) with s end.
    unfold wrap64, int64_max in *. rewrite <-(Z.add_opp_r ((measured - s + 2^63) mod 2^64)).
    replace ((measured - s + 2 ^ 63) mod 2 ^ 64 + - 2 ^ 63 + s + 2 ^ 63) with ((measured - s + 2 ^ 63) mod 2 ^ 64 + s) by lia.
    rewrite Zplus_mod_idemp_l. replace (measured - s + 2 ^ 63 + s) with (measured + 2 ^ 63) by lia.
    rewrite Z.mod_small by lia. lia.
Qed.

(** Pruning a conversation a provider accepts leaves one it accepts: the end
    of it, whole exchanges at a time, opening on a user turn, and never without
    the last exchange however small the budget; what fits is left as it is. *)
Theorem prune_keeps_exchange msgs n meter : replayable msgs = true ->
  pruneMemory msgs n meter `suffix_of` msgs /\ replayable (pruneMemory msgs n meter) = true /\
  lastExchange msgs `suffix_of` pruneMemory msgs n meter /\ lastExchange msgs <> [] /\
  (fits n meter msgs = true -> pruneMemory msgs n meter = msgs).
Proof.
  intros H. pose proof H as [Ho Hp]%andb_prop. destruct (prune_shape msgs n meter) as (Hs & Hl & Hn & Hopen).
  assert (lastExchange msgs <> []) as Hne.
  { intros E. apply last_exchange_none in E. destruct msgs as [|m msgs]; [done|]. apply Forall_cons in E as [E _]. cbn in Ho. congruence. }
  split_and!; [done| |done|done|].
  - eapply suffix_replayable; [done..|]. apply Hopen. by rewrite Hn.
  - intros Hf. unfold pruneMemory. destruct msgs as [|m rest]; [done|]. destruct rest as [|m' rest].
    + cbn in *. by rewrite Ho.
    + cbn [drop_oldest]. rewrite Hf. cbn in *. by rewrite Ho.
Qed.

Definition two_exchanges : list LLMMessage :=
  [user_turn "hello"; mkLLMMessage LLMRoleAssistant "" [] [] [mkToolCall "c1" "look" "{}" ""] [];
   tool_turn [mkToolResult "c1" "look" "42" false]; mkLLMMessage LLMRoleAssistant "it is 42" [] [] [] [];
   user_turn "and now?"; mkLLMMessage LLMRoleAssistant "still 42" [] [] [] []].
Lemma prune_keeps_exchange_witness :
  replayable two_exchanges = true /\ pruneMemory two_exchanges 4 newContextMeter = drop 4 two_exchanges /\
  drop 4 two_exchanges `suffix_of` two_exchanges.
Proof.
  assert (pruneMemory two_exchanges 4 newContextMeter = drop 4 two_exchanges) as E by (vm_compute; reflexivity).
  split; [reflexivity|]. split; [exact E|]. rewrite <-E.
  by apply (prune_keeps_exchange two_exchanges 4 newContextMeter).
Defined.
