(* ===== verification/AgentRun.v ===== *)
(** Reaching a run in flight: [blocks/ai/agentsignals.go] and the delivery
    envelope of [agentclaim.go].

    A run is one goroutine; what reaches it comes from others, under the run's
    lock.  Every operation of the run that takes the lock is therefore preceded
    by whatever arrived since the one before it: a [beat] of the host. *)
From S2P Require Import Prelude GoStr F64 Message Store.
From Stdlib Require Import String.
#[local] Open Scope string_scope.
#[local] Open Scope Z_scope.

Definition fieldSignal : string := "signal".
Definition fieldText : string := "text".
Definition fieldAuthorizationID : string := "authorizationId".
Definition fieldAllowed : string := "allowed".
Definition fieldAccepted : string := "accepted".
Definition signalContext : string := "context".
Definition signalStop : string := "stop".
Definition signalAuthorize : string := "authorize".
Definition signalUnanswered : string := "unanswered".

(** ** A delivery on the wire *)
Record delivery : Type := mkDelivery {
  dl_signal : string;
  dl_text : string;
  dl_authorizationID : string;
  dl_allowed : bool;
}.

Definition delivery_body (d : delivery) : any :=
  let body : gmap string any := {[ fieldSignal := AStr (dl_signal d); fieldText := AStr (dl_text d) ]} in
  AMap (if String.eqb (dl_signal d) signalAuthorize
        then <[ fieldAuthorizationID := AStr (dl_authorizationID d) ]> (<[ fieldAllowed := ABool (dl_allowed d) ]> body)
        else body).

Definition body_string (v : option any) : string := match v with Some (AStr s) => s | _ => "" end.
Definition body_bool (v : option any) : bool := match v with Some (ABool b) => b | _ => false end.

Definition readDelivery (body : any) : delivery :=
  match body with
  | AMap m =>
      let signal := body_string (m !! fieldSignal) in
      mkDelivery (if String.eqb signal "" then signalContext else signal) (body_string (m !! fieldText))
        (body_string (m !! fieldAuthorizationID)) (body_bool (m !! fieldAllowed))
  | _ => mkDelivery signalContext "" "" false
  end.

Definition accepted_body (accepted : bool) : any := AMap {[ fieldAccepted := ABool accepted ]}.
Definition acceptedBy (body : any) : bool :=
  match body with AMap m => body_bool (m !! fieldAccepted) | _ => false end.

(** ** The run

    [ar_gates] are the calls waiting on a person; [ar_answers] what is in the
    channels of the calls that were answered and are still being waited for. *)
Record agentRun : Type := mkRun {
  ar_pending : list string;
  ar_stopped : bool;
  ar_done : bool;
  ar_gates : gset string;
  ar_answers : gmap string bool;
}.
Definition new_run : agentRun := mkRun [] false false ∅ ∅.

Definition openGate (id : string) (a : agentRun) : agentRun :=
  mkRun (ar_pending a) (ar_stopped a) (ar_done a) ({[id]} ∪ ar_gates a) (delete id (ar_answers a)).
Definition closeGate (id : string) (a : agentRun) : agentRun :=
  mkRun (ar_pending a) (ar_stopped a) (ar_done a) (ar_gates a ∖ {[id]}) (delete id (ar_answers a)).
Definition authorize (id : string) (allowed : bool) (a : agentRun) : agentRun * bool :=
  if decide (id ∈ ar_gates a)
  then (mkRun (ar_pending a) (ar_stopped a) (ar_done a) (ar_gates a ∖ {[id]}) (<[ id := allowed ]> (ar_answers a)), true)
  else (a, false).

Definition run_offer (text : string) (a : agentRun) : agentRun * bool :=
  if ar_done a then (a, false)
  else
    let trimmed := TrimSpace text in
    (mkRun (if String.eqb trimmed "" then ar_pending a else (ar_pending a ++ [trimmed])%list) (ar_stopped a) (ar_done a)
       (ar_gates a) (ar_answers a), true).

(** It also cancels the run's context: from here the calls made under it may
    fail, which they may at any time. *)
Definition requestStop (a : agentRun) : agentRun * bool :=
  if ar_done a then (a, false) else (mkRun (ar_pending a) true (ar_done a) (ar_gates a) (ar_answers a), true).

Definition run_take (a : agentRun) : agentRun * list string :=
  (mkRun [] (ar_stopped a) (ar_done a) (ar_gates a) (ar_answers a), ar_pending a).

Definition stopRequested (a : agentRun) : agentRun * bool := (a, ar_stopped a).

Definition run_finish (a : agentRun) : agentRun * bool :=
  match ar_pending a with
  | [] => (mkRun [] (ar_stopped a) true (ar_gates a) (ar_answers a), true)
  | _ :: _ => (a, false)
  end.

Definition run_close (a : agentRun) : agentRun * unit :=
  (mkRun (ar_pending a) (ar_stopped a) true (ar_gates a) (ar_answers a), tt).

(** [handleDelivery]: the run after it, and the answer that travels back. *)
Definition handleDelivery (d : delivery) (a : agentRun) : agentRun * bool :=
  if String.eqb (dl_signal d) signalStop then requestStop a
  else if String.eqb (dl_signal d) signalAuthorize then authorize (dl_authorizationID d) (dl_allowed d) a
  else run_offer (dl_text d) a.

(** ** The process's runs *)
Record runRegistry : Type := mkRunRegistry {
  rr_names : gmap string nat;
  rr_runs : gmap nat agentRun;
}.
Definition the_run (p : nat) (r : runRegistry) : agentRun := default new_run (rr_runs r !! p).
Definition on_run {A} (key : string) (f : agentRun -> agentRun * A) (none : A) (r : runRegistry) : runRegistry * A :=
  match rr_names r !! key with
  | None => (r, none)
  | Some p => let '(a, out) := f (the_run p r) in (mkRunRegistry (rr_names r) (<[ p := a ]> (rr_runs r)), out)
  end.

Definition offerLocal (key text : string) : runRegistry -> runRegistry * bool := on_run key (run_offer text) false.
Definition stopLocal (key : string) : runRegistry -> runRegistry * bool := on_run key requestStop false.
Definition answerLocal (key id : string) (allowed : bool) : runRegistry -> runRegistry * bool :=
  on_run key (authorize id allowed) false.
(** [take(key, mine)] *)
Definition registry_take (key : string) (mine : nat) (r : runRegistry) : runRegistry :=
  mkRunRegistry (<[ key := mine ]> (rr_names r)) (rr_runs r).
Definition registry_release (key : string) (mine : nat) (r : runRegistry) : runRegistry :=
  if String.eqb key "" then r
  else match rr_names r !! key with
       | Some p => if Nat.eqb p mine then mkRunRegistry (delete key (rr_names r)) (rr_runs r) else r
       | None => r
       end.

(** ** The host of a run

    [h_beats] is what the other goroutines do, in the order in which the run's
    lock sees it; a beat ends with what a wait that falls into it wakes up to.
    [h_replies] are the answers that travelled back. *)
Inductive wakeup : Type := WakeAnswer | WakeTimer | WakeDone.
Record beat : Type := mkBeat { bt_arrivals : list delivery; bt_wake : wakeup }.
Record host (V : Type) : Type := mkHost {
  h_run : agentRun;
  h_beats : list beat;
  h_replies : list (delivery * bool);
  h_app : V;
}.
Arguments mkHost {V}.
Arguments h_run {V}. Arguments h_beats {V}. Arguments h_replies {V}. Arguments h_app {V}.

Fixpoint arrive (ds : list delivery) (a : agentRun) : agentRun * list (delivery * bool) :=
  match ds with
  | [] => (a, [])
  | d :: ds =>
      let '(a, accepted) := handleDelivery d a in
      let '(a, replies) := arrive ds a in
      (a, (d, accepted) :: replies)
  end.

Section host.
Context {V : Type}.

(** What arrived since the lock was last taken. *)
Definition next_beat : M (host V) wakeup := fun w =>
  let h := usr w in
  match h_beats h with
  | [] => (w, Ok WakeTimer)
  | b :: beats =>
      let '(a, replies) := arrive (bt_arrivals b) (h_run h) in
      (with_usr (mkHost a beats (h_replies h ++ replies)%list (h_app h)) w, Ok (bt_wake b))
  end.
(** An operation of the run under its lock. *)
Definition on_lock {A} (f : agentRun -> agentRun * A) : M (host V) A := fun w =>
  let h := usr w in
  let '(a, out) := f (h_run h) in
  (with_usr (mkHost a (h_beats h) (h_replies h) (h_app h)) w, Ok out).
Definition locked {A} (f : agentRun -> agentRun * A) : M (host V) A := next_beat ≫= fun _ => on_lock f.
End host.

(** * Lemmas *)

(** A delivery reads back as it was sent; what its signal does not carry is lost. *)
Lemma delivery_reads_back d : dl_signal d <> "" ->
  readDelivery (delivery_body d) =
  if String.eqb (dl_signal d) signalAuthorize then d else mkDelivery (dl_signal d) (dl_text d) "" false.
Proof.
  destruct d as [s t i a]. cbn [dl_signal]. intros Hs. unfold readDelivery, delivery_body. cbn [dl_signal dl_text dl_authorizationID dl_allowed].
  destruct (String.eqb_spec s signalAuthorize) as [->|Ha].
  - reflexivity.
  - simplify_map_eq. destruct (String.eqb_spec s ""); [done|]. reflexivity.
Qed.

(** The texts a run was handed and took. *)
Definition taken_in (replies : list (delivery * bool)) : list string :=
  omap (fun '(d, accepted) =>
    if (accepted : bool) && negb (String.eqb (dl_signal d) signalStop) && negb (String.eqb (dl_signal d) signalAuthorize)
       && negb (String.eqb (TrimSpace (dl_text d)) "")
    then Some (TrimSpace (dl_text d)) else None) replies.

Lemma handle_pending d a a' accepted : handleDelivery d a = (a', accepted) ->
  ar_pending a' = (ar_pending a ++ taken_in [(d, accepted)])%list /\ ar_done a' = ar_done a /\
  (ar_done a = true -> ar_pending a' = ar_pending a /\ ar_stopped a' = ar_stopped a).
Proof.
  unfold handleDelivery, requestStop, authorize, run_offer, taken_in. cbn [omap list_omap].
  destruct (String.eqb_spec (dl_signal d) signalStop) as [Es|];
    [|destruct (String.eqb_spec (dl_signal d) signalAuthorize) as [Ea|]].
  - destruct (ar_done a) eqn:Hd; intros [= <- <-]; cbn; rewrite ?app_nil_r, ?Hd; done.
  - destruct (decide _); intros [= <- <-]; cbn; rewrite ?app_nil_r; done.
  - destruct (ar_done a) eqn:Hd; intros [= <- <-]; cbn; rewrite ?app_nil_r, ?Hd; [done|].
    destruct (String.eqb (TrimSpace (dl_text d)) ""); cbn; rewrite ?app_nil_r; done.
Qed.

Lemma taken_in_app l1 l2 : taken_in (l1 ++ l2)%list = (taken_in l1 ++ taken_in l2)%list.
Proof. apply omap_app. Qed.

Lemma arrive_pending ds a a' replies : arrive ds a = (a', replies) ->
  ar_pending a' = (ar_pending a ++ taken_in replies)%list /\ ar_done a' = ar_done a /\
  (ar_done a = true -> taken_in replies = [] /\ ar_stopped a' = ar_stopped a).
Proof.
  revert a a' replies. induction ds as [|d ds IH]; intros a a' replies; cbn [arrive].
  - intros [= <- <-]. by rewrite app_nil_r.
  - destruct (handleDelivery d a) as [a1 ok] eqn:Hd. destruct (arrive ds a1) as [a2 rs] eqn:Hr. intros [= <- <-].
    apply handle_pending in Hd as (Hp & Hdone & Hs). apply IH in Hr as (Hp' & Hdone' & Hs').
    change ((d, ok) :: rs) with ([(d, ok)] ++ rs)%list. rewrite taken_in_app, Hp', Hp, app_assoc.
    split; [done|]. split; [congruence|]. intros H. destruct (Hs H) as [Hq Hst]. rewrite Hdone in Hs'.
    destruct (Hs' H) as [-> Hst']. rewrite app_nil_r. split; [|congruence].
    rewrite Hp in Hq. by apply (app_inv_head (ar_pending a)); rewrite app_nil_r.
Qed.
