(* ===== verification/Base64.v ===== *)
(** [encoding/base64], as the program uses it: the standard encoding with
    padding for the bytes of attachments, the URL encoding without it for
    cursors and headers. *)
From S2P Require Import Prelude GoStr.
From Stdlib Require Import String Ascii.
#[local] Open Scope string_scope.
#[local] Open Scope Z_scope.

Record encoding : Type := mkEncoding { b64_url : bool; b64_padded : bool }.
Definition StdEncoding : encoding := mkEncoding false true.
Definition RawURLEncoding : encoding := mkEncoding true false.

Definition byte_of (z : Z) : ascii := ascii_of_nat (Z.to_nat z).

Definition sextet_char (e : encoding) (z : Z) : ascii :=
  if z <? 26 then byte_of (z + 65)
  else if z <? 52 then byte_of (z + 71)
  else if z <? 62 then byte_of (z - 4)
  else if z =? 62 then (if b64_url e then "-"%char else "+"%char)
  else (if b64_url e then "_"%char else "/"%char).
Definition char_sextet (e : encoding) (a : ascii) : option Z :=
  let n := code a in
  if (65 <=? n) && (n <=? 90) then Some (n - 65)
  else if (97 <=? n) && (n <=? 122) then Some (n - 71)
  else if (48 <=? n) && (n <=? 57) then Some (n + 4)
  else if Ascii.eqb a (if b64_url e then "-"%char else "+"%char) then Some 62
  else if Ascii.eqb a (if b64_url e then "_"%char else "/"%char) then Some 63
  else None.

Definition padding (e : encoding) (n : nat) : string :=
  if b64_padded e then string_of_list_ascii (replicate n "="%char) else "".

Fixpoint encode_base64 (e : encoding) (s : string) : string :=
  match s with
  | EmptyString => ""
  | String a r =>
      let x := code a in
      match r with
      | EmptyString =>
          String (sextet_char e (x / 4)) (String (sextet_char e (x mod 4 * 16)) (padding e 2))
      | String b r =>
          let y := code b in
          match r with
          | EmptyString =>
              String (sextet_char e (x / 4)) (String (sextet_char e (x mod 4 * 16 + y / 16))
                (String (sextet_char e (y mod 16 * 4)) (padding e 1)))
          | String c r =>
              let z := code c in
              String (sextet_char e (x / 4)) (String (sextet_char e (x mod 4 * 16 + y / 16))
                (String (sextet_char e (y mod 16 * 4 + z / 64)) (String (sextet_char e (z mod 64)) (encode_base64 e r))))
          end
      end
  end.

(** The decoder skips line breaks and does not look at the bits left over. *)
Definition line_break (a : ascii) : bool := (code a =? 10) || (code a =? 13).
Fixpoint unbroken (s : string) : string :=
  match s with
  | EmptyString => ""
  | String a r => if line_break a then unbroken r else String a (unbroken r)
  end.

Definition last_group (e : encoding) (w x : Z) (rest : string) : option string :=
  let first := byte_of (w * 4 + x / 16) in
  if String.eqb rest (padding e 2) then Some (String first "")
  else match rest with
       | String c pad => y ← char_sextet e c;
                         if String.eqb pad (padding e 1)
                         then Some (String first (String (byte_of (x mod 16 * 16 + y / 4)) ""))
                         else None
       | EmptyString => None
       end.

Fixpoint decode_groups (e : encoding) (s : string) : option string :=
  match s with
  | EmptyString => Some ""
  | String a (String b r) =>
      w ← char_sextet e a; x ← char_sextet e b;
      match r with
      | String c (String d r') =>
          match char_sextet e c, char_sextet e d with
          | Some y, Some z =>
              rest ← decode_groups e r';
              Some (String (byte_of (w * 4 + x / 16)) (String (byte_of (x mod 16 * 16 + y / 4))
                (String (byte_of (y mod 4 * 64 + z)) rest)))
          | _, _ => last_group e w x r
          end
      | _ => last_group e w x r
      end
  | String _ EmptyString => None
  end.

Definition illegal_base64 : goerr := ErrMsg "illegal base64 data".
Definition decode_base64 (e : encoding) (s : string) : res string :=
  match decode_groups e (unbroken s) with Some t => Ok t | None => Err illegal_base64 end.

(** * Lemmas *)
Lemma code_range a : 0 <= code a < 256.
Proof. unfold code. pose proof (nat_ascii_bounded a). lia. Qed.
Lemma byte_code a : byte_of (code a) = a.
Proof. unfold byte_of, code. by rewrite Nat2Z.id, ascii_nat_embedding. Qed.

Lemma sextet_range (P : Z -> Prop) : Forall P (seqZ 0 64) -> forall z, 0 <= z < 64 -> P z.
Proof. intros H z Hz. rewrite Forall_forall in H. apply H, elem_of_seqZ. lia. Qed.

Lemma sextet_reads e z : 0 <= z < 64 -> char_sextet e (sextet_char e z) = Some z.
Proof.
  revert z. apply sextet_range. apply (bool_decide_unpack _). destruct e as [[] p]; vm_compute; exact I.
Qed.
Lemma sextet_unbroken e z : 0 <= z < 64 -> line_break (sextet_char e z) = false.
Proof. revert z. apply sextet_range. apply (bool_decide_unpack _). destruct e as [[] p]; vm_compute; exact I. Qed.

Lemma sextet_no_pad e z : 0 <= z < 64 -> Ascii.eqb (sextet_char e z) "=" = false.
Proof. revert z. apply sextet_range. apply (bool_decide_unpack _). destruct e as [[] p]; vm_compute; exact I. Qed.

Lemma unbroken_encode e s : unbroken (encode_base64 e s) = encode_base64 e s.
Proof.
  assert (forall n, unbroken (padding e n) = padding e n) as Hpad.
  { intros n. unfold padding. destruct (b64_padded e); [|done]. induction n as [|n IH]; cbn; [done|]. by rewrite IH. }
  assert (forall n s, (String.length s <= n)%nat -> unbroken (encode_base64 e s) = encode_base64 e s) as H; [|by eapply H].
  clear s. intros n. induction n as [|n IH]; intros s Hn; [by destruct s; [|cbn in Hn; lia]|].
  destruct s as [|a [|b [|c r]]]; [done|..]; cbn [encode_base64 unbroken];
    pose proof (code_range a); try pose proof (code_range b); try pose proof (code_range c);
    rewrite !sextet_unbroken by (Z.to_euclidean_division_equations; lia); rewrite ?Hpad; [done..|].
  rewrite IH; [done|]. cbn in Hn. lia.
Qed.

Lemma decode_encode e s : decode_base64 e (encode_base64 e s) = Ok s.
Proof.
  unfold decode_base64. rewrite unbroken_encode.
  assert (forall n s, (String.length s <= n)%nat -> decode_groups e (encode_base64 e s) = Some s) as H; [|by rewrite (H _ s (le_n _))].
  clear s. intros n. induction n as [|n IH]; intros s Hn; [by destruct s; [|cbn in Hn; lia]|].
  assert (forall x y, x = code y -> byte_of x = y) as Hb by (intros x y ->; apply byte_code).
  destruct s as [|a [|b [|c r]]]; [done|..]; cbn [encode_base64 decode_groups];
    pose proof (code_range a); try pose proof (code_range b); try pose proof (code_range c);
    rewrite !sextet_reads by (Z.to_euclidean_division_equations; lia); cbn [mbind option_bind].
  - unfold padding. destruct (b64_padded e) eqn:Hp; cbn [replicate string_of_list_ascii].
    + destruct e as [[] p]; cbn in *; subst; cbn; do 2 f_equal; apply Hb; Z.to_euclidean_division_equations; lia.
    + unfold last_group, padding. rewrite Hp. cbn. do 2 f_equal. apply Hb. Z.to_euclidean_division_equations; lia.
  - assert (0 <= code b mod 16 * 4 < 64) as Hy by (Z.to_euclidean_division_equations; lia).
    assert (last_group e (code a / 4) (code a mod 4 * 16 + code b / 16) (String (sextet_char e (code b mod 16 * 4)) (padding e 1))
      = Some (String a (String b ""))) as Hg.
    { unfold last_group. replace (String.eqb (String _ _) (padding e 2)) with false.
      - rewrite sextet_reads by done. cbn [mbind option_bind]. rewrite String.eqb_refl.
        do 3 f_equal; [|f_equal]; apply Hb; Z.to_euclidean_division_equations; lia.
      - unfold padding. destruct (b64_padded e); [|done]. cbn. by rewrite (sextet_no_pad e _ Hy). }
    destruct (padding e 1) as [|p q] eqn:Hp; [done|].
    assert (char_sextet e p = None) as ->; [|done].
    unfold padding in Hp. destruct (b64_padded e); [|done]. injection Hp as <- <-. by destruct e as [[] ?].
  - rewrite IH by (cbn in Hn; lia). cbn. do 4 f_equal.
    all: try (apply Hb; Z.to_euclidean_division_equations; lia).
Qed.
