(* ===== verification/MemoryStore.v ===== *)
(** What agents remember: the contract of [core/agentmemory.go], the in-process
    store of [services/standalone/agentmemorymem.go] and the listing of
    [agentmemory.go].

    The payload of working memory is opaque to a store: a type [P]. *)
From S2P Require Import Prelude Order GoStr F64 GoTime Message Store KV Transcript Base64.
From stdpp Require Import pretty.
From Stdlib Require Import String Ascii.
#[local] Open Scope string_scope.
#[local] Open Scope Z_scope.

(** ** core/agentmemory.go *)
Definition ErrMemoryDisabled : goerr := ErrMsg "agent memory: no store configured".

Record MemoryRef : Type := mkMemoryRef { mr_AgentID : string; mr_ThreadKey : string; mr_UserID : string }.
Record WorkingMemory (P : Type) : Type := mkWorkingMemory {
  wm_Version : Z;
  wm_Iteration : Z;
  wm_Tokens : Z;
  wm_Payload : P;
  wm_UpdatedAt : Z;
}.
Arguments mkWorkingMemory {P}. Arguments wm_Version {P}. Arguments wm_Iteration {P}. Arguments wm_Tokens {P}.
Arguments wm_Payload {P}. Arguments wm_UpdatedAt {P}.
Record Turn : Type := mkTurn {
  tn_Seq : Z;
  tn_Role : string;
  tn_Text : string;
  tn_Tokens : Z;
  tn_Attrs : option any;
  tn_CreatedAt : Z;
}.
Record Thread : Type := mkThread {
  td_AgentID : string;
  td_ThreadKey : string;
  td_UserID : string;
  td_Title : string;
  td_Version : Z;
  td_TurnCount : Z;
  td_CreatedAt : Z;
  td_LastActivityAt : Z;
}.
Record UserMemory : Type := mkUserMemory {
  um_Name : string;
  um_Value : string;
  um_Version : Z;
  um_CreatedAt : Z;
  um_UpdatedAt : Z;
}.
Definition MemoryScopeAll : string := "".
Definition MemoryScopeTurns : string := "turns".
Definition MemoryScopeUser : string := "user".
Record MemoryQuery : Type := mkMemoryQuery {
  mq_AgentID : string;
  mq_UserID : string;
  mq_ThreadKey : string;
  mq_Text : string;
  mq_Scope : string;
  mq_Limit : Z;
}.
Definition MemoryHitTurn : string := "turn".
Definition MemoryHitUser : string := "user".
Record MemoryHit : Type := mkMemoryHit {
  mh_Kind : string;
  mh_ThreadKey : string;
  mh_Name : string;
  mh_Text : string;
  mh_Seq : Z;
  mh_Score : f64;
}.
Record Page : Type := mkPage { pg_Cursor : string; pg_Limit : Z }.

Class AgentMemory (P U : Type) : Type := {
  mem_Enabled : bool;
  mem_LoadWorking : MemoryRef -> M U (option (WorkingMemory P));
  mem_SaveWorking : MemoryRef -> WorkingMemory P -> M U Z;
  mem_AppendTurns : MemoryRef -> list Turn -> M U Z;
  mem_ListThreads : string -> string -> Page -> M U (list Thread * string);
  mem_ReadThread : MemoryRef -> Page -> M U (option Thread * list Turn * string);
  mem_DeleteThread : MemoryRef -> M U unit;
  mem_SetTitle : MemoryRef -> string -> M U unit;
  mem_Memories : MemoryRef -> M U (list UserMemory);
  mem_PutMemory : MemoryRef -> string -> string -> Z -> M U Z;
  mem_DeleteMemory : MemoryRef -> string -> M U unit;
  mem_Search : MemoryQuery -> M U (list MemoryHit);
}.

(** [noopAgentMemory]: it reads empty and its writes fail. *)
Definition NoopAgentMemory {P U} : AgentMemory P U := {|
  mem_Enabled := false;
  mem_LoadWorking _ := mret None;
  mem_SaveWorking _ _ := fail ErrMemoryDisabled;
  mem_AppendTurns _ _ := fail ErrMemoryDisabled;
  mem_ListThreads _ _ _ := mret ([], "");
  mem_ReadThread _ _ := mret (None, [], "");
  mem_DeleteThread _ := mret tt;
  mem_SetTitle _ _ := fail ErrMemoryDisabled;
  mem_Memories _ := mret [];
  mem_PutMemory _ _ _ _ := fail ErrMemoryDisabled;
  mem_DeleteMemory _ _ := mret tt;
  mem_Search _ := mret [];
|}.

(** ** Listing and paging *)
Definition defaultPageLimit : nat := 50.
Definition page_limit (page : Page) : nat :=
  if pg_Limit page <=? 0 then defaultPageLimit else Z.to_nat (pg_Limit page).

(** The rows after the one the cursor names: none when it is gone. *)
Fixpoint after_key {A} (key : A -> string) (named : string) (rows : list A) : option (list A) :=
  match rows with
  | [] => None
  | r :: rows => if String.eqb (key r) named then Some rows else after_key key named rows
  end.
Definition page_of {A} (key : A -> string) (limit : nat) (rows : list A) : list A * string :=
  (take limit rows,
   if Nat.ltb limit (List.length rows)
   then match rows !! (limit - 1)%nat with Some r => encode_base64 RawURLEncoding (key r) | None => "" end
   else "").

Definition pageThreads (rows : list Thread) (page : Page) : res (list Thread * string) :=
  if String.eqb (pg_Cursor page) "" then Ok (page_of td_ThreadKey (page_limit page) rows)
  else
    after ← wrap_err "bad cursor: " (decode_base64 RawURLEncoding (pg_Cursor page));
    mret match after_key td_ThreadKey after rows with
         | Some rest => page_of td_ThreadKey (page_limit page) rest
         | None => ([], "")
         end.

Definition turn_key (t : Turn) : string := itoa (tn_Seq t).
Definition pageTurns (turns : list Turn) (page : Page) : list Turn * string :=
  if String.eqb (pg_Cursor page) "" then page_of turn_key (page_limit page) turns
  else
    match decode_base64 RawURLEncoding (pg_Cursor page) with
    | Err _ => ([], "")
    | Ok after => match after_key turn_key after turns with
                  | Some rest => page_of turn_key (page_limit page) rest
                  | None => ([], "")
                  end
    end.

Definition thread_before (a b : Thread) : bool :=
  if negb (td_LastActivityAt a =? td_LastActivityAt b) then td_LastActivityAt b <? td_LastActivityAt a
  else String.ltb (td_ThreadKey a) (td_ThreadKey b).
Definition sortThreads : list Thread -> list Thread := sort_by thread_before.

(** ** Scoring text *)
(** Every byte of a rune outside ASCII counts as a letter. *)
Definition word_byte (a : ascii) : bool :=
  let n := code a in ((48 <=? n) && (n <=? 57)) || ((65 <=? n) && (n <=? 90)) || ((97 <=? n) && (n <=? 122)) || (128 <=? n).
Fixpoint fields_func (s : string) : list string * string :=
  match s with
  | EmptyString => ([], "")
  | String a r =>
      let '(done_, cur) := fields_func r in
      if word_byte a then (done_, String a cur)
      else (if String.eqb cur "" then done_ else cur :: done_, "")
  end.
Fixpoint rune_count (s : string) : Z :=
  match s with
  | EmptyString => 0
  | String a r => (if (128 <=? code a) && (code a <? 192) then 0 else 1) + rune_count r
  end.
Definition queryWords (text : string) : list string :=
  let '(rest, first) := fields_func (ToLower text) in
  List.filter (fun f => 1 <? rune_count f) (if String.eqb first "" then rest else first :: rest).

Definition lengthDamping : f64 := f_of_Z 1000.
Definition scoreText (text : string) (words : list string) : f64 :=
  let matched := Z.of_nat (List.length (List.filter (contains (ToLower text)) words)) in
  if matched =? 0 then f_zero
  else f_div (f_div (f_of_Z matched) (f_of_Z (Z.of_nat (List.length words))))
         (f_add f_one (f_div (f_of_Z (bytes text)) lengthDamping)).

(** ** services/standalone/agentmemorymem.go *)
Section memory.
Context {P : Type}.
Abbreviation WorkingMemory := (WorkingMemory P).

Record memThread : Type := mkMemThread {
  mt_meta : Thread;
  mt_working : option WorkingMemory;
  mt_turns : list Turn;
}.
Record memoryOnlyStore : Type := mkMemoryOnlyStore {
  mo_threads : gmap (string * string) memThread;
  mo_userMem : gmap (string * string) (gmap string UserMemory);
}.
Definition newMemoryOnlyStore : memoryOnlyStore := mkMemoryOnlyStore ∅ ∅.

(** The keys join two names with a NUL; ids and thread keys hold none. *)
Definition memThreadKey (ref : MemoryRef) : string * string := (mr_AgentID ref, mr_ThreadKey ref).
Definition memUserKey (agentID userID : string) : string * string := (agentID, userID).

Definition touched (user : string) (at_ : Z) (m : Thread) : Thread :=
  mkThread (td_AgentID m) (td_ThreadKey m) (if String.eqb (td_UserID m) "" then user else td_UserID m) (td_Title m)
    (td_Version m) (td_TurnCount m) (td_CreatedAt m) at_.
Definition store_thread (ref : MemoryRef) (at_ : Z) (s : memoryOnlyStore) : memThread :=
  let t := default (mkMemThread (mkThread (mr_AgentID ref) (mr_ThreadKey ref) (mr_UserID ref) "" 0 0 at_ zero_time) None [])
             (mo_threads s !! memThreadKey ref) in
  mkMemThread (touched (mr_UserID ref) at_ (mt_meta t)) (mt_working t) (mt_turns t).
Definition put_thread (ref : MemoryRef) (t : memThread) (s : memoryOnlyStore) : memoryOnlyStore :=
  mkMemoryOnlyStore (<[ memThreadKey ref := t ]> (mo_threads s)) (mo_userMem s).
Definition with_turn_counts (version turns : Z) (m : Thread) : Thread :=
  mkThread (td_AgentID m) (td_ThreadKey m) (td_UserID m) (td_Title m) version turns (td_CreatedAt m) (td_LastActivityAt m).

Definition loadWorking (ref : MemoryRef) (s : memoryOnlyStore) : option WorkingMemory :=
  mo_threads s !! memThreadKey ref ≫= mt_working.

Definition working_version (wm : option WorkingMemory) : Z := match wm with Some wm => wm_Version wm | None => 0 end.
Definition saveWorking (ref : MemoryRef) (wm : WorkingMemory) (now : Z) (s : memoryOnlyStore) : memoryOnlyStore * res Z :=
  let t := store_thread ref now s in
  let current := working_version (mt_working t) in
  if negb (wm_Version wm =? current) then (put_thread ref t s, Err ErrVersionConflict)
  else
    let wm := mkWorkingMemory (current + 1) (wm_Iteration wm) (wm_Tokens wm) (wm_Payload wm) now in
    (put_thread ref (mkMemThread (with_turn_counts (td_Version (mt_meta t) + 1) (td_TurnCount (mt_meta t)) (mt_meta t)) (Some wm)
       (mt_turns t)) s, Ok (wm_Version wm)).

Fixpoint number_turns (seq now : Z) (turns : list Turn) : list Turn :=
  match turns with
  | [] => []
  | t :: turns => mkTurn seq (tn_Role t) (tn_Text t) (tn_Tokens t) (tn_Attrs t) now :: number_turns (seq + 1) now turns
  end.
Definition appendTurns (ref : MemoryRef) (turns : list Turn) (now : Z) (s : memoryOnlyStore) : memoryOnlyStore * res Z :=
  let t := store_thread ref now s in
  let all := (mt_turns t ++ number_turns (Z.of_nat (List.length (mt_turns t)) + 1) now turns)%list in
  let version := td_Version (mt_meta t) + 1 in
  (put_thread ref (mkMemThread (with_turn_counts version (Z.of_nat (List.length all)) (mt_meta t)) (mt_working t) all) s, Ok version).

Definition allThreads (agentID userID : string) (s : memoryOnlyStore) : list Thread :=
  sortThreads (List.filter (fun m => String.eqb (td_AgentID m) agentID && (String.eqb userID "" || String.eqb (td_UserID m) userID))
    (map (fun kv => mt_meta kv.2) (map_to_list (mo_threads s)))).
Definition listThreads (agentID userID : string) (page : Page) (s : memoryOnlyStore) : res (list Thread * string) :=
  pageThreads (allThreads agentID userID s) page.
Definition readThread (ref : MemoryRef) (page : Page) (s : memoryOnlyStore) : option Thread * list Turn * string :=
  match mo_threads s !! memThreadKey ref with
  | None => (None, [], "")
  | Some t => let '(turns, next) := pageTurns (mt_turns t) page in (Some (mt_meta t), turns, next)
  end.
Definition deleteThread (ref : MemoryRef) (s : memoryOnlyStore) : memoryOnlyStore :=
  mkMemoryOnlyStore (delete (memThreadKey ref) (mo_threads s)) (mo_userMem s).
Definition setTitle (ref : MemoryRef) (title : string) (now : Z) (s : memoryOnlyStore) : memoryOnlyStore :=
  let t := store_thread ref now s in
  let m := mt_meta t in
  put_thread ref (mkMemThread (mkThread (td_AgentID m) (td_ThreadKey m) (td_UserID m) title (td_Version m) (td_TurnCount m)
    (td_CreatedAt m) (td_LastActivityAt m)) (mt_working t) (mt_turns t)) s.

Definition user_items (agentID userID : string) (s : memoryOnlyStore) : gmap string UserMemory :=
  default ∅ (mo_userMem s !! memUserKey agentID userID).
Definition snapshotMemories (agentID userID : string) (s : memoryOnlyStore) : list UserMemory :=
  sort_by (fun a b => String.ltb (um_Name a) (um_Name b)) (map snd (map_to_list (user_items agentID userID s))).
Definition put_items (agentID userID : string) (items : gmap string UserMemory) (s : memoryOnlyStore) : memoryOnlyStore :=
  mkMemoryOnlyStore (mo_threads s) (<[ memUserKey agentID userID := items ]> (mo_userMem s)).
Definition putMemory (ref : MemoryRef) (name value : string) (expectedVersion now : Z) (s : memoryOnlyStore) : memoryOnlyStore * res Z :=
  let items := user_items (mr_AgentID ref) (mr_UserID ref) s in
  let current := default (mkUserMemory "" "" 0 zero_time zero_time) (items !! name) in
  if negb (um_Version current =? expectedVersion)
  then (put_items (mr_AgentID ref) (mr_UserID ref) items s, Err ErrVersionConflict)
  else
    let created := if IsZero (um_CreatedAt current) then now else um_CreatedAt current in
    let next := mkUserMemory name value (um_Version current + 1) created now in
    (put_items (mr_AgentID ref) (mr_UserID ref) (<[ name := next ]> items) s, Ok (um_Version next)).
Definition deleteMemory (ref : MemoryRef) (name : string) (s : memoryOnlyStore) : memoryOnlyStore :=
  match mo_userMem s !! memUserKey (mr_AgentID ref) (mr_UserID ref) with
  | None => s
  | Some items => put_items (mr_AgentID ref) (mr_UserID ref) (delete name items) s
  end.

Definition matchesScope (t : Thread) (q : MemoryQuery) : bool :=
  String.eqb (td_AgentID t) (mq_AgentID q)
  && (String.eqb (mq_UserID q) "" || String.eqb (td_UserID t) (mq_UserID q))
  && (String.eqb (mq_ThreadKey q) "" || String.eqb (td_ThreadKey t) (mq_ThreadKey q)).
Definition searchMemories (q : MemoryQuery) (words : list string) (s : memoryOnlyStore) : list MemoryHit :=
  if String.eqb (mq_UserID q) "" then []
  else omap (fun m =>
         let score := scoreText (um_Value m ++ " " ++ um_Name m) words in
         if f_lt f_zero score then Some (mkMemoryHit MemoryHitUser "" (um_Name m) (um_Value m) 0 score) else None)
         (snapshotMemories (mq_AgentID q) (mq_UserID q) s).
Definition searchTurns (q : MemoryQuery) (words : list string) (s : memoryOnlyStore) : list MemoryHit :=
  mjoin (map (fun kv =>
    let t := kv.2 in
    if matchesScope (mt_meta t) q
    then omap (fun turn =>
           let score := scoreText (tn_Text turn) words in
           if f_lt f_zero score
           then Some (mkMemoryHit MemoryHitTurn (td_ThreadKey (mt_meta t)) "" (tn_Text turn) (tn_Seq turn) score) else None)
           (mt_turns t)
    else []) (map_to_list (mo_threads s))).
Definition hit_before (a b : MemoryHit) : bool :=
  if negb (f_eq (mh_Score a) (mh_Score b)) then f_lt (mh_Score b) (mh_Score a)
  else String.ltb (mh_Text a) (mh_Text b).
Definition search (q : MemoryQuery) (s : memoryOnlyStore) : list MemoryHit :=
  match queryWords (mq_Text q) with
  | [] => []
  | words =>
      let hits := ((if String.eqb (mq_Scope q) MemoryScopeTurns then [] else searchMemories q words s)
        ++ (if String.eqb (mq_Scope q) MemoryScopeUser then [] else searchTurns q words s))%list in
      let hits := sort_by hit_before hits in
      if (mq_Limit q <=? 0) || (Z.of_nat (List.length hits) <? mq_Limit q) then hits else take (Z.to_nat (mq_Limit q)) hits
  end.

End memory.
Arguments memThread : clear implicits.
Arguments memoryOnlyStore : clear implicits.

(** ** A service state that holds such a store

    [sf_moves] are the writes of other runs of the agent: before each call of
    this one reaches the store, the next of them does. *)
Record shelf (P R : Type) : Type := mkShelf {
  sf_store : memoryOnlyStore P;
  sf_moves : list (memoryOnlyStore P -> memoryOnlyStore P);
  sf_rest : R;
}.
Arguments mkShelf {P R}. Arguments sf_store {P R}. Arguments sf_moves {P R}. Arguments sf_rest {P R}.

Section shelf.
Context {P R : Type}.
Abbreviation memoryOnlyStore := (memoryOnlyStore P).
Definition on_shelf {A} (f : memoryOnlyStore -> memoryOnlyStore * res A) : M (shelf P R) A := fun w =>
  let u := usr w in
  let s := match sf_moves u with [] => sf_store u | move :: _ => move (sf_store u) end in
  let '(s, r) := f s in
  (with_usr (mkShelf s (tail (sf_moves u)) (sf_rest u)) w, r).
Definition on_shelf_at {A} (f : Z -> memoryOnlyStore -> memoryOnlyStore * res A) : M (shelf P R) A :=
  t ← now; on_shelf (f t).

#[global] Instance shelf_AgentMemory : AgentMemory P (shelf P R) := {
  mem_Enabled := true;
  mem_LoadWorking ref := on_shelf (fun s => (s, Ok (loadWorking ref s)));
  mem_SaveWorking ref wm := on_shelf_at (saveWorking ref wm);
  mem_AppendTurns ref turns := on_shelf_at (appendTurns ref turns);
  mem_ListThreads agentID userID page := on_shelf (fun s => (s, listThreads agentID userID page s));
  mem_ReadThread ref page := on_shelf (fun s => (s, Ok (readThread ref page s)));
  mem_DeleteThread ref := on_shelf (fun s => (deleteThread ref s, Ok tt));
  mem_SetTitle ref title := on_shelf_at (fun t s => (setTitle ref title t s, Ok tt));
  mem_Memories ref := on_shelf (fun s => (s, Ok (snapshotMemories (mr_AgentID ref) (mr_UserID ref) s)));
  mem_PutMemory ref name value expected := on_shelf_at (putMemory ref name value expected);
  mem_DeleteMemory ref name := on_shelf (fun s => (deleteMemory ref name s, Ok tt));
  mem_Search q := on_shelf (fun s => (s, Ok (search q s)));
}.
End shelf.

(** * Lemmas *)

(** ** Paging *)
Lemma encode_not_empty e s : s <> "" -> encode_base64 e s <> "".
Proof. intros Hs He. pose proof (decode_encode e s) as H. rewrite He in H. injection H as H. by subst. Qed.

(** A reader that follows the cursors until there is none. *)
Fixpoint follow {A} (listing : Page -> res (list A * string)) (limit : Z) (fuel : nat) (cursor : string) : res (list A) :=
  match fuel with
  | O => Err (ErrMsg "more pages")
  | S fuel =>
      '(rows, next) ← listing (mkPage cursor limit);
      if String.eqb next "" then mret rows
      else rest ← follow listing limit fuel next; mret (rows ++ rest)%list
  end.

Section paging.
Context {A : Type} (key : A -> string).

Lemma after_key_app pre r rest : NoDup (map key (pre ++ r :: rest)) -> after_key key (key r) (pre ++ r :: rest)%list = Some rest.
Proof.
  induction pre as [|x pre IH]; cbn.
  - by rewrite String.eqb_refl.
  - intros [Hx Hn]%NoDup_cons. destruct (String.eqb_spec (key x) (key r)) as [E|]; [|by apply IH].
    exfalso. apply Hx. rewrite E. apply list_elem_of_fmap. exists r. split; [done|]. set_solver.
Qed.

(** A page is what it says, and the cursor names its last row unless nothing
    follows. *)
Lemma page_of_spec limit rows : (0 < limit)%nat -> Forall (fun r => key r <> "") rows ->
  (exists page r rest, rows = (page ++ r :: rest)%list /\ rest <> [] /\
     page_of key limit rows = ((page ++ [r])%list, encode_base64 RawURLEncoding (key r)))
  \/ page_of key limit rows = (rows, "").
Proof.
  intros Hl Hk. unfold page_of. destruct (Nat.ltb_spec limit (List.length rows)) as [Hlt|Hge].
  - left. destruct (rows !! (limit - 1)%nat) as [r|] eqn:Er; [|apply lookup_ge_None in Er; lia].
    exists (take (limit - 1) rows), r, (drop limit rows).
    replace limit with (S (limit - 1)) at 2 4 by lia. rewrite (take_S_r _ _ _ Er). split_and!; [|intros H%(f_equal List.length)|done].
    + by rewrite take_drop_middle.
    + rewrite length_drop in H. cbn in H. lia.
  - right. by rewrite firstn_all2.
Qed.

Context (listing : Page -> res (list A * string)) (rows : list A) (limit : Z).
Hypothesis listing_start : listing (mkPage "" limit) = Ok (page_of key (page_limit (mkPage "" limit)) rows).
Hypothesis listing_next : forall k, k <> "" ->
  listing (mkPage (encode_base64 RawURLEncoding k) limit) =
  Ok match after_key key k rows with Some rest => page_of key (page_limit (mkPage "" limit)) rest | None => ([], "") end.
Hypothesis distinct : NoDup (map key rows).
Hypothesis named : Forall (fun r => key r <> "") rows.

Lemma limit_pos : (0 < page_limit (mkPage "" limit))%nat.
Proof. unfold page_limit, defaultPageLimit. cbn. destruct (Z.leb_spec limit 0); lia. Qed.

Lemma follow_from fuel done_ rest cursor :
  rows = (done_ ++ rest)%list -> (List.length rest < fuel)%nat ->
  listing (mkPage cursor limit) = Ok (page_of key (page_limit (mkPage "" limit)) rest) ->
  follow listing limit fuel cursor = Ok rest.
Proof.
  revert done_ rest cursor. induction fuel as [|fuel IH]; intros done_ rest cursor Hr Hf Hl; [lia|].
  cbn [follow]. rewrite Hl. cbn [mbind res_bind].
  assert (Forall (fun r => key r <> "") rest) as Hk by (rewrite Hr in named; by apply Forall_app in named as [_ ?]).
  destruct (page_of_spec _ rest limit_pos Hk) as [(page & r & more & -> & Hm & ->)| ->]; [|done].
  assert (key r <> "") as Hkr by (rewrite Forall_forall in Hk; apply Hk; set_solver).
  destruct (String.eqb_spec (encode_base64 RawURLEncoding (key r)) "") as [E|_]; [by apply encode_not_empty in E|].
  rewrite (IH (done_ ++ page ++ [r])%list more); [cbn; by rewrite <-app_assoc|..].
  - by rewrite Hr, <-!app_assoc.
  - rewrite length_app in Hf. cbn in Hf. lia.
  - rewrite listing_next by done. rewrite Hr, app_assoc, after_key_app; [done|]. by rewrite <-app_assoc, <-Hr.
Qed.
End paging.

Lemma pretty_N_go_not_empty x s : s <> "" -> pretty_N_go x s <> "".
Proof.
  revert s. induction (N.lt_wf_0 x) as [x _ IH]; intros s Hs. destruct (decide (x = 0)%N) as [->|Hx]; [by rewrite pretty_N_go_0|].
  rewrite pretty_N_go_step by lia. apply IH; [|done]. apply N.div_lt; lia.
Qed.
Lemma pretty_N_not_empty (x : N) : pretty x <> "".
Proof.
  unfold pretty, pretty_N. destruct (decide _); [done|]. rewrite pretty_N_go_step by lia. by apply pretty_N_go_not_empty.
Qed.
Lemma itoa_not_empty z : itoa z <> "".
Proof. unfold itoa, pretty, pretty_Z. destruct z; [done|apply pretty_N_not_empty|done]. Qed.

(** ** What a store of memories always looks like *)
Section invariant.
Context {P : Type}.
Abbreviation store := (memoryOnlyStore P).

Inductive memory_op : Type :=
  | OpSave (ref : MemoryRef) (wm : WorkingMemory P) (now : Z)
  | OpAppend (ref : MemoryRef) (turns : list Turn) (now : Z)
  | OpDelete (ref : MemoryRef)
  | OpTitle (ref : MemoryRef) (title : string) (now : Z)
  | OpPut (ref : MemoryRef) (name value : string) (expected now : Z)
  | OpForget (ref : MemoryRef) (name : string).
Definition memory_do (op : memory_op) (s : store) : store :=
  match op with
  | OpSave ref wm now => (saveWorking ref wm now s).1
  | OpAppend ref turns now => (appendTurns ref turns now s).1
  | OpDelete ref => deleteThread ref s
  | OpTitle ref title now => setTitle ref title now s
  | OpPut ref name value expected now => (putMemory ref name value expected now s).1
  | OpForget ref name => deleteMemory ref name s
  end.
Definition memory_after (ops : list memory_op) : store := foldl (fun s op => memory_do op s) newMemoryOnlyStore ops.

(** A thread is kept under its own names, its turns are numbered from one and
    counted. *)
Definition thread_sound (k : string * string) (t : memThread P) : Prop :=
  (td_AgentID (mt_meta t), td_ThreadKey (mt_meta t)) = k /\
  map tn_Seq (mt_turns t) = seqZ 1 (Z.of_nat (List.length (mt_turns t))) /\
  td_TurnCount (mt_meta t) = Z.of_nat (List.length (mt_turns t)).
Definition shelf_sound (s : store) : Prop := map_Forall thread_sound (mo_threads s).

Lemma store_thread_sound ref now (s : store) : shelf_sound s -> thread_sound (memThreadKey ref) (store_thread ref now s).
Proof.
  intros Hs. unfold store_thread. destruct (mo_threads s !! memThreadKey ref) as [t|] eqn:E; [|done].
  exact (Hs _ _ E).
Qed.

Lemma put_sound ref t (s : store) : shelf_sound s -> thread_sound (memThreadKey ref) t -> shelf_sound (put_thread ref t s).
Proof. intros Hs Ht. by apply map_Forall_insert_2. Qed.

Lemma number_turns_length seq now turns : List.length (number_turns seq now turns) = List.length turns.
Proof. revert seq. induction turns as [|t turns IH]; intros seq; cbn; [done|]. by rewrite IH. Qed.

Lemma number_turns_seq seq now turns : map tn_Seq (number_turns seq now turns) = seqZ seq (Z.of_nat (List.length turns)).
Proof.
  revert seq. induction turns as [|t turns IH]; intros seq; [done|]. cbn [number_turns map List.length]. rewrite IH.
  rewrite (seqZ_cons seq) by lia. cbn. f_equal. f_equal; lia.
Qed.

Lemma memory_do_sound op (s : store) : shelf_sound s -> shelf_sound (memory_do op s).
Proof.
  intros Hs. destruct op as [ref wm now|ref turns now|ref|ref title now|ref name value expected now|ref name]; cbn [memory_do].
  - pose proof (store_thread_sound ref now s Hs) as Ht. unfold saveWorking. destruct (negb _); apply put_sound; done.
  - pose proof (store_thread_sound ref now s Hs) as Ht. unfold appendTurns. revert Ht.
    generalize (store_thread ref now s). intros t (Hk & Hseq & Hc). apply put_sound; [done|].
    split_and!; [done| |done]. cbn [mt_turns]. rewrite map_app, Hseq, number_turns_seq, length_app, number_turns_length, Nat2Z.inj_add.
    rewrite (seqZ_app 1 (Z.of_nat (List.length (mt_turns t)))) by lia. f_equal. f_equal. lia.
  - by apply map_Forall_delete.
  - pose proof (store_thread_sound ref now s Hs) as Ht. by apply put_sound.
  - unfold putMemory. by destruct (negb _).
  - unfold deleteMemory. by destruct (mo_userMem s !! _).
Qed.

Lemma memory_after_sound ops : shelf_sound (memory_after ops).
Proof.
  unfold memory_after. assert (shelf_sound newMemoryOnlyStore) as H by apply map_Forall_empty. revert H.
  generalize (newMemoryOnlyStore (P := P)). induction ops as [|op ops IH]; intros s Hs; cbn; [done|]. apply IH. by apply memory_do_sound.
Qed.

(** *** Its threads and their turns have distinct keys *)
Lemma threads_distinct agentID userID (s : store) : shelf_sound s -> NoDup (map td_ThreadKey (allThreads agentID userID s)).
Proof.
  intros Hs. unfold allThreads, sortThreads. rewrite sort_by_perm.
  assert (NoDup (map fst (map_to_list (mo_threads s)))) as Hn by apply NoDup_fst_map_to_list.
  assert (Forall (fun kv => thread_sound kv.1 kv.2) (map_to_list (mo_threads s))) as Hf.
  { apply Forall_forall. intros [k t] H%elem_of_map_to_list. by apply Hs. }
  induction (map_to_list (mo_threads s)) as [|[k t] l IH]; cbn; [constructor|].
  cbn in Hn. apply NoDup_cons in Hn as [Hk Hn]. apply Forall_cons in Hf as [[Ht _] Hf]. specialize (IH Hn Hf). cbn in Ht.
  destruct (_ && _) eqn:Ea; [|done]. cbn. apply NoDup_cons. split; [|done].
  apply andb_prop in Ea as [Ea%String.eqb_eq _]. intros H. apply list_elem_of_fmap in H as (m & Hm & Hin).
  apply list_elem_of_In, filter_In in Hin as [Hin Hag]. apply andb_prop in Hag as [Hag%String.eqb_eq _].
  apply list_elem_of_In, list_elem_of_fmap in Hin as ([k' t'] & -> & Hin). cbn in *.
  apply Hk. apply list_elem_of_fmap. exists (k', t'). split; [|done]. rewrite Forall_forall in Hf.
  destruct (Hf _ Hin) as [Ht' _]. cbn in *. congruence.
Qed.

Lemma turns_distinct turns n : map tn_Seq turns = seqZ 1 n -> NoDup (map turn_key turns).
Proof.
  intros H. change (map turn_key turns) with (turn_key <$> turns).
  assert (turn_key <$> turns = itoa <$> (tn_Seq <$> turns)) as -> by (by rewrite <-list_fmap_compose).
  apply NoDup_fmap_2; [exact (inj pretty)|]. change (tn_Seq <$> turns) with (map tn_Seq turns). rewrite H. apply NoDup_seqZ.
Qed.
End invariant.

(** C33: a reader who follows the cursors of a listing gets every conversation
    of the agent and user exactly once, in the order of the listing, whatever
    the page size - and every turn of a conversation, numbered from one without
    gaps.  This holds of any store reached by saves, appends, titles, deletions
    and memories; no conversation may have an empty name, whose cursor would
    read as the end. *)
Theorem paging_complete {P} (ops : list (memory_op (P := P))) agentID userID limit ref :
  let s := memory_after ops in
  Forall (fun t => td_ThreadKey t <> "") (allThreads agentID userID s) ->
  follow (fun page => listThreads agentID userID page s) limit (S (List.length (allThreads agentID userID s))) "" =
    Ok (allThreads agentID userID s) /\
  NoDup (map td_ThreadKey (allThreads agentID userID s)) /\
  (forall t, mo_threads s !! memThreadKey ref = Some t ->
     follow (fun page => let '(_, turns, next) := readThread ref page s in Ok (turns, next)) limit (S (List.length (mt_turns t))) "" =
       Ok (mt_turns t) /\
     map tn_Seq (mt_turns t) = seqZ 1 (Z.of_nat (List.length (mt_turns t))) /\
     td_TurnCount (mt_meta t) = Z.of_nat (List.length (mt_turns t))).
Proof.
  intros s Hn. pose proof (memory_after_sound ops) as Hs. fold s in Hs. pose proof (threads_distinct agentID userID s Hs) as Hd.
  split_and!; [|done|].
  - apply (follow_from td_ThreadKey _ (allThreads agentID userID s)) with (done_ := []); try done; [|lia].
    intros k Hk. unfold listThreads, pageThreads. cbn [pg_Cursor].
    destruct (String.eqb_spec (encode_base64 RawURLEncoding k) "") as [E|_]; [by apply encode_not_empty in E|].
    by rewrite decode_encode.
  - intros t Ht. destruct (Hs _ _ Ht) as (_ & Hseq & Hc). split_and!; [|done..].
    assert (forall page, page = mkPage "" limit ->
      (let '(_, turns, next) := readThread ref page s in Ok (turns, next)) = Ok (page_of turn_key (page_limit page) (mt_turns t))) as Hstart by (intros ? ->; unfold readThread; by rewrite Ht).
    apply (follow_from turn_key _ (mt_turns t)) with (done_ := []); try done; [by apply Hstart| | | |lia|by apply Hstart].
    + intros k Hk. unfold readThread, pageTurns. cbn [pg_Cursor]. rewrite Ht.
      destruct (String.eqb_spec (encode_base64 RawURLEncoding k) "") as [E|_]; [by apply encode_not_empty in E|].
      rewrite decode_encode. by destruct (after_key turn_key k (mt_turns t)).
    + by eapply turns_distinct.
    + apply Forall_forall. intros x _ Hx. by apply itoa_not_empty in Hx.
Qed.

Definition three_threads : list (memory_op (P := unit)) :=
  let ref k := mkMemoryRef "agent" k "ann" in
  let said text := mkTurn 0 "user" text 0 None zero_time in
  [OpAppend (ref "t1") [said "one"; said "two"; said "three"] 10; OpAppend (ref "t2") [said "x"] 20;
   OpAppend (mkMemoryRef "other" "t9" "ann") [said "y"] 25; OpTitle (ref "t3") "third" 30; OpAppend (ref "t1") [said "four"] 40].
Lemma paging_complete_witness :
  map td_ThreadKey (allThreads "agent" "ann" (memory_after three_threads)) = ["t1"; "t3"; "t2"] /\
  follow (fun page => listThreads "agent" "ann" page (memory_after three_threads)) 1 4 "" =
    Ok (allThreads "agent" "ann" (memory_after three_threads)).
Proof.
  assert (List.length (allThreads "agent" "ann" (memory_after three_threads)) = 3%nat) as E by (vm_compute; reflexivity).
  split; [vm_compute; reflexivity|]. replace 4%nat with (S (List.length (allThreads "agent" "ann" (memory_after three_threads)))) by (by rewrite E).
  apply (paging_complete three_threads "agent" "ann" 1 (mkMemoryRef "agent" "t1" "ann")).
  apply (bool_decide_unpack _). vm_compute. exact I.
Defined.
