(* ===== verification/AgentMemory.v ===== *)
(** What one agent keeps of a conversation: [blocks/ai/agentmemory.go],
    [agentstore.go], the seam to the model of [aicaller.go] and the observer path
    of [blocks/internal/observe/events.go].

    A session is a value here: what a method writes into it comes back. *)
From S2P Require Import Prelude GoStr F64 GoTime Message Config Store Expr Engine KV Aggregate Cache.
From S2P Require Import Transcript MemoryStore.
From Stdlib Require Import String Ascii.
#[local] Open Scope string_scope.
#[local] Open Scope Z_scope.

(** ** encoding/json on texts: what a document reads as, and how a value is
    written.  The documents a model sends are texts of its own. *)
Class JSON : Type := { json_text : any -> string; json_parse : string -> res any }.

(** ** events.go *)
Record Emitter (U : Type) : Type := mkEmitter { em_flow : processor U; em_kinds : option (gset string) }.
Arguments mkEmitter {U}. Arguments em_flow {U}. Arguments em_kinds {U}.

Section observe.
Context {U : Type}.

Definition Wants (e : option (Emitter U)) (kind : string) : bool :=
  match e with
  | None => false
  | Some e => match em_kinds e with None => true | Some kinds => bool_decide (kind ∈ kinds) end
  end.

(** A message of its own for an event, with the variables of the run. *)
Definition event_message (parent : nat) (kind : string) (fields : gmap string any) : M U nat :=
  p ← load parent;
  id ← draw_id;
  m ← lift (NewMessage (CorrelationID p) id);
  alloc (SetBody (AMap (fields ∪ {[ "type" := AStr kind ]})) (set_vars (fun vs => Vars p ∪ vs) m)).

(** Whether the run should stop. *)
Definition emitter_Send (e : option (Emitter U)) (parent : nat) (kind : string) (fields : gmap string any) : M U bool :=
  match e with
  | None => mret false
  | Some em =>
      if negb (Wants e kind) then mret false
      else
        msg ← attempt (event_message parent kind fields);
        match msg with
        | Err _ => mret false
        | Ok msg =>
            out ← attempt (em_flow em msg);
            match out with
            | Ok (Some out) => m ← load out; mret (StopRequested m)
            | _ => mret false
            end
        end
  end.
End observe.

Definition Kinds (label : string) (known : gset string) (emit : list string) : res (option (gset string)) :=
  match emit with
  | [] => Ok None
  | _ :: _ =>
      match List.filter (fun k => negb (bool_decide (k ∈ known))) emit with
      | k :: _ => Err (ErrMsg (label ++ " emit " ++ quote k ++ " is not an event type (one of: "
                               ++ join ", " (sort_strings (elements known)) ++ ")"))
      | [] => Ok (Some (list_to_set emit))
      end
  end.

(** ** aicaller.go

    Tracing is left out, so a call is the client's.  A streamed turn is a reading
    of the provider's connection: an event, and what reading on gives. *)
Inductive reading (U : Type) : Type :=
  | Finished (r : res LLMResponse)
  | Streamed (ev : LLMStreamEvent) (next : world U -> world U * reading U).
Arguments Finished {U}. Arguments Streamed {U}.

Fixpoint read_on {U} (on : LLMStreamEvent -> M U unit) (r : reading U) : M U LLMResponse :=
  match r with
  | Finished r => lift r
  | Streamed ev next => _ ← on ev; ((fun w => let '(w, r) := next w in read_on on r w) : M U LLMResponse)
  end.

Record llmCaller (U : Type) : Type := mkCaller {
  ca_client : LLMRequest -> M U LLMResponse;
  ca_streamer : option (LLMRequest -> M U (reading U));
  ca_media : list string;
}.
Arguments mkCaller {U}. Arguments ca_client {U}. Arguments ca_streamer {U}. Arguments ca_media {U}.

Definition complete {U} (c : llmCaller U) (req : LLMRequest) : M U LLMResponse := ca_client c req.
(** The builder refuses to stream from a connector that does not. *)
Definition stream {U} (c : llmCaller U) (req : LLMRequest) (on : LLMStreamEvent -> M U unit) : M U LLMResponse :=
  match ca_streamer c with
  | Some s => s req ≫= read_on on
  | None => fail (ErrMsg "nil pointer dereference")
  end.
Definition streams {U} (c : llmCaller U) : bool := match ca_streamer c with Some _ => true | None => false end.
Definition acceptsMedia {U} (c : llmCaller U) : list string := ca_media c.

(** ** Compaction: agentmemory.go *)
Definition memoryCompactPrune : string := "prune".
Definition memoryCompactSummarize : string := "summarize".
Definition defaultContextMaxTokens : Z := 200000.

Section compaction.
Context {U : Type} (caller : llmCaller U).

Definition summary_request (transcript : list LLMMessage) : LLMRequest :=
  mkRequest ("Summarize the following conversation transcript concisely, preserving facts, "
             ++ "decisions, and any context needed to continue. Respond with the summary only.")
    [user_turn (transcript_text transcript)] [] ChoiceAuto 0.
Definition summarizeTurns (transcript : list LLMMessage) : M U string :=
  resp ← complete caller (summary_request transcript);
  mret (TrimSpace (rs_Text resp)).

Definition summarizeMemory (transcript : list LLMMessage) (maxTokens : Z) (meter : contextMeter) : M U (list LLMMessage) :=
  match summary_cut transcript maxTokens meter with
  | O => mret transcript
  | cut =>
      summary ← attempt (summarizeTurns (take cut transcript));
      mret match summary with
           | Err _ => pruneMemory transcript maxTokens meter
           | Ok summary => if String.eqb summary "" then pruneMemory transcript maxTokens meter
                           else summary_turn summary :: drop cut transcript
           end
  end.

Definition compactMemory (transcript : list LLMMessage) (maxTokens : Z) (strategy : string) (meter : contextMeter) : M U (list LLMMessage) :=
  if (maxTokens <=? 0) || fits maxTokens meter transcript then mret transcript
  else if String.eqb strategy memoryCompactSummarize then summarizeMemory transcript maxTokens meter
  else mret (pruneMemory transcript maxTokens meter).
End compaction.

(** ** The stored forms *)
Definition memoryKeyPrefix : string := "agent-memory/".
Definition memoryKey (threadID : string) : string := memoryKeyPrefix ++ threadID.
Definition memoryVersion : Z := 1.
Definition memoryWriteAttempts : nat := 5.

Record memoryEnvelope : Type := mkMemoryEnvelope { me_Version : Z; me_Tokens : Z; me_Messages : list LLMMessage }.
Definition empty_envelope : memoryEnvelope := mkMemoryEnvelope 0 0 [].

(** What is stored of a thread: an envelope, the bare transcript of before there
    were envelopes, or bytes that are neither. *)
Inductive payload : Type :=
  | StoredEnvelope (env : memoryEnvelope)
  | BareTranscript (msgs : list LLMMessage)
  | Undecodable (e : goerr).

Definition decodeMemory (raw : payload) : res memoryEnvelope :=
  match raw with
  | BareTranscript msgs => Ok (mkMemoryEnvelope memoryVersion 0 msgs)
  | StoredEnvelope env => Ok env
  | Undecodable e => Err (ErrWrap "decode memory: " e "")
  end.
Definition encode_memory (env : memoryEnvelope) : payload :=
  StoredEnvelope (mkMemoryEnvelope memoryVersion (me_Tokens env) (me_Messages env)).

Section transcripts.
Context {U : Type} `{!KV payload U}.

Definition loadMemory (namespace threadID : string) : M U memoryEnvelope :=
  entry ← kv_Get namespace (memoryKey threadID);
  match entry with None => mret empty_envelope | Some e => lift (decodeMemory (e_Value e)) end.

Fixpoint saveMemory_loop (fuel : nat) (namespace threadID : string) (encoded : payload) : M U unit :=
  match fuel with
  | O => fail (ErrWrap ("save memory " ++ quote threadID ++ ": ") ErrVersionConflict
                 (" after " ++ itoa (Z.of_nat memoryWriteAttempts) ++ " attempts"))
  | S fuel =>
      entry ← kv_Get namespace (memoryKey threadID);
      written ← attempt (kv_Set namespace (memoryKey threadID) encoded (version_of entry));
      match written with
      | Ok _ => mret tt
      | Err e => if error_is e ErrVersionConflict then saveMemory_loop fuel namespace threadID encoded else fail e
      end
  end.
Definition saveMemory (namespace threadID : string) (env : memoryEnvelope) : M U unit :=
  saveMemory_loop memoryWriteAttempts namespace threadID (encode_memory env).
End transcripts.

(** ** Text cut to a size *)
Definition rune_start (a : ascii) : bool := negb ((128 <=? code a) && (code a <? 192)).
(** The greatest cut at or below [n] that is not inside a rune. *)
Fixpoint rune_cut (n : nat) (s : string) : nat :=
  match n with
  | O => O
  | S n' => match String.get n s with
            | Some a => if rune_start a then n else rune_cut n' s
            | None => n
            end
  end.
Definition ellipsis : string := String (ascii_of_nat 226) (String (ascii_of_nat 128) (String (ascii_of_nat 166) "")).
Definition clipRunes (text : string) (n : Z) : string :=
  if n <=? 0 then ""
  else if bytes text <=? n then text
  else TrimSpace (str_take (rune_cut (Z.to_nat n) text) text) ++ ellipsis.

Definition titleMaxLen : nat := 80.
Definition first_line (s : string) : string :=
  match index_byte s "010"%char with Some i => str_take i s | None => s end.
Definition titleFor (opening : string) : string :=
  let title := first_line (TrimSpace opening) in
  if Nat.ltb titleMaxLen (String.length title) then TrimSpace (str_take (rune_cut titleMaxLen title) title) else title.

Definition nameFromBody (body : any) : string :=
  match body with
  | AStr s => s
  | AMap m => match m !! "title" with
              | Some (AStr s) => s
              | _ => match m !! "name" with Some (AStr s) => s | _ => "" end
              end
  | _ => ""
  end.
