(* ===== verification/AgentSession.v ===== *)
(** One run's view of its agent's memory: [blocks/ai/agentstore.go], with the
    block's own state ([aiAgent] of [agent.go]) and what it reports
    ([agentevents.go]). *)
From S2P Require Import Prelude GoStr F64 GoTime Message Config Store Expr Engine KV Aggregate Cache.
From S2P Require Import Transcript MemoryStore AgentMemory.
From Stdlib Require Import String Ascii.
#[local] Open Scope string_scope.
#[local] Open Scope Z_scope.

(** ** agentevents.go *)
Definition eventTurnStart : string := "turn_start".
Definition eventText : string := "text".
Definition eventThinking : string := "thinking".
Definition eventToolInput : string := "tool_input".
Definition eventCustom : string := "custom".
Definition eventToolCall : string := "tool_call".
Definition eventToolResult : string := "tool_result".
Definition eventToolAuthorization : string := "tool_authorization".
Definition eventTurnEnd : string := "turn_end".
Definition eventSignal : string := "signal".
Definition eventCompactionStart : string := "compaction_start".
Definition eventCompactionEnd : string := "compaction_end".
Definition eventThreadTitle : string := "thread_title".
Definition eventGuardrail : string := "guardrail".
Definition eventDone : string := "done".
Definition eventError : string := "error".
Definition agentEventKinds : gset string :=
  {[ eventTurnStart; eventText; eventThinking; eventToolInput; eventCustom; eventToolCall; eventToolResult;
     eventToolAuthorization; eventTurnEnd; eventCompactionStart; eventCompactionEnd; eventSignal; eventThreadTitle;
     eventGuardrail; eventDone; eventError ]}.
(** The provider's stream vocabulary, spelled the same. *)
Definition deltaKinds (kind : string) : option string :=
  if decide (kind ∈ [eventText; eventThinking; eventToolInput; eventCustom]) then Some kind else None.
Definition errEventStop : goerr := ErrMsg "ai-agent events path requested stop".

Definition fields_of (kvs : list (string * any)) : gmap string any := list_to_map (rev kvs).
Definition omit_empty (key value : string) : list (string * any) := if String.eqb value "" then [] else [(key, AStr value)].

Definition deltaFields (ev : LLMStreamEvent) : gmap string any :=
  fields_of ([("text", AStr (se_Text ev)); ("index", AInt (se_Index ev))]
    ++ omit_empty "name" (se_Name ev) ++ omit_empty "tool" (se_Tool ev) ++ omit_empty "toolCallId" (se_ToolCallID ev))%list.
Definition usageFields (u : LLMUsage) : gmap string any :=
  fields_of ([("inputTokens", AInt (us_InputTokens u)); ("outputTokens", AInt (us_OutputTokens u));
              ("thinkingTokens", AInt (us_ThinkingTokens u)); ("cachedTokens", AInt (us_CachedTokens u));
              ("cacheWriteTokens", AInt (us_CacheWriteTokens u)); ("promptTokens", AInt (us_PromptTokens u))]
    ++ match us_ReportedCostUSD u with Some c => [("reportedCostUSD", AFloat c)] | None => [] end)%list.
Definition contextFields (used budget : Z) : gmap string any :=
  {[ "contextTokens" := AInt used; "contextMaxTokens" := AInt budget ]}.
Definition turnEndFields (resp : LLMResponse) (maxTokens : Z) : gmap string any :=
  let fields : gmap string any := {[ "text" := AStr (rs_Text resp); "stopReason" := AStr (rs_StopReason resp) ]} in
  match rs_Usage resp with
  | None => fields
  | Some u =>
      let fields := <[ "usage" := AMap (usageFields u) ]> fields in
      if 0 <? maxTokens then contextFields (wrap64 (us_PromptTokens u + us_OutputTokens u)) maxTokens ∪ fields else fields
  end.
Definition compactionFields (strategy : string) (before budget : Z) : gmap string any :=
  <[ "strategy" := AStr strategy ]> (<[ "before" := AInt before ]> (contextFields before budget)).

Section fields.
Context `{!JSON}.
Definition decodeJSON (raw : string) : any :=
  if String.eqb raw "" then ANil else match json_parse raw with Ok v => v | Err _ => AStr raw end.
Definition callFields (call : LLMToolCall) : gmap string any :=
  {[ "tool" := AStr (tc_Name call); "toolCallId" := AStr (tc_ID call); "input" := decodeJSON (tc_Input call) ]}.
Definition resultFields (call : LLMToolCall) (r : LLMToolResult) : gmap string any :=
  {[ "tool" := AStr (tc_Name call); "toolCallId" := AStr (tc_ID call); "output" := decodeJSON (tr_Content r);
     "isError" := ABool (tr_IsError r) ]}.
End fields.

Definition errorResult (call : LLMToolCall) (message : string) : LLMToolResult :=
  mkToolResult (tc_ID call) (tc_Name call) message true.
Definition toolResult (call : LLMToolCall) (content : string) : LLMToolResult :=
  mkToolResult (tc_ID call) (tc_Name call) content false.

(** ** The block: [aiAgent]

    The programs are what compiling the block's expressions gave.
    [aa_template] renders the template resource of a skill; [aa_render] is
    [EvalString]'s rendering of a result that is no string; [aa_forward]
    evaluates the forwarded context, which the stores get and nothing else. *)
Record agentSkill : Type := mkAgentSkill { sk_name : string; sk_description : string; sk_resource : string }.
Record aiAgent (U : Type) : Type := mkAgent {
  aa_caller : llmCaller U;
  aa_system : string;
  aa_tools : list LLMTool;
  aa_branches : gmap string (processor U);
  aa_guardrail : option (processor U);
  aa_maxIterations : nat;
  aa_toolWorkers : Z;
  aa_name : string;
  aa_skills : list agentSkill;
  aa_template : string -> res (Message -> res string);
  aa_input : option Program;
  aa_attachments : option Program;
  aa_keepAttachments : bool;
  aa_responseMedia : string;
  aa_memoryThreadID : option Program;
  aa_memoryCompaction : string;
  aa_agentID : string;
  aa_userID : option Program;
  aa_forward : Message -> res unit;
  aa_history : string;
  aa_userMemory : bool;
  aa_memoryNamespace : string;
  aa_runScope : string;
  aa_stopWhen : option Program;
  aa_gates : gmap string (Message -> string -> string -> any -> res any);
  aa_authorizeID : option Program;
  aa_authorizeAllow : option Program;
  aa_authorizeTimeout : Z;
  aa_contextMaxTokens : Z;
  aa_events : option (Emitter U);
  aa_streaming : bool;
  aa_namer : option (processor U);
  aa_render : any -> string;
}.
Arguments mkAgent {U}.
Arguments aa_caller {U}. Arguments aa_system {U}. Arguments aa_tools {U}. Arguments aa_branches {U}.
Arguments aa_guardrail {U}. Arguments aa_maxIterations {U}. Arguments aa_toolWorkers {U}. Arguments aa_name {U}.
Arguments aa_skills {U}. Arguments aa_template {U}. Arguments aa_input {U}. Arguments aa_attachments {U}.
Arguments aa_keepAttachments {U}. Arguments aa_responseMedia {U}. Arguments aa_memoryThreadID {U}.
Arguments aa_memoryCompaction {U}. Arguments aa_agentID {U}. Arguments aa_userID {U}. Arguments aa_forward {U}.
Arguments aa_history {U}. Arguments aa_userMemory {U}. Arguments aa_memoryNamespace {U}. Arguments aa_runScope {U}.
Arguments aa_stopWhen {U}. Arguments aa_gates {U}. Arguments aa_authorizeID {U}. Arguments aa_authorizeAllow {U}.
Arguments aa_authorizeTimeout {U}. Arguments aa_contextMaxTokens {U}. Arguments aa_events {U}. Arguments aa_streaming {U}.
Arguments aa_namer {U}. Arguments aa_render {U}.

(** ** The session *)
Definition historyRecord : string := "record".
Definition historyOff : string := "off".
Definition checkpointInterval : Z := 2 * Second.
Definition checkpointBytes : Z := 65536.
Definition preambleMaxMemories : nat := 50.
Definition preambleMaxChars : Z := 8192.

(** [ms_store] says whether the run uses the first-class store. *)
Record memorySession : Type := mkSession {
  ms_thread : string;
  ms_ref : MemoryRef;
  ms_store : bool;
  ms_version : Z;
  ms_legacy : bool;
  ms_opening : string;
  ms_recorded : bool;
  ms_fresh : bool;
  ms_blind : bool;
  ms_lastAt : Z;
  ms_lastSize : Z;
  ms_iteration : Z;
}.
Definition active (s : memorySession) : bool := ms_store s.
Definition with_version (v : Z) (s : memorySession) : memorySession :=
  mkSession (ms_thread s) (ms_ref s) (ms_store s) v (ms_legacy s) (ms_opening s) (ms_recorded s) (ms_fresh s) (ms_blind s)
    (ms_lastAt s) (ms_lastSize s) (ms_iteration s).
Definition with_found (version : Z) (legacy fresh blind : bool) (s : memorySession) : memorySession :=
  mkSession (ms_thread s) (ms_ref s) (ms_store s) version legacy (ms_opening s) (ms_recorded s) fresh blind
    (ms_lastAt s) (ms_lastSize s) (ms_iteration s).
Definition with_recorded (recorded fresh : bool) (iteration : Z) (s : memorySession) : memorySession :=
  mkSession (ms_thread s) (ms_ref s) (ms_store s) (ms_version s) (ms_legacy s) (ms_opening s) recorded fresh (ms_blind s)
    (ms_lastAt s) (ms_lastSize s) iteration.
Definition with_checkpoint (at_ size iteration : Z) (s : memorySession) : memorySession :=
  mkSession (ms_thread s) (ms_ref s) (ms_store s) (ms_version s) (ms_legacy s) (ms_opening s) (ms_recorded s) (ms_fresh s)
    (ms_blind s) at_ size iteration.
Definition noteOpening (text : string) (s : memorySession) : memorySession :=
  mkSession (ms_thread s) (ms_ref s) (ms_store s) (ms_version s) (ms_legacy s) text (ms_recorded s) (ms_fresh s)
    (ms_blind s) (ms_lastAt s) (ms_lastSize s) (ms_iteration s).
Definition no_ref : MemoryRef := mkMemoryRef "" "" "".
Definition bare_session (thread : string) : memorySession :=
  mkSession thread no_ref false 0 false "" false false false zero_time 0 0.

Section session.
Context {U : Type} `{!KV payload U} `{!AgentMemory payload U} `{!JSON}.
Implicit Types a : aiAgent U.
Implicit Types s : memorySession.

(** [a.report]: stamped with the iteration; whether to stop. *)
Definition agent_report a (msg : nat) (iter : Z) (kind : string) (fields : gmap string any) : M U bool :=
  if negb (Wants (aa_events a) kind) then mret false
  else emitter_Send (aa_events a) msg kind (<[ "iteration" := AInt (iter + 1) ]> fields).

Definition resolveUser a (m : Message) : string :=
  match aa_userID a with
  | None => ""
  | Some p => match EvalString (aa_render a) p m with Ok u => u | Err _ => "" end
  end.

Definition newMemorySession a (msg : nat) (thread : string) : M U memorySession :=
  let sess := bare_session thread in
  if String.eqb (aa_agentID a) "" || String.eqb thread "" then mret sess
  else if negb mem_Enabled then mret sess
  else
    m ← load msg;
    lift (wrap_err "ai-agent forwardContext: " (aa_forward a m)) ≫= fun _ =>
    mret (mkSession thread (mkMemoryRef (aa_agentID a) thread (resolveUser a m)) true 0 false "" false false false zero_time 0 0).

Definition recording a s : bool := active s && String.eqb (aa_history a) historyRecord.

Definition loadHistory a (threadID : string) : M U memoryEnvelope :=
  if String.eqb threadID "" then mret empty_envelope
  else wrapping "ai-agent load memory: " (loadMemory (aa_memoryNamespace a) threadID).

Definition loadWorkingMemory a s : M U (memorySession * memoryEnvelope) :=
  if negb (active s) then env ← loadHistory a (ms_thread s); mret (s, env)
  else
    found ← attempt (mem_LoadWorking (ms_ref s));
    match found with
    | Err _ => mret (with_found (ms_version s) (ms_legacy s) (ms_fresh s) true s, empty_envelope)
    | Ok (Some wm) =>
        let s := with_found (wm_Version wm) (ms_legacy s) false (ms_blind s) s in
        mret (s, match decodeMemory (wm_Payload wm) with Ok env => env | Err _ => empty_envelope end)
    | Ok None =>
        env ← loadHistory a (ms_thread s);
        let legacy := match me_Messages env with [] => false | _ :: _ => true end in
        mret (with_found (ms_version s) legacy (negb legacy) (ms_blind s) s, env)
    end.

Definition dropLegacy a s : M U memorySession :=
  if negb (ms_legacy s) then mret s
  else
    attempt (kv_Delete (aa_memoryNamespace a) (memoryKey (ms_thread s)) 0) ≫= fun _ =>
    mret (with_found (ms_version s) false (ms_fresh s) (ms_blind s) s).

(** The version to write over after a conflict. *)
Definition saveOver s (wm : WorkingMemory payload) : M U Z :=
  r ← attempt (mem_SaveWorking (ms_ref s) wm);
  match r with
  | Ok next => mret next
  | Err e =>
      if error_is e ErrVersionConflict then
        current ← mem_LoadWorking (ms_ref s);
        mem_SaveWorking (ms_ref s)
          (mkWorkingMemory (working_version current) (wm_Iteration wm) (wm_Tokens wm) (wm_Payload wm) (wm_UpdatedAt wm))
      else fail e
  end.

Definition writeWorking a s (env : memoryEnvelope) (iter : Z) : M U memorySession :=
  if ms_blind s then mret s
  else
    next ← saveOver s (mkWorkingMemory (ms_version s) iter (me_Tokens env) (encode_memory env) zero_time);
    dropLegacy a (with_version next s).

Definition offerCheckpoint a s (transcript : list LLMMessage) (meter : contextMeter) (iter : Z) : M U memorySession :=
  if negb (active s) then mret s
  else
    let size := estimateTokens transcript in
    t ← now;
    if negb ((checkpointInterval <=? Sub t (ms_lastAt s)) || (checkpointBytes <=? (size - ms_lastSize s) * charsPerToken))
    then mret s
    else
      t ← now;
      let s := with_checkpoint t size iter s in
      written ← attempt (writeWorking a s (mkMemoryEnvelope 0 (sizeOfMessages transcript meter) transcript) iter);
      mret match written with Ok s => s | Err _ => s end.

(** ** History *)
Definition turnAttrs (iterations : Z) (unanswered : bool) (stopReason : string) : any :=
  AMap (fields_of ((if iterations =? 0 then [] else [("iterations", AInt iterations)])
    ++ (if unanswered then [("unanswered", ABool true)] else []) ++ omit_empty "stopReason" stopReason)%list).

Definition askForName s (namer : processor U) (msg : nat) (answered : string) : M U string :=
  m ← load msg;
  id ← draw_id;
  named ← lift (NewMessage (CorrelationID m) id);
  l ← alloc (SetBody (AMap {[ "threadKey" := AStr (ms_thread s); "agentId" := AStr (mr_AgentID (ms_ref s));
                              "userId" := AStr (mr_UserID (ms_ref s)); "question" := AStr (ms_opening s);
                              "answer" := AStr answered ]})
               (set_vars (fun vs => Vars m ∪ vs) named));
  out ← namer l;
  match out with
  | None => mret ""
  | Some out => m ← load out; mret (clipRunes (TrimSpace (nameFromBody (Body m))) (Z.of_nat titleMaxLen))
  end.

Definition nameThread a s (msg : nat) (answered : string) (iterations : Z) : M U unit :=
  title ← match aa_namer a with
          | None => mret (titleFor (ms_opening s))
          | Some namer =>
              named ← attempt (askForName s namer msg answered);
              mret match named with Ok t => t | Err _ => titleFor (ms_opening s) end
          end;
  if String.eqb title "" then mret tt
  else
    written ← attempt (mem_SetTitle (ms_ref s) title);
    match written with
    | Err _ => mret tt
    | Ok _ => agent_report a msg (iterations - 1) eventThreadTitle {[ "title" := AStr title; "thread" := AStr (ms_thread s) ]}
              ≫= fun _ => mret tt
    end.

Definition recordTurn a s (msg : nat) (answered : string) (iterations : Z) (stopReason : string) : M U memorySession :=
  if negb (recording a s) || ms_recorded s then mret s
  else
    let s := with_recorded true (ms_fresh s) iterations s in
    let attrs := turnAttrs iterations (String.eqb answered "") stopReason in
    let turns := ((if String.eqb (ms_opening s) "" then [] else [mkTurn 0 LLMRoleUser (ms_opening s) 0 (Some attrs) zero_time])
      ++ (if String.eqb answered "" then [] else [mkTurn 0 LLMRoleAssistant answered 0 (Some attrs) zero_time]))%list in
    match turns with
    | [] => mret s
    | _ :: _ =>
        (if ms_fresh s then nameThread a s msg answered iterations else mret tt) ≫= fun _ =>
        attempt (mem_AppendTurns (ms_ref s) turns) ≫= fun _ =>
        mret (with_recorded true false iterations s)
    end.

(** ** User memory *)
Definition rememberToolName : string := "remember".
Definition forgetToolName : string := "forget".
Definition searchMemoryToolName : string := "search_memory".
Definition memoryToolNames : list string := [rememberToolName; forgetToolName; searchMemoryToolName].
Definition searchMemoryLimit : Z := 10.

(** The memories that fit, after what is written already. *)
Fixpoint preamble_lines (shown : nat) (written : string) (memories : list UserMemory) : nat * string :=
  match memories with
  | [] => (shown, written)
  | m :: memories =>
      if Nat.leb preambleMaxMemories shown || (preambleMaxChars <=? bytes written) then (shown, written)
      else
        let head := written ++ "- " ++ um_Name m ++ ": " in
        preamble_lines (S shown) (head ++ clipRunes (um_Value m) (preambleMaxChars - bytes head) ++ nl) memories
  end.
Definition preamble_text (memories : list UserMemory) : string :=
  let '(shown, text) := preamble_lines 0 ("What you have previously chosen to remember about this person:" ++ nl) memories in
  text
  ++ (if Nat.ltb shown (List.length memories)
      then nl ++ "(" ++ itoa (Z.of_nat (List.length memories - shown)) ++ " more are stored; use " ++ searchMemoryToolName
           ++ " to look them up.)" ++ nl
      else "")
  ++ nl ++ "Use it when it is relevant. Do not repeat it back unprompted.".

Definition memoryPreamble a s : M U (list LLMMessage) :=
  if negb (active s) || negb (aa_userMemory a) || String.eqb (mr_UserID (ms_ref s)) "" then mret []
  else
    memories ← attempt (mem_Memories (ms_ref s));
    mret match memories with
         | Err _ | Ok [] => []
         | Ok (_ :: _ as memories) => [user_turn (preamble_text memories)]
         end.
Definition withPreamble (preamble messages : list LLMMessage) : list LLMMessage := (preamble ++ messages)%list.

Definition findMemory s (name : string) : M U Z :=
  memories ← attempt (mem_Memories (ms_ref s));
  match memories with
  | Err _ => fail (ErrMsg "could not read existing memories")
  | Ok memories => mret match find (fun m => String.eqb (um_Name m) name) memories with Some m => um_Version m | None => 0 end
  end.

Definition remember s (call : LLMToolCall) (name value : string) : M U LLMToolResult :=
  let name := TrimSpace name in
  let value := TrimSpace value in
  if String.eqb name "" || String.eqb value "" then mret (errorResult call "name and value are both required")
  else if String.eqb (mr_UserID (ms_ref s)) ""
  then mret (errorResult call "there is no identified person to remember this about")
  else
    put ← attempt (mem_PutMemory (ms_ref s) name value 0);
    match put with
    | Ok _ => mret (toolResult call ("Remembered " ++ name ++ "."))
    | Err e =>
        if error_is e ErrVersionConflict then
          existing ← attempt (findMemory s name);
          match existing with
          | Err e => mret (errorResult call (error_text e))
          | Ok existing =>
              put ← attempt (mem_PutMemory (ms_ref s) name value existing);
              mret match put with
                   | Ok _ => toolResult call ("Remembered " ++ name ++ ".")
                   | Err _ => errorResult call "could not store that memory"
                   end
          end
        else mret (errorResult call "could not store that memory")
    end.

Definition forget_memory s (call : LLMToolCall) (name : string) : M U LLMToolResult :=
  let name := TrimSpace name in
  if String.eqb name "" then mret (errorResult call "name is required")
  else
    r ← attempt (mem_DeleteMemory (ms_ref s) name);
    mret match r with Ok _ => toolResult call ("Forgot " ++ name ++ ".") | Err _ => errorResult call "could not forget that memory" end.

Definition hit_line (h : MemoryHit) : string :=
  (if String.eqb (mh_Kind h) MemoryHitUser then "remembered " ++ mh_Name h ++ ": " else "from an earlier conversation: ")
  ++ mh_Text h ++ nl.
Definition searchMemory s (call : LLMToolCall) (query : string) : M U LLMToolResult :=
  let query := TrimSpace query in
  if String.eqb query "" then mret (errorResult call "query is required")
  else
    hits ← attempt (mem_Search (mkMemoryQuery (mr_AgentID (ms_ref s)) (mr_UserID (ms_ref s)) "" query MemoryScopeAll searchMemoryLimit));
    mret match hits with
         | Err _ => errorResult call "could not search memory"
         | Ok [] => toolResult call "Nothing stored matches that."
         | Ok hits => toolResult call (String.concat "" (map hit_line hits))
         end.

Definition decode_args (input : string) : res (string * string * string) :=
  doc ← json_parse input;
  match doc with
  | AMap m => n ← json_string (m !! "name"); v ← json_string (m !! "value"); q ← json_string (m !! "query"); mret (n, v, q)
  | ANil => mret ("", "", "")
  | v => json_mismatch v "struct"
  end.

(** The result, or [None] for a call that is not one of the memory tools'. *)
Definition runMemoryTool a (call : LLMToolCall) s : M U (option LLMToolResult) :=
  if negb (aa_userMemory a) || bool_decide (tc_Name call ∉ memoryToolNames) then mret None
  else if negb (active s) then mret (Some (errorResult call "memory is not available to this agent"))
  else
    match decode_args (tc_Input call) with
    | Err _ => mret (Some (errorResult call "invalid arguments"))
    | Ok (name, value, query) =>
        r ← (if String.eqb (tc_Name call) rememberToolName then remember s call name value
             else if String.eqb (tc_Name call) forgetToolName then forget_memory s call name
             else searchMemory s call query);
        mret (Some r)
    end.
End session.
