(* ===== verification/Attachments.v ===== *)
(** The files an AI block sends and writes: [blocks/ai/attachments.go]. *)
From S2P Require Import Prelude GoStr F64 Message Expr Transcript Base64.
From Stdlib Require Import String Ascii.
#[local] Open Scope string_scope.
#[local] Open Scope Z_scope.

Definition attachmentMimeType : string := "mimeType".
Definition attachmentData : string := "data".
Definition attachmentName : string := "name".
Definition attachmentSize : string := "size".

Definition mediaFields (file : LLMAttachment) : any :=
  AMap {[ attachmentName := AStr (at_Name file); attachmentMimeType := AStr (at_MimeType file);
          attachmentSize := AInt (bytes (at_Data file)); attachmentData := AStr (encode_base64 StdEncoding (at_Data file)) ]}.

(** The payload and the type a data URL states. *)
Definition splitDataURL (raw : string) : string * string :=
  if has_prefix raw "data:" then
    match cut raw ";base64," with
    | Some (before, after) => (after, str_drop 5 before)
    | None => (raw, "")
    end
  else (raw, "").

Definition string_of_any (v : option any) : string := match v with Some (AStr s) => s | _ => "" end.
Definition attachment_error {A} (i : Z) (text : string) : res A := Err (ErrMsg ("attachment " ++ itoa i ++ text)).

Definition decodeAttachment (entry : any) (i : Z) : res LLMAttachment :=
  match entry with
  | AMap fields =>
      match fields !! attachmentData with
      | Some (AStr raw) =>
          let '(payload, urlMime) := splitDataURL raw in
          let mimeType := string_of_any (fields !! attachmentMimeType) in
          let mimeType := if String.eqb mimeType "" then urlMime else mimeType in
          if String.eqb mimeType ""
          then attachment_error i (": " ++ attachmentMimeType ++ " is required, and the data is not a data: URL that states one")
          else
            data ← wrap_err ("attachment " ++ itoa i ++ ": decoding " ++ attachmentData ++ ": ") (decode_base64 StdEncoding payload);
            mret (mkAttachment mimeType data (string_of_any (fields !! attachmentName)))
      | _ => attachment_error i (": " ++ attachmentData ++ " must be a base64 string")
      end
  | v => attachment_error i (" is " ++ go_type v ++ ", want a map")
  end.

Fixpoint decode_entries (i : Z) (entries : list any) : res (list LLMAttachment) :=
  match entries with
  | [] => Ok []
  | e :: entries => a ← decodeAttachment e i; rest ← decode_entries (i + 1) entries; mret (a :: rest)
  end.

Definition evalAttachments (program : option Program) (m : Message) : res (list LLMAttachment) :=
  match program with
  | None => Ok []
  | Some p =>
      value ← p m;
      match value with
      | ANil => Ok []
      | AArr entries => decode_entries 0 entries
      | v => Err (ErrMsg ("expression produced " ++ go_type v ++ ", want a list of attachments"))
      end
  end.

(** * Lemmas *)
Lemma sextet_no_colon e z : 0 <= z < 64 -> Ascii.eqb (sextet_char e z) ":" = false.
Proof. revert z. apply sextet_range. apply (bool_decide_unpack _). destruct e as [[] p]; vm_compute; exact I. Qed.

Lemma encoded_no_colon e s : contains_byte (encode_base64 e s) ":" = false.
Proof.
  assert (forall n, contains_byte (padding e n) ":" = false) as Hpad.
  { intros n. unfold padding. destruct (b64_padded e); [|done]. induction n as [|n IHn]; cbn; [done|]. exact IHn. }
  assert (forall n s, (String.length s <= n)%nat -> contains_byte (encode_base64 e s) ":" = false) as H; [|by eapply H].
  clear s. intros n. induction n as [|n IH]; intros s Hn; [by destruct s; [|cbn in Hn; lia]|].
  destruct s as [|a [|b [|c r]]]; [done|..]; cbn [encode_base64 contains_byte];
    pose proof (code_range a); try pose proof (code_range b); try pose proof (code_range c);
    rewrite !sextet_no_colon by (Z.to_euclidean_division_equations; lia); cbn; rewrite ?Hpad; [done..|].
  apply IH. cbn in Hn. lia.
Qed.

Lemma no_colon_no_url s : contains_byte s ":" = false -> has_prefix s "data:" = false.
Proof.
  intros H. destruct (has_prefix s "data:") eqn:E; [|done].
  apply has_prefix_app in E as [r ->]. discriminate H.
Qed.

(** What the runtime writes reads back as the file it was written from. *)
Lemma media_reads_back file i :
  at_MimeType file <> "" -> decodeAttachment (mediaFields file) i = Ok file.
Proof.
  intros Hm. unfold decodeAttachment, mediaFields.
  set (fields := <[ attachmentName := _ ]> _).
  assert (fields !! attachmentData = Some (AStr (encode_base64 StdEncoding (at_Data file)))) as -> by done.
  assert (fields !! attachmentMimeType = Some (AStr (at_MimeType file))) as -> by done.
  assert (fields !! attachmentName = Some (AStr (at_Name file))) as -> by done.
  unfold splitDataURL. rewrite no_colon_no_url by apply encoded_no_colon. cbn [string_of_any].
  apply String.eqb_neq in Hm. rewrite !Hm, decode_encode. by destruct file.
Qed.
