(* ===== verification/AgentTurn.v ===== *)
(** One turn of an agent: the model call, the tools it asks for and the people
    who are asked first. [blocks/ai/agent.go], [agentauthorize.go],
    [agentcontext.go], [agentsignals.go].

    Blocks, providers and stores act on the application's state [V]; the run
    itself is held by its [host].  What the run does without its lock is lifted
    by [up]. *)
From S2P Require Import Prelude GoStr F64 GoTime Message Config Store Expr Engine Builder KV Aggregate Sha256.
From S2P Require Import Transcript AgentRun MemoryStore AgentMemory AgentSession Attachments.
From Stdlib Require Import String Ascii.
#[local] Open Scope string_scope.
#[local] Open Scope Z_scope.

Definition on_app {V} (w : world (host V)) : world V :=
  mkWorld (heap w) (next w) (ids w) (idn w) (times w) (clk w) (h_app (usr w)) (obs w).
Definition with_app {V} (v : V) (h : host V) : host V := mkHost (h_run h) (h_beats h) (h_replies h) v.
Definition hosted {V} (h : host V) (w : world V) : world (host V) :=
  mkWorld (heap w) (next w) (ids w) (idn w) (times w) (clk w) (with_app (usr w) h) (obs w).
Definition up {V A} (m : M V A) : M (host V) A := fun w =>
  let '(w', r) := m (on_app w) in (hosted (usr w) w', r).
Definition the_answers {V} : M (host V) (gmap string bool) := fun w => (w, Ok (ar_answers (h_run (usr w)))).

(** ** encoding/json on bodies *)
Section bodies.
Context `{!JSON}.
Definition body_json (m : Message) : res string :=
  if encodable (Body m) then Ok (json_text (Body m)) else Err (ErrWrap "encode body: " (ErrMsg "json: unsupported value") "").
Definition set_body_json (raw : string) (m : Message) : res Message :=
  decoded ← wrap_err "decode body: " (json_parse raw); mret (SetBody decoded m).

(** [stripJSONFence], [foldResult] *)
Definition code_fence : string := "```".
Definition trim_prefix (s p : string) : string := if has_prefix s p then str_drop (String.length p) s else s.
Fixpoint LastIndex (s sep : string) : option nat :=
  match s with
  | EmptyString => if String.eqb sep "" then Some 0%nat else None
  | String _ r => match LastIndex r sep with
                  | Some i => Some (S i)
                  | None => if has_prefix s sep then Some 0%nat else None
                  end
  end.
Definition stripJSONFence (s : string) : string :=
  let s := TrimSpace s in
  if negb (has_prefix s code_fence) then s
  else
    let s := trim_prefix (trim_prefix (trim_prefix s code_fence) "json") "JSON" in
    TrimSpace match LastIndex s code_fence with Some i => str_take i s | None => s end.
Definition foldResult (text : string) (m : Message) : Message :=
  let trimmed := stripJSONFence text in
  if String.eqb trimmed "" then m
  else match json_parse trimmed with Ok decoded => SetBody decoded m | Err _ => SetBody (AStr text) m end.
End bodies.

Definition varToolScope : string := "toolScope".
Definition varToolName : string := "toolName".
Definition varToolCallID : string := "toolCallId".
Definition skillLoadToolName : string := "load_skill".
Definition branchScopeBlockLen : nat := 16.
Definition loc_tool : string := "tool".

Section turn.
Context {V : Type} `{!KV payload V} `{!AgentMemory payload V} `{!JSON}.
Implicit Types a : aiAgent V.
Implicit Types sess : memorySession.

Definition host_report a (msg : nat) (iter : Z) (kind : string) (fields : gmap string any) : M (host V) bool :=
  up (agent_report a msg iter kind fields).

(** ** The conversation's opening *)
Definition openingTurn a (m : Message) : res string :=
  match aa_input a with
  | None =>
      body ← wrap_err "ai-agent: encode input body: " (body_json m);
      mret ("Accomplish the task for this input message body:" ++ nl ++ body)
  | Some input => wrap_err "ai-agent input: " (EvalString (aa_render a) input m)
  end.
Definition openingAttachments a (m : Message) : res (list LLMAttachment) :=
  wrap_err "ai-agent attachments: " (evalAttachments (aa_attachments a) m).

Definition initConversation a (msg : nat) (threadID : string) : M V (memorySession * list LLMMessage * contextMeter) :=
  sess ← newMemorySession a msg threadID;
  m ← load msg;
  opening ← lift (openingTurn a m);
  let sess := noteOpening opening sess in
  files ← lift (openingAttachments a m);
  '(sess, stored) ← loadWorkingMemory a sess;
  mret (sess, (me_Messages stored ++ [mkLLMMessage LLMRoleUser opening files [] [] []])%list,
        meter_seed (estimateTokens (me_Messages stored)) (me_Tokens stored) newContextMeter).

(** ** What was handed to the run *)
Fixpoint inject a (msg : nat) (messages : list LLMMessage) (iter : Z) (texts : list string) : M (host V) (list LLMMessage) :=
  match texts with
  | [] => mret messages
  | text :: texts =>
      host_report a msg iter eventSignal {[ fieldSignal := AStr signalContext; fieldText := AStr text ]} ≫= fun _ =>
      inject a msg (messages ++ [user_turn text])%list iter texts
  end.
Definition injectPending a (msg : nat) (messages : list LLMMessage) (iter : Z) : M (host V) (list LLMMessage) :=
  texts ← locked run_take; inject a msg messages iter texts.

Fixpoint report_texts a (msg : nat) (iter : Z) (texts : list string) : M (host V) unit :=
  match texts with
  | [] => mret tt
  | text :: texts =>
      host_report a msg iter eventSignal {[ fieldSignal := AStr signalUnanswered; fieldText := AStr text ]} ≫= fun _ =>
      report_texts a msg iter texts
  end.
Definition reportUnanswered a (msg : nat) (iter : Z) : M (host V) unit :=
  locked run_close ≫= fun _ => texts ← locked run_take; report_texts a msg iter texts.

(** ** Fitting the context *)
Definition endCompaction a (msg : nat) (iter before after dropped : Z) : M (host V) unit :=
  host_report a msg iter eventCompactionEnd
    (<[ "after" := AInt after ]> (<[ "dropped" := AInt dropped ]> (compactionFields (aa_memoryCompaction a) before (aa_contextMaxTokens a))))
  ≫= fun _ => mret tt.

(** The turns before the run's protected end, without the opening turn. *)
Definition opening_length (messages : list LLMMessage) : nat := if opens_on_user messages then 1%nat else 0%nat.

Definition fitContext a (msg : nat) (messages : list LLMMessage) (iter : Z) (meter : contextMeter) (reserved : Z)
    : M (host V) (list LLMMessage) :=
  if (meter_measured meter =? 0) || (aa_contextMaxTokens a <=? 0) then mret messages
  else
    let budget := if aa_contextMaxTokens a - reserved <=? 0 then 1 else aa_contextMaxTokens a - reserved in
    let before := meter_predict (estimateTokens messages) meter in
    if before <=? budget then mret messages
    else
      host_report a msg iter eventCompactionStart (compactionFields (aa_memoryCompaction a) before budget) ≫= fun _ =>
      let keep := protectedSuffix messages in
      let opening := opening_length messages in
      let head := drop opening (take keep messages) in
      match head with
      | [] => endCompaction a msg iter before before 0 ≫= fun _ => mret messages
      | _ :: _ =>
          let fixed := wrap64 (sizeOf (estimateTokens (take opening messages)) meter + sizeOf (estimateTokens (drop keep messages)) meter) in
          let headBudget := wrap64 (budget - fixed) in
          if headBudget <=? 0 then endCompaction a msg iter before before 0 ≫= fun _ => mret messages
          else
            compacted ← up (compactMemory (aa_caller a) head headBudget (aa_memoryCompaction a) meter);
            let out := (take opening messages ++ compacted ++ drop keep messages)%list in
            endCompaction a msg iter before (meter_predict (estimateTokens out) meter)
              (Z.of_nat (List.length messages) - Z.of_nat (List.length out)) ≫= fun _ =>
            mret out
      end.

(** ** The model call *)
Definition completeTurn a (req : LLMRequest) (current : nat) (iter : Z) : M V LLMResponse :=
  if negb (aa_streaming a) then complete (aa_caller a) req
  else
    stream (aa_caller a) req (fun ev =>
      match deltaKinds (se_Kind ev) with
      | None => mret tt
      | Some kind =>
          if negb (Wants (aa_events a) kind) then mret tt
          else stop ← agent_report a current iter kind (deltaFields ev); if (stop : bool) then fail errEventStop else mret tt
      end).

(** The response, when the turn was finished, and the error. *)
Definition callModel a (iter : Z) (current : nat) (messages preamble : list LLMMessage) : M V (option LLMResponse * option goerr) :=
  let req := mkRequest (aa_system a) (withPreamble preamble messages) (aa_tools a) ChoiceAuto 0 in
  stop ← agent_report a current iter eventTurnStart ∅;
  if (stop : bool) then mret (None, Some errEventStop)
  else
    r ← attempt (completeTurn a req current iter);
    match r with
    | Err e =>
        (if error_is e errEventStop then mret tt
         else agent_report a current iter eventError {[ "error" := AStr (error_text e) ]} ≫= fun _ => mret tt) ≫= fun _ =>
        mret (None, Some e)
    | Ok resp =>
        stop ← agent_report a current iter eventTurnEnd (turnEndFields resp (aa_contextMaxTokens a));
        mret (Some resp, if (stop : bool) then Some errEventStop else None)
    end.

Definition stoppedTranscript (messages : list LLMMessage) (resp : option LLMResponse) : list LLMMessage :=
  match resp with
  | None => messages
  | Some resp => match rs_ToolCalls resp with [] => (messages ++ [rs_Raw resp])%list | _ :: _ => messages end
  end.

Definition shed (m : LLMMessage) : LLMMessage :=
  mkLLMMessage (lm_Role m) (lm_Text m) [] (lm_Thinking m) (lm_ToolCalls m) (lm_ToolResults m).
Definition shedAttachments a (messages : list LLMMessage) (iter : Z) : list LLMMessage :=
  if negb (iter =? 0) || aa_keepAttachments a then messages else map shed messages.

Definition collectMedia a (msg : nat) (resp : LLMResponse) : M V unit :=
  if String.eqb (aa_responseMedia a) "" || bool_decide (rs_Media resp = []) then mret tt
  else
    update msg (fun m =>
      let existing := match Vars m !! aa_responseMedia a with Some (AArr l) => l | _ => [] end in
      set_var (aa_responseMedia a) (AArr (existing ++ map mediaFields (rs_Media resp))%list) m).

Definition absorbResponse a (msg : nat) (messages : list LLMMessage) (meter : contextMeter) (sent : Z) (resp : LLMResponse)
    : M V (list LLMMessage * contextMeter) :=
  collectMedia a msg resp ≫= fun _ =>
  mret ((messages ++ [rs_Raw resp])%list, observeResponse sent resp meter).

(** ** The tools *)
Definition branchScopeBase (threadID runScope : string) : M V string :=
  if String.eqb threadID "" then
    id ← draw_id;
    mret match id with Some id => "run-" ++ id | None => "" end
  else mret (threadID ++ "/" ++ str_take branchScopeBlockLen (hashedKey runScope)).

Definition findSkill a (name : string) : option agentSkill := find (fun s => String.eqb (sk_name s) name) (aa_skills a).
Definition skill_name (input : string) : res string :=
  doc ← json_parse input;
  match doc with AMap m => json_string (m !! "name") | ANil => mret "" | v => json_mismatch v "struct" end.

Definition loadSkill a (call : LLMToolCall) (m : Message) : LLMToolResult :=
  match skill_name (tc_Input call) with
  | Err _ | Ok "" => errorResult call "invalid arguments: name is required"
  | Ok name =>
      match findSkill a name with
      | None => errorResult call ("unknown skill " ++ quote name)
      | Some skill =>
          match aa_template a (sk_resource skill) with
          | Err e => errorResult call ("load skill " ++ quote (sk_name skill) ++ ": " ++ error_text e)
          | Ok render =>
              match render m with
              | Err e => errorResult call ("render skill " ++ quote (sk_name skill) ++ ": " ++ error_text e)
              | Ok rendered => toolResult call rendered
              end
          end
      end
  end.

(** The content, the message after the branch and what to tell of a failure. *)
Definition dispatchToolBranch (flow : processor V) (args : string) (current : nat) : M V (string * nat * string) :=
  let args := if String.eqb args "" then "{}" else args in
  m ← load current;
  match set_body_json args m with
  | Err e => mret ("", current, "invalid arguments: " ++ error_text e)
  | Ok m =>
      update current (fun _ => m) ≫= fun _ =>
      r ← attempt (flow current);
      match r with
      | Err e => mret ("", current, error_text e)
      | Ok None => mret ("", current, "tool produced no result")
      | Ok (Some out) =>
          m ← load out;
          mret match body_json m with
               | Err e => ("", out, "encode result: " ++ error_text e)
               | Ok encoded => (encoded, out, "")
               end
      end
  end.

Definition dispatchTool a (call : LLMToolCall) (current : nat) (branchBase : string) sess : M V (LLMToolResult * nat) :=
  if String.eqb (tc_Name call) skillLoadToolName then m ← load current; mret (loadSkill a call m, current)
  else
    handled ← runMemoryTool a call sess;
    match handled with
    | Some res => mret (res, current)
    | None =>
        match aa_branches a !! tc_Name call with
        | None => mret (errorResult call ("unknown tool " ++ quote (tc_Name call)), current)
        | Some flow =>
            (if String.eqb branchBase "" then mret tt
             else update current (set_var varToolScope (AStr (branchBase ++ "/" ++ tc_Name call)))) ≫= fun _ =>
            update current (set_var varToolName (AStr (tc_Name call))) ≫= fun _ =>
            update current (set_var varToolCallID (AStr (tc_ID call))) ≫= fun _ =>
            '(content, out, errMsg) ← dispatchToolBranch flow (tc_Input call) current;
            mret (if String.eqb errMsg "" then toolResult call content else errorResult call errMsg, out)
        end
    end.

(** ** The gate: agentauthorize.go *)
Definition denialResult (call : LLMToolCall) (reason : string) : LLMToolResult :=
  mkToolResult (tc_ID call) (tc_Name call)
    (json_text (AMap {[ "authorized" := ABool false; "reason" := AStr reason ]})) true.

Definition gateApplies (program : Message -> string -> string -> any -> res any) (call : LLMToolCall) (m : Message) : res bool :=
  value ← program m (tc_Name call) (tc_ID call) (decodeJSON (tc_Input call));
  match value with
  | ABool needed => Ok needed
  | v => Err (ErrMsg ("authorize must evaluate to a bool, got " ++ go_type v))
  end.

Definition mintAuthorizationID : M V string :=
  id ← draw_id; mret match id with Some id => "auth_" ++ id | None => "" end.

(** [int(d.Seconds())] *)
Definition whole_seconds (d : Z) : Z :=
  f_to_int (f_add (f_of_Z (Z.quot d Second)) (f_div (f_of_Z (Z.rem d Second)) (f_of_Z Second))).
Definition authorizationFields (id : string) (call : LLMToolCall) (timeout : Z) : gmap string any :=
  {[ loc_tool := AStr (tc_Name call); "toolCallId" := AStr (tc_ID call); fieldAuthorizationID := AStr id;
     "input" := decodeJSON (tc_Input call); "expiresInSeconds" := AInt (whole_seconds timeout) ]}.

(** Allowed, or the reason it is not. *)
Inductive decision : Type := Allowed | Denied (reason : string).

(** Whatever the wait wakes up to; an answer that is not there is the clock's. *)
Definition await_answer a (current : nat) (iter : Z) (id : string) : M (host V) decision :=
  wake ← next_beat;
  answers ← the_answers;
  match wake, answers !! id with
  | WakeAnswer, Some allowed =>
      host_report a current iter eventSignal
        {[ fieldSignal := AStr signalAuthorize; fieldAuthorizationID := AStr id; fieldAllowed := ABool allowed ]} ≫= fun _ =>
      mret (if (allowed : bool) then Allowed else Denied "a person denied this call")
  | WakeDone, _ => mret (Denied "the run ended before this call was authorized")
  | _, _ => mret (Denied ("nobody authorized this call within " ++ Duration_String (aa_authorizeTimeout a)))
  end.

Definition askAuthorization a (iter : Z) (id : string) (call : LLMToolCall) (current : nat) : M (host V) (decision * bool) :=
  locked (fun r => (openGate id r, tt)) ≫= fun _ =>
  stop ← host_report a current iter eventToolAuthorization (authorizationFields id call (aa_authorizeTimeout a));
  answer ← (if (stop : bool) then mret (Denied "the connection that would have asked for authorization is closed")
            else await_answer a current iter id);
  locked (fun r => (closeGate id r, tt)) ≫= fun _ =>
  mret (answer, stop).

(** The denial, for a call that may not run, and whether to stop. *)
Definition agent_gate a (iter : Z) (call : LLMToolCall) (current : nat) : M (host V) (option LLMToolResult * bool) :=
  match aa_gates a !! tc_Name call with
  | None => mret (None, false)
  | Some program =>
      m ← up (load current);
      match gateApplies program call m with
      | Err e => mret (Some (denialResult call ("the authorization condition for this tool could not be evaluated: " ++ error_text e)), false)
      | Ok false => mret (None, false)
      | Ok true =>
          id ← up mintAuthorizationID;
          '(answer, stopped) ← askAuthorization a iter id call current;
          mret (match answer with Allowed => None | Denied reason => Some (denialResult call reason) end, stopped)
      end
  end.

(** ** One turn's calls, one after another *)
Fixpoint runTools_from a (iter : Z) (calls : list LLMToolCall) (current : nat) (branchBase : string) sess
    (results : list LLMToolResult) (stopped : bool) : M (host V) (list LLMToolResult * bool * nat) :=
  match calls with
  | [] => mret (results, stopped, current)
  | call :: calls =>
      s1 ← host_report a current iter eventToolCall (callFields call);
      '(denied, halted) ← agent_gate a iter call current;
      '(res, current) ← match denied with
                        | Some res => mret (res, current)
                        | None => up (dispatchTool a call current branchBase sess)
                        end;
      s2 ← host_report a current iter eventToolResult (resultFields call res);
      runTools_from a iter calls current branchBase sess (results ++ [res])%list (s2 || (stopped || s1 || halted))
  end.

(** ** The same calls, drained from a queue *)
Definition no_result : LLMToolResult := mkToolResult "" "" "" false.

Fixpoint queueTools a (iter : Z) (i : nat) (calls : list LLMToolCall) (current : nat) (results : list LLMToolResult)
    (queue : list nat) (stopped : bool) : M (host V) (list LLMToolResult * list nat * bool) :=
  match calls with
  | [] => mret (results, queue, stopped)
  | call :: calls =>
      s1 ← host_report a current iter eventToolCall (callFields call);
      '(denied, halted) ← agent_gate a iter call current;
      let stopped := stopped || s1 || halted in
      match denied with
      | Some res =>
          s2 ← host_report a current iter eventToolResult (resultFields call res);
          queueTools a iter (S i) calls current (<[ i := res ]> results) queue (s2 || stopped)
      | None => queueTools a iter (S i) calls current results (queue ++ [i])%list stopped
      end
  end.

(** One consumer's handling of one call, on a copy. *)
Definition consume a (call : LLMToolCall) (current : nat) (branchBase : string) sess : M V (LLMToolResult * bool) :=
  branchMsg ← clone_msg current;
  '(res, out) ← dispatchTool a call branchMsg branchBase sess;
  m ← load branchMsg;
  o ← load out;
  mret (res, StopRequested m || StopRequested o).

(** The queued calls, in the order in which they finish; each runs as one step. *)
Fixpoint drain a (iter : Z) (calls : list LLMToolCall) (current : nat) (branchBase : string) sess
    (order : list nat) (results : list LLMToolResult) (stopped : bool) : M (host V) (list LLMToolResult * bool) :=
  match order with
  | [] => mret (results, stopped)
  | i :: order =>
      match calls !! i with
      | None => drain a iter calls current branchBase sess order results stopped
      | Some call =>
          '(res, stop) ← up (consume a call current branchBase sess);
          s ← host_report a current iter eventToolResult (resultFields call res);
          drain a iter calls current branchBase sess order (<[ i := res ]> results) (s || (stopped || stop))
      end
  end.

Definition runToolsParallel (sched : Scheduler) a (iter : Z) (calls : list LLMToolCall) (current : nat) (branchBase : string) sess
    : M (host V) (list LLMToolResult * bool * nat) :=
  '(results, queue, stopped) ← queueTools a iter 0 calls current (replicate (List.length calls) no_result) [] false;
  '(results, stopped) ← drain a iter calls current branchBase sess (omap (fun k => queue !! k) (sched (List.length queue))) results stopped;
  mret (results, stopped, current).

Definition runTools (sched : Scheduler) a (iter : Z) (calls : list LLMToolCall) (current : nat) (branchBase : string) sess
    : M (host V) (list LLMToolResult * bool * nat) :=
  if (1 <? aa_toolWorkers a) && Nat.ltb 1 (List.length calls)
  then runToolsParallel sched a iter calls current branchBase sess
  else runTools_from a iter calls current branchBase sess [] false.
End turn.
