(* ===== verification/Agent.v ===== *)
(** The ai-agent block: the loop of [blocks/ai/agent.go], and how an invocation
    joins or claims a conversation ([agentsignals.go], [agentclaim.go]). *)
From S2P Require Import Prelude GoStr F64 GoTime Message Config Store Expr Engine Builder KV Aggregate Sha256.
From S2P Require Import Transcript AgentRun MemoryStore AgentMemory AgentSession Attachments AgentTurn.
From Stdlib Require Import String Ascii.
#[local] Open Scope string_scope.
#[local] Open Scope Z_scope.

(** ** The loop *)
Record runState : Type := mkRunState {
  st_current : nat;
  st_messages : list LLMMessage;
  st_meter : contextMeter;
  st_session : memorySession;
}.

(** An iteration ends the run or hands on to the next. *)
Inductive turnEnd : Type := Ended (out : option nat) | Going (s : runState).

Section agent.
Context {V : Type} `{!KV payload V} `{!AgentMemory payload V} `{!JSON} (sched : Scheduler).
Implicit Types a : aiAgent V.
Implicit Types sess : memorySession.

Definition resolveThread a (m : Message) : res string :=
  match aa_memoryThreadID a with
  | None => Ok ""
  | Some p => wrap_err "ai-agent memory threadId: " (EvalString (aa_render a) p m)
  end.

Definition persistMemory a sess (transcript : list LLMMessage) (meter : contextMeter) (strategy : string) : M V unit :=
  match aa_memoryThreadID a with
  | None => mret tt
  | Some _ =>
      compacted ← compactMemory (aa_caller a) transcript (aa_contextMaxTokens a) strategy meter;
      let env := mkMemoryEnvelope 0 (sizeOfMessages compacted meter) compacted in
      if active sess then attempt (writeWorking a sess env (ms_iteration sess)) ≫= fun _ => mret tt
      else attempt (saveMemory (aa_memoryNamespace a) (ms_thread sess) env) ≫= fun _ => mret tt
  end.

Definition halt a sess (messages : list LLMMessage) (current : nat) (iter : Z) (reason : string) (meter : contextMeter)
    : M V (option nat) :=
  update current RequestStop ≫= fun _ =>
  sess ← recordTurn a sess current "" (iter + 1) reason;
  persistMemory a sess messages meter memoryCompactPrune ≫= fun _ =>
  mret (Some current).

Definition haltOnSignal a sess (messages : list LLMMessage) (current : nat) (iter : Z) (meter : contextMeter) : M V (option nat) :=
  agent_report a current iter eventSignal {[ fieldSignal := AStr signalStop ]} ≫= fun _ =>
  halt a sess messages current iter "a stop signal ended the run" meter.

Definition callFailed a sess (messages : list LLMMessage) (current : nat) (iter : Z) (meter : contextMeter) (callErr : goerr)
    : M (host V) (option nat) :=
  stopped ← locked stopRequested;
  if (stopped : bool) then up (haltOnSignal a sess messages current iter meter)
  else if error_is callErr errEventStop then up (halt a sess messages current iter "the events path stopped the run" meter)
  else fail (ErrWrap "ai-agent: " callErr "").

Definition fallback a (msg : nat) (iter : Z) (reason : string) : M V (option nat) :=
  agent_report a msg iter eventGuardrail {[ "reason" := AStr reason ]} ≫= fun _ =>
  match aa_guardrail a with
  | Some guardrail => guardrail msg
  | None => fail (ErrMsg ("ai-agent: " ++ reason ++ " and no guardrail configured"))
  end.

(** [None] says the run may not end yet. *)
Definition tryFinish a sess (current : nat) (messages : list LLMMessage) (meter : contextMeter) (resp : LLMResponse) (iter : Z)
    : M (host V) (option nat) :=
  may ← locked run_finish;
  if negb may then mret None
  else
    up (update current (foldResult (rs_Text resp)) ≫= fun _ =>
        agent_report a current iter eventDone {[ fieldText := AStr (rs_Text resp) ]} ≫= fun _ =>
        sess ← recordTurn a sess current (rs_Text resp) (iter + 1) "";
        persistMemory a sess messages meter (aa_memoryCompaction a) ≫= fun _ =>
        mret (Some current)).

Definition takeToolTurn a (resp : LLMResponse) (branchBase : string) (iter : Z) (s : runState) : M (host V) turnEnd :=
  '(results, stopped, current) ← runTools sched a iter (rs_ToolCalls resp) (st_current s) branchBase (st_session s);
  let messages := (st_messages s ++ [tool_turn results])%list in
  sess ← up (offerCheckpoint a (st_session s) messages (st_meter s) iter);
  asked ← locked stopRequested;
  if (asked : bool) then out ← up (haltOnSignal a sess messages current iter (st_meter s)); mret (Ended out)
  else
    m ← up (load current);
    if stopped || StopRequested m
    then out ← up (halt a sess messages current iter "a tool branch stopped the run" (st_meter s)); mret (Ended out)
    else mret (Going (mkRunState current messages (st_meter s) sess)).

Definition refused_turn a (msg : nat) (iter : Z) (s : runState) : M V (option nat) :=
  sess ← recordTurn a (st_session s) msg "" (iter + 1) "refused";
  persistMemory a sess (st_messages s) (st_meter s) (aa_memoryCompaction a) ≫= fun _ =>
  fallback a (st_current s) iter "model refused".

Definition iteration a (msg : nat) (preamble : list LLMMessage) (branchBase : string) (iter : Z) (s : runState)
    : M (host V) turnEnd :=
  let current := st_current s in
  messages ← injectPending a current (st_messages s) iter;
  messages ← fitContext a current messages iter (st_meter s) (estimateTokens preamble);
  let sent := estimateTokens messages in
  '(resp, callErr) ← up (callModel a iter current messages preamble);
  let messages := shedAttachments a messages iter in
  match callErr, resp with
  | Some e, _ =>
      out ← callFailed a (st_session s) (stoppedTranscript messages resp) current iter (st_meter s) e; mret (Ended out)
  | None, None => mret (Ended None)
  | None, Some resp =>
      '(messages, meter) ← up (absorbResponse a current messages (st_meter s) sent resp);
      let s := mkRunState current messages meter (st_session s) in
      if String.eqb (rs_StopReason resp) LLMStopRefusal
      then out ← up (refused_turn a msg iter s); mret (Ended out)
      else
        match rs_ToolCalls resp with
        | [] =>
            out ← tryFinish a (st_session s) current messages meter resp iter;
            mret match out with None => Going s | Some _ => Ended out end
        | _ :: _ => takeToolTurn a resp branchBase iter s
        end
  end.

Definition outOfTurns a (s : runState) : M (host V) (option nat) :=
  let last := Z.of_nat (aa_maxIterations a) - 1 in
  reportUnanswered a (st_current s) last ≫= fun _ =>
  up (sess ← recordTurn a (st_session s) (st_current s) "" (Z.of_nat (aa_maxIterations a)) "max iterations";
      persistMemory a sess (st_messages s) (st_meter s) (aa_memoryCompaction a) ≫= fun _ =>
      fallback a (st_current s) last "exceeded max iterations").

(** [left] iterations are left of [aa_maxIterations]. *)
Fixpoint iterations a (msg : nat) (preamble : list LLMMessage) (branchBase : string) (left : nat) (s : runState)
    : M (host V) (option nat) :=
  match left with
  | O => outOfTurns a s
  | S left' =>
      e ← iteration a msg preamble branchBase (Z.of_nat (aa_maxIterations a) - Z.of_nat left) s;
      match e with
      | Ended out => mret out
      | Going s => iterations a msg preamble branchBase left' s
      end
  end.

(** The run, from its claim to its close. *)
Definition claimedRun a (msg : nat) (threadID : string) : M (host V) (option nat) :=
  branchBase ← up (branchScopeBase threadID (aa_runScope a));
  '(sess, messages, meter) ← up (initConversation a msg threadID);
  preamble ← up (memoryPreamble a sess);
  iterations a msg preamble branchBase (aa_maxIterations a) (mkRunState msg messages meter sess).

Definition run_to_close a (msg : nat) (threadID : string) : M (host V) (option nat) :=
  r ← attempt (claimedRun a msg threadID); locked run_close ≫= fun _ => lift r.
End agent.

(** ** Reaching a run, or becoming it: agentclaim.go

    What the process and the cluster say of a conversation.  [cv_offer],
    [cv_stop] and [cv_answer] hand a delivery to a run of this process,
    [cv_take] and [cv_release] are the registry's; the lease and the queue are
    the services'. *)
Class Conversations (V : Type) : Type := {
  cv_offer : string -> string -> M V bool;
  cv_stop : string -> M V bool;
  cv_answer : string -> string -> bool -> M V bool;
  cv_take : string -> M V unit;
  cv_release : string -> M V unit;
  cv_Acquire : string -> M V bool;
  cv_Close : string -> M V unit;
  cv_Subscribe : string -> M V unit;
  cv_Unsubscribe : string -> M V unit;
  cv_Request : string -> any -> M V any;
}.

Definition claimSubjectPrefix : string := "agent-run-".
Definition subjectHashLen : nat := 32.
Definition claimSubject (key : string) : string := claimSubjectPrefix ++ str_take subjectHashLen (hashedKey key).
Definition claimAttempts : nat := 3.
Definition errNobodyHome : goerr := ErrMsg "the conversation's claim holder did not answer".
Definition stillClaimed : goerr :=
  ErrMsg "the conversation is claimed by a run that has stopped accepting and has not released it".
Definition stoppedBody : string := "{}".

Section claims.
Context {V : Type} `{!Conversations V}.

Definition deliver_to (key : string) (d : delivery) : M V bool :=
  let subject := claimSubject key in
  id ← draw_id;
  envelope ← lift (wrap_err ("build a delivery for " ++ quote subject ++ ": ") (NewMessage "" id));
  reply ← attempt (cv_Request subject (Body (SetBody (delivery_body d) envelope)));
  match reply with Err _ => fail errNobodyHome | Ok body => mret (acceptedBy body) end.

(** Whether the conversation was claimed. *)
Definition claimAcross (key : string) : M V bool :=
  ok ← wrapping "claim the conversation: " (cv_Acquire key);
  if negb ok then mret false
  else
    let subject := claimSubject key in
    sub ← attempt (cv_Subscribe subject);
    match sub with
    | Err e => attempt (cv_Close key) ≫= fun _ => fail (ErrWrap ("subscribe for the conversation on " ++ quote subject ++ ": ") e "")
    | Ok _ => mret true
    end.

(** Claimed, or handed off to whoever has it; the pause between attempts may
    end with the caller's context: [patience] says whether it did. *)
Inductive claim_result : Type := Claimed | HandedOff.
Fixpoint claim_loop (patience : nat -> option goerr) (attempts : nat) (key text : string) : M V claim_result :=
  match attempts with
  | O => fail stillClaimed
  | S more =>
      ok ← claimAcross key;
      if (ok : bool) then cv_take key ≫= fun _ => mret Claimed
      else
        accepted ← attempt (deliver_to key (mkDelivery signalContext text "" false));
        match accepted with
        | Ok true => mret HandedOff
        | Err e =>
            if error_is e errNobodyHome then
              match (if Nat.eqb more 0 then None else patience more) with
              | Some e => fail (ErrWrap "waiting for the conversation's claim: " e "")
              | None => claim_loop patience more key text
              end
            else fail e
        | Ok false =>
            match (if Nat.eqb more 0 then None else patience more) with
            | Some e => fail (ErrWrap "waiting for the conversation's claim: " e "")
            | None => claim_loop patience more key text
            end
        end
  end.
Definition offerOrClaim (patience : nat -> option goerr) (key text : string) : M V claim_result :=
  taken ← cv_offer key text;
  if (taken : bool) then mret HandedOff else claim_loop patience claimAttempts key text.

Definition runs_stop (key : string) : M V bool :=
  here ← cv_stop key;
  if (here : bool) then mret true
  else r ← attempt (deliver_to key (mkDelivery signalStop "" "" false));
       mret match r with Ok accepted => accepted | Err _ => false end.

Definition runs_answer (key id : string) (allowed : bool) : M V bool :=
  here ← cv_answer key id allowed;
  if (here : bool) then mret true
  else r ← attempt (deliver_to key (mkDelivery signalAuthorize "" id allowed));
       mret match r with Ok accepted => accepted | Err _ => false end.

Definition close_claim (key : string) : M V unit :=
  attempt (cv_Unsubscribe (claimSubject key)) ≫= fun _ => attempt (cv_Close key) ≫= fun _ => mret tt.

Context `{!KV payload V} `{!AgentMemory payload V} `{!JSON}.
Implicit Types a : aiAgent V.

Definition answerAuthorization a (m : Message) (key : string) : M V (option bool) :=
  match aa_authorizeID a with
  | None => mret None
  | Some program =>
      id ← lift (wrap_err "ai-agent authorizeId: " (EvalString (aa_render a) program m));
      if String.eqb (TrimSpace id) "" then mret None
      else
        let allowed := match aa_authorizeAllow a with
                       | Some p => match EvalCondition p m with Ok allowed => allowed | Err _ => false end
                       | None => false
                       end in
        answered ← runs_answer key id allowed; mret (Some answered)
  end.

Definition stop_flow (m : Message) : Message :=
  RequestStop match set_body_json stoppedBody m with Ok m => m | Err _ => m end.
Definition stopFlow (msg : nat) : M V nat := update msg stop_flow ≫= fun _ => mret msg.

(** What an invocation turned out to be: a message for the flow to end on, or a
    run of its own on a conversation. *)
Inductive invocation : Type := Reached (out : nat) | Run (threadID : string).

Definition claim_key a (threadID : string) : string := aa_runScope a ++ String (ascii_of_nat 0) threadID.

Definition joinOrClaim (patience : nat -> option goerr) a (msg : nat) : M V invocation :=
  m ← load msg;
  threadID ← lift (resolveThread a m);
  if String.eqb threadID "" then mret (Run "")
  else
    let key := claim_key a threadID in
    stop ← lift match aa_stopWhen a with
                | None => Ok false
                | Some p => wrap_err "ai-agent stopWhen: " (EvalCondition p m)
                end;
    if (stop : bool) then runs_stop key ≫= fun _ => out ← stopFlow msg; mret (Reached out)
    else
      answered ← answerAuthorization a m key;
      match answered with
      | Some _ => out ← stopFlow msg; mret (Reached out)
      | None =>
          text ← lift (openingTurn a m);
          how ← offerOrClaim patience key text;
          match how with
          | HandedOff => out ← stopFlow msg; mret (Reached out)
          | Claimed => mret (Run threadID)
          end
      end.

(** A run nobody can name is reached by nobody. *)
Definition unreachable (b : beat) : beat := mkBeat [] (bt_wake b).

(** [Process], with what reaches the run from elsewhere while it is going. *)
Definition agent_Process (sched : Scheduler) (patience : nat -> option goerr) (beats : list beat) a (msg : nat)
    : M V (option nat) :=
  how ← joinOrClaim patience a msg;
  match how with
  | Reached out => mret (Some out)
  | Run threadID =>
      r ← attempt ((fun w =>
            let beats := if String.eqb threadID "" then map unreachable beats else beats in
            let h := mkHost new_run beats [] (usr w) in
            let '(w', r) := run_to_close sched a msg threadID (hosted h w) in
            (on_app w', r)) : M V (option nat));
      (if String.eqb threadID "" then mret tt
       else close_claim (claim_key a threadID) ≫= fun _ => cv_release (claim_key a threadID)) ≫= fun _ =>
      lift r
  end.
End claims.
