(* ===== verification/AgentBuild.v ===== *)
(** Building an ai-agent: the settings of [blocks/ai/settings.go] and the factory
    and validation of [agent.go], [agentstore.go], [agentsignals.go] and
    [agentauthorize.go]; [clear-agent-memory] of [agentmemory.go]. *)
From S2P Require Import Prelude GoStr F64 GoTime Message Config Store BlockPath Expr Engine Builder Composites KV Aggregate Cache BoundFlow.
From S2P Require Import Transcript AgentRun MemoryStore AgentMemory AgentSession Attachments AgentTurn Agent.
From Stdlib Require Import String Ascii.
#[local] Open Scope string_scope.
#[local] Open Scope Z_scope.

Definition BranchEvents : string := "events".
Definition BranchNameThread : string := "nameThread".
Definition blockKindAIAgent : string := "ai-agent".
Definition answerJSON : string := "json".
Definition answerText : string := "text".
Definition defaultAgentIterations : Z := 8.
Definition defaultToolWorkers : Z := 10.
Definition defaultAuthorizeTimeout : Z := 5 * Minute.
Definition orDefault (value fallback : Z) : Z := if value =? 0 then fallback else value.

(** ** settings.go *)
Record skillSettings : Type := mkSkillSettings { ss_Name : string; ss_Description : string; ss_Resource : string }.
Record agentToolSettings : Type := mkAgentToolSettings {
  ats_Name : string;
  ats_Description : string;
  ats_InputSchema : string;
  ats_Process : list BlockConfig;
  ats_Authorize : string;
  ats_Title : string;
  ats_Annotations : option unit;
  ats_OutputSchema : string;
}.
Record toolSpec : Type := mkToolSpec { sp_name : string; sp_description : string; sp_inputSchema : string; sp_process : list BlockConfig }.
Record agentSettings : Type := mkAgentSettings {
  as_Connector : string;
  as_Prompt : string;
  as_Guardrail : string;
  as_Input : string;
  as_Attachments : string;
  as_KeepAttachments : bool;
  as_ResponseMedia : string;
  as_Answer : string;
  as_MaxIterations : Z;
  as_MaxParallelTools : Z;
  as_MemoryThreadID : string;
  as_AgentID : string;
  as_UserID : string;
  as_History : string;
  as_ForwardContext : string;
  as_UserMemory : bool;
  as_StopWhen : string;
  as_AuthorizeTimeout : string;
  as_AuthorizeID : string;
  as_AuthorizeAllow : string;
  as_ContextMaxTokens : Z;
  as_MemoryMaxTokens : Z;
  as_MemoryCompaction : string;
  as_MemoryVolatile : bool;
  as_Stream : bool;
  as_Emit : list string;
  as_Events : option FlowConfig;
  as_NameThread : option FlowConfig;
  as_Tools : list agentToolSettings;
  as_Skills : list skillSettings;
  as_Default : option FlowConfig;
}.

Definition decode_annotations (v : any) : res unit :=
  json_struct "ai.mcpToolAnnotations" ["readOnlyHint"; "destructiveHint"; "idempotentHint"; "openWorldHint"] (fun m =>
    let hint k := json_bool (m !! k) ≫= fun _ => mret tt in
    _ ← hint "readOnlyHint"; _ ← hint "destructiveHint"; _ ← hint "idempotentHint"; hint "openWorldHint") v.
Definition decode_agent_tool (v : any) : res agentToolSettings :=
  json_struct "ai.agentToolSettings"
    ["name"; "description"; "inputSchema"; "process"; "authorize"; "title"; "annotations"; "outputSchema"] (fun m =>
    name ← json_string (m !! "name");
    description ← json_string (m !! "description");
    schema ← json_string (m !! "inputSchema");
    process ← decode_chain (default ANil (m !! "process"));
    authorize ← json_string (m !! "authorize");
    title ← json_string (m !! "title");
    annotations ← json_ptr decode_annotations (m !! "annotations");
    output ← json_string (m !! "outputSchema");
    mret (mkAgentToolSettings name description schema process authorize title annotations output)) v.
Definition decode_skill (v : any) : res skillSettings :=
  json_struct "ai.skillSettings" ["name"; "description"; "resource"] (fun m =>
    name ← json_string (m !! "name");
    description ← json_string (m !! "description");
    resource ← json_string (m !! "resource");
    mret (mkSkillSettings name description resource)) v.

Definition agent_fields : list string :=
  ["connector"; "prompt"; "guardrail"; "input"; "attachments"; "keepAttachments"; "responseMedia"; "answer"; "maxIterations";
   "maxParallelTools"; "memoryThreadId"; "agentId"; "userId"; "history"; "forwardContext"; "userMemory"; "stopWhen";
   "authorizeTimeout"; "authorizeId"; "authorizeAllow"; "contextMaxTokens"; "memoryMaxTokens"; "memoryCompaction";
   "memoryVolatile"; "stream"; "emit"; "events"; "nameThread"; "tools"; "skills"; "default"].
Definition decode_agent (raw : Settings) : res agentSettings :=
  DecodeStrict agent_fields (fun m =>
    let str k := json_string (m !! k) in
    connector ← str "connector"; prompt ← str "prompt"; guardrail ← str "guardrail"; input ← str "input";
    attachments ← str "attachments"; keepAttachments ← json_bool (m !! "keepAttachments"); responseMedia ← str "responseMedia";
    answer ← str "answer"; maxIterations ← json_int (m !! "maxIterations"); maxParallelTools ← json_int (m !! "maxParallelTools");
    memoryThreadID ← str "memoryThreadId"; agentID ← str "agentId"; userID ← str "userId"; history ← str "history";
    forwardContext ← str "forwardContext"; userMemory ← json_bool (m !! "userMemory"); stopWhen ← str "stopWhen";
    authorizeTimeout ← str "authorizeTimeout"; authorizeID ← str "authorizeId"; authorizeAllow ← str "authorizeAllow";
    contextMaxTokens ← json_int (m !! "contextMaxTokens"); memoryMaxTokens ← json_int (m !! "memoryMaxTokens");
    memoryCompaction ← str "memoryCompaction"; memoryVolatile ← json_bool (m !! "memoryVolatile");
    stream ← json_bool (m !! "stream"); emit ← json_list "[]string" (fun v => json_string (Some v)) (m !! "emit");
    events ← json_ptr decode_flow (m !! "events"); nameThread ← json_ptr decode_flow (m !! "nameThread");
    tools ← json_list "[]ai.agentToolSettings" decode_agent_tool (m !! "tools");
    skills ← json_list "[]ai.skillSettings" decode_skill (m !! "skills");
    def ← json_ptr decode_flow (m !! "default");
    mret (mkAgentSettings connector prompt guardrail input attachments keepAttachments responseMedia answer maxIterations
      maxParallelTools memoryThreadID agentID userID history forwardContext userMemory stopWhen authorizeTimeout authorizeID
      authorizeAllow contextMaxTokens memoryMaxTokens memoryCompaction memoryVolatile stream emit events nameThread tools skills def)) raw.

(** ** Validation *)
Definition ensure (ok : bool) (e : goerr) : res unit := if ok then Ok tt else Err e.
Definition blank_setting (s : string) : bool := String.eqb (TrimSpace s) "".

Definition validateAgentMemoryConfig (cfg : agentSettings) : res unit :=
  _ ← ensure (bool_decide (as_History cfg ∈ [""; historyRecord; historyOff]))
        (ErrMsg ("ai-agent history must be " ++ quote historyRecord ++ " or " ++ quote historyOff ++ ", got " ++ quote (as_History cfg)));
  if blank_setting (as_AgentID cfg) then
    if String.eqb (as_History cfg) historyRecord then Err (ErrMsg "ai-agent history requires an agentId to record the conversation under")
    else if as_UserMemory cfg then Err (ErrMsg "ai-agent userMemory requires an agentId to store the memories under")
    else ensure (blank_setting (as_ForwardContext cfg))
           (ErrMsg ("ai-agent forwardContext requires an agentId: there is nothing to forward "
                    ++ "to until the agent has a store of its own"))
  else
    _ ← ensure (negb (String.eqb (as_MemoryThreadID cfg) ""))
          (ErrMsg ("ai-agent agentId requires a memoryThreadId: an agent stores its memory per "
                   ++ "conversation, and that is what names one"));
    ensure (negb (as_UserMemory cfg && blank_setting (as_UserID cfg)))
      (ErrMsg "ai-agent userMemory requires a userId to attribute memories to").

Definition validateAgentConfig (cfg : agentSettings) : res unit :=
  _ ← ensure (negb (Nat.eqb (List.length (as_Tools cfg)) 0)) (ErrMsg "ai-agent block requires at least one tool");
  _ ← ensure (negb (blank_setting (as_Prompt cfg))) (ErrMsg "ai-agent block requires a prompt");
  _ ← ensure (0 <=? as_MaxParallelTools cfg)
        (ErrMsg ("ai-agent maxParallelTools must be at least 1, got " ++ itoa (as_MaxParallelTools cfg)));
  _ ← ensure (bool_decide (as_Answer cfg ∈ [""; answerJSON; answerText]))
        (ErrMsg ("ai-agent answer must be " ++ quote answerJSON ++ " or " ++ quote answerText ++ ", got " ++ quote (as_Answer cfg)));
  _ ← ensure (as_MemoryMaxTokens cfg =? 0)
        (ErrMsg ("ai-agent memoryMaxTokens is now contextMaxTokens, and budgets the whole "
                 ++ "prompt (system, tools and conversation) rather than the stored transcript alone"));
  validateAgentMemoryConfig cfg.

(** ** Tools and skills *)
Fixpoint agentToolSpecs (tools : list agentToolSettings) : res (list toolSpec) :=
  match tools with
  | [] => Ok []
  | t :: tools =>
      let refuse what := ErrMsg ("ai-agent tool " ++ quote (ats_Name t) ++ ": " ++ what ++ " mcp-router metadata and have no effect here") in
      if negb (String.eqb (ats_Title t) "")
      then Err (ErrMsg ("ai-agent tool " ++ quote (ats_Name t) ++ ": title is mcp-router metadata and has no effect here"))
      else match ats_Annotations t with
      | Some _ => Err (refuse "annotations are")
      | None =>
          if negb (String.eqb (ats_OutputSchema t) "")
          then Err (ErrMsg ("ai-agent tool " ++ quote (ats_Name t) ++ ": outputSchema is mcp-router metadata and has no effect here"))
          else rest ← agentToolSpecs tools;
               mret (mkToolSpec (ats_Name t) (ats_Description t) (ats_InputSchema t) (ats_Process t) :: rest)
      end
  end.

(** A JSON document, its quotes written as apostrophes. *)
Fixpoint doc (s : string) : string :=
  match s with
  | EmptyString => EmptyString
  | String c r => String (if Ascii.eqb c "'"%char then ascii_of_nat 34 else c) (doc r)
  end.

Definition rejectMemoryToolCollision (tools : list LLMTool) : res unit :=
  match List.filter (fun name => bool_decide (name ∈ map tl_Name tools)) memoryToolNames with
  | [] => Ok tt
  | name :: _ => Err (ErrMsg ("ai-agent tool " ++ quote name ++ " uses a name reserved by user memory"))
  end.
Definition userMemoryTools : list LLMTool := [
  mkTool rememberToolName
    ("Remember a durable fact, preference or piece of context about the "
     ++ "person you are talking to, so it is available in later conversations. Use it for "
     ++ "things that stay true, not for what was just said. Re-using an existing name "
     ++ "replaces that memory.")
    (doc "{'type':'object','properties':{'name':{'type':'string','description':'Short stable handle, e.g. \'prefers-go-examples\'.'},'value':{'type':'string','description':'The fact, in one or two sentences.'}},'required':['name','value']}");
  mkTool forgetToolName "Forget a previously remembered fact about this person, by its name."
    (doc "{'type':'object','properties':{'name':{'type':'string','description':'The name the memory was stored under.'}},'required':['name']}");
  mkTool searchMemoryToolName
    ("Search earlier conversations and remembered facts for something you no "
     ++ "longer have in context. Use it when the answer depends on something said before "
     ++ "this conversation.")
    (doc "{'type':'object','properties':{'query':{'type':'string','description':'What to look for, in natural language.'}},'required':['query']}")].

Section json.
Context `{!JSON}.

Definition toolInputSchema (kind : string) (tool : toolSpec) : res string :=
  let schema := TrimSpace (sp_inputSchema tool) in
  if String.eqb schema "" then Ok (doc "{'type':'object'}")
  else match json_parse schema with
       | Err _ => Err (ErrMsg (kind ++ " tool " ++ quote (sp_name tool) ++ ": inputSchema is not valid JSON"))
       | Ok _ => Ok schema
       end.

Definition loadSkillTool (skills : list agentSkill) : LLMTool :=
  mkTool skillLoadToolName
    ("Load a skill's full instructions by name before acting on its area. "
     ++ "The available skills are listed in the system prompt.")
    (doc "{'type':'object','properties':{'name':{'type':'string','enum':"
     ++ json_text (AArr (map (fun s => AStr (sk_name s)) skills))
     ++ doc ",'description':'The skill to load.'}},'required':['name']}").

(** The skills, checked against the tools and those before them. *)
Fixpoint skills_from (i : Z) (configs : list skillSettings) (toolNames : list string) (skills : list agentSkill) : res (list agentSkill) :=
  match configs with
  | [] => Ok skills
  | s :: configs =>
      let named text := Err (ErrMsg ("ai-agent skill " ++ quote (ss_Name s) ++ text)) in
      if String.eqb (ss_Name s) "" then Err (ErrMsg ("ai-agent skill " ++ itoa i ++ " requires a name"))
      else if String.eqb (ss_Name s) skillLoadToolName then named (" uses the reserved name " ++ quote skillLoadToolName)
      else if String.eqb (ss_Description s) "" then named " requires a description"
      else if String.eqb (ss_Resource s) "" then named " requires a resource"
      else if bool_decide (ss_Name s ∈ map sk_name skills) then named " is defined more than once"
      else if bool_decide (ss_Name s ∈ toolNames) then named " collides with a tool of the same name"
      else skills_from (i + 1) configs toolNames (skills ++ [mkAgentSkill (ss_Name s) (ss_Description s) (ss_Resource s)])%list
  end.
Definition agentSkills (configs : list skillSettings) (tools : list LLMTool) : res (list agentSkill) :=
  match configs with
  | [] => Ok []
  | _ :: _ =>
      let toolNames := map tl_Name tools in
      if bool_decide (skillLoadToolName ∈ toolNames)
      then Err (ErrMsg ("ai-agent tool " ++ quote skillLoadToolName ++ " uses the reserved name for the skill loader"))
      else skills_from 0 configs toolNames []
  end.

Definition agentToolSet (cfg : agentSettings) (tools : list LLMTool) : res (list agentSkill * list LLMTool) :=
  skills ← agentSkills (as_Skills cfg) tools;
  let tools := (tools ++ match skills with [] => [] | _ :: _ => [loadSkillTool skills] end)%list in
  if as_UserMemory cfg
  then _ ← rejectMemoryToolCollision tools; mret (skills, (tools ++ userMemoryTools)%list)
  else mret (skills, tools).
End json.

Definition skill_line (s : agentSkill) : string := "- " ++ sk_name s ++ ": " ++ sk_description s ++ nl.
Definition buildAgentSystem (prompt guardrail answer : string) (skills : list agentSkill) : string :=
  "You are an agent that accomplishes a task by calling the available tools. "
  ++ "Call tools as needed; when the task is complete, respond with the final result"
  ++ (if String.eqb answer answerText then ""
      else " as JSON only (no prose, no markdown code fences), " ++ "unless the instructions below call for a different format")
  ++ "." ++ nl ++ nl ++ TrimSpace prompt
  ++ (match skills with
      | [] => ""
      | _ :: _ => nl ++ nl ++ "You have these skills available. Call load_skill(name) to read a skill's "
                  ++ "full instructions before acting on its area:" ++ nl ++ String.concat "" (map skill_line skills)
      end)
  ++ (if blank_setting guardrail then "" else nl ++ nl ++ "Guardrail: " ++ TrimSpace guardrail).

(** core/expr/evalmap.go.  A map is read in the order of its keys here; of several
    entries that cannot be written, any may be named. *)
Definition EvalMap (program : option Program) (m : Message) : res (option Settings) :=
  match program with
  | None => Ok None
  | Some p =>
      value ← p m;
      match value with
      | AMap entries => Ok (Some entries)
      | v => Err (ErrMsg ("expression produced " ++ go_type v ++ ", want a map"))
      end
  end.
Definition renderValue `{!JSON} (value : any) : res string :=
  match value with
  | AStr s => Ok s
  | v => if encodable v then Ok (json_text v) else Err (ErrWrap "encode value: " (ErrMsg "json: unsupported value") "")
  end.
Definition EvalStringMap `{!JSON} (program : option Program) (m : Message) : res (option (gmap string string)) :=
  entries ← EvalMap program m;
  match entries with
  | None => Ok None
  | Some entries =>
      out ← mapM (fun kv => v ← wrap_err (quote kv.1 ++ ": ") (renderValue kv.2); mret (kv.1, v)) (map_to_list entries);
      mret (Some (list_to_map out))
  end.
(** What is forwarded reaches the stores alone; whether it resolves decides
    whether there is a session. *)
Definition forwards `{!JSON} (program : option Program) (m : Message) : res unit :=
  EvalStringMap program m ≫= fun _ => mret tt.

(** ** The factory

    What it is handed beside the engine's own: the connectors by name - one may
    be no LLM provider -, the compiler of tool conditions, the template
    resources and how a result that is no string is written. *)
Record agentDeps (U : Type) : Type := mkAgentDeps {
  ad_connectors : option (string -> option (option (llmCaller U)));
  ad_CompileToolCall : string -> res (Message -> string -> string -> any -> res any);
  ad_templates : string -> res (Message -> res string);
  ad_render : any -> string;
}.
Arguments mkAgentDeps {U}. Arguments ad_connectors {U}. Arguments ad_CompileToolCall {U}. Arguments ad_templates {U}.
Arguments ad_render {U}.

Section factory.
Context {U : Type} `{!JSON}.
Implicit Types deps : BlockDeps U.
Implicit Types ad : agentDeps U.
Implicit Types cfg : agentSettings.

Definition resolveLLM ad (kind name : string) : res (llmCaller U) :=
  if String.eqb name "" then Err (ErrMsg (kind ++ " block requires a connector"))
  else match ad_connectors ad with
  | None => Err (ErrMsg (kind ++ " block: connector " ++ quote name ++ " requested but no connectors are available"))
  | Some connector =>
      match connector name with
      | None => Err (ErrMsg (kind ++ " block: connector " ++ quote name ++ " is not configured"))
      | Some None => Err (ErrMsg (kind ++ " block: connector " ++ quote name ++ " is not an LLM provider"))
      | Some (Some caller) => Ok caller
      end
  end.

Fixpoint tools_from (flows : SubFlowBuilder U) (kind : string) (i : Z) (specs : list toolSpec)
    (branches : gmap string (processor U)) (tools : list LLMTool) : res (gmap string (processor U) * list LLMTool) :=
  match specs with
  | [] => Ok (branches, tools)
  | tool :: specs =>
      let named text := Err (ErrMsg (kind ++ " tool " ++ quote (sp_name tool) ++ text)) in
      if String.eqb (sp_name tool) "" then Err (ErrMsg (kind ++ " tool " ++ itoa i ++ " requires a name"))
      else if String.eqb (sp_description tool) "" then named " requires a description"
      else match branches !! sp_name tool with
      | Some _ => named " is defined more than once"
      | None =>
          schema ← toolInputSchema kind tool;
          flow ← wrap_err (kind ++ " tool " ++ quote (sp_name tool) ++ ": ") (Member flows (sp_name tool) i (chain_flow "" (sp_process tool)));
          tools_from flows kind (i + 1) specs (<[ sp_name tool := flow ]> branches)
            (tools ++ [mkTool (sp_name tool) (sp_description tool) schema])%list
      end
  end.
Definition buildTools (flows : SubFlowBuilder U) (kind : string) (specs : list toolSpec) : res (gmap string (processor U) * list LLMTool) :=
  tools_from flows kind 0 specs ∅ [].

(** *** The optional halves *)
Definition optional_branch (flows : SubFlowBuilder U) (name pre : string) (cfg : option FlowConfig) : res (option (processor U)) :=
  match cfg with
  | None => Ok None
  | Some cfg => flow ← wrap_err pre (Branch flows name cfg); mret (Some flow)
  end.
Definition optional_program deps (pre expression : string) : res (option Program) :=
  if blank_setting expression then Ok None else p ← wrap_err pre (d_Compile deps expression); mret (Some p).

Definition configureAgentAttachments deps (caller : llmCaller U) cfg : res (option Program) :=
  if blank_setting (as_Attachments cfg) then Ok None
  else if blank_setting (as_Input cfg)
  then Err (ErrMsg ("ai-agent attachments requires input: without it the agent's opening turn is the "
                    ++ "whole body as JSON, which sends any attachment on the body a second time as base64"))
  else match acceptsMedia caller with
  | [] => Err (ErrMsg ("ai-agent attachments: connector " ++ quote (as_Connector cfg) ++ " reads only text, so it cannot be sent files"))
  | _ :: _ => optional_program deps "ai-agent attachments: " (as_Attachments cfg)
  end.

(** The strategy, the thread's expression and its namespace. *)
Definition configureAgentMemory deps cfg : res (string * option Program * string) :=
  let compaction := if String.eqb (as_MemoryCompaction cfg) "" then memoryCompactPrune else as_MemoryCompaction cfg in
  if negb (String.eqb compaction memoryCompactPrune) && negb (String.eqb compaction memoryCompactSummarize)
  then Err (ErrMsg ("ai-agent memoryCompaction must be " ++ quote memoryCompactPrune ++ " or " ++ quote memoryCompactSummarize
                    ++ ", got " ++ quote (as_MemoryCompaction cfg)))
  else if String.eqb (as_MemoryThreadID cfg) "" then Ok (compaction, None, "")
  else
    threadID ← d_Compile deps (as_MemoryThreadID cfg);
    mret (compaction, Some threadID, if as_MemoryVolatile cfg then NamespaceUserVolatile else NamespaceUser).

(** What is recorded, and the two expressions of the store. *)
Definition configureAgentStore deps cfg : res (string * (Message -> res unit) * option Program) :=
  let history := if negb (String.eqb (as_History cfg) "") then as_History cfg
                 else if blank_setting (as_AgentID cfg) || as_MemoryVolatile cfg then historyOff else historyRecord in
  forward ← (if blank_setting (as_ForwardContext cfg) then Ok None
             else p ← wrap_err "ai-agent forwardContext: " (d_Compile deps (TrimSpace (as_ForwardContext cfg))); mret (Some p));
  userID ← optional_program deps "ai-agent userId: " (as_UserID cfg);
  mret (history, forwards forward, userID).

Definition configureAgentSignals deps cfg : res (option Program) :=
  if blank_setting (as_StopWhen cfg) then Ok None
  else if String.eqb (as_MemoryThreadID cfg) ""
  then Err (ErrMsg ("ai-agent stopWhen requires memoryThreadId: a run is stopped by the conversation "
                    ++ "it belongs to, and without one there is nothing to name"))
  else optional_program deps "ai-agent stopWhen: " (as_StopWhen cfg).

(** The observer path, and whether the block streams. *)
Definition configureAgentEvents (flows : SubFlowBuilder U) (caller : llmCaller U) cfg : res (option (Emitter U) * bool) :=
  match as_Events cfg with
  | None =>
      if as_Stream cfg then Err (ErrMsg "ai-agent stream requires an events path to report to")
      else match as_Emit cfg with
           | _ :: _ => Err (ErrMsg "ai-agent emit requires an events path to filter")
           | [] => Ok (None, false)
           end
  | Some events =>
      flow ← wrap_err "ai-agent events: " (Branch flows BranchEvents events);
      kinds ← Kinds blockKindAIAgent agentEventKinds (as_Emit cfg);
      if as_Stream cfg && negb (streams caller)
      then Err (ErrMsg ("ai-agent stream: connector " ++ quote (as_Connector cfg) ++ " does not stream"))
      else mret (Some (mkEmitter flow kinds), as_Stream cfg)
  end.

Fixpoint agentGates ad (tools : list agentToolSettings) (gates : gmap string (Message -> string -> string -> any -> res any))
    : res (gmap string (Message -> string -> string -> any -> res any)) :=
  match tools with
  | [] => Ok gates
  | tool :: tools =>
      if blank_setting (ats_Authorize tool) then agentGates ad tools gates
      else
        program ← wrap_err ("ai-agent tool " ++ quote (ats_Name tool) ++ " authorize: ") (ad_CompileToolCall ad (ats_Authorize tool));
        agentGates ad tools (<[ ats_Name tool := program ]> gates)
  end.

Definition configureAuthorizationAnswer deps cfg : res (option Program * option Program) :=
  if blank_setting (as_AuthorizeID cfg) then
    if blank_setting (as_AuthorizeAllow cfg) then Ok (None, None)
    else Err (ErrMsg ("ai-agent authorizeAllow requires authorizeId: an answer says yes or no to a "
                      ++ "particular call, and without an id there is nothing for it to be about"))
  else if String.eqb (as_MemoryThreadID cfg) ""
  then Err (ErrMsg ("ai-agent authorizeId requires memoryThreadId: an answer is handed to the run "
                    ++ "working on a conversation, and without one there is nothing to name"))
  else if blank_setting (as_AuthorizeAllow cfg)
  then Err (ErrMsg ("ai-agent authorizeId requires authorizeAllow: an invocation carrying an id is an "
                    ++ "answer, and without a condition there is nothing for it to answer"))
  else
    id ← wrap_err "ai-agent authorizeId: " (d_Compile deps (as_AuthorizeID cfg));
    allow ← wrap_err "ai-agent authorizeAllow: " (d_Compile deps (as_AuthorizeAllow cfg));
    mret (Some id, Some allow).

Definition authorizeTimeout (configured : string) : res Z :=
  if blank_setting configured then Ok defaultAuthorizeTimeout
  else
    timeout ← wrap_err "ai-agent authorizeTimeout: " (ParseDuration configured);
    if timeout <=? 0 then Err (ErrMsg ("ai-agent authorizeTimeout must be positive, got " ++ configured)) else mret timeout.

Record authorizing : Type := mkAuthorizing {
  az_gates : gmap string (Message -> string -> string -> any -> res any);
  az_id : option Program;
  az_allow : option Program;
  az_timeout : Z;
}.
Definition configureAgentAuthorization deps ad (events : option (Emitter U)) cfg : res authorizing :=
  gates ← agentGates ad (as_Tools cfg) ∅;
  '(id, allow) ← configureAuthorizationAnswer deps cfg;
  timeout ← authorizeTimeout (as_AuthorizeTimeout cfg);
  if bool_decide (gates = ∅) then mret (mkAuthorizing gates id allow timeout)
  else match id with
  | None => Err (ErrMsg ("ai-agent authorizeId is required when a tool declares authorize: without it "
                         ++ "nothing can ever allow a gated call, and every one of them is denied on the timeout"))
  | Some _ =>
      if Wants events eventToolAuthorization then mret (mkAuthorizing gates id allow timeout)
      else Err (ErrMsg ("ai-agent tool authorization requires an events path emitting tool_authorization: "
                        ++ "the event is how a person is asked, and a gate nobody is asked about only denies"))
  end.

Definition configureAgentNamer (flows : SubFlowBuilder U) cfg : res (option (processor U)) :=
  match as_NameThread cfg with
  | None => Ok None
  | Some _ =>
      if blank_setting (as_AgentID cfg)
      then Err (ErrMsg ("ai-agent nameThread requires an agentId: " ++ "without one the agent has no durable conversation to name"))
      else optional_branch flows BranchNameThread "ai-agent nameThread: " (as_NameThread cfg)
  end.

Definition newAIAgent ad (raw : Settings) deps : res (aiAgent U) :=
  cfg ← decode_agent raw;
  _ ← validateAgentConfig cfg;
  flows ← SubFlowsOf deps;
  caller ← resolveLLM ad blockKindAIAgent (as_Connector cfg);
  specs ← agentToolSpecs (as_Tools cfg);
  '(branches, tools) ← buildTools flows blockKindAIAgent specs;
  '(skills, tools) ← agentToolSet cfg tools;
  input ← optional_program deps "ai-agent input: " (as_Input cfg);
  attachments ← configureAgentAttachments deps caller cfg;
  '(compaction, threadID, namespace) ← configureAgentMemory deps cfg;
  '(history, forward, userID) ← configureAgentStore deps cfg;
  stopWhen ← configureAgentSignals deps cfg;
  '(events, streaming) ← configureAgentEvents flows caller cfg;
  authz ← configureAgentAuthorization deps ad events cfg;
  namer ← configureAgentNamer flows cfg;
  guardrail ← optional_branch flows BranchDefault "ai-agent default: " (as_Default cfg);
  mret (mkAgent caller (buildAgentSystem (as_Prompt cfg) (as_Guardrail cfg) (as_Answer cfg) skills) tools branches guardrail
    (Z.to_nat (orDefault (Z.max (as_MaxIterations cfg) 0) defaultAgentIterations))
    (orDefault (as_MaxParallelTools cfg) defaultToolWorkers)
    (ad_Name (d_Address deps)) skills (ad_templates ad) input attachments (as_KeepAttachments cfg) (TrimSpace (as_ResponseMedia cfg))
    threadID compaction (TrimSpace (as_AgentID cfg)) userID forward history (as_UserMemory cfg) namespace
    (ad_Path (d_Address deps)) stopWhen (az_gates authz) (az_id authz) (az_allow authz) (az_timeout authz)
    (if as_ContextMaxTokens cfg <=? 0 then defaultContextMaxTokens else as_ContextMaxTokens cfg) events streaming namer (ad_render ad)).
End factory.

(** ** clear-agent-memory: agentmemory.go *)
Record clearAgentMemory : Type := mkClear { cl_threadID : Program; cl_agentID : string }.
Section clear.
Context {U : Type} `{!KV payload U} `{!AgentMemory payload U}.

Definition newClearAgentMemory (raw : Settings) (deps : BlockDeps U) : res clearAgentMemory :=
  let m := raw in
  '(threadID, agentID) ← decode_settings (t ← json_string (m !! "threadId"); g ← json_string (m !! "agentId"); mret (t, g));
  if String.eqb threadID "" then Err (ErrMsg "clear-agent-memory requires a threadId expression")
  else program ← d_Compile deps threadID; mret (mkClear program (TrimSpace agentID)).

Definition clear_Process (render : any -> string) (c : clearAgentMemory) : processor U := fun msg =>
  m ← load msg;
  threadID ← lift (wrap_err "clear-agent-memory threadId: " (EvalString render (cl_threadID c) m));
  let failing := "clear-agent-memory " ++ quote threadID ++ ": " in
  wrapping failing (kv_Delete NamespaceUser (memoryKey threadID) 0) ≫= fun _ =>
  wrapping failing (kv_Delete NamespaceUserVolatile (memoryKey threadID) 0) ≫= fun _ =>
  if String.eqb (cl_agentID c) "" || negb mem_Enabled then mret (Some msg)
  else wrapping failing (mem_DeleteThread (mkMemoryRef (cl_agentID c) threadID "")) ≫= fun _ => mret (Some msg).
End clear.

(** * Lemmas *)

Lemma ensure_ok b e x : ensure b e = Ok x -> b = true.
Proof. by destruct b. Qed.
Lemma blank_false s : blank_setting s = false -> TrimSpace s <> "".
Proof. by intros H%String.eqb_neq. Qed.

Lemma wrap_err_ok {A} pre (r : res A) x : wrap_err pre r = Ok x -> r = Ok x.
Proof. by destruct r. Qed.

(** ** What a block that builds is *)
Section sound.
Context {U : Type} {JS : JSON} (ad : agentDeps U) (deps : BlockDeps U).

(** The names the model may call, and who answers to them. *)
Definition served (a : aiAgent U) (name : string) : Prop :=
  (exists flow, aa_branches a !! name = Some flow) \/ (name = skillLoadToolName /\ aa_skills a <> []) \/
  (name ∈ memoryToolNames /\ aa_userMemory a = true).

Record well_built (a : aiAgent U) : Prop := {
  wb_turns : (1 <= aa_maxIterations a)%nat /\ 1 <= aa_toolWorkers a /\ 1 <= aa_contextMaxTokens a;
  wb_tools : aa_tools a <> [] /\ NoDup (map tl_Name (aa_tools a)) /\ (forall t, t ∈ aa_tools a -> served a (tl_Name t));
  wb_reached : forall name flow, aa_branches a !! name = Some flow ->
    name ∈ map tl_Name (aa_tools a) /\ (aa_skills a <> [] -> name <> skillLoadToolName) /\
    (aa_userMemory a = true -> name ∉ memoryToolNames);
  wb_skills : NoDup (map sk_name (aa_skills a)) /\ Forall (fun s => sk_resource s <> "") (aa_skills a);
  wb_gates : forall name gate, aa_gates a !! name = Some gate ->
    is_Some (aa_branches a !! name) /\ aa_authorizeID a <> None /\ aa_authorizeAllow a <> None /\ aa_memoryThreadID a <> None /\
    0 < aa_authorizeTimeout a /\ Wants (aa_events a) eventToolAuthorization = true;
  wb_memory : (aa_agentID a <> "" -> aa_memoryThreadID a <> None) /\
    (aa_history a = historyRecord -> aa_agentID a <> "") /\
    (aa_userMemory a = true -> aa_agentID a <> "" /\ aa_userID a <> None) /\
    (aa_namer a <> None -> aa_agentID a <> "") /\ (aa_stopWhen a <> None -> aa_memoryThreadID a <> None) /\
    (aa_memoryCompaction a = memoryCompactPrune \/ aa_memoryCompaction a = memoryCompactSummarize);
  wb_events : (aa_streaming a = true -> aa_events a <> None /\ streams (aa_caller a) = true) /\
    (forall em kinds, aa_events a = Some em -> em_kinds em = Some kinds -> kinds ⊆ agentEventKinds);
  wb_files : aa_attachments a <> None -> aa_input a <> None /\ acceptsMedia (aa_caller a) <> [];
}.

Definition tools_match (branches : gmap string (processor U)) (tools : list LLMTool) : Prop :=
  NoDup (map tl_Name tools) /\ forall name, is_Some (branches !! name) <-> name ∈ map tl_Name tools.

Lemma tools_from_ok flows kind i specs branches tools branches' tools' :
  tools_from flows kind i specs branches tools = Ok (branches', tools') -> tools_match branches tools ->
  tools_match branches' tools' /\ map tl_Name tools' = (map tl_Name tools ++ map sp_name specs)%list.
Proof.
  revert i branches tools. induction specs as [|tool specs IH]; intros i branches tools; cbn [tools_from].
  { intros [= <- <-] H. by rewrite app_nil_r. }
  destruct (String.eqb (sp_name tool) ""); [done|]. destruct (String.eqb (sp_description tool) ""); [done|].
  destruct (branches !! sp_name tool) eqn:Hb; [done|].
  intros (schema & _ & (flow & _ & Hrest)%res_bind_ok)%res_bind_ok [Hn Hd].
  apply IH in Hrest as [Hm Hnames].
  - split; [done|]. rewrite Hnames, map_app, <-app_assoc. done.
  - assert (sp_name tool ∉ map tl_Name tools) as Hnew by (rewrite <-Hd, Hb; by intros [? ?]).
    split; rewrite map_app; cbn.
    + apply NoDup_app. split_and!; [done| |apply NoDup_singleton]. intros x Hx Heq%list_elem_of_singleton. congruence.
    + intros name. rewrite elem_of_app, list_elem_of_singleton, <-Hd. destruct (decide (name = sp_name tool)) as [->|Hne].
      * rewrite lookup_insert_eq. split; [by right|by eexists].
      * rewrite lookup_insert_ne by done. naive_solver.
Qed.

Lemma specs_names tools specs : agentToolSpecs tools = Ok specs -> map sp_name specs = map ats_Name tools.
Proof.
  revert specs. induction tools as [|t tools IH]; intros specs; cbn [agentToolSpecs]; [by intros [= <-]|].
  destruct (negb _); [done|]. destruct (ats_Annotations t); [done|]. destruct (negb _); [done|].
  intros (rest & Hr & [= <-])%res_bind_ok. cbn. by rewrite (IH _ Hr).
Qed.

Lemma skills_from_ok i configs toolNames skills out : skills_from i configs toolNames skills = Ok out ->
  NoDup (map sk_name skills) -> Forall (fun s => sk_resource s <> "") skills ->
  NoDup (map sk_name out) /\ Forall (fun s => sk_resource s <> "") out.
Proof.
  revert i skills. induction configs as [|c configs IH]; intros i skills; cbn [skills_from]; [by intros [= <-]|].
  destruct (String.eqb _ _); [done|]. destruct (String.eqb _ _); [done|]. destruct (String.eqb _ _); [done|].
  destruct (String.eqb_spec (ss_Resource c) ""); [done|]. case_bool_decide as Hdup; [done|]. case_bool_decide as Hcol; [done|].
  intros H Hn Hf. apply IH in H; [done|..].
  - rewrite map_app. apply NoDup_app. split_and!; [done| |apply NoDup_singleton]. cbn. intros x Hx ->%list_elem_of_singleton. done.
  - apply Forall_app. by repeat constructor.
Qed.

Lemma skills_ok configs tools skills : agentSkills configs tools = Ok skills ->
  NoDup (map sk_name skills) /\ Forall (fun s => sk_resource s <> "") skills /\
  (skills <> [] -> skillLoadToolName ∉ map tl_Name tools).
Proof.
  unfold agentSkills. destruct configs; [intros [= <-]; by repeat constructor|]. case_bool_decide as Hl; [done|].
  intros H. apply skills_from_ok in H as [H1 H2]; [done|constructor..].
Qed.

Lemma gates_ok tools gates gates' : agentGates ad tools gates = Ok gates' ->
  forall name gate, gates' !! name = Some gate -> gates !! name = Some gate \/ name ∈ map ats_Name tools.
Proof.
  revert gates. induction tools as [|t tools IH]; intros gates; cbn [agentGates]; [intros [= <-]; by left|].
  destruct (blank_setting _).
  - intros H name gate Hg. destruct (IH _ H _ _ Hg); [by left|right]. by constructor.
  - intros (program & _ & H)%res_bind_ok name gate Hg. destruct (IH _ H _ _ Hg) as [Hi|]; [|right; by constructor].
    destruct (decide (name = ats_Name t)) as [->|Hne]; [right; constructor|]. left. by rewrite lookup_insert_ne in Hi.
Qed.

Lemma tool_set_ok cfg branches tools skills tools' :
  tools_match branches tools -> tools <> [] -> agentToolSet cfg tools = Ok (skills, tools') ->
  NoDup (map sk_name skills) /\ Forall (fun s => sk_resource s <> "") skills /\ tools' <> [] /\ NoDup (map tl_Name tools') /\
  (forall t, t ∈ tools' -> is_Some (branches !! tl_Name t) \/ (tl_Name t = skillLoadToolName /\ skills <> []) \/
     (tl_Name t ∈ memoryToolNames /\ as_UserMemory cfg = true)) /\
  (forall name, is_Some (branches !! name) ->
    name ∈ map tl_Name tools' /\ (skills <> [] -> name <> skillLoadToolName) /\ (as_UserMemory cfg = true -> name ∉ memoryToolNames)).
Proof.
  intros [Hn Hd] Hne. unfold agentToolSet. intros (sk & Hsk & H)%res_bind_ok. apply skills_ok in Hsk as (Hs1 & Hs2 & Hload).
  set (withload := (tools ++ match sk with [] => [] | _ :: _ => [loadSkillTool sk] end)%list) in H.
  assert (NoDup (map tl_Name withload)) as Hnl.
  { unfold withload. rewrite map_app. apply NoDup_app. split_and!; [done| |by destruct sk; repeat constructor; set_solver].
    intros x Hx Hin. destruct sk as [|s0 sk]; [by apply elem_of_nil in Hin|]. apply list_elem_of_singleton in Hin. subst x. by apply Hload. }
  assert (forall t, t ∈ withload -> is_Some (branches !! tl_Name t) \/ (tl_Name t = skillLoadToolName /\ sk <> [])) as Hserve.
  { intros t [Ht|Ht]%elem_of_app; [left; apply Hd; by apply list_elem_of_fmap_2|].
    destruct sk; [by apply elem_of_nil in Ht|]. apply list_elem_of_singleton in Ht. subst t. by right. }
  assert (withload <> []) as Hwl by (unfold withload; by destruct tools).
  assert (forall name, is_Some (branches !! name) -> name ∈ map tl_Name withload /\ (sk <> [] -> name <> skillLoadToolName)) as Hreach.
  { intros name Hb. apply Hd in Hb. split; [unfold withload; rewrite map_app; apply elem_of_app; by left|].
    intros Hsk Heq. apply (Hload Hsk). congruence. }
  destruct (as_UserMemory cfg) eqn:Hum.
  - apply res_bind_ok in H as ([] & Hrej & [= <- <-]). unfold rejectMemoryToolCollision in Hrej.
    destruct (List.filter _ memoryToolNames) as [|] eqn:Hfil; [|done].
    assert (forall name, name ∈ memoryToolNames -> name ∉ map tl_Name withload) as Hfree.
    { intros name Hm Hin. assert (In name []) as []. rewrite <-Hfil. apply filter_In. split; [by apply list_elem_of_In|]. by apply bool_decide_eq_true. }
    change (map tl_Name userMemoryTools) with memoryToolNames in *. split_and!; [done|done|by destruct withload| | |].
    + rewrite map_app. apply NoDup_app. split_and!; [done|intros x Hx Hm; by apply (Hfree x)|].
      change (map tl_Name userMemoryTools) with memoryToolNames. apply (bool_decide_unpack _). exact I.
    + intros t [Ht|Ht]%elem_of_app; [destruct (Hserve t Ht); auto|]. right. right. split; [|done].
      change memoryToolNames with (map tl_Name userMemoryTools). by apply list_elem_of_fmap_2.
    + intros name Hb. destruct (Hreach name Hb) as [Hin Hl]. split_and!; [rewrite map_app; apply elem_of_app; by left|done|].
      intros _ Hm. by apply (Hfree name).
  - injection H as <- <-. split_and!; [done|done|done|done| |].
    + intros t Ht. destruct (Hserve t Ht); auto.
    + intros name Hb. destruct (Hreach name Hb) as [Hin Hl]. done.
Qed.
End sound.

Lemma optional_program_ok {U} (deps : BlockDeps U) pre e p : optional_program deps pre e = Ok p ->
  (p <> None <-> blank_setting e = false).
Proof.
  unfold optional_program. destruct (blank_setting e); [by intros [= <-]|]. intros (q & _ & [= <-])%res_bind_ok. done.
Qed.

Lemma validate_memory_ok cfg : validateAgentMemoryConfig cfg = Ok tt ->
  (as_History cfg = historyRecord -> blank_setting (as_AgentID cfg) = false) /\
  (as_UserMemory cfg = true -> blank_setting (as_AgentID cfg) = false /\ blank_setting (as_UserID cfg) = false) /\
  (blank_setting (as_AgentID cfg) = false -> as_MemoryThreadID cfg <> "").
Proof.
  unfold validateAgentMemoryConfig. intros (x & _ & H)%res_bind_ok. destruct (blank_setting (as_AgentID cfg)).
  - destruct (String.eqb_spec (as_History cfg) historyRecord); [done|]. by destruct (as_UserMemory cfg).
  - apply res_bind_ok in H as (y & Hy%ensure_ok & H%ensure_ok). apply negb_true_iff, String.eqb_neq in Hy.
    apply negb_true_iff in H. split_and!; [done| |done]. intros Hu. by rewrite Hu in H.
Qed.

Lemma authorization_ok {U} (deps : BlockDeps U) ad events cfg az : configureAgentAuthorization deps ad events cfg = Ok az ->
  forall name gate, az_gates az !! name = Some gate ->
    name ∈ map ats_Name (as_Tools cfg) /\ az_id az <> None /\ az_allow az <> None /\ as_MemoryThreadID cfg <> "" /\
    0 < az_timeout az /\ Wants events eventToolAuthorization = true.
Proof.
  unfold configureAgentAuthorization. intros (gates & Hg & ([id allow] & Ha & (timeout & Ht & H)%res_bind_ok)%res_bind_ok)%res_bind_ok.
  assert (0 < timeout) as Hpos.
  { unfold authorizeTimeout in Ht. destruct (blank_setting _); [by injection Ht as <-|]. apply res_bind_ok in Ht as (t & _ & Ht).
    destruct (Z.leb_spec t 0); [done|]. by injection Ht as <-. }
  intros name gate Hn. case_bool_decide as Hempty; [injection H as <-; cbn in Hn; by rewrite Hempty in Hn|].
  destruct id as [id|]; [|done]. destruct (Wants _ _); [|done]. injection H as <-. cbn in *.
  destruct (gates_ok _ _ _ _ Hg _ _ Hn) as [He|Hin]; [by rewrite lookup_empty in He|].
  unfold configureAuthorizationAnswer in Ha. destruct (blank_setting (as_AuthorizeID cfg)); [by destruct (blank_setting _)|].
  destruct (String.eqb_spec (as_MemoryThreadID cfg) ""); [done|]. destruct (blank_setting _); [done|].
  apply res_bind_ok in Ha as (? & _ & (? & _ & [= -> <-])%res_bind_ok). done.
Qed.

Lemma events_ok {U} (flows : SubFlowBuilder U) caller cfg events streaming :
  configureAgentEvents flows caller cfg = Ok (events, streaming) ->
  (streaming = true -> events <> None /\ streams caller = true) /\
  (forall em kinds, events = Some em -> em_kinds em = Some kinds -> kinds ⊆ agentEventKinds).
Proof.
  unfold configureAgentEvents. destruct (as_Events cfg).
  - intros (flow & _ & (kinds & Hk & H)%res_bind_ok)%res_bind_ok. destruct (as_Stream cfg && negb (streams caller)) eqn:Es; [done|].
    injection H as <- <-. split.
    + intros Hs. rewrite Hs in Es. split; [done|]. by destruct (streams caller).
    + intros em ks [= <-] Hks. cbn in Hks. subst kinds. unfold Kinds in Hk. destruct (as_Emit cfg) as [|k emit]; [done|].
      destruct (List.filter _ (k :: emit)) eqn:Hf; [|done]. injection Hk as <-. intros x Hx. apply (elem_of_list_to_set (C := gset string) _ (k :: emit)) in Hx.
      destruct (decide (x ∈ agentEventKinds)) as [|Hno]; [done|]. exfalso.
      assert (In x []) as []. rewrite <-Hf. apply filter_In. split; [by apply list_elem_of_In|]. by rewrite bool_decide_eq_false_2.
  - destruct (as_Stream cfg); [done|]. destruct (as_Emit cfg); [|done]. intros [= <- <-]. done.
Qed.


(** *** A block that builds: one tool that needs a person, and one that does not *)
#[local] Instance bare_JSON : JSON := { json_text _ := "[]"; json_parse _ := Ok ANil }.
Definition tool_settings (name authorize : string) : any :=
  AMap {[ "name" := AStr name; "description" := AStr "a tool"; "process" := AArr []; "authorize" := AStr authorize ]}.
Definition gated_settings : Settings :=
  {[ "connector" := AStr "llm"; "prompt" := AStr "help"; "memoryThreadId" := AStr "vars.thread"; "agentId" := AStr "helper";
     "authorizeId" := AStr "body.id"; "authorizeAllow" := AStr "body.ok"; "events" := AMap {[ "process" := AArr [] ]};
     "tools" := AArr [tool_settings "look" ""; tool_settings "write" "true"];
     "skills" := AArr [AMap {[ "name" := AStr "style"; "description" := AStr "how to write"; "resource" := AStr "style.md" ]}] ]}.
Definition plain_flows : SubFlowBuilder unit :=
  mkSubFlowBuilder (fun _ _ => Ok (fun l => mret (Some l))) (fun _ _ _ => Ok (fun l => mret (Some l))) true.
Definition plain_deps : BlockDeps unit := mkBlockDeps (fun _ => Ok (fun _ => Ok (AStr "t"))) None None None None
  (mkBlockAddress "flow" "flow[helper]" "helper") (Some plain_flows) None None.
Definition plain_agent_deps : agentDeps unit :=
  mkAgentDeps (Some (fun _ => Some (Some (mkCaller (fun _ => fail (ErrMsg "down")) None []))))
    (fun _ => Ok (fun _ _ _ _ => Ok (ABool true))) (fun _ => Err (ErrMsg "none")) (fun _ => "").
Definition built_names (r : res (aiAgent unit)) : list string := match r with Ok a => map tl_Name (aa_tools a) | Err _ => [] end.

