(* ===== verification/Triples.v ===== *)
(** Specifications of computations over the application's state: what holds of
    that state before, what after, and what of the result.

    A triple speaks of [usr] alone: messages, identifiers and the clock are left
    free, so it holds from any heap. *)
From S2P Require Import Prelude Message Store AgentRun AgentTurn.
#[local] Open Scope Z_scope.

Definition triple {U A} (P : U -> Prop) (m : M U A) (Q : A -> U -> Prop) (E : U -> Prop) : Prop :=
  forall w, P (usr w) -> match m w with (w', Ok a) => Q a (usr w') | (w', Err _) => E (usr w') end.

(** [I] is kept, and the result is as [Q] says. *)
Definition gives {U A} (I : U -> Prop) (m : M U A) (Q : A -> Prop) : Prop :=
  triple I m (fun a u => I u /\ Q a) I.
Abbreviation keeps I m := (gives I m (fun _ => True)).

Section rules.
Context {U : Type}.

Lemma triple_ret {A} (P : U -> Prop) (a : A) (Q : A -> U -> Prop) E : (forall u, P u -> Q a u) -> triple P (mret a) Q E.
Proof. intros H w Hw. by apply H. Qed.

Lemma triple_bind {A B} (P : U -> Prop) (m : M U A) (f : A -> M U B) R Q E :
  triple P m R E -> (forall a, triple (R a) (f a) Q E) -> triple P (m ≫= f) Q E.
Proof.
  intros Hm Hf w Hw. specialize (Hm w Hw). unfold mbind, M_bind, SM_bind. destruct (m w) as [w' [a|e]]; [|done]. by apply Hf.
Qed.

Lemma triple_attempt {A} (P : U -> Prop) (m : M U A) Q E :
  triple P m Q E -> triple P (attempt m) (fun r u => match r with Ok a => Q a u | Err _ => E u end) (fun _ => False).
Proof. intros Hm w Hw. specialize (Hm w Hw). unfold attempt. destruct (m w) as [w' [a|e]]; done. Qed.

Lemma triple_weaken {A} (P P' : U -> Prop) (m : M U A) (Q Q' : A -> U -> Prop) (E E' : U -> Prop) :
  triple P m Q E -> (forall u, P' u -> P u) -> (forall a u, Q a u -> Q' a u) -> (forall u, E u -> E' u) -> triple P' m Q' E'.
Proof. intros Hm HP HQ HE w Hw. specialize (Hm w (HP _ Hw)). destruct (m w) as [w' [a|e]]; auto. Qed.

Lemma triple_if {A} (P : U -> Prop) (b : bool) (m1 m2 : M U A) Q E :
  (b = true -> triple P m1 Q E) -> (b = false -> triple P m2 Q E) -> triple P (if b then m1 else m2) Q E.
Proof. destruct b; auto. Qed.

(** *** Invariants *)
Context (I : U -> Prop).

Lemma gives_ret {A} (a : A) (Q : A -> Prop) : Q a -> gives I (mret a) Q.
Proof. intros HQ. by apply triple_ret. Qed.
Lemma inv_ret {A} (a : A) : keeps I (mret a).
Proof. by apply gives_ret. Qed.
Lemma gives_fail {A} e (Q : A -> Prop) : gives I (fail e) Q.
Proof. by intros w Hw. Qed.
Lemma gives_lift {A} (r : res A) (Q : A -> Prop) : (forall a, r = Ok a -> Q a) -> gives I (lift r) Q.
Proof. intros H w Hw. cbn. destruct r; [by split; [|apply H]|done]. Qed.
Lemma inv_lift {A} (r : res A) : keeps I (lift r).
Proof. by apply gives_lift. Qed.
Lemma gives_bind {A B} (m : M U A) (f : A -> M U B) (R : A -> Prop) (Q : B -> Prop) :
  gives I m R -> (forall a, R a -> gives I (f a) Q) -> gives I (m ≫= f) Q.
Proof.
  intros Hm Hf. eapply triple_bind; [exact Hm|]. intros a w [Hw Ha]. by apply Hf.
Qed.
Lemma gives_attempt {A} (m : M U A) (Q : A -> Prop) :
  gives I m Q -> gives I (attempt m) (fun r => match r with Ok a => Q a | Err _ => True end).
Proof.
  intros Hm. eapply triple_weaken; [apply triple_attempt, Hm|done| |done]. by intros [] u H.
Qed.
Lemma gives_wrapping {A} pre (m : M U A) (Q : A -> Prop) : gives I m Q -> gives I (wrapping pre m) Q.
Proof. intros Hm w Hw. specialize (Hm w Hw). unfold wrapping. by destruct (m w) as [w' [a|e]]. Qed.
Lemma gives_weaken {A} (m : M U A) (Q Q' : A -> Prop) : gives I m Q -> (forall a, Q a -> Q' a) -> gives I m Q'.
Proof. intros Hm HQ. eapply triple_weaken; [exact Hm|done| |done]. naive_solver. Qed.
Lemma gives_keeps {A} (m : M U A) (Q : A -> Prop) : gives I m Q -> keeps I m.
Proof. intros H. by eapply gives_weaken. Qed.

Lemma inv_load l : keeps I (load l).  Proof. by intros w Hw. Qed.
Lemma inv_update l f : keeps I (update l f).  Proof. by intros w Hw. Qed.
Lemma inv_alloc m : keeps I (alloc m).  Proof. by intros w Hw. Qed.
Lemma inv_draw : keeps I draw_id.  Proof. by intros w Hw. Qed.
Lemma inv_now : keeps I now.  Proof. by intros w Hw. Qed.
Lemma inv_clone l : keeps I (clone_msg l).
Proof. apply (gives_bind _ _ (fun _ => True)); [apply inv_load|]. intros m _. apply inv_alloc. Qed.
End rules.

(** What keeps an invariant of the application keeps it under the run. *)
Lemma gives_up {V A} (I : V -> Prop) (m : M V A) (Q : A -> Prop) : gives I m Q -> gives (fun h => I (h_app h)) (up m) Q.
Proof.
  intros Hm w Hw. specialize (Hm (on_app w) Hw). unfold up. by destruct (m (on_app w)) as [w' [a|e]].
Qed.
Lemma next_beat_app {V} (I : V -> Prop) : keeps (fun h => I (h_app h)) (next_beat (V := V)).
Proof.
  intros w Hw. unfold next_beat. destruct (h_beats (usr w)) as [|b beats]; [done|].
  by destruct (arrive (bt_arrivals b) (h_run (usr w))).
Qed.
Lemma on_lock_app {V A} (I : V -> Prop) (f : agentRun -> agentRun * A) : keeps (fun h => I (h_app h)) (on_lock (V := V) f).
Proof. intros w Hw. unfold on_lock. by destruct (f (h_run (usr w))). Qed.
Lemma locked_app {V A} (I : V -> Prop) (f : agentRun -> agentRun * A) : keeps (fun h => I (h_app h)) (locked (V := V) f).
Proof. apply (gives_bind _ _ _ (fun _ => True)); [apply next_beat_app|]. intros ? _. apply on_lock_app. Qed.

Create HintDb triples discriminated.
#[export] Hint Resolve gives_fail inv_lift inv_load inv_update inv_alloc inv_draw inv_now inv_clone
  next_beat_app on_lock_app locked_app : triples.

(** Walking a computation bind by bind; what is left are the calls that are not
    the engine's own. *)
Ltac gives_step :=
  first
    [ match goal with |- gives _ (mret _) ?Q => is_evar Q; apply inv_ret end
    | apply gives_ret; try done
    | apply gives_fail
    | apply gives_up
    | apply gives_wrapping
    | match goal with
      | |- forall _, _ -> gives _ _ _ => intros ? ?
      | |- gives _ (attempt _ ≫= _) _ => eapply gives_bind; [apply gives_attempt|]
      | |- gives _ (_ ≫= _) _ => eapply gives_bind
      | |- gives _ (if ?b then _ else _) _ => destruct b eqn:?
      | |- gives _ (let '(_, _) := ?p in _) _ => destruct p
      | |- gives _ (match ?x with _ => _ end) _ => destruct x eqn:?
      end ].
