(* ===== verification/Replay.v ===== *)
(** Every conversation an agent sends, and every transcript it stores, is one a
    provider accepts. *)
From S2P Require Import Prelude GoStr F64 GoTime Message Config Store Expr Engine Builder KV Aggregate Cache Sha256.
From S2P Require Import Transcript AgentRun MemoryStore AgentMemory AgentSession Attachments AgentTurn Agent Triples.
From Stdlib Require Import String Ascii.
#[local] Open Scope string_scope.
#[local] Open Scope Z_scope.

(** ** What the surroundings of an agent are relied on for *)
Definition resumable (msgs : list LLMMessage) : Prop := msgs = [] \/ replayable msgs = true.
Definition kept_transcript (p : payload) : Prop :=
  match decodeMemory p with Ok env => resumable (me_Messages env) | Err _ => True end.

(** A response's transcript turn is an assistant's and carries the calls of the
    response; a refusal asks for nothing. *)
Definition sane (resp : LLMResponse) : Prop :=
  lm_ToolCalls (rs_Raw resp) = rs_ToolCalls resp /\ is_role LLMRoleAssistant (rs_Raw resp) = true /\
  (rs_StopReason resp = LLMStopRefusal -> rs_ToolCalls resp = []).

Definition flow_of {V} (a : aiAgent V) (p : processor V) : Prop :=
  (exists name, aa_branches a !! name = Some p) \/ aa_guardrail a = Some p \/ aa_namer a = Some p \/
  (exists em, aa_events a = Some em /\ em_flow em = p).

(** [I] is kept by everything the agent calls, provided that it sends replayable
    conversations and stores replayable transcripts; what it stored reads back as
    one. *)
Record serves {V} `{!KV payload V} `{!AgentMemory payload V} (I : V -> Prop) (a : aiAgent V) : Prop := {
  ok_client rq : replayable (rq_Messages rq) = true -> gives I (ca_client (aa_caller a) rq) sane;
  ok_streamer s rq on : ca_streamer (aa_caller a) = Some s -> replayable (rq_Messages rq) = true ->
    (forall ev, keeps I (on ev)) -> gives I (s rq ≫= read_on on) sane;
  ok_flow p l : flow_of a p -> keeps I (p l);
  ok_load_working r : gives I (mem_LoadWorking r) (fun o => match o with Some wm => kept_transcript (wm_Payload wm) | None => True end);
  ok_save_working r wm : kept_transcript (wm_Payload wm) -> keeps I (mem_SaveWorking r wm);
  ok_get ns key : gives I (kv_Get ns key) (fun o => match o with Some e => kept_transcript (e_Value e) | None => True end);
  ok_set ns key p expected : kept_transcript p -> keeps I (kv_Set ns key p expected);
  ok_delete ns key expected : keeps I (kv_Delete ns key expected);
  ok_append r turns : keeps I (mem_AppendTurns r turns);
  ok_title r title : keeps I (mem_SetTitle r title);
  ok_memories r : keeps I (mem_Memories r);
  ok_put r name value expected : keeps I (mem_PutMemory r name value expected);
  ok_forget r name : keeps I (mem_DeleteMemory r name);
  ok_search q : keeps I (mem_Search q);
}.

(** ** Transcripts *)
Lemma sane_raw resp : sane resp -> is_role LLMRoleTool (rs_Raw resp) = false /\ is_role LLMRoleUser (rs_Raw resp) = false.
Proof. intros (_ & H & _). unfold is_role in *. apply String.eqb_eq in H. by rewrite H. Qed.

Lemma replayable_split msgs : replayable msgs = true <-> opens_on_user msgs = true /\ paired msgs = true.
Proof. unfold replayable. by rewrite andb_true_iff. Qed.

Lemma opens_app l1 l2 : opens_on_user l1 = true -> opens_on_user (l1 ++ l2)%list = true.
Proof. by destruct l1. Qed.

Lemma replayable_app l1 l2 : replayable l1 = true -> paired l2 = true -> replayable (l1 ++ l2)%list = true.
Proof. rewrite !replayable_split. intros [Ho Hp] H. split; [by apply opens_app|by apply paired_app]. Qed.

Lemma paired_plain_turn m : is_role LLMRoleTool m = false -> lm_ToolCalls m = [] -> paired [m] = true.
Proof. intros. by rewrite paired_plain. Qed.

Lemma storable_user msgs m : resumable msgs -> is_role LLMRoleUser m = true -> lm_ToolCalls m = [] ->
  replayable (msgs ++ [m])%list = true.
Proof.
  intros [->|H] Hm Hc.
  - apply replayable_split. cbn [app opens_on_user]. split; [done|]. by apply paired_plain_turn; [apply user_not_tool|].
  - apply replayable_app; [done|]. by apply paired_plain_turn; [apply user_not_tool|].
Qed.

Lemma replayable_user msgs text : replayable msgs = true -> replayable (msgs ++ [user_turn text])%list = true.
Proof. intros H. apply storable_user; [by right|done..]. Qed.

Lemma replayable_raw msgs resp : replayable msgs = true -> sane resp -> rs_ToolCalls resp = [] ->
  replayable (msgs ++ [rs_Raw resp])%list = true.
Proof.
  intros H Hs Hc. apply replayable_app; [done|]. destruct (sane_raw _ Hs) as [Ht _].
  apply paired_plain_turn; [done|]. by rewrite (proj1 Hs).
Qed.

Lemma replayable_exchange msgs resp results : replayable msgs = true -> sane resp -> rs_ToolCalls resp <> [] ->
  map tr_ToolCallID results = map tc_ID (rs_ToolCalls resp) ->
  replayable ((msgs ++ [rs_Raw resp]) ++ [tool_turn results])%list = true.
Proof.
  intros H Hs Hc Hr. rewrite <-app_assoc. apply replayable_app; [done|]. destruct (sane_raw _ Hs) as [Ht Hu].
  cbn [app]. rewrite paired_exchange; [done|done|done| |done| |done].
  - by rewrite (proj1 Hs).
  - unfold answers_calls. by rewrite (proj1 Hs).
Qed.

Lemma paired_shed msgs : paired msgs = true -> paired (map shed msgs) = true.
Proof.
  revert msgs. apply paired_ind; [done|..].
  - intros m rest Hm Hc _ IH. cbn [map]. by rewrite paired_plain.
  - intros m t rest Hm Hu Hc Ht Ha Hn _ IH. cbn [map]. by rewrite paired_exchange.
Qed.
Lemma replayable_shed msgs : replayable msgs = true -> replayable (map shed msgs) = true.
Proof.
  rewrite !replayable_split. intros [Ho Hp]. split; [|by apply paired_shed]. by destruct msgs.
Qed.

Lemma prune_replayable msgs n meter : replayable msgs = true -> replayable (pruneMemory msgs n meter) = true.
Proof.
  intros [Ho Hp]%replayable_split. destruct (prune_shape msgs n meter) as (Hs & _ & Hn & Hopen).
  eapply suffix_replayable; [done..|]. apply Hopen. intros H. apply Hn, last_exchange_none in H.
  destruct msgs as [|m msgs]; [done|]. apply Forall_cons in H as [H _]. cbn in Ho. congruence.
Qed.

Lemma encode_kept env : resumable (me_Messages env) -> kept_transcript (encode_memory env).
Proof. done. Qed.

Lemma preamble_replayable preamble msgs : preamble = [] \/ (exists text, preamble = [user_turn text]) ->
  replayable msgs = true -> replayable (withPreamble preamble msgs) = true.
Proof.
  unfold withPreamble. intros [->|[text ->]] H; [done|]. apply replayable_app; [done|].
  by apply replayable_split in H as [_ ?].
Qed.

Section replay.
Context {V : Type} `{!KV payload V} `{!AgentMemory payload V} `{!JSON} (I : V -> Prop) (a : aiAgent V) (HS : serves I a).

Lemma flow_keeps p l : flow_of a p -> keeps I (p l).  Proof. apply HS. Qed.
Lemma delete_keeps ns key expected : keeps I (kv_Delete ns key expected).  Proof. apply HS. Qed.
Lemma append_keeps r turns : keeps I (mem_AppendTurns r turns).  Proof. apply HS. Qed.
Lemma title_keeps r title : keeps I (mem_SetTitle r title).  Proof. apply HS. Qed.
Lemma memories_keeps r : keeps I (mem_Memories r).  Proof. apply HS. Qed.
Lemma put_keeps r name value expected : keeps I (mem_PutMemory r name value expected).  Proof. apply HS. Qed.
Lemma forget_keeps r name : keeps I (mem_DeleteMemory r name).  Proof. apply HS. Qed.
Lemma search_keeps q : keeps I (mem_Search q).  Proof. apply HS. Qed.
#[local] Hint Resolve flow_keeps delete_keeps append_keeps title_keeps memories_keeps put_keeps forget_keeps search_keeps : triples.
#[local] Hint Extern 1 (flow_of _ _) => unfold flow_of; naive_solver : triples.
#[local] Ltac walk := repeat (gives_step; try (solve [eauto with triples])).

(** ** The observer path *)
Lemma event_message_keeps parent kind fields : keeps I (event_message parent kind fields).
Proof. unfold event_message. walk. Qed.

#[local] Hint Resolve event_message_keeps : triples.

Lemma emitter_keeps parent kind fields : keeps I (emitter_Send (aa_events a) parent kind fields).
Proof. unfold emitter_Send. destruct (aa_events a) as [em|] eqn:Eem; walk. Qed.
#[local] Hint Resolve emitter_keeps : triples.

Lemma agent_report_keeps msg iter kind fields : keeps I (agent_report a msg iter kind fields).
Proof. unfold agent_report. walk. Qed.
#[local] Hint Resolve agent_report_keeps : triples.
Lemma report_keeps msg iter kind fields : keeps (fun h => I (h_app h)) (host_report a msg iter kind fields).
Proof. apply gives_up, agent_report_keeps. Qed.
#[local] Hint Resolve report_keeps : triples.

(** ** Compaction *)
Lemma complete_sane rq : replayable (rq_Messages rq) = true -> gives I (complete (aa_caller a) rq) sane.
Proof. apply HS. Qed.

Lemma compact_gives msgs n strategy meter : paired msgs = true ->
  gives I (compactMemory (aa_caller a) msgs n strategy meter)
    (fun out => paired out = true /\ (replayable msgs = true -> replayable out = true)).
Proof.
  intros Hp. unfold compactMemory. destruct (_ || _); [by apply gives_ret|]. destruct (String.eqb _ _).
  - assert (forall cut, cut = summary_cut msgs n meter -> replayable (summary_turn "x" :: drop cut msgs) = true) as Hcut.
    { intros ? ->. by apply summary_replayable. }
    unfold summarizeMemory. destruct (summary_cut msgs n meter) as [|cut] eqn:Ecut; [by apply gives_ret|].
    eapply gives_bind; [eapply gives_attempt, gives_bind; [by apply complete_sane|]; intros; by apply (gives_ret _ _ (fun _ => True))|].
    intros summary _. apply gives_ret. specialize (Hcut _ eq_refl).
    assert (forall text, replayable (summary_turn text :: drop (S cut) msgs) = true) as Htext by done.
    destruct summary as [summary|]; [|split; [by apply prune_paired|apply prune_replayable]].
    destruct (String.eqb summary ""); [split; [by apply prune_paired|apply prune_replayable]|].
    split; [|done]. specialize (Htext summary). by apply replayable_split in Htext as [_ ?].
  - apply gives_ret. split; [by apply prune_paired|apply prune_replayable].
Qed.

(** ** The session *)
Lemma get_gives ns key :
  gives I (kv_Get ns key) (fun o => match o with Some e => kept_transcript (e_Value e) | None => True end).
Proof. apply HS. Qed.
Lemma load_working_gives r :
  gives I (mem_LoadWorking r) (fun o => match o with Some wm => kept_transcript (wm_Payload wm) | None => True end).
Proof. apply HS. Qed.
Lemma set_keeps ns key p expected : kept_transcript p -> keeps I (kv_Set ns key p expected).
Proof. apply HS. Qed.
Lemma save_working_keeps r wm : kept_transcript (wm_Payload wm) -> keeps I (mem_SaveWorking r wm).
Proof. apply HS. Qed.

Lemma load_memory_gives ns thread : gives I (loadMemory ns thread) (fun env => resumable (me_Messages env)).
Proof.
  unfold loadMemory. eapply gives_bind; [apply get_gives|]. intros [e|] He; [|by apply gives_ret; left].
  apply gives_lift. intros env Henv. unfold kept_transcript in He. by rewrite Henv in He.
Qed.

Lemma save_memory_keeps ns thread env : resumable (me_Messages env) -> keeps I (saveMemory ns thread env).
Proof.
  intros Hk. unfold saveMemory. generalize memoryWriteAttempts. intros n. induction n as [|n IH]; cbn [saveMemory_loop]; [walk|].
  eapply gives_bind; [apply get_gives|]. intros entry _.
  eapply gives_bind; [apply gives_attempt, set_keeps, (encode_kept env), Hk|]. intros written _. walk.
Qed.

Lemma save_over_keeps s wm : kept_transcript (wm_Payload wm) -> keeps I (saveOver s wm).
Proof.
  intros Hk. unfold saveOver. eapply gives_bind; [apply gives_attempt; by apply save_working_keeps|]. intros r _.
  destruct r; [walk|]. destruct (error_is _ _); [|walk]. eapply gives_bind; [apply load_working_gives|]. intros current _.
  by apply save_working_keeps.
Qed.

Lemma write_working_keeps s env iter : resumable (me_Messages env) -> keeps I (writeWorking a s env iter).
Proof.
  intros Hk. unfold writeWorking. destruct (ms_blind s); [walk|].
  eapply gives_bind; [by apply save_over_keeps|]. intros next _. unfold dropLegacy. walk.
Qed.

Lemma checkpoint_keeps s transcript meter iter : replayable transcript = true -> keeps I (offerCheckpoint a s transcript meter iter).
Proof.
  intros Hk. unfold offerCheckpoint. destruct (negb _); [walk|]. eapply gives_bind; [apply inv_now|]. intros t _.
  destruct (negb _); [walk|]. eapply gives_bind; [apply inv_now|]. intros t' _.
  eapply gives_bind; [apply gives_attempt, write_working_keeps; by right|]. walk.
Qed.

Lemma ask_for_name_keeps s namer msg answer : aa_namer a = Some namer -> keeps I (askForName s namer msg answer).
Proof. intros Hn. unfold askForName. walk. Qed.
#[local] Hint Resolve ask_for_name_keeps : triples.
Lemma name_thread_keeps s msg answer iterations : keeps I (nameThread a s msg answer iterations).
Proof. unfold nameThread. destruct (aa_namer a) eqn:En; walk. Qed.
#[local] Hint Resolve name_thread_keeps : triples.
Lemma record_turn_keeps s msg answer iterations reason : keeps I (recordTurn a s msg answer iterations reason).
Proof. unfold recordTurn. walk. Qed.
#[local] Hint Resolve record_turn_keeps : triples.

Lemma load_working_memory_gives s : gives I (loadWorkingMemory a s) (fun r => resumable (me_Messages r.2)).
Proof.
  assert (gives I (loadHistory a (ms_thread s)) (fun env => resumable (me_Messages env))) as Hh.
  { unfold loadHistory. destruct (String.eqb _ _); [by apply gives_ret; left|]. apply gives_wrapping, load_memory_gives. }
  unfold loadWorkingMemory. destruct (negb _).
  - eapply gives_bind; [exact Hh|]. intros env He. by apply gives_ret.
  - eapply gives_bind; [apply gives_attempt, load_working_gives|]. intros [[wm|]|e] Hw; [| |by apply gives_ret; left].
    + apply gives_ret. cbn. unfold kept_transcript in Hw. destruct (decodeMemory _); [done|by left].
    + eapply gives_bind; [exact Hh|]. intros env He. by apply gives_ret.
Qed.

Lemma new_session_keeps msg thread : keeps I (newMemorySession a msg thread).
Proof. unfold newMemorySession. walk. Qed.

Lemma persist_keeps s transcript meter strategy : replayable transcript = true -> keeps I (persistMemory a s transcript meter strategy).
Proof.
  intros Hr. unfold persistMemory. destruct (aa_memoryThreadID a); [|walk].
  eapply gives_bind; [apply compact_gives; by apply replayable_split in Hr as [_ ?]|]. intros out [_ Ho].
  destruct (active s); (eapply gives_bind; [apply gives_attempt|walk]).
  - apply write_working_keeps. right. by apply Ho.
  - apply save_memory_keeps. right. by apply Ho.
Qed.

Lemma init_gives msg thread : gives I (initConversation a msg thread) (fun r => replayable r.1.2 = true).
Proof.
  unfold initConversation. eapply gives_bind; [apply new_session_keeps|]. intros s _.
  eapply gives_bind; [apply inv_load|]. intros m _. eapply gives_bind; [apply inv_lift|]. intros opening _.
  eapply gives_bind; [apply inv_lift|]. intros files _.
  eapply gives_bind; [apply load_working_memory_gives|]. intros [s' stored] Hst. apply gives_ret. by apply storable_user.
Qed.

Lemma preamble_gives s : gives I (memoryPreamble a s) (fun p => p = [] \/ exists text, p = [user_turn text]).
Proof.
  unfold memoryPreamble. destruct (_ || _); [by apply gives_ret; left|].
  eapply gives_bind; [apply gives_attempt, memories_keeps|]. intros [[|m ms]|e] _; apply gives_ret; eauto.
Qed.

(** ** The turn *)
#[local] Abbreviation J := (fun h : host V => I (h_app h)).

Lemma inject_gives msg messages iter texts : replayable messages = true ->
  gives J (inject a msg messages iter texts) (fun out => replayable out = true).
Proof.
  revert messages. induction texts as [|t texts IH]; intros messages Hr; cbn [inject]; [by apply gives_ret|].
  eapply gives_bind; [apply report_keeps|]. intros _ _. apply IH. by apply replayable_user.
Qed.

Lemma fit_gives msg messages iter meter reserved : replayable messages = true ->
  gives J (fitContext a msg messages iter meter reserved) (fun out => replayable out = true).
Proof.
  intros Hr. pose proof (proj1 (replayable_split _) Hr) as [Ho Hp].
  assert (forall before after dropped, keeps J (endCompaction a msg iter before after dropped)) as Hend.
  { intros. unfold endCompaction. walk. }
  unfold fitContext. destruct (_ || _); [by apply gives_ret|]. cbv zeta.
  match goal with |- gives _ (if ?b then _ else _) _ => destruct b end; [by apply gives_ret|].
  eapply gives_bind; [apply report_keeps|]. intros _ _.
  destruct (drop _ (take _ messages)) as [|x head] eqn:Ehead.
  { eapply gives_bind; [apply Hend|]. intros _ _. by apply gives_ret. }
  destruct (_ <=? 0); [eapply gives_bind; [apply Hend|]; intros _ _; by apply gives_ret|].
  destruct (protected_split _ Hp) as (Hpt & Hpd & Hpos).
  destruct messages as [|u messages]; [done|]. unfold opening_length in *. rewrite Ho in *.
  specialize (Hpos eq_refl). destruct (protectedSuffix (u :: messages)) as [|keep] eqn:Ek; [lia|].
  cbn [take drop] in *. rewrite drop_0 in Ehead. cbn in Ho.
  assert (lm_ToolCalls u = []) as Hu.
  { apply paired_cons in Hp as [_ [[? _]|[? _]]]; [done|congruence]. }
  assert (paired (x :: head) = true) as Hh.
  { rewrite <-Ehead. by apply (paired_user u). }
  eapply gives_bind; [apply gives_up, compact_gives, Hh|]. intros out [Hout _].
  eapply gives_bind; [apply Hend|]. intros _ _. apply gives_ret. rewrite take_0. cbn [app]. apply replayable_split.
  split; [done|]. rewrite paired_plain by (done || by apply user_not_tool). by apply paired_app.
Qed.

Lemma on_delta_keeps current iter ev :
  keeps I (match deltaKinds (se_Kind ev) with
      | None => mret tt
      | Some kind =>
          if negb (Wants (aa_events a) kind) then mret tt
          else stop ← agent_report a current iter kind (deltaFields ev); if (stop : bool) then fail errEventStop else mret tt
      end).
Proof. walk. Qed.

Lemma complete_turn_sane rq current iter : replayable (rq_Messages rq) = true -> gives I (completeTurn a rq current iter) sane.
Proof.
  intros Hr. unfold completeTurn. destruct (negb _); [by apply complete_sane|].
  unfold stream. destruct (ca_streamer (aa_caller a)) as [s|] eqn:Es; [|walk].
  eapply ok_streamer; [done..|]. apply on_delta_keeps.
Qed.

Lemma call_model_gives iter current messages preamble : replayable (withPreamble preamble messages) = true ->
  gives I (callModel a iter current messages preamble)
    (fun r => match r.1 with Some resp => sane resp | None => r.2 <> None end).
Proof.
  intros Hr. unfold callModel. eapply gives_bind; [apply agent_report_keeps|]. intros stop _.
  destruct stop; [by apply gives_ret|].
  eapply gives_bind; [apply gives_attempt, complete_turn_sane, Hr|]. intros [resp|e] Hs.
  - eapply gives_bind; [apply agent_report_keeps|]. intros stop _. by apply gives_ret.
  - eapply gives_bind; [walk|]. intros _ _. by apply gives_ret.
Qed.

(** *** The tools *)
Lemma memory_tool_gives call s :
  gives I (runMemoryTool a call s) (fun r => match r with Some res => tr_ToolCallID res = tc_ID call | None => True end).
Proof.
  assert (forall name, keeps I (findMemory s name)) as Hfind by (intros; unfold findMemory; walk).
  assert (forall name value, gives I (remember s call name value) (fun res => tr_ToolCallID res = tc_ID call)) as Hr.
  { intros name value. unfold remember. repeat (case_match; [by apply gives_ret|]).
    eapply gives_bind; [apply gives_attempt, put_keeps|]. intros [?|e] _; [by apply gives_ret|].
    destruct (error_is _ _); [|by apply gives_ret]. eapply gives_bind; [apply gives_attempt, Hfind|].
    intros [?|?] _; [|by apply gives_ret]. eapply gives_bind; [apply gives_attempt, put_keeps|].
    intros [?|?] _; by apply gives_ret. }
  assert (forall name, gives I (forget_memory s call name) (fun res => tr_ToolCallID res = tc_ID call)) as Hf.
  { intros name. unfold forget_memory. case_match; [by apply gives_ret|].
    eapply gives_bind; [apply gives_attempt, forget_keeps|]. intros [?|?] _; by apply gives_ret. }
  assert (forall query, gives I (searchMemory s call query) (fun res => tr_ToolCallID res = tc_ID call)) as Hq.
  { intros name. unfold searchMemory. case_match; [by apply gives_ret|].
    eapply gives_bind; [apply gives_attempt, search_keeps|]. intros [[|? ?]|?] _; by apply gives_ret. }
  unfold runMemoryTool. case_match; [by apply gives_ret|]. case_match; [by apply gives_ret|].
  destruct (decode_args _) as [[[name value] query]|e]; [|by apply gives_ret].
  eapply gives_bind; [|intros r Hres; apply gives_ret; exact Hres].
  destruct (String.eqb _ _); [apply Hr|]. destruct (String.eqb _ _); [apply Hf|apply Hq].
Qed.

Lemma load_skill_id call m : tr_ToolCallID (loadSkill a call m) = tc_ID call.
Proof. unfold loadSkill. by repeat (case_match; try done). Qed.

Lemma branch_keeps flow args current : flow_of a flow -> keeps I (dispatchToolBranch flow args current).
Proof. intros Hf. unfold dispatchToolBranch. walk. Qed.

Lemma dispatch_gives call current base s :
  gives I (dispatchTool a call current base s) (fun r => tr_ToolCallID r.1 = tc_ID call).
Proof.
  unfold dispatchTool. destruct (String.eqb _ _).
  { eapply gives_bind; [apply inv_load|]. intros m _. apply gives_ret. apply load_skill_id. }
  eapply gives_bind; [apply memory_tool_gives|]. intros [res|] Hres; [by apply gives_ret|].
  destruct (aa_branches a !! _) as [flow|] eqn:Ef; [|by apply gives_ret].
  eapply gives_bind; [walk|]. intros _ _. eapply gives_bind; [apply inv_update|]. intros _ _.
  eapply gives_bind; [apply inv_update|]. intros _ _.
  eapply gives_bind; [apply branch_keeps; left; eauto|]. intros [[content out] errMsg] _. apply gives_ret.
  by destruct (String.eqb errMsg "").
Qed.

Lemma the_answers_keeps : keeps J the_answers.  Proof. by intros w Hw. Qed.
#[local] Hint Resolve the_answers_keeps : triples.

Lemma gate_gives iter call current :
  gives J (agent_gate a iter call current) (fun r => match r.1 with Some res => tr_ToolCallID res = tc_ID call | None => True end).
Proof.
  assert (forall id, keeps J (await_answer a current iter id)) as Hw by (intros; unfold await_answer; walk).
  assert (forall id, keeps J (askAuthorization a iter id call current)) as Hask.
  { intros id. unfold askAuthorization. walk. }
  unfold agent_gate. destruct (aa_gates a !! _) as [program|]; [|by apply gives_ret].
  eapply gives_bind; [apply gives_up, inv_load|]. intros m _.
  destruct (gateApplies _ _ _) as [[]|e]; [|by apply gives_ret..].
  eapply gives_bind; [apply gives_up; unfold mintAuthorizationID; walk|]. intros id _.
  eapply gives_bind; [apply Hask|]. intros [[] stopped] _; by apply gives_ret.
Qed.

Lemma tools_from_gives iter calls current base s results stopped :
  gives J (runTools_from a iter calls current base s results stopped)
    (fun r => map tr_ToolCallID r.1.1 = (map tr_ToolCallID results ++ map tc_ID calls)%list).
Proof.
  revert current results stopped. induction calls as [|call calls IH]; intros current results stopped; cbn [runTools_from].
  { apply gives_ret. by rewrite app_nil_r. }
  eapply gives_bind; [apply report_keeps|]. intros s1 _.
  eapply gives_bind; [apply gate_gives|]. intros [denied halted] Hd.
  eapply (gives_bind _ _ _ (fun r => tr_ToolCallID r.1 = tc_ID call)).
  { destruct denied; [by apply gives_ret|]. apply gives_up, dispatch_gives. }
  intros [res current'] Hres. eapply gives_bind; [apply report_keeps|]. intros s2 _.
  eapply gives_weaken; [apply IH|]. intros [[out ?] ?] Hout. cbn in *. rewrite Hout, map_app. cbn. by rewrite Hres, <-app_assoc.
Qed.

(** *** The queue *)
Definition answered_at (calls : list LLMToolCall) (results : list LLMToolResult) (i : nat) : Prop :=
  forall call, calls !! i = Some call -> exists res, results !! i = Some res /\ tr_ToolCallID res = tc_ID call.

Lemma answered_insert calls results i j res :
  answered_at calls results j -> (forall call, calls !! i = Some call -> tr_ToolCallID res = tc_ID call) ->
  answered_at calls (<[ i := res ]> results) j.
Proof.
  intros Ha Hi call Hc. destruct (Ha call Hc) as (r & Hr & Hid). destruct (decide (i = j)) as [->|Hne].
  - exists res. split; [|by apply Hi]. apply list_lookup_insert_eq. by eapply lookup_lt_Some.
  - exists r. by rewrite list_lookup_insert_ne.
Qed.

Lemma answered_here calls results i res : (i < List.length results)%nat ->
  (forall call, calls !! i = Some call -> tr_ToolCallID res = tc_ID call) -> answered_at calls (<[ i := res ]> results) i.
Proof. intros Hl Hi call Hc. exists res. split; [by apply list_lookup_insert_eq|by apply Hi]. Qed.

Lemma all_answered calls results : List.length results = List.length calls -> (forall i, answered_at calls results i) ->
  map tr_ToolCallID results = map tc_ID calls.
Proof.
  intros Hl Ha. change (tr_ToolCallID <$> results = tc_ID <$> calls). apply list_eq. intros i. rewrite !list_lookup_fmap. destruct (calls !! i) as [call|] eqn:Ec.
  - destruct (Ha i call Ec) as (res & -> & Hid). cbn. by rewrite Hid.
  - apply lookup_ge_None in Ec. rewrite <-Hl in Ec. apply lookup_ge_None in Ec. by rewrite Ec.
Qed.

Definition queued (calls : list LLMToolCall) (i : nat) (results : list LLMToolResult) (queue : list nat) : Prop :=
  List.length results = List.length calls /\ (forall j, (j < i)%nat -> j ∈ queue \/ answered_at calls results j).

Lemma queue_gives iter all i calls current results queue stopped :
  drop i all = calls -> queued all i results queue ->
  gives J (queueTools a iter i calls current results queue stopped)
    (fun r => queued all (List.length all) r.1.1 r.1.2).
Proof.
  revert i results queue stopped. induction calls as [|call calls IH]; intros i results queue stopped Hd [Hl Hq]; cbn [queueTools].
  { apply gives_ret. split; [done|]. intros j Hj. apply Hq. pose proof (length_drop all i) as Hld. rewrite Hd in Hld. cbn in Hld. lia. }
  assert (all !! i = Some call) as Hi.
  { rewrite <-(Nat.add_0_r i), <-lookup_drop, Hd. done. }
  assert (drop (S i) all = calls) as Hd'.
  { replace (S i) with (i + 1)%nat by lia. rewrite <-drop_drop, Hd. done. }
  eapply gives_bind; [apply report_keeps|]. intros s1 _. eapply gives_bind; [apply gate_gives|]. intros [[res|] halted] Hg.
  - eapply gives_bind; [apply report_keeps|]. intros s2 _. apply IH; [done|].
    split; [by rewrite length_insert|]. intros j Hj.
    assert (forall c, all !! i = Some c -> tr_ToolCallID res = tc_ID c) as Hres by (intros c Hc; cbn in Hg; congruence).
    destruct (decide (j = i)) as [->|Hne].
    + right. apply answered_here; [|done]. rewrite Hl. by eapply lookup_lt_Some.
    + destruct (Hq j) as [|Ha]; [lia|by left|]. right. by apply answered_insert.
  - apply IH; [done|]. split; [done|]. intros j Hj. destruct (decide (j = i)) as [->|Hne].
    + left. set_solver.
    + destruct (Hq j) as [|Ha]; [lia| |by right]. left. set_solver.
Qed.

Lemma consume_gives call current base s : gives I (consume a call current base s) (fun r => tr_ToolCallID r.1 = tc_ID call).
Proof.
  unfold consume. eapply gives_bind; [apply inv_clone|]. intros b _. eapply gives_bind; [apply dispatch_gives|].
  intros [res out] Hres. eapply gives_bind; [apply inv_load|]. intros m _. eapply gives_bind; [apply inv_load|]. intros o _.
  by apply gives_ret.
Qed.

Lemma drain_gives iter calls current base s order results stopped :
  List.length results = List.length calls ->
  (forall j, j ∈ order \/ answered_at calls results j) ->
  gives J (drain a iter calls current base s order results stopped)
    (fun r => List.length r.1 = List.length calls /\ forall j, answered_at calls r.1 j).
Proof.
  revert results stopped. induction order as [|i order IH]; intros results stopped Hl Ha; cbn [drain].
  { apply gives_ret. split; [done|]. intros j. destruct (Ha j) as [Hj|]; [|done]. by apply elem_of_nil in Hj. }
  destruct (calls !! i) as [call|] eqn:Ec.
  - eapply gives_bind; [apply gives_up, consume_gives|]. intros [res stop] Hres.
    eapply gives_bind; [apply report_keeps|]. intros s' _. apply IH; [by rewrite length_insert|]. intros j.
    assert (forall c, calls !! i = Some c -> tr_ToolCallID res = tc_ID c) as Hi by (intros c Hc; cbn in Hres; congruence).
    destruct (decide (j = i)) as [->|Hne].
    + right. apply answered_here; [|done]. rewrite Hl. by eapply lookup_lt_Some.
    + destruct (Ha j) as [[->|Hj]%elem_of_cons|Hj]; [done|by left|]. right. by apply answered_insert.
  - apply IH; [done|]. intros j. destruct (Ha j) as [[->|Hj]%elem_of_cons|Hj]; [|by left|by right].
    right. intros call Hc. congruence.
Qed.

Context (sched : Scheduler) (Hsched : forall n, Permutation (sched n) (seq 0 n)).

Lemma scheduled (queue : list nat) i : i ∈ queue -> i ∈ omap (fun k => queue !! k) (sched (List.length queue)).
Proof.
  intros [k Hk]%list_elem_of_lookup. apply list_elem_of_omap. exists k. split; [|done].
  rewrite Hsched. apply elem_of_seq. apply lookup_lt_Some in Hk. lia.
Qed.

Lemma run_tools_gives iter calls current base s :
  gives J (runTools sched a iter calls current base s) (fun r => map tr_ToolCallID r.1.1 = map tc_ID calls).
Proof.
  unfold runTools. destruct (_ && _); [|apply tools_from_gives]. unfold runToolsParallel.
  eapply gives_bind; [apply (queue_gives iter calls); [done|]; split; [by rewrite length_replicate|lia]|].
  intros [[results queue] stopped] [Hl Hq]. cbn [fst snd] in *.
  eapply gives_bind; [apply (drain_gives iter calls); [done|]|].
  - intros j. destruct (decide (j < List.length calls)%nat) as [Hj|Hj].
    + destruct (Hq j Hj); [left; by apply scheduled|by right].
    + right. intros call Hc. apply lookup_lt_Some in Hc. lia.
  - intros [out stop] [Hlo Ha]. apply gives_ret. by apply all_answered.
Qed.

(** ** The loop *)
Definition going (e : turnEnd) : Prop := match e with Ended _ => True | Going s => replayable (st_messages s) = true end.

Lemma halt_keeps s messages current iter reason meter : replayable messages = true -> keeps I (halt a s messages current iter reason meter).
Proof.
  intros Hr. unfold halt. eapply gives_bind; [apply inv_update|]. intros _ _.
  eapply gives_bind; [apply record_turn_keeps|]. intros s' _. eapply gives_bind; [by apply persist_keeps|]. walk.
Qed.
Lemma signal_keeps s messages current iter meter : replayable messages = true -> keeps I (haltOnSignal a s messages current iter meter).
Proof. intros Hr. unfold haltOnSignal. eapply gives_bind; [apply agent_report_keeps|]. intros _ _. by apply halt_keeps. Qed.
Lemma failed_keeps s messages current iter meter e : replayable messages = true -> keeps J (callFailed a s messages current iter meter e).
Proof.
  intros Hr. unfold callFailed. eapply gives_bind; [apply locked_app|]. intros stopped _.
  destruct stopped; [by apply gives_up, signal_keeps|]. destruct (error_is _ _); [by apply gives_up, halt_keeps|]. walk.
Qed.
Lemma fallback_keeps msg iter reason : keeps I (fallback a msg iter reason).
Proof. unfold fallback. walk. Qed.

Lemma take_tool_turn_gives resp base iter s :
  replayable (st_messages s) = true -> sane resp -> rs_ToolCalls resp <> [] ->
  gives J (takeToolTurn sched a resp base iter (mkRunState (st_current s) (st_messages s ++ [rs_Raw resp])%list (st_meter s) (st_session s))) going.
Proof.
  intros Hr Hs Hc. unfold takeToolTurn. cbn [st_current st_messages st_meter st_session].
  eapply gives_bind; [apply run_tools_gives|]. intros [[results stopped] current] Hres. cbn in Hres.
  pose proof (replayable_exchange _ _ _ Hr Hs Hc Hres) as Hr'.
  eapply gives_bind; [by apply gives_up, checkpoint_keeps|]. intros sess _.
  eapply gives_bind; [apply locked_app|]. intros asked _. destruct asked.
  { eapply gives_bind; [by apply gives_up, signal_keeps|]. intros. by apply gives_ret. }
  eapply gives_bind; [apply gives_up, inv_load|]. intros m _. destruct (_ || _).
  - eapply gives_bind; [by apply gives_up, halt_keeps|]. intros. by apply gives_ret.
  - by apply gives_ret.
Qed.

Lemma finish_keeps s current messages meter resp iter : replayable messages = true ->
  keeps J (tryFinish a s current messages meter resp iter).
Proof.
  intros Hr. unfold tryFinish. eapply gives_bind; [apply locked_app|]. intros may _. destruct (negb may); [walk|].
  apply gives_up. eapply gives_bind; [apply inv_update|]. intros _ _. eapply gives_bind; [apply agent_report_keeps|]. intros _ _.
  eapply gives_bind; [apply record_turn_keeps|]. intros s' _. eapply gives_bind; [by apply persist_keeps|]. walk.
Qed.

Lemma refused_keeps msg iter s : replayable (st_messages s) = true -> keeps I (refused_turn a msg iter s).
Proof.
  intros Hr. unfold refused_turn. eapply gives_bind; [apply record_turn_keeps|]. intros s' _.
  eapply gives_bind; [by apply persist_keeps|]. intros _ _. apply fallback_keeps.
Qed.

Lemma stopped_replayable messages (resp : option LLMResponse) :
  replayable messages = true -> match resp with Some r => sane r | None => True end ->
  replayable (stoppedTranscript messages resp) = true.
Proof.
  intros Hr Hs. destruct resp as [resp|]; [|done]. cbn. destruct (rs_ToolCalls resp) eqn:E; [|done]. by apply replayable_raw.
Qed.

Lemma iteration_gives msg preamble base iter s :
  (preamble = [] \/ exists text, preamble = [user_turn text]) -> replayable (st_messages s) = true ->
  gives J (iteration sched a msg preamble base iter s) going.
Proof.
  intros Hpre Hr. unfold iteration.
  eapply gives_bind; [eapply gives_bind; [apply locked_app|intros texts _; by apply inject_gives]|]. intros messages Hm.
  eapply gives_bind; [by apply fit_gives|]. clear messages Hm. intros messages Hm.
  eapply gives_bind; [apply gives_up, call_model_gives; by apply preamble_replayable|]. intros [resp callErr] Hs. cbv zeta.
  assert (replayable (shedAttachments a messages iter) = true) as Hsh.
  { unfold shedAttachments. destruct (_ || _); [done|by apply replayable_shed]. }
  destruct callErr as [e|].
  { eapply gives_bind; [apply failed_keeps, stopped_replayable; [done|by destruct resp]|]. intros out _. by apply gives_ret. }
  destruct resp as [resp|]; [|done]. cbn [fst snd] in Hs.
  eapply (gives_bind _ _ _ (fun r => r.1 = (shedAttachments a messages iter ++ [rs_Raw resp])%list)).
  { apply gives_up. unfold absorbResponse. eapply gives_bind; [unfold collectMedia; walk|]. intros _ _. by apply gives_ret. }
  intros [messages' meter] Ho. cbn [fst] in Ho. subst messages'.
  destruct (String.eqb_spec (rs_StopReason resp) LLMStopRefusal) as [Href|_].
  { destruct Hs as (Hc & Hrole & Hnone). pose proof (conj Hc (conj Hrole Hnone) : sane resp) as Hs. specialize (Hnone Href).
    eapply gives_bind; [apply gives_up, refused_keeps; by apply replayable_raw|]. intros out _. by apply gives_ret. }
  destruct (rs_ToolCalls resp) as [|c calls] eqn:Ec.
  - eapply gives_bind; [apply finish_keeps; by apply replayable_raw|]. intros [out|] _; apply gives_ret; [done|].
    by apply replayable_raw.
  - apply (take_tool_turn_gives resp base iter (mkRunState (st_current s) (shedAttachments a messages iter) meter (st_session s)));
      [done..|by rewrite Ec].
Qed.

Lemma out_of_turns_keeps s : replayable (st_messages s) = true -> keeps J (outOfTurns a s).
Proof.
  intros Hr. assert (forall msg iter texts, keeps J (report_texts a msg iter texts)) as Hrep.
  { intros msg iter texts. induction texts; cbn; walk. }
  unfold outOfTurns, reportUnanswered. eapply gives_bind; [walk|]. intros _ _. apply gives_up.
  eapply gives_bind; [apply record_turn_keeps|]. intros s' _. eapply gives_bind; [by apply persist_keeps|]. intros _ _.
  apply fallback_keeps.
Qed.

Lemma iterations_keeps msg preamble base n s :
  (preamble = [] \/ exists text, preamble = [user_turn text]) -> replayable (st_messages s) = true ->
  keeps J (iterations sched a msg preamble base n s).
Proof.
  intros Hpre. revert s. induction n as [|n IH]; intros s Hr; cbn [iterations]; [by apply out_of_turns_keeps|].
  eapply gives_bind; [by apply iteration_gives|]. intros [out|s'] Hs; [by apply gives_ret|]. by apply IH.
Qed.

Lemma run_keeps msg threadID : keeps J (run_to_close sched a msg threadID).
Proof.
  unfold run_to_close. eapply gives_bind; [apply gives_attempt|].
  - unfold claimedRun. eapply gives_bind; [apply gives_up; unfold branchScopeBase; walk|]. intros base _.
    eapply gives_bind; [apply gives_up, init_gives|]. intros [[s messages] meter] Hm.
    eapply gives_bind; [apply gives_up, preamble_gives|]. intros preamble Hpre. by apply iterations_keeps.
  - intros r _. eapply gives_bind; [apply locked_app|]. intros _ _. apply gives_lift. done.
Qed.
End replay.

(** ** The block *)

(** What the process and the cluster do for a conversation keeps [I]. *)
Record reaches {V} `{!Conversations V} (I : V -> Prop) : Prop := {
  ok_offer key text : keeps I (cv_offer key text);
  ok_stop key : keeps I (cv_stop key);
  ok_answer key id allowed : keeps I (cv_answer key id allowed);
  ok_take key : keeps I (cv_take key);
  ok_release key : keeps I (cv_release key);
  ok_acquire key : keeps I (cv_Acquire key);
  ok_close key : keeps I (cv_Close key);
  ok_subscribe subject : keeps I (cv_Subscribe subject);
  ok_unsubscribe subject : keeps I (cv_Unsubscribe subject);
  ok_request subject body : keeps I (cv_Request subject body);
}.

Section block.
Context {V : Type} `{!KV payload V} `{!AgentMemory payload V} `{!JSON} `{!Conversations V}.
Context (I : V -> Prop) (a : aiAgent V) (HR : reaches I).

Lemma deliver_keeps key d : keeps I (deliver_to key d).
Proof.
  unfold deliver_to. eapply gives_bind; [apply inv_draw|]. intros id _. eapply gives_bind; [apply inv_lift|]. intros m _.
  eapply gives_bind; [apply gives_attempt; apply HR|]. intros [r|e] _; [by apply gives_ret|apply gives_fail].
Qed.
Lemma claim_across_keeps key : keeps I (claimAcross key).
Proof.
  unfold claimAcross. eapply gives_bind; [apply gives_wrapping; apply HR|]. intros ok _. destruct (negb ok); [by apply gives_ret|].
  eapply gives_bind; [apply gives_attempt; apply HR|]. intros [r|e] _; [by apply gives_ret|].
  eapply gives_bind; [apply gives_attempt; apply HR|]. intros _ _. apply gives_fail.
Qed.
Lemma claim_loop_keeps patience n key text : keeps I (claim_loop patience n key text).
Proof.
  induction n as [|n IH]; cbn [claim_loop]; [apply gives_fail|].
  eapply gives_bind; [apply claim_across_keeps|]. intros ok _. destruct ok.
  - eapply gives_bind; [apply HR|]. intros _ _. by apply gives_ret.
  - eapply gives_bind; [apply gives_attempt, deliver_keeps|]. intros r _.
    assert (forall o : option goerr, keeps I (match o with
        | Some e => fail (ErrWrap "waiting for the conversation's claim: " e "") | None => claim_loop patience n key text end)) as Hw.
    { intros [e|]; [apply gives_fail|apply IH]. }
    destruct r as [[]|e]; [by apply gives_ret|apply Hw|]. destruct (error_is _ _); [apply Hw|apply gives_fail].
Qed.
Lemma join_keeps patience msg : keeps I (joinOrClaim patience a msg).
Proof.
  assert (forall m, keeps I (x ← stopFlow m; mret (Reached x))) as Hstop.
  { intros m. unfold stopFlow. eapply gives_bind; [eapply gives_bind; [apply inv_update|intros; by apply inv_ret]|].
    intros. by apply gives_ret. }
  unfold joinOrClaim. eapply gives_bind; [apply inv_load|]. intros m _. eapply gives_bind; [apply inv_lift|]. intros thread _.
  destruct (String.eqb thread ""); [by apply gives_ret|]. cbv zeta. eapply gives_bind; [apply inv_lift|]. intros stop _.
  destruct stop.
  { eapply gives_bind; [|intros _ _; apply Hstop]. unfold runs_stop. eapply gives_bind; [apply HR|]. intros here _.
    destruct here; [by apply inv_ret|]. eapply gives_bind; [apply gives_attempt, deliver_keeps|]. intros. by apply gives_ret. }
  eapply (gives_bind _ _ _ (fun _ => True)).
  { unfold answerAuthorization. destruct (aa_authorizeID a); [|by apply gives_ret].
    eapply gives_bind; [apply inv_lift|]. intros id _. destruct (String.eqb _ _); [by apply gives_ret|]. cbv zeta.
    eapply gives_bind; [|intros; by apply gives_ret]. unfold runs_answer. eapply gives_bind; [apply HR|]. intros here _.
    destruct here; [by apply inv_ret|]. eapply gives_bind; [apply gives_attempt, deliver_keeps|]. intros. by apply gives_ret. }
  intros [answer|] _; [apply Hstop|]. eapply gives_bind; [apply inv_lift|]. intros text _.
  eapply (gives_bind _ _ _ (fun _ => True)); [|intros [] _; [by apply gives_ret|apply Hstop]].
  unfold offerOrClaim. eapply gives_bind; [apply HR|]. intros taken _. destruct taken; [by apply gives_ret|]. apply claim_loop_keeps.
Qed.
End block.


(** *** A run to see it on *)
Record desk : Type := mkDesk { dk_sent : list LLMRequest; dk_cell : option payload; dk_events : list any }.
Definition desk_sound (d : desk) : Prop :=
  Forall (fun rq => replayable (rq_Messages rq) = true) (dk_sent d) /\
  match dk_cell d with Some p => kept_transcript p | None => True end.

#[export] Instance desk_KV : KV payload desk := {
  kv_Get _ _ := fun w => (w, Ok ((fun p => mkEntry p 1) <$> dk_cell (usr w)));
  kv_Set _ _ p _ := fun w => (with_usr (mkDesk (dk_sent (usr w)) (Some p) (dk_events (usr w))) w, Ok 2);
  kv_Delete _ _ _ := mret tt;
}.
#[local] Instance desk_memory : AgentMemory payload desk := NoopAgentMemory.
#[local] Instance desk_JSON : JSON := { json_text _ := "{}"; json_parse _ := Ok (AMap ∅) }.
#[local] Instance desk_Conversations : Conversations desk := {
  cv_offer _ _ := mret false; cv_stop _ := mret false; cv_answer _ _ _ := mret false; cv_take _ := mret tt;
  cv_release _ := mret tt; cv_Acquire _ := mret true; cv_Close _ := mret tt; cv_Subscribe _ := mret tt;
  cv_Unsubscribe _ := mret tt; cv_Request _ _ := fail errNobodyHome;
}.

(** The model asks for the tool once and then answers. *)
Definition desk_call : LLMToolCall := mkToolCall "c1" "look" "{}" "".
Definition desk_reply (calls : list LLMToolCall) : LLMResponse :=
  mkResponse "done" calls (match calls with [] => LLMStopEndTurn | _ => LLMStopToolUse end)
    (mkLLMMessage LLMRoleAssistant "done" [] [] calls []) [] (Some (mkUsage 10 5 0 0 0 10 None)) "m".
Definition desk_client (rq : LLMRequest) : M desk LLMResponse := fun w =>
  (with_usr (mkDesk (dk_sent (usr w) ++ [rq])%list (dk_cell (usr w)) (dk_events (usr w))) w,
   Ok (desk_reply match dk_sent (usr w) with [] => [desk_call] | _ :: _ => [] end)).
Definition desk_agent : aiAgent desk := mkAgent (mkCaller desk_client None []) "sys" [] {[ "look" := fun l => mret (Some l) ]}
  None 3 1 "a" [] (fun _ => Err (ErrMsg "none")) (Some (fun _ => Ok (AStr "hello"))) None false "" (Some (fun _ => Ok (AStr "t1")))
  memoryCompactPrune "" None (fun _ => Ok tt) historyRecord false "user" "flow[a]" None ∅ None None 0 1000 None false None (fun _ => "").
Definition desk_world : world desk := mkWorld ∅ 1 (fun _ => Some "id") 0 (fun _ => 0) 0 (mkDesk [] None []) (mkObserved [] 0 0).
Definition desk_beats : list beat := [mkBeat [] WakeTimer; mkBeat [] WakeTimer; mkBeat [] WakeTimer; mkBeat [mkDelivery signalContext "and?" "" false] WakeTimer].
Definition desk_run : world desk * res (option nat) := agent_Process (seq 0) (fun _ => None) desk_beats desk_agent 0%nat desk_world.

Example desk_sends : map (fun rq => map lm_Role (rq_Messages rq)) (dk_sent (usr desk_run.1)) =
  [[LLMRoleUser]; [LLMRoleUser; LLMRoleAssistant; LLMRoleTool];
   [LLMRoleUser; LLMRoleAssistant; LLMRoleTool; LLMRoleAssistant; LLMRoleUser]].
Proof. vm_compute. reflexivity. Qed.

Lemma desk_serves : serves desk_sound desk_agent.
Proof.
  split; try done; try (intros; intros w Hw; done).
  - intros rq Hr w [Hs Hc]. cbn. split; [split; [|done]|].
    + apply Forall_app. split; [done|]. by repeat constructor.
    + destruct (dk_sent (usr w)); done.
  - intros p l [[name H]|[H|[H|[em [H _]]]]]; [|done..]. cbn in H. apply lookup_singleton_Some in H as [_ <-]. by apply gives_ret.
  - intros ns key w [Hs Hc]. cbn. split; [done|]. by destruct (dk_cell (usr w)).
  - intros ns key p expected Hp w [Hs Hc]. by cbn.
Qed.

Lemma desk_reaches : reaches desk_sound.
Proof. split; intros; intros w Hw; by cbn. Qed.

