(* ===== verification/AgentGate.v ===== *)
(** Who decides about a gated call, and what becomes of the messages a run
    accepts. *)
From S2P Require Import Prelude GoStr F64 GoTime Message Config Store Expr Engine Builder KV Aggregate Cache Sha256.
From S2P Require Import Transcript AgentRun MemoryStore AgentMemory AgentSession Attachments AgentTurn Agent Triples.
From Stdlib Require Import String Ascii.
#[local] Open Scope string_scope.
#[local] Open Scope Z_scope.

(** ** Triples on the run *)
Section run_rules.
Context {V : Type}.

(** What the application does leaves the run alone. *)
Lemma triple_up {A} (P : host V -> Prop) (m : M V A) :
  (forall h v, P h -> P (with_app v h)) -> triple P (up m) (fun _ => P) P.
Proof. intros HP w Hw. unfold up. destruct (m (on_app w)) as [w' [a|e]]; cbn; by apply HP. Qed.

Lemma triple_beat (P : host V -> Prop) (Q : wakeup -> host V -> Prop) E :
  (forall h, P h -> h_beats h = [] -> Q WakeTimer h) ->
  (forall h b beats a replies, P h -> h_beats h = b :: beats -> arrive (bt_arrivals b) (h_run h) = (a, replies) ->
     Q (bt_wake b) (mkHost a beats (h_replies h ++ replies)%list (h_app h))) ->
  triple P next_beat Q E.
Proof.
  intros H0 H1 w Hw. unfold next_beat. destruct (h_beats (usr w)) as [|b beats] eqn:Hb; [by apply H0|].
  destruct (arrive _ _) as [a replies] eqn:Ha. cbn. by eapply H1.
Qed.

Lemma triple_on_lock {A} (P : host V -> Prop) (f : agentRun -> agentRun * A) (Q : A -> host V -> Prop) E :
  (forall h a out, P h -> f (h_run h) = (a, out) -> Q out (mkHost a (h_beats h) (h_replies h) (h_app h))) ->
  triple P (on_lock f) Q E.
Proof. intros H w Hw. unfold on_lock. destruct (f (h_run (usr w))) as [a out] eqn:Hf. cbn. by eapply H. Qed.
End run_rules.

(** ** Answers come from people *)
Definition allows (id : string) (allowed : bool) (d : delivery) : Prop :=
  dl_signal d = signalAuthorize /\ dl_authorizationID d = id /\ dl_allowed d = allowed.

Lemma handle_answers d a a' ok id b : handleDelivery d a = (a', ok) -> ar_answers a' !! id = Some b ->
  ar_answers a !! id = Some b \/ (ok = true /\ allows id b d).
Proof.
  unfold handleDelivery, requestStop, authorize, run_offer.
  destruct (String.eqb (dl_signal d) signalStop); [by destruct (ar_done a); intros [= <- <-]; left|].
  destruct (String.eqb_spec (dl_signal d) signalAuthorize) as [Hs|_]; [|by destruct (ar_done a); intros [= <- <-]; left].
  destruct (decide _); intros [= <- <-]; cbn; [|by left]. destruct (decide (dl_authorizationID d = id)) as [<-|Hne].
  - rewrite lookup_insert_eq. intros [= <-]. by right.
  - rewrite lookup_insert_ne by done. by left.
Qed.

Lemma arrive_answers ds a a' replies id b : arrive ds a = (a', replies) -> ar_answers a' !! id = Some b ->
  ar_answers a !! id = Some b \/ exists d, (d, true) ∈ replies /\ allows id b d.
Proof.
  revert a replies. induction ds as [|d ds IH]; intros a replies; cbn [arrive]; [intros [= -> <-]; by left|].
  destruct (handleDelivery d a) as [a1 ok] eqn:Hd. destruct (arrive ds a1) as [a2 rs] eqn:Hr. intros [= -> <-] Hb.
  destruct (IH _ _ Hr Hb) as [H1|(d' & Hin & Ha)].
  - destruct (handle_answers _ _ _ _ _ _ Hd H1) as [?|[-> Ha]]; [by left|]. right. exists d. split; [constructor|done].
  - right. exists d'. split; [by constructor|done].
Qed.

(** The answer to [id] that is waiting was given after the first [n] replies. *)
Definition answered_since (id : string) (n : nat) {V} (h : host V) : Prop :=
  (n <= List.length (h_replies h))%nat /\
  (forall b, ar_answers (h_run h) !! id = Some b -> exists d, (d, true) ∈ drop n (h_replies h) /\ allows id b d).
(** It was [b]. *)
Definition person_said (id : string) (b : bool) (n : nat) {V} (h : host V) : Prop :=
  exists d, (d, true) ∈ drop n (h_replies h) /\ allows id b d.

Lemma said_later id b n {V} (h : host V) replies : (n <= List.length (h_replies h))%nat -> person_said id b n h ->
  exists d, (d, true) ∈ drop n (h_replies h ++ replies)%list /\ allows id b d.
Proof.
  intros Hn (d & Hin & Ha). exists d. split; [|done]. rewrite drop_app_le by done. apply elem_of_app. by left.
Qed.

Section agent_gate.
Context {V : Type} {JS : JSON} (a : aiAgent V).

Lemma beat_answers id n : triple (answered_since id n) (next_beat (V := V)) (fun _ => answered_since id n) (fun _ => False).
Proof.
  apply triple_beat; [done|]. intros h b beats a' replies [Hn Ha] _ Harr. split; cbn; [rewrite length_app; lia|].
  intros allowed Hb. destruct (arrive_answers _ _ _ _ _ _ Harr Hb) as [H|(d & Hin & H)].
  - apply said_later; [done|]. by apply Ha.
  - exists d. split; [|done]. rewrite drop_app_le by done. apply elem_of_app. by right.
Qed.

Lemma report_never_fails msg iter kind fields (w : world (host V)) :
  exists w' stop, host_report a msg iter kind fields w = (w', Ok stop) /\ usr w' = with_app (h_app (usr w')) (usr w).
Proof.
  assert (exists u stop, agent_report a msg iter kind fields (on_app w) = (u, Ok stop)) as (u & stop & Hu).
  { unfold agent_report, emitter_Send. destruct (negb (Wants _ _)); [eexists _, false; reflexivity|].
    destruct (aa_events a) as [em|]; [|eexists _, false; reflexivity].
    unfold mbind, M_bind, SM_bind, attempt.
    destruct (event_message _ _ _ _) as [w1 [l|e]]; [|eexists _, false; reflexivity].
    destruct (em_flow em l w1) as [w2 [[out|]|e]]; [eexists _, _; reflexivity|eexists _, false; reflexivity..]. }
  exists (hosted (usr w) u), stop. unfold host_report, up. by rewrite Hu.
Qed.

Lemma triple_report (P : host V -> Prop) msg iter kind fields E : (forall h v, P h -> P (with_app v h)) ->
  triple P (host_report a msg iter kind fields) (fun _ => P) E.
Proof.
  intros HP w Hw. destruct (report_never_fails msg iter kind fields w) as (w' & stop & -> & ->). by apply HP.
Qed.

Lemma answered_app id n (h : host V) v : answered_since id n h -> answered_since id n (with_app v h).
Proof. done. Qed.
Lemma said_app id b n (h : host V) v : person_said id b n h -> person_said id b n (with_app v h).
Proof. done. Qed.

Lemma await_allowed current iter id n :
  triple (answered_since id n) (await_answer a current iter id)
    (fun r h => (n <= List.length (h_replies h))%nat /\ (r = Allowed -> person_said id true n h)) (fun _ => False).
Proof.
  unfold await_answer. eapply triple_bind; [apply beat_answers|]. intros wake.
  eapply (triple_bind _ _ _ (fun answers h => answered_since id n h /\ answers = ar_answers (h_run h))); [by intros w Hw|].
  intros answers. destruct wake; [destruct (answers !! id) as [b|] eqn:Hb| |].
  - eapply triple_bind with (R := fun _ h => (n <= List.length (h_replies h))%nat /\ person_said id b n h).
    + eapply triple_weaken; [apply triple_report with (P := fun h => (n <= List.length (h_replies h))%nat /\ person_said id b n h)| | |].
      * done.
      * intros h [[Hn Hans] Heq]. split; [done|]. apply Hans. by rewrite <-Heq.
      * intros r h Hr. exact Hr.
      * intros h Hr. exact Hr.
    + intros _. apply triple_ret. intros h [Hn H]. split; [done|]. by destruct b.
  - apply triple_ret. intros h [[Hn _] _]. by split.
  - apply triple_ret. intros h [[Hn _] _]. by split.
  - apply triple_ret. intros h [[Hn _] _]. by split.
Qed.

Lemma locked_answers {A} id n (f : agentRun -> agentRun * A) :
  (forall r r' out b, f r = (r', out) -> ar_answers r' !! id = Some b -> ar_answers r !! id = Some b) ->
  triple (answered_since id n) (locked (V := V) f) (fun _ => answered_since id n) (fun _ => False).
Proof.
  intros Hf. unfold locked. eapply triple_bind; [apply beat_answers|]. intros wake. apply triple_on_lock.
  intros h r out [Hn Ha] Hr. split; [done|]. intros b Hb. apply Ha. by eapply Hf.
Qed.

Lemma ask_allowed id iter call current n :
  triple (fun h => (n <= List.length (h_replies h))%nat) (askAuthorization a iter id call current)
    (fun r h => r.1 = Allowed -> person_said id true n h) (fun _ => False).
Proof.
  unfold askAuthorization.
  eapply triple_bind with (R := fun _ => answered_since id n).
  { unfold locked. eapply triple_bind with (R := fun _ h => (n <= List.length (h_replies h))%nat).
    - apply triple_beat; [done|]. intros h b beats r replies Hn _ _. cbn. rewrite length_app. lia.
    - intros _. apply triple_on_lock. intros h r out Hn [= <- <-]. split; [done|]. cbn. intros b Hb.
      by rewrite lookup_delete_eq in Hb. }
  intros _. eapply triple_bind; [apply triple_report, answered_app|]. intros stop.
  eapply triple_bind with (R := fun r h => (n <= List.length (h_replies h))%nat /\ (r = Allowed -> person_said id true n h)).
  { destruct stop; [apply triple_ret; by intros h [Hn _]|apply await_allowed]. }
  intros answer. eapply triple_bind with (R := fun _ h => answer = Allowed -> person_said id true n h).
  - unfold locked. eapply triple_bind with (R := fun _ h => answer = Allowed -> person_said id true n h).
    + apply triple_beat; [by intros h [_ Hs]|]. intros h b beats r replies [Hn Hs] _ _ ->. by apply said_later; [|apply Hs].
    + intros _. apply triple_on_lock. intros h r out Hs _. exact Hs.
  - intros _. apply triple_ret. by intros h Hs.
Qed.
End agent_gate.

(** C22: a call to a gated tool is let through only when its condition says that
    it needs nobody, or when an authorization for this very call, minted for it,
    was accepted by the run after it was asked for and said yes; every other
    ending of the wait - a refusal, the clock, a stop, a closed connection, a
    condition that does not evaluate - is a denial, and asking never fails the
    run. *)
Theorem gate_needs_a_person {V} `{!JSON} (a : aiAgent V) iter call current (w : world (host V)) :
  exists w' denied stopped, agent_gate a iter call current w = (w', Ok (denied, stopped)) /\
  match aa_gates a !! tc_Name call, denied with
  | None, d => d = None
  | Some program, None =>
      gateApplies program call (peek (on_app w) current) = Ok false \/
      (gateApplies program call (peek (on_app w) current) = Ok true /\
       person_said (match ids w (idn w) with Some id => "auth_" ++ id | None => "" end) true
         (List.length (h_replies (usr w))) (usr w'))
  | Some program, Some d => exists reason, d = denialResult call reason
  end.
Proof.
  unfold agent_gate. destruct (aa_gates a !! tc_Name call) as [program|] eqn:Hg; [|eexists _, _, _; split; reflexivity].
  rewrite (SM_bind_ok _ _ _ _ _ (eq_refl : up (load current) w = (hosted (usr w) (on_app w), Ok (peek (on_app w) current)))).
  destruct (gateApplies program call (peek (on_app w) current)) as [[]|e] eqn:Ha; [|eexists _, _, _; split; [reflexivity|by left]|eexists _, _, _; split; [reflexivity|by eexists]].
  rewrite (SM_bind_ok _ _ _ _ _ (eq_refl : up mintAuthorizationID (hosted (usr w) (on_app w)) =
    (_, Ok match ids w (idn w) with Some id => "auth_" ++ id | None => "" end))).
  set (id := match ids w (idn w) with Some _ => _ | None => _ end). set (w1 := hosted _ _).
  pose proof (ask_allowed a id iter call current (List.length (h_replies (usr w))) w1 (Nat.le_refl _)) as Hask.
  unfold mbind, M_bind, SM_bind. destruct (askAuthorization a iter id call current w1) as [w2 [[answer stopped]|e]]; [|done].
  eexists _, _, _. split; [reflexivity|]. destruct answer as [|reason]; [|by eexists]. right. split; [done|]. by apply Hask.
Qed.
