(* ===== verification/AgentAccept.v ===== *)
(** What becomes of the messages a run accepts: [agentsignals.go] and the exits
    of the loop of [agent.go]. *)
From S2P Require Import Prelude GoStr F64 GoTime Message Config Store Expr Engine Builder KV Aggregate Cache Sha256.
From S2P Require Import Transcript AgentRun MemoryStore AgentMemory AgentSession Attachments AgentTurn Agent Triples AgentGate.
From Stdlib Require Import String Ascii.
#[local] Open Scope string_scope.
#[local] Open Scope Z_scope.

(** Over, with nothing left that was accepted and not taken. *)
Definition run_settled {V} (h : host V) : Prop := ar_done (h_run h) = true /\ ar_pending (h_run h) = [].

Lemma settled_app {V} (h : host V) v : run_settled h -> run_settled (with_app v h).
Proof. done. Qed.

Lemma settled_arrive {V} (h : host V) ds a replies :
  run_settled h -> arrive ds (h_run h) = (a, replies) -> ar_done a = true /\ ar_pending a = [] /\ taken_in replies = [].
Proof.
  intros [Hd Hp] Ha. destruct (arrive_pending _ _ _ _ Ha) as (Hp' & Hd' & Hc). destruct (Hc Hd) as [Hn _].
  rewrite Hp, Hn in Hp'. by rewrite Hd'.
Qed.

Section accept.
Context {V : Type} `{!KV payload V} `{!AgentMemory payload V} {JS : JSON} (a : aiAgent V).

Lemma settled_beat : triple run_settled (next_beat (V := V)) (fun _ => run_settled) (fun _ => False).
Proof.
  apply triple_beat; [done|]. intros h b beats r replies Hs _ Ha. by destruct (settled_arrive _ _ _ _ Hs Ha) as (? & ? & _).
Qed.
Lemma settled_locked {A} (f : agentRun -> agentRun * A) (Q : A -> Prop) :
  (forall r r' out, ar_done r = true -> ar_pending r = [] -> f r = (r', out) -> ar_done r' = true /\ ar_pending r' = [] /\ Q out) ->
  triple run_settled (locked (V := V) f) (fun out h => run_settled h /\ Q out) (fun _ => False).
Proof.
  intros Hf. unfold locked. eapply triple_bind; [apply settled_beat|]. intros wake. apply triple_on_lock.
  intros h r out [Hd Hp] Hr. by destruct (Hf _ _ _ Hd Hp Hr) as (? & ? & ?).
Qed.

(** A lock taken, with what arrived before it. *)
Lemma locked_run {A} (f : agentRun -> agentRun * A) (w : world (host V)) :
  exists replies r beats,
    ar_pending r = (ar_pending (h_run (usr w)) ++ taken_in replies)%list /\ ar_done r = ar_done (h_run (usr w)) /\
    locked f w = (with_usr (mkHost (f r).1 beats (h_replies (usr w) ++ replies)%list (h_app (usr w))) w, Ok (f r).2).
Proof.
  unfold locked, mbind, M_bind, SM_bind, next_beat, on_lock. destruct (h_beats (usr w)) as [|b beats] eqn:Hb.
  - exists [], (h_run (usr w)), []. rewrite !app_nil_r. split_and!; [done..|]. rewrite Hb. by destruct (f (h_run (usr w))).
  - destruct (arrive (bt_arrivals b) (h_run (usr w))) as [r replies] eqn:Ha. destruct (arrive_pending _ _ _ _ Ha) as (Hp & Hd & _).
    exists replies, r, beats. split_and!; [done..|]. cbn. by destruct (f r).
Qed.

Lemma inject_run msg messages iter texts (w : world (host V)) :
  exists w', inject a msg messages iter texts w = (w', Ok (messages ++ map user_turn texts)%list) /\
    usr w' = with_app (h_app (usr w')) (usr w).
Proof.
  revert messages w. induction texts as [|t texts IH]; intros messages w; cbn [inject map].
  - exists w. rewrite app_nil_r. split; [done|]. by destruct (usr w).
  - destruct (report_never_fails a msg iter eventSignal {[ fieldSignal := AStr signalContext; fieldText := AStr t ]} w) as (w1 & stop & Hr & Hu).
    rewrite (SM_bind_ok _ _ _ _ _ Hr). destruct (IH (messages ++ [user_turn t])%list w1) as (w2 & -> & Hu2).
    exists w2. rewrite <-app_assoc. split; [done|]. by rewrite Hu2, Hu.
Qed.

Lemma report_texts_run msg iter texts (w : world (host V)) :
  exists w', report_texts a msg iter texts w = (w', Ok tt) /\ usr w' = with_app (h_app (usr w')) (usr w).
Proof.
  revert w. induction texts as [|t texts IH]; intros w; cbn [report_texts].
  - exists w. split; [done|]. by destruct (usr w).
  - destruct (report_never_fails a msg iter eventSignal {[ fieldSignal := AStr signalUnanswered; fieldText := AStr t ]} w) as (w1 & stop & Hr & Hu).
    rewrite (SM_bind_ok _ _ _ _ _ Hr). destruct (IH w1) as (w2 & -> & Hu2). exists w2. split; [done|]. by rewrite Hu2, Hu.
Qed.

Lemma up_settled {A} (m : M V A) (Q : A -> Prop) : (forall w w' x, m w = (w', Ok x) -> Q x) ->
  triple run_settled (up m) (fun x h => run_settled h /\ Q x) run_settled.
Proof.
  intros HQ w Hw. unfold up. destruct (m (on_app w)) as [w' [x|e]] eqn:Hm; cbn; [|done]. split; [done|]. by eapply HQ.
Qed.

Lemma finish_settles sess current messages meter resp iter :
  triple (fun _ => True) (tryFinish a sess current messages meter resp iter)
    (fun out h => match out with Some _ => run_settled h | None => ar_pending (h_run h) <> [] end) run_settled.
Proof.
  unfold tryFinish. eapply triple_bind with (R := fun (may : bool) h => if may then run_settled h else ar_pending (h_run h) <> []).
  - intros w _. destruct (locked_run run_finish w) as (replies & r & beats & _ & _ & ->). cbn.
    unfold run_finish. destruct (ar_pending r) eqn:Hp; cbn; [by split|]. by rewrite Hp.
  - intros [|]; cbn [negb]; [|by apply triple_ret]. eapply triple_weaken; [apply (up_settled _ (fun out => out = Some current))|done| |done].
    + intros w w' out Hm. repeat (apply SM_bind_inv_ok in Hm as (? & ? & _ & Hm)). by injection Hm.
    + by intros out h [Hs ->].
Qed.

Lemma out_of_turns_settles s : triple (fun _ => True) (outOfTurns a s) (fun _ => run_settled) run_settled.
Proof.
  unfold outOfTurns. eapply triple_bind with (R := fun _ => run_settled).
  - intros w _. unfold reportUnanswered. destruct (locked_run run_close w) as (replies & r & beats & Hp & Hd & Hl).
    rewrite (SM_bind_ok _ _ _ _ _ Hl). set (w1 := with_usr _ w).
    destruct (locked_run run_take w1) as (replies' & r' & beats' & Hp' & Hd' & Hl'). rewrite (SM_bind_ok _ _ _ _ _ Hl').
    destruct (report_texts_run (st_current s) (Z.of_nat (aa_maxIterations a) - 1) (run_take r').2 (with_usr
      (mkHost (run_take r').1 beats' (h_replies (usr w1) ++ replies')%list (h_app (usr w1))) w1)) as (w2 & -> & Hu).
    rewrite Hu. by split; cbn.
  - intros _. eapply triple_weaken; [by apply (up_settled _ (fun _ => True))|done| |done]. by intros ? ? [? _].
Qed.
End accept.

