(* ===== verification/AgentResume.v ===== *)
(** What one run leaves to the next: the transcript a thread is resumed from, and
    the messages that are lost when a run is halted. *)
From S2P Require Import Prelude GoStr F64 GoTime Message Config Store Expr Engine Builder KV Aggregate Cache Sha256.
From S2P Require Import Transcript AgentRun MemoryStore AgentMemory AgentSession Attachments AgentTurn Agent Triples Replay.
From Stdlib Require Import String Ascii.
#[local] Open Scope string_scope.
#[local] Open Scope Z_scope.

(** ** Resuming *)

(** What a run keeps of its transcript when it may not call the model for it. *)
Definition kept (n : Z) (transcript : list LLMMessage) (meter : contextMeter) : list LLMMessage :=
  if (n <=? 0) || fits n meter transcript then transcript else pruneMemory transcript n meter.

Section resume.
Context {V : Type} `{!KV payload V} `{!KVLaws payload V} `{!AgentMemory payload V} {JS : JSON} (a : aiAgent V).

Lemma prune_is_kept caller n transcript meter (w : world V) :
  compactMemory caller transcript n memoryCompactPrune meter w = (w, Ok (kept n transcript meter)).
Proof. unfold compactMemory, kept. by destruct (_ || _). Qed.

Lemma save_memory_run ns thread env (w : world V) : calm (usr w) ->
  exists u, saveMemory ns thread env w = (with_usr u w, Ok tt) /\ calm u /\ same_rest (usr w) u /\
    exists version, contents u ns (memoryKey thread) = Some (mkEntry (encode_memory env) version).
Proof.
  intros Hc. unfold saveMemory. cbn [memoryWriteAttempts saveMemory_loop].
  destruct (law_Get ns (memoryKey thread) w Hc) as (u1 & Hg & Hsame & Hrest & Hc1).
  rewrite (SM_bind_ok _ _ _ _ _ Hg).
  destruct (law_Set ns (memoryKey thread) (encode_memory env) (version_of (contents (usr w) ns (memoryKey thread))) (with_usr u1 w) Hc1)
    as (u2 & Hrest2 & Hc2 & Hset). cbn [usr with_usr] in Hset. rewrite decide_True in Hset by (by rewrite Hsame).
  destruct Hset as [Hset Hcont]. rewrite (bind_attempt _ _ _ _ _ Hset). exists u2. split; [done|]. split; [done|].
  split; [by etransitivity|]. eexists. rewrite Hcont, decide_True by done. reflexivity.
Qed.

Lemma load_memory_run ns thread env version (w : world V) : calm (usr w) ->
  contents (usr w) ns (memoryKey thread) = Some (mkEntry (encode_memory env) version) ->
  exists u, loadMemory ns thread w = (with_usr u w, Ok (mkMemoryEnvelope memoryVersion (me_Tokens env) (me_Messages env))) /\
    calm u /\ same_rest (usr w) u.
Proof.
  intros Hc He. unfold loadMemory. destruct (law_Get ns (memoryKey thread) w Hc) as (u & Hg & _ & Hrest & Hc').
  rewrite (SM_bind_ok _ _ _ _ _ Hg), He. by exists u.
Qed.
End resume.


(** *** A thread resumed *)
#[local] Instance no_memory {V} : AgentMemory payload V := NoopAgentMemory.
#[local] Instance plain_JSON : JSON := { json_text _ := "{}"; json_parse _ := Ok (AMap ∅) }.
Definition no_caller {V} : llmCaller V := mkCaller (fun _ => fail (ErrMsg "no model")) None [].
Definition thread_agent : aiAgent (replica payload unit) := mkAgent no_caller "sys" [] ∅
  None 3 1 "a" [] (fun _ => Err (ErrMsg "none")) (Some (fun _ => Ok (AStr "and now?"))) None false "" (Some (fun _ => Ok (AStr "t1")))
  memoryCompactPrune "" None (fun _ => Ok tt) historyRecord false "user" "flow[a]" None ∅ None None 0 4 None false None (fun _ => "").
Definition empty_replica : world (replica payload unit) :=
  mkWorld ∅ 1 (fun _ => None) 0 (fun _ => 0) 0 (mkReplica (mkStore ∅ ∅ None false) [] tt) (mkObserved [] 0 0).

(** ** A halted run *)
Definition stopping_agent : aiAgent desk := mkAgent (mkCaller desk_client None []) "sys" []
  {[ "look" := fun l => update l RequestStop ≫= fun _ => mret (Some l) ]}
  None 3 1 "a" [] (fun _ => Err (ErrMsg "none")) (Some (fun _ => Ok (AStr "hello"))) None false "" (Some (fun _ => Ok (AStr "t1")))
  memoryCompactPrune "" None (fun _ => Ok tt) historyRecord false "user" "flow[a]" None ∅ None None 0 1000
  (Some (mkEmitter (fun l w => (with_usr (mkDesk (dk_sent (usr w)) (dk_cell (usr w)) (dk_events (usr w) ++ [Body (peek w l)])%list) w, Ok (Some l))) None))
  false None (fun _ => "").
Definition follow_up : delivery := mkDelivery signalContext "and?" "" false.
(** It arrives while the tool runs: after the first iteration took what was
    pending, before the run looks whether it was stopped. *)
Definition halted_run : world (host desk) * res (option nat) :=
  run_to_close (seq 0) stopping_agent 0%nat "t1"
    (hosted (mkHost new_run [mkBeat [] WakeTimer; mkBeat [follow_up] WakeTimer] [] (usr desk_world)) desk_world).
Definition mentions (text : string) (msgs : list LLMMessage) : bool := existsb (fun m => String.eqb (lm_Text m) text) msgs.
Definition reports (text : string) (event : any) : bool :=
  match event with AMap m => match m !! fieldText with Some (AStr t) => String.eqb t text | _ => false end | _ => false end.

(** A run that a tool stops loses what it accepted meanwhile: the sender of
    the message was told that the run has it, and ended its own flow; but the
    message is in no request, in no event - [unanswered] is reported only when a
    run is out of turns -, and not in the transcript the next run resumes. *)
Theorem halted_run_drops_text :
  halted_run.2 = Ok (Some 0%nat) /\
  h_replies (usr halted_run.1) = [(follow_up, true)] /\
  ar_pending (h_run (usr halted_run.1)) = ["and?"] /\
  List.length (dk_sent (h_app (usr halted_run.1))) = 1%nat /\
  existsb (fun rq => mentions "and?" (rq_Messages rq)) (dk_sent (h_app (usr halted_run.1))) = false /\
  List.length (dk_events (h_app (usr halted_run.1))) = 4%nat /\
  existsb (reports "and?") (dk_events (h_app (usr halted_run.1))) = false /\
  match dk_cell (h_app (usr halted_run.1)) with
  | Some p => match decodeMemory p with Ok env => mentions "and?" (me_Messages env) = false | Err _ => False end
  | None => False
  end.
Proof. vm_compute. split_and!; reflexivity. Qed.
