(* ===== verification/Series.v ===== *)
(** The evenly spaced series alerts are judged on:
    [observability/internal/alerting/series.go], with the window arithmetic of
    [condition.go]. *)
From S2P Require Import Prelude GoStr F64 GoTime.
From Stdlib Require Import String.
#[local] Open Scope string_scope.
#[local] Open Scope Z_scope.

(** ** alerting.go: sources and aggregates *)
Definition EvalLag : Z := 90 * Second.
Definition MinStep : Z := 30 * Second.
Definition MaxStep : Z := Hour.

(** [Source] and [Aggregate] are string types; a stored value may be any
    string, and the named constants are the ones the code recognises. *)
Definition SourceTraces : string := "traces".
Definition SourceLogs : string := "logs".
Definition SourcePodStats : string := "pod_stats".

Definition AggCount : string := "count".
Definition AggSum : string := "sum".
Definition AggAvg : string := "avg".
Definition AggMin : string := "min".
Definition AggMax : string := "max".
Definition AggP95 : string := "p95".
Definition AggRatio : string := "ratio".

Definition FillsZero (a src : string) : bool :=
  if String.eqb src SourcePodStats then false
  else String.eqb a AggCount || String.eqb a AggSum.

(** ** errors.go *)
Definition ErrNoSamples : goerr := ErrMsg "no samples in the window".
Definition ErrNotReducible : goerr := ErrMsg "aggregate is not reducible over bucket values".
Definition ErrUnknownAggregate : goerr := ErrMsg "unknown aggregate".

(** ** series.go *)
Record Series : Type := mkSeries {
  Step : Z;
  StartMS : Z;
  Values : list (option f64);
  Denominator : list (option f64);
  Filled : bool;
}.

Definition Len (s : Series) : Z := Z.of_nat (List.length (Values s)).

(** A lookup by a Go [int]: [None] outside the slice and for a nil entry. *)
Definition known_at (column : list (option f64)) (i : Z) : option f64 :=
  if i <? 0 then None else mjoin (column !! Z.to_nat i).
Definition At (s : Series) (i : Z) : option f64 := known_at (Values s) i.
Definition DenominatorAt (s : Series) (i : Z) : option f64 := known_at (Denominator s) i.

Definition BucketStart (s : Series) (i : Z) : Z :=
  of_UnixMilli (wrap64 (StartMS s + wrap64 (i * Milliseconds (Step s)))).
Definition BucketEnd (s : Series) (i : Z) : Z := BucketStart s (i + 1).

(** [for i := from; i < to; i++] *)
Definition range (from to : Z) : list Z := seqZ from (to - from).

Definition known_in (column : list (option f64)) (from to : Z) : list f64 :=
  let from := Z.max from 0 in
  let to := Z.min to (Z.of_nat (List.length column)) in
  omap (known_at column) (range from to).

Definition Known (s : Series) (from to : Z) : list f64 := known_in (Values s) from to.
Definition SumDenominator (s : Series) (from to : Z) : f64 :=
  sum_floats (known_in (Denominator s) from to).

Definition Reduce (agg : string) (values : list f64) : res f64 :=
  match values with
  | [] => Err ErrNoSamples
  | v0 :: vs =>
      if String.eqb agg AggCount || String.eqb agg AggSum then Ok (sum_floats values)
      else if String.eqb agg AggAvg then
        Ok (f_div (sum_floats values) (f_of_Z (Z.of_nat (List.length values))))
      else if String.eqb agg AggMin then Ok (foldl (fun out v => if f_lt v out then v else out) v0 vs)
      else if String.eqb agg AggMax || String.eqb agg AggP95
      then Ok (foldl (fun out v => if f_gt v out then v else out) v0 vs)
      else if String.eqb agg AggRatio then
        Err (ErrWrap "alerting: " ErrNotReducible ": a ratio is reduced by summing its parts, not its quotients")
      else Err (ErrWrap "alerting: " ErrUnknownAggregate (": " ++ quote agg))
  end.

Definition rollingRatio (s : Series) (from to minSamples : Z) : option f64 :=
  let from := Z.max from 0 in
  let to := Z.min to (Len s) in
  let both := omap (fun i => n ← At s i; d ← DenominatorAt s i; Some (n, d)) (range from to) in
  let num := sum_floats both.*1 in
  let den := sum_floats both.*2 in
  if (Z.of_nat (List.length both) <? minSamples) || f_eq den f_zero then None
  else Some (f_div num den).

Definition rolled_at (s : Series) (agg : string) (window minSamples i : Z) : option f64 :=
  let from := i - window + 1 in
  if String.eqb agg AggRatio then rollingRatio s from (i + 1) minSamples
  else
    let known := Known s from (i + 1) in
    if Z.of_nat (List.length known) <? minSamples then None
    else match Reduce agg known with Ok v => Some v | Err _ => None end.

Definition Rolling (s : Series) (agg : string) (window minSamples : Z) : Series :=
  let window := Z.max window 1 in
  let minSamples := Z.max minSamples 1 in
  mkSeries (Step s) (StartMS s)
    (map (rolled_at s agg window minSamples) (range 0 (Len s))) [] (Filled s).

Definition AlignDown (t step : Z) : Z :=
  if step <=? 0 then t
  else
    let ns := wrap64 t in
    let rem := Z.rem ns step in
    let rem := if rem <? 0 then rem + step else rem in
    wrap64 (ns - rem).

Definition Window (now step buckets : Z) : Z * Z :=
  let buckets := Z.max buckets 1 in
  let to := AlignDown (now + wrap64 (- EvalLag)) step in
  (to + wrap64 (wrap64 (- buckets) * step), to).

Definition BucketCount (from to step : Z) : Z :=
  if (step <=? 0) || (to <=? from) then 0 else Z.quot (Sub to from) step.

Definition NewSeries (from to step : Z) : Series :=
  mkSeries step (UnixMilli from) (replicate (Z.to_nat (BucketCount from to step)) None) [] false.

(** Go divides by [Step.Milliseconds()], which panics for a step below a
    millisecond; watches have steps of at least [MinStep]. *)
Definition IndexOf (s : Series) (t : Z) : option Z :=
  if Step s <=? 0 then None
  else
    let offset := wrap64 (UnixMilli t - StartMS s) in
    if offset <? 0 then None
    else
      let i := Z.quot offset (Milliseconds (Step s)) in
      if Len s <=? i then None else Some i.

Definition SetValue (s : Series) (i : Z) (v : f64) : Series :=
  if (i <? 0) || (Len s <=? i) then s
  else mkSeries (Step s) (StartMS s) (<[Z.to_nat i := Some v]> (Values s)) (Denominator s) (Filled s).

Definition SetRatio (s : Series) (i : Z) (num den : f64) : Series :=
  if (i <? 0) || (Len s <=? i) then s
  else
    let denominators := match Denominator s with
      | [] => replicate (List.length (Values s)) None
      | d => d
      end in
    mkSeries (Step s) (StartMS s) (<[Z.to_nat i := Some num]> (Values s))
      (<[Z.to_nat i := Some den]> denominators) (Filled s).

Definition FillZeros (s : Series) : Series :=
  mkSeries (Step s) (StartMS s)
    (map (fun v => match v with None => Some f_zero | v => v end) (Values s)) (Denominator s) true.

(** ** condition.go *)
Definition windowIndices (s : Series) (now buckets : Z) : Z * Z :=
  if (Step s <=? 0) || (Len s =? 0) then (0, 0)
  else
    let end_ := AlignDown (now + wrap64 (- EvalLag)) (Step s) in
    let to := Z.quot (wrap64 (UnixMilli end_ - StartMS s)) (Milliseconds (Step s)) in
    let to := Z.max (Z.min to (Len s)) 0 in
    (Z.max (to - buckets) 0, to).

(** ** The grid *)
Lemma AlignDown_floor t step :
  0 < step -> in_int64 t -> in_int64 (t / step * step) -> AlignDown t step = t / step * step.
Proof.
  intros Hs Ht Hf. unfold AlignDown. destruct (Z.leb_spec step 0); [lia|]. cbv zeta.
  rewrite (wrap64_id t) by done.
  assert ((if Z.rem t step <? 0 then Z.rem t step + step else Z.rem t step) = t `mod` step) as ->.
  { destruct (Z.ltb_spec (Z.rem t step) 0).
    - apply (Z.mod_unique_pos t step (Z.quot t step - 1)).
      + pose proof (Z.rem_bound_abs t step). lia.
      + pose proof (Z.quot_rem' t step). lia.
    - apply (Z.mod_unique_pos t step (Z.quot t step)).
      + pose proof (Z.rem_bound_abs t step). lia.
      + pose proof (Z.quot_rem' t step). lia. }
  rewrite wrap64_id; [|pose proof (Z.div_mod t step)];
    replace (t - t `mod` step) with (t / step * step) by (pose proof (Z.div_mod t step); lia); done.
Qed.

(** A series on the grid: bucket [i] opens at the [(F + i)]-th step of [k]
    milliseconds from the epoch, and the whole of it fits Go's integers. *)
Definition on_grid (k F : Z) (s : Series) : Prop :=
  0 < k /\ Step s = k * Millisecond /\ StartMS s = F * k /\ 0 <= F /\
  (F + Len s) * k <= int64_max / Millisecond /\ (Denominator s = [] \/ List.length (Denominator s) = List.length (Values s)).

(** The instant whose closed buckets an evaluation at [now] reads, counted in
    steps from the epoch. *)
Definition closed_at (k now : Z) : Z := (now - EvalLag) / (k * Millisecond).

Lemma lag_wrap now : now + wrap64 (- EvalLag) = now - EvalLag.
Proof. rewrite wrap64_id; [lia|]. unfold in_int64, int64_min, int64_max, EvalLag, Second. lia. Qed.

Lemma AlignDown_closed k now :
  0 < k -> 0 <= now - EvalLag <= int64_max ->
  AlignDown (now + wrap64 (- EvalLag)) (k * Millisecond) = closed_at k now * (k * Millisecond).
Proof.
  intros Hk Hn. rewrite lag_wrap. unfold closed_at.
  assert (0 < k * Millisecond) by (unfold Millisecond; lia).
  assert (in_int64 (now - EvalLag)) by (unfold in_int64, int64_min; lia).
  apply AlignDown_floor; [done..|].
  unfold in_int64, int64_min. generalize dependent (k * Millisecond). intros step Hs.
  pose proof (Z.mul_div_le (now - EvalLag) step Hs).
  pose proof (Z.div_pos (now - EvalLag) step). nia.
Qed.

Lemma Window_closed k now b :
  0 < k -> 0 <= now - EvalLag <= int64_max -> 1 <= b <= closed_at k now ->
  Window now (k * Millisecond) b
  = ((closed_at k now - b) * (k * Millisecond), closed_at k now * (k * Millisecond)).
Proof.
  intros Hk Hn Hb. unfold Window. rewrite AlignDown_closed by done. rewrite Z.max_l by lia.
  f_equal. rewrite (wrap64_id (- b)), wrap64_id; [lia|..].
  all: assert (closed_at k now * (k * Millisecond) <= int64_max) by
    (unfold closed_at; rewrite Z.mul_comm; etransitivity; [apply Z.mul_div_le; unfold Millisecond; lia|lia]).
  all: unfold in_int64, int64_min, int64_max, Millisecond in *; nia.
Qed.

Lemma in_grid_range k F s i :
  on_grid k F s -> 0 <= i <= Len s ->
  0 <= (F + i) * k <= int64_max / Millisecond /\ 0 <= i * k <= int64_max / Millisecond.
Proof. unfold on_grid. intros (Hk & _ & _ & HF & HL & _) Hi. nia. Qed.

Lemma grid_int64 z : 0 <= z <= int64_max / Millisecond -> in_int64 z.
Proof.
  intros Hz. unfold in_int64. split; [unfold int64_min; lia|].
  assert (int64_max / Millisecond <= int64_max) by (vm_compute; done). lia.
Qed.

Lemma BucketStart_grid k F s i :
  on_grid k F s -> 0 <= i <= Len s -> BucketStart s i = (F + i) * (k * Millisecond).
Proof.
  intros Hg Hi. destruct (in_grid_range _ _ _ _ Hg Hi) as [H1 H2].
  destruct Hg as (Hk & Hs & HS & _). unfold BucketStart, of_UnixMilli.
  rewrite Hs, HS, Milliseconds_mul, (wrap64_id (i * k)) by (by apply grid_int64).
  replace (F * k + i * k) with ((F + i) * k) by lia.
  rewrite wrap64_id by (by apply grid_int64). lia.
Qed.

Lemma grid_nonneg k F s : on_grid k F s -> 0 <= F /\ 0 < k /\ 0 <= Len s.
Proof. unfold on_grid, Len. intros (? & _ & _ & ? & _). lia. Qed.

(** The window of [b] buckets before the closed instant, in a series that
    holds all of it. *)
Lemma windowIndices_grid k F s now b :
  on_grid k F s -> 0 <= now - EvalLag <= int64_max -> 0 < Len s ->
  0 <= b -> F <= closed_at k now - b -> closed_at k now <= F + Len s ->
  windowIndices s now b = (closed_at k now - F - b, closed_at k now - F).
Proof.
  intros Hg Hn HL Hb H1 H2. pose proof (in_grid_range _ _ _ (closed_at k now - F) Hg) as Hr.
  destruct (Hr ltac:(lia)) as [Hr1 Hr2]. destruct Hg as (Hk & Hs & HS & HF & Hmax & _).
  unfold windowIndices. rewrite Hs.
  destruct (Z.leb_spec (k * Millisecond) 0); [unfold Millisecond in *; lia|].
  destruct (Z.eqb_spec (Len s) 0); [lia|]. cbn [orb]. cbv zeta.
  rewrite AlignDown_closed by done. rewrite Z.mul_assoc.
  replace ((F + (closed_at k now - F)) * k) with (closed_at k now * k) in Hr1 by lia.
  rewrite UnixMilli_mul by (by apply grid_int64).
  rewrite HS, Milliseconds_mul. replace (closed_at k now * k - F * k) with ((closed_at k now - F) * k) by lia.
  rewrite wrap64_id by (by apply grid_int64).
  rewrite Z.quot_mul by lia. f_equal; lia.
Qed.

(** ** Narrowing a series *)
Definition narrow_column (o n : Z) (column : list (option f64)) : list (option f64) :=
  take (Z.to_nat n) (drop (Z.to_nat o) column).
Definition narrow (o n : Z) (s : Series) : Series :=
  mkSeries (Step s) (StartMS s + o * Milliseconds (Step s)) (narrow_column o n (Values s))
    (narrow_column o n (Denominator s)) (Filled s).

Lemma known_at_narrow o n column i :
  0 <= o -> 0 <= i < n -> known_at (narrow_column o n column) i = known_at column (i + o).
Proof.
  intros Ho Hi. unfold known_at, narrow_column.
  destruct (Z.ltb_spec i 0); [lia|]. destruct (Z.ltb_spec (i + o) 0); [lia|].
  rewrite lookup_take_lt by lia. rewrite lookup_drop. repeat f_equal. lia.
Qed.

Lemma length_narrow o n column :
  0 <= o -> 0 <= n -> o + n <= Z.of_nat (List.length column) ->
  Z.of_nat (List.length (narrow_column o n column)) = n.
Proof. intros. unfold narrow_column. rewrite length_take, length_drop. lia. Qed.

Lemma range_shift a b o : range (a + o) (b + o) = map (fun i => i + o) (range a b).
Proof.
  unfold range. replace (b + o - (a + o)) with (b - a) by lia.
  rewrite Z.add_comm. rewrite <-(fmap_add_seqZ o a). apply map_ext. intros i. lia.
Qed.

Lemma omap_map {A B C} (f : B -> option C) (g : A -> B) (l : list A) : omap f (map g l) = omap (f ∘ g) l.
Proof.
  induction l as [|x l IH]; [done|]. simpl. unfold compose at 1.
  destruct (f (g x)); [f_equal|]; exact IH.
Qed.

Lemma omap_ext_in {A B} (f g : A -> option B) (l : list A) : (forall x, x ∈ l -> f x = g x) -> omap f l = omap g l.
Proof.
  induction l as [|x l IH]; intros H; [done|]. simpl. rewrite H by (by left).
  assert (omap f l = omap g l) as Hl by (apply IH; intros; apply H; by right).
  destruct (g x); [f_equal|]; exact Hl.
Qed.

Lemma elem_of_range i a b : i ∈ range a b <-> a <= i < b.
Proof. unfold range. rewrite elem_of_seqZ. lia. Qed.

Lemma known_in_narrow o n column a b :
  0 <= o -> 0 <= a -> b <= n -> column = [] \/ o + n <= Z.of_nat (List.length column) ->
  known_in (narrow_column o n column) a b = known_in column (a + o) (b + o).
Proof.
  intros Ho Ha Hb [-> |Hc].
  { unfold known_in, narrow_column. rewrite drop_nil, take_nil.
    assert (forall x y, 0 <= x -> range (Z.max x 0) (Z.min y (Z.of_nat (@List.length (option f64) []))) = []) as Hr.
    { intros x y Hx. unfold range. simpl. by rewrite seqZ_nil by lia. }
    by rewrite !Hr by lia. }
  unfold known_in. destruct (Z.le_gt_cases n 0).
  { assert (forall x y, y <= x -> range x y = []) as Hr by (intros; unfold range; by rewrite seqZ_nil by lia).
    by rewrite !Hr by lia. }
  rewrite length_narrow by lia.
  replace (Z.max (a + o) 0) with (Z.max a 0 + o) by lia.
  replace (Z.min (b + o) (Z.of_nat (List.length column))) with (Z.min b n + o) by lia.
  rewrite range_shift, omap_map. apply omap_ext_in. intros i [Hi1 Hi2]%elem_of_range.
  unfold compose. apply known_at_narrow; lia.
Qed.

Section narrowing.
Context (k F o n : Z) (s : Series).
Hypothesis grid : on_grid k F s.
Hypothesis Ho : 0 <= o.
Hypothesis Hn : 0 < n.
Hypothesis fits : o + n <= Len s.

Lemma narrow_Len : Len (narrow o n s) = n.
Proof using All. unfold Len in *. simpl. apply length_narrow; lia. Qed.

Lemma narrow_grid : on_grid k (F + o) (narrow o n s).
Proof using All.
  pose proof narrow_Len as Hl. pose proof (in_grid_range _ _ _ (o + n) grid).
  destruct grid as (Hk & Hs & HS & HF & HL & HD).
  split; [done|]. split; [exact Hs|]. split; [simpl; rewrite Hs, Milliseconds_mul; lia|].
  split; [lia|]. split.
  - rewrite Hl. replace (F + o + n) with (F + (o + n)) by lia. lia.
  - simpl. destruct HD as [-> | HD]; [left; unfold narrow_column; by rewrite drop_nil, take_nil|right].
    unfold narrow_column. by rewrite !length_take, !length_drop, HD.
Qed.

Lemma At_narrow i : 0 <= i < n -> At (narrow o n s) i = At s (i + o).
Proof using Ho. intros. by apply known_at_narrow. Qed.
Lemma DenominatorAt_narrow i : 0 <= i < n -> DenominatorAt (narrow o n s) i = DenominatorAt s (i + o).
Proof using Ho. intros. by apply known_at_narrow. Qed.

Lemma Known_narrow a b : 0 <= a -> b <= n -> Known (narrow o n s) a b = Known s (a + o) (b + o).
Proof using Ho fits. intros. apply known_in_narrow; auto. Qed.

Lemma SumDenominator_narrow a b :
  0 <= a -> b <= n -> SumDenominator (narrow o n s) a b = SumDenominator s (a + o) (b + o).
Proof using Ho fits grid.
  intros. unfold SumDenominator. f_equal. apply known_in_narrow; [done..|].
  destruct grid as (_ & _ & _ & _ & _ & [HD|HD]); [by left|right]. rewrite HD. done.
Qed.

Lemma BucketStart_narrow i : 0 <= i <= n -> BucketStart (narrow o n s) i = BucketStart s (i + o).
Proof using All.
  intros. rewrite (BucketStart_grid _ _ _ _ narrow_grid) by (rewrite narrow_Len; lia).
  rewrite (BucketStart_grid _ _ _ _ grid) by lia. lia.
Qed.

Lemma rolled_at_narrow agg w m i :
  1 <= w -> w - 1 <= i < n -> rolled_at (narrow o n s) agg w m i = rolled_at s agg w m (i + o).
Proof using All.
  intros Hw Hi. unfold rolled_at.
  replace (i + o - w + 1) with (i - w + 1 + o) by lia. replace (i + o + 1) with (i + 1 + o) by lia.
  rewrite Known_narrow by lia. destruct (String.eqb agg AggRatio); [|done].
  unfold rollingRatio. rewrite narrow_Len.
  replace (Z.max (i - w + 1 + o) 0) with (Z.max (i - w + 1) 0 + o) by lia.
  replace (Z.min (i + 1 + o) (Len s)) with (Z.min (i + 1) n + o) by lia.
  rewrite range_shift, omap_map.
  rewrite (omap_ext_in (fun i => n0 ← At (narrow o n s) i; d ← DenominatorAt (narrow o n s) i; Some (n0, d))
    ((fun i => n0 ← At s i; d ← DenominatorAt s i; Some (n0, d)) ∘ (fun i => i + o))); [done|].
  intros j [Hj1 Hj2]%elem_of_range. unfold compose.
  by rewrite At_narrow, DenominatorAt_narrow by lia.
Qed.
End narrowing.

Lemma length_Rolling s agg w m : List.length (Values (Rolling s agg w m)) = List.length (Values s).
Proof. simpl. rewrite length_map. unfold range. rewrite length_seqZ. unfold Len. lia. Qed.

Lemma At_Rolling s agg w m i :
  At (Rolling s agg w m) i
  = if (0 <=? i) && (i <? Len s) then rolled_at s agg (Z.max w 1) (Z.max m 1) i else None.
Proof.
  unfold At, known_at. destruct (Z.ltb_spec i 0), (Z.leb_spec 0 i); try lia; [done|].
  cbn [andb]. cbn [Values Rolling].
  destruct (Z.ltb_spec i (Len s)).
  - replace (map (rolled_at s agg (Z.max w 1) (Z.max m 1)) (range 0 (Len s)) !! Z.to_nat i)
      with (Some (rolled_at s agg (Z.max w 1) (Z.max m 1) i)); [done|].
    symmetry. apply list_lookup_fmap_Some. exists i. split; [done|].
    unfold range. apply lookup_seqZ. lia.
  - rewrite lookup_ge_None_2; [done|]. rewrite length_map. unfold range. rewrite length_seqZ. lia.
Qed.

Lemma Known_Rolling_narrow k F o n s agg w m a b :
  on_grid k F s -> 0 <= o -> 0 < n -> o + n <= Len s -> 1 <= w -> w - 1 <= a -> b <= n ->
  Known (Rolling (narrow o n s) agg w m) a b = Known (Rolling s agg w m) (a + o) (b + o).
Proof.
  intros Hg Ho Hn Hf Hw Ha Hb. unfold Known, known_in.
  rewrite !length_Rolling. fold (Len s) (Len (narrow o n s)). rewrite (narrow_Len k F o n s) by done.
  replace (Z.max (a + o) 0) with (Z.max a 0 + o) by lia.
  replace (Z.min (b + o) (Len s)) with (Z.min b n + o) by lia.
  rewrite range_shift, omap_map. apply omap_ext_in. intros i [Hi1 Hi2]%elem_of_range.
  unfold compose. change (At (Rolling (narrow o n s) agg w m) i = At (Rolling s agg w m) (i + o)).
  rewrite !At_Rolling, (narrow_Len k F o n s) by done.
  destruct (Z.leb_spec 0 i), (Z.ltb_spec i n), (Z.leb_spec 0 (i + o)), (Z.ltb_spec (i + o) (Len s)); try lia.
  cbn [andb]. apply (rolled_at_narrow k F); lia || done.
Qed.

(** A sample lands in the bucket that contains it: for an instant since the
    epoch, the index of a series on the grid is [i] exactly when the series has a
    bucket [i] and the instant is neither before it opens nor at or after its
    close; so a sample from before the window is outside, not in bucket zero. *)
Theorem sample_lands_in_its_bucket k F s t i :
  on_grid k F s -> 0 <= t <= int64_max ->
  IndexOf s t = Some i <-> 0 <= i < Len s /\ BucketStart s i <= t < BucketEnd s i.
Proof.
  intros Hg Ht. pose proof (grid_nonneg _ _ _ Hg) as (HF & Hk & HL).
  assert (0 < Millisecond) as Hms by (unfold Millisecond; lia).
  set (m := t / Millisecond) in *.
  assert (0 <= m <= int64_max / Millisecond) as Hm.
  { subst m. split; [apply Z.div_pos; lia|apply Z.div_le_mono; lia]. }
  assert (forall b, b * Millisecond <= t <-> b <= m) as Hfloor.
  { intros b. subst m. pose proof (Z.div_mod t Millisecond). pose proof (Z.mod_pos_bound t Millisecond). nia. }
  assert (forall j, 0 <= j <= Len s -> BucketStart s j <= t <-> (F + j) * k <= m) as Hstart.
  { intros j Hj. rewrite (BucketStart_grid k F) by done. rewrite Z.mul_assoc. apply Hfloor. }
  pose proof (in_grid_range k F s (Len s) Hg ltac:(lia)) as [HmaxL _].
  unfold BucketEnd, IndexOf, UnixMilli. destruct Hg as (_ & Hs & HS & _). fold m.
  rewrite Hs, HS, Milliseconds_mul. destruct (Z.leb_spec (k * Millisecond) 0); [lia|]. cbv zeta.
  rewrite (wrap64_id m) by (by apply grid_int64).
  assert (int64_max / Millisecond <= 2 ^ 62) by (vm_compute; discriminate).
  assert (0 <= F * k <= int64_max / Millisecond) by nia.
  rewrite wrap64_id by (unfold in_int64, int64_min, int64_max in *; lia).
  destruct (Z.ltb_spec (m - F * k) 0).
  { split; [done|]. intros (Hi & Hlo & _). apply Hstart in Hlo; [|lia]. exfalso. nia. }
  rewrite Z.quot_div_nonneg by lia.
  pose proof (Z.div_mod (m - F * k) k). pose proof (Z.mod_pos_bound (m - F * k) k).
  pose proof (Z.div_pos (m - F * k) k). set (j := (m - F * k) / k) in *.
  destruct (Z.leb_spec (Len s) j).
  { split; [done|]. intros (Hi & _ & Hhi). exfalso.
    assert (~ BucketStart s (i + 1) <= t) as Hn by lia. rewrite Hstart in Hn by lia. nia. }
  split.
  - intros [= <-]. split; [lia|]. split; [apply Hstart; nia|].
    assert (~ BucketStart s (j + 1) <= t) as Hn; [rewrite Hstart by lia; nia|lia].
  - intros (Hi & Hlo & Hhi). f_equal. apply Hstart in Hlo; [|lia].
    assert (~ BucketStart s (i + 1) <= t) as Hn by lia. rewrite Hstart in Hn by lia. nia.
Qed.

Lemma sample_lands_in_its_bucket_witness :
  let s := mkSeries Minute (90 * 60000) (replicate 10 None) [] false in
  IndexOf s (91 * Minute - 1) = Some 0 /\
  (IndexOf s (90 * Minute - 1) = Some 0 <->
     0 <= 0 < Len s /\ BucketStart s 0 <= 90 * Minute - 1 < BucketEnd s 0).
Proof.
  cbv zeta. split; [vm_compute; reflexivity|].
  apply (sample_lands_in_its_bucket 60000 90).
  - unfold on_grid. split_and!; try (vm_compute; congruence). by left.
  - vm_compute. split; discriminate.
Defined.
