(* ===== verification/Stats.v ===== *)
(** The robust statistics of the alerts:
    [observability/internal/alerting/stats.go], with the comparison operators
    of [alerting.go]. *)
From S2P Require Import Prelude F64.
From Stdlib Require Import String Floats.SpecFloat.
#[local] Open Scope string_scope.
#[local] Open Scope Z_scope.

(** ** alerting.go: operators *)
Definition OpGT : string := "gt".
Definition OpGTE : string := "gte".
Definition OpLT : string := "lt".
Definition OpLTE : string := "lte".

Definition Compare (o : string) (observed threshold : f64) : bool :=
  if String.eqb o OpGT then f_gt observed threshold
  else if String.eqb o OpGTE then f_ge observed threshold
  else if String.eqb o OpLT then f_lt observed threshold
  else if String.eqb o OpLTE then f_le observed threshold
  else false.

Definition op_Downward (o : string) : bool := String.eqb o OpLT || String.eqb o OpLTE.

(** ** stats.go *)
Definition madToSigma : f64 := f_lit 14826 10000.
Definition defaultConfidence : f64 := f_lit 95 100.

Definition zByConfidence : list (f64 * f64) :=
  [(f_lit 90 100, f_lit 16449 10000); (f_lit 95 100, f_lit 19600 10000); (f_lit 99 100, f_lit 25758 10000)].
(** A lookup in a map keyed by float64: by [==]. *)
Definition z_lookup (confidence : f64) : option f64 :=
  snd <$> head (filter (fun kv => f_eq kv.1 confidence = true) zByConfidence).
Definition zFor (confidence : f64) : f64 :=
  match z_lookup confidence with
  | Some z => z
  | None => default f_zero (z_lookup defaultConfidence)
  end.

Definition Median (values : list f64) : option f64 :=
  match values with
  | [] => None
  | _ =>
      let sorted := sort_floats values in
      let mid := (List.length sorted / 2)%nat in
      let nth i := default f_zero (sorted !! i) in
      if Nat.eqb (List.length sorted mod 2) 1 then Some (nth mid)
      else Some (f_div (f_add (nth (mid - 1)%nat) (nth mid)) (f_of_Z 2))
  end.

Definition MAD (values : list f64) : option (f64 * f64) :=
  median ← Median values;
  let deviations := map (fun v => f_abs (f_sub v median)) values in
  Some (median, default f_zero (Median deviations)).

Definition Scale (median mad : f64) (countLike : bool) (minScale : f64) : f64 :=
  let scale := f_mul mad madToSigma in
  let scale := if countLike then math_max scale (f_sqrt (math_max median f_one)) else scale in
  math_max scale minScale.

Definition wilson (successes trials confidence : f64) : option (f64 * f64) :=
  if f_le trials f_zero then None
  else
    let z := zFor confidence in
    let p := f_div successes trials in
    let z2 := f_mul z z in
    let denom := f_add f_one (f_div z2 trials) in
    let centre := f_div (f_add p (f_div z2 (f_mul (f_of_Z 2) trials))) denom in
    let variance := f_add (f_div (f_mul p (f_sub f_one p)) trials)
                      (f_div z2 (f_mul (f_mul (f_of_Z 4) trials) trials)) in
    let spread := f_div (f_mul z (f_sqrt variance)) denom in
    Some (math_max (f_sub centre spread) f_zero, math_min (f_add centre spread) f_one).

Definition WilsonLowerBound (successes trials confidence : f64) : option f64 :=
  fst <$> wilson successes trials confidence.
Definition WilsonUpperBound (successes trials confidence : f64) : option f64 :=
  snd <$> wilson successes trials confidence.

Definition Bound (op : string) (successes trials confidence : f64) : option f64 :=
  if op_Downward op then WilsonUpperBound successes trials confidence
  else WilsonLowerBound successes trials confidence.

(** One failure out of two: about 9% at 95% confidence; 200 out of 400: 45%. *)
Example wilson_two :
  match WilsonLowerBound f_one (f_of_Z 2) defaultConfidence with
  | Some b => f_gt b (f_lit 9 100) && f_lt b (f_lit 10 100)
  | None => false
  end = true.
Proof. vm_compute. reflexivity. Qed.
Example wilson_four_hundred :
  match WilsonLowerBound (f_of_Z 200) (f_of_Z 400) defaultConfidence with
  | Some b => f_gt b (f_lit 45 100) && f_lt b (f_lit 46 100)
  | None => false
  end = true.
Proof. vm_compute. reflexivity. Qed.
