(* ===== verification/Verdict.v ===== *)
(** Three-valued verdicts and how a watch combines them:
    [observability/internal/alerting/alerting.go]. *)
From S2P Require Import Prelude.
From Stdlib Require Import String.
#[local] Open Scope string_scope.
#[local] Open Scope Z_scope.

Inductive Truth : Type := False_ | True_ | Unknown.
#[global] Instance Truth_eq_dec : EqDecision Truth.
Proof. solve_decision. Defined.

Definition Truth_String (t : Truth) : string :=
  match t with True_ => "true" | False_ => "false" | Unknown => "unknown" end.

Definition TruthOf (b : bool) : Truth := if b then True_ else False_.

Definition CombineAll : string := "all".
Definition CombineAny : string := "any".

Fixpoint combine_loop (c : string) (verdicts : list Truth) (unknown : bool) : Truth :=
  match verdicts with
  | [] =>
      if unknown then Unknown
      else if String.eqb c CombineAll then True_ else False_
  | v :: rest =>
      if String.eqb c CombineAll && bool_decide (v = False_) then False_
      else if String.eqb c CombineAny && bool_decide (v = True_) then True_
      else combine_loop c rest (unknown || bool_decide (v = Unknown))
  end.

Definition Combine (c : string) (verdicts : list Truth) : Truth :=
  match verdicts with [] => Unknown | _ => combine_loop c verdicts false end.

(** [NoDataPolicy] *)
Definition NoDataOK : string := "ok".
Definition NoDataFire : string := "fire".
Definition NoDataKeep : string := "keep".

Definition policy_Truth (p : string) : Truth :=
  if String.eqb p NoDataFire then True_
  else if String.eqb p NoDataKeep then Unknown
  else False_.

(** ** What a combined verdict means *)

(** A way the unanswered conditions could have been answered. *)
Definition answers (v : Truth) (b : bool) : Prop := v = Unknown \/ v = TruthOf b.

Definition combine_bools (c : string) (bs : list bool) : bool :=
  if String.eqb c CombineAll then forallb id bs else existsb id bs.

Lemma bool_decide_skip (x v : Truth) vs :
  x ≠ v -> bool_decide (x ∈ v :: vs) = bool_decide (x ∈ vs).
Proof. intros H. apply bool_decide_ext. set_solver. Qed.

Lemma combine_loop_all verdicts unknown :
  combine_loop CombineAll verdicts unknown =
  if bool_decide (False_ ∈ verdicts) then False_
  else if unknown || bool_decide (Unknown ∈ verdicts) then Unknown else True_.
Proof.
  revert unknown. induction verdicts as [|v vs IH]; intros unknown; simpl.
  - rewrite orb_false_r. done.
  - destruct v; simpl; rewrite ?IH, ?orb_true_r, ?orb_false_r.
    + done.
    + by rewrite !bool_decide_skip by done.
    + rewrite (bool_decide_skip False_) by done.
      done.
Qed.

Lemma combine_loop_any verdicts unknown :
  combine_loop CombineAny verdicts unknown =
  if bool_decide (True_ ∈ verdicts) then True_
  else if unknown || bool_decide (Unknown ∈ verdicts) then Unknown else False_.
Proof.
  revert unknown. induction verdicts as [|v vs IH]; intros unknown; simpl.
  - rewrite orb_false_r. done.
  - destruct v; simpl; rewrite ?IH, ?orb_true_r, ?orb_false_r.
    + by rewrite !bool_decide_skip by done.
    + done.
    + rewrite (bool_decide_skip True_) by done.
      done.
Qed.

(** Every unanswered condition answered with [b]. *)
Definition answered (b : bool) (v : Truth) : bool :=
  match v with True_ => true | False_ => false | Unknown => b end.

Lemma answered_answers b vs : Forall2 answers vs (map (answered b) vs).
Proof. induction vs as [|[] vs IH]; constructor; auto; unfold answers; simpl; auto. Qed.

Lemma answers_has vs bs b : Forall2 answers vs bs -> TruthOf b ∈ vs -> b ∈ bs.
Proof.
  induction 1 as [|v x vs bs Hv _ IH]; [by intros ?%elem_of_nil|].
  intros [<-|Hb]%elem_of_cons; [|right; auto].
  destruct Hv as [Hv|Hv]; [by destruct b|]. destruct b, x; try done; by left.
Qed.

Lemma answers_all vs bs b :
  Forall2 answers vs bs -> TruthOf (negb b) ∉ vs -> Unknown ∉ vs -> Forall (fun x => x = b) bs.
Proof.
  induction 1 as [|v x vs bs Hv _ IH]; intros Hn Hu; constructor.
  - destruct Hv as [->| ->]; [set_solver|]. destruct b, x; try done; exfalso; apply Hn; by left.
  - apply IH; set_solver.
Qed.

Lemma forallb_all l : Forall (fun x => x = true) l -> forallb id l = true.
Proof. induction 1 as [|x l -> _ IH]; done. Qed.
Lemma existsb_none l : Forall (fun x => x = false) l -> existsb id l = false.
Proof. induction 1 as [|x l -> _ IH]; done. Qed.
Lemma forallb_has l : false ∈ l -> forallb id l = false.
Proof.
  induction l as [|x l IH]; [by intros ?%elem_of_nil|].
  intros [<-|H]%elem_of_cons; simpl; [done|]. rewrite IH by done. apply andb_false_r.
Qed.
Lemma existsb_has l : true ∈ l -> existsb id l = true.
Proof.
  induction l as [|x l IH]; [by intros ?%elem_of_nil|].
  intros [<-|H]%elem_of_cons; simpl; [done|]. rewrite IH by done. apply orb_true_r.
Qed.
Lemma answered_no b vs : TruthOf (negb b) ∉ vs -> Forall (fun x => x = b) (map (answered b) vs).
Proof.
  induction vs as [|v vs IH]; simpl; constructor.
  - destruct v, b; try done; exfalso; set_solver.
  - apply IH. set_solver.
Qed.
Lemma answered_some b vs : Unknown ∈ vs -> b ∈ map (answered b) vs.
Proof. intros H. change b with (answered b Unknown). apply list_elem_of_fmap. eauto. Qed.

(** A combined verdict claims exactly what is known: a decided verdict is
    what the conditions combine to however the unanswered ones would have been
    answered, and of an undecided one both outcomes remain possible. *)
Theorem combine_exact c verdicts :
  c = CombineAll \/ c = CombineAny -> verdicts ≠ [] ->
  (forall b, Combine c verdicts = TruthOf b <->
     forall bs, Forall2 answers verdicts bs -> combine_bools c bs = b) /\
  (Combine c verdicts = Unknown <->
     exists bs bs', Forall2 answers verdicts bs /\ combine_bools c bs = true /\
                    Forall2 answers verdicts bs' /\ combine_bools c bs' = false).
Proof.
  intros Hc Hne.
  assert (forall b, Combine c verdicts = TruthOf b ->
    forall bs, Forall2 answers verdicts bs -> combine_bools c bs = b) as Hdec.
  { intros b Hb bs Hbs. destruct verdicts as [|v0 vs0]; [done|]. unfold Combine in Hb.
    destruct Hc as [-> | ->]; [rewrite combine_loop_all in Hb|rewrite combine_loop_any in Hb];
      unfold combine_bools; simpl; repeat case_bool_decide; simpl in *; destruct b; try done.
    - eapply forallb_has, answers_has; eauto.
    - by eapply forallb_all, (answers_all _ _ true).
    - eapply existsb_has, answers_has; eauto.
    - by eapply existsb_none, (answers_all _ _ false). }
  assert (Combine c verdicts = Unknown ->
    combine_bools c (map (answered true) verdicts) = true /\
    combine_bools c (map (answered false) verdicts) = false) as Hund.
  { intros Hu. destruct verdicts as [|v0 vs0]; [done|]. unfold Combine in Hu.
    destruct Hc as [-> | ->]; [rewrite combine_loop_all in Hu|rewrite combine_loop_any in Hu];
      unfold combine_bools; cbn [String.eqb Ascii.eqb CombineAll CombineAny]; simpl (String.eqb _ _); cbv iota;
      repeat case_bool_decide; cbn [orb] in *; try done; split.
    - by apply forallb_all, (answered_no true).
    - by apply forallb_has, answered_some.
    - by apply existsb_has, answered_some.
    - by apply existsb_none, (answered_no false). }
  split; [|split].
  - intros b; split; [apply Hdec|]. intros Hall.
    destruct (Combine c verdicts) eqn:E.
    + destruct b; [|done]. specialize (Hdec false eq_refl _ (answered_answers true _)).
      by rewrite (Hall _ (answered_answers true _)) in Hdec.
    + destruct b; [done|]. specialize (Hdec true eq_refl _ (answered_answers true _)).
      by rewrite (Hall _ (answered_answers true _)) in Hdec.
    + destruct (Hund eq_refl) as [H1 H2].
      rewrite (Hall _ (answered_answers true _)) in H1.
      rewrite (Hall _ (answered_answers false _)) in H2. congruence.
  - intros Hu%Hund. destruct Hu. exists (map (answered true) verdicts), (map (answered false) verdicts).
    split_and!; auto using answered_answers.
  - intros (bs & bs' & H1 & Hb1 & H2 & Hb2). destruct (Combine c verdicts) eqn:E; [| |done].
    + by rewrite (Hdec false eq_refl _ H1) in Hb1.
    + by rewrite (Hdec true eq_refl _ H2) in Hb2.
Qed.

Lemma combine_exact_witness :
  (CombineAll = CombineAll \/ CombineAll = CombineAny) /\
  [True_; Unknown] ≠ [] /\ Combine CombineAll [True_; Unknown] = Unknown /\
  (Combine CombineAll [True_; Unknown] = Unknown <->
     exists bs bs', Forall2 answers [True_; Unknown] bs /\ combine_bools CombineAll bs = true /\
                    Forall2 answers [True_; Unknown] bs' /\ combine_bools CombineAll bs' = false).
Proof.
  split; [by left|]. split; [done|]. split; [reflexivity|].
  apply (combine_exact CombineAll [True_; Unknown]); [by left|done].
Defined.
