(* ===== verification/Metrics.v ===== *)
(** What a condition measures and which rows it reads:
    [observability/internal/alerting/metric.go] and [query.go]. *)
From S2P Require Import Prelude GoStr GoTime Series.
From Stdlib Require Import String Ascii.
#[local] Open Scope string_scope.
#[local] Open Scope Z_scope.

(** ** errors.go *)
Definition ErrUnknownSource : goerr := ErrMsg "unknown source".
Definition ErrInvalidParams : goerr := ErrMsg "invalid condition parameters".
(** [fmt.Errorf("alerting: %w: ...", sentinel, ...)]; a second [%w] is kept as
    its text, since nothing looks for a JSON error inside. *)
Definition alerting_err (sentinel : goerr) (text : string) : goerr :=
  ErrWrap "alerting: " sentinel (": " ++ text).

(** ** metric.go *)
Definition UnitCount : string := "count".
Definition UnitRatio : string := "ratio".
Definition UnitUSD : string := "usd".
Definition UnitNanos : string := "ns".
Definition UnitBytes : string := "bytes".
Definition UnitUnknown : string := "".

Record Metric : Type := mkMetric {
  m_Name : string;
  m_Source : string;
  m_Aggregates : list string;
  m_Unit : string;
  m_CountLike : bool;
  m_Numerator : string;
  m_Denominator : string;
}.

Definition Ratio (m : Metric) : bool := String.eqb (m_Unit m) UnitRatio.

Definition DefaultAggregate (m : Metric) : string :=
  match m_Aggregates m with [] => AggCount | a :: _ => a end.

Definition Allows (m : Metric) (agg : string) : bool := existsb (fun a => String.eqb a agg) (m_Aggregates m).

Definition counter (name source : string) (agg : string) : string * Metric :=
  (name, mkMetric name source [agg] UnitCount true "" "").

Definition traceMetrics : gmap string Metric := list_to_map [
  counter "traces" SourceTraces AggCount;
  counter "failed_traces" SourceTraces AggCount;
  ("error_rate", mkMetric "error_rate" SourceTraces [AggRatio] UnitRatio false "failed_traces" "traces");
  ("duration_ns", mkMetric "duration_ns" SourceTraces [AggP95; AggAvg; AggMax] UnitNanos false "" "");
  ("cost_usd", mkMetric "cost_usd" SourceTraces [AggSum] UnitUSD false "" "");
  counter "tokens" SourceTraces AggSum;
  counter "llm_calls" SourceTraces AggSum;
  counter "unpriced_calls" SourceTraces AggSum].

Definition logMetrics : gmap string Metric := list_to_map [
  counter "events" SourceLogs AggCount;
  ("error_rate", mkMetric "error_rate" SourceLogs [AggRatio] UnitRatio false "error_events" "events")].

Definition hasSuffix (s suffix : string) : bool :=
  let n := String.length s in let k := String.length suffix in
  Nat.leb k n && String.eqb (str_drop (n - k) s) suffix.

Definition LookupMetric (source name : string) : res Metric :=
  let unknown := Err (ErrMsg ("alerting: unknown " ++ source ++ " metric " ++ quote name)) in
  if String.eqb source SourceTraces then
    match traceMetrics !! name with Some m => Ok m | None => unknown end
  else if String.eqb source SourceLogs then
    match logMetrics !! name with Some m => Ok m | None => unknown end
  else if String.eqb source SourcePodStats then
    if String.eqb name ""
    then Err (alerting_err ErrInvalidParams "a pod-stat condition must name a metric")
    else Ok (mkMetric name SourcePodStats [AggMax; AggAvg; AggSum; AggMin] UnitUnknown
               (hasSuffix name "_total") "" "")
  else Err (alerting_err ErrUnknownSource (quote source)).

(** ** query.go *)
Record Scope : Type := mkScope {
  sc_DeploymentID : string;
  sc_IntegrationID : string;
  sc_AppName : string;
  sc_AppVersion : string;
  sc_Levels : list string;
  sc_Search : string;
  sc_Pods : list string;
  sc_Labels : gmap string string;
  sc_Across : string;
}.

(** [%q] of a [[]string]. *)
Definition quote_list (l : list string) : string := "[" ++ join " " (map quote l) ++ "]".

Definition scope_key (s : Scope) : string :=
  quote (sc_DeploymentID s) ++ "|" ++ quote (sc_IntegrationID s) ++ "|"
  ++ quote (sc_AppName s) ++ "|" ++ quote (sc_AppVersion s) ++ "|"
  ++ quote_list (sort_strings (sc_Levels s)) ++ "|" ++ quote (sc_Search s) ++ "|"
  ++ quote_list (sort_strings (sc_Pods s)) ++ "|"
  ++ join "" (map (fun k => quote k ++ "=" ++ quote (default "" (sc_Labels s !! k)) ++ ";")
       (sort_strings (map_to_list (sc_Labels s)).*1))
  ++ "|" ++ quote (sc_Across s).

Record Query : Type := mkQuery {
  q_Source : string;
  q_Metric : string;
  q_Aggregate : string;
  q_Scope : Scope;
  q_Step : Z;
  q_From : Z;
  q_To : Z;
}.

Definition Key (q : Query) : string :=
  join (String (ascii_of_nat 0) "")
    [q_Source q; q_Metric q; q_Aggregate q; Duration_String (q_Step q); scope_key (q_Scope q)].

Definition Widen (q other : Query) : Query :=
  mkQuery (q_Source q) (q_Metric q) (q_Aggregate q) (q_Scope q) (q_Step q)
    (if q_From other <? q_From q then q_From other else q_From q)
    (if q_To q <? q_To other then q_To other else q_To q).

Definition Buckets (q : Query) : Z := BucketCount (q_From q) (q_To q) (q_Step q).

Lemma Key_Widen q other : Key (Widen q other) = Key q.
Proof. done. Qed.
Lemma Widen_From q other : q_From (Widen q other) = Z.min (q_From q) (q_From other).
Proof. simpl. destruct (Z.ltb_spec (q_From other) (q_From q)); lia. Qed.
Lemma Widen_To q other : q_To (Widen q other) = Z.max (q_To q) (q_To other).
Proof. simpl. destruct (Z.ltb_spec (q_To q) (q_To other)); lia. Qed.
