(* ===== verification/Conditions.v ===== *)
(** The three kinds of condition: [observability/internal/alerting/condition.go],
    [threshold.go], [spike.go], [absence.go] and the outcomes of
    [evaluation.go]. *)
From S2P Require Import Prelude GoStr F64 GoTime Message Config Series Stats Verdict Metrics.
From Stdlib Require Import String.
#[local] Open Scope string_scope.
#[local] Open Scope Z_scope.

(** ** errors.go *)
Definition ErrUnknownCondition : goerr := ErrMsg "unknown condition type".
Definition ErrNestedConditions : goerr := ErrMsg "nested condition groups are not supported".
Definition ErrCoarseData : goerr := ErrMsg "data is not retained at this resolution".
Definition ErrInvalidWatch : goerr := ErrMsg "invalid watch".

(** ** evaluation.go *)
Definition ReasonNoData : string := "no_data".
Definition ReasonFewSamples : string := "below_min_samples".
Definition ReasonShortBaseline : string := "below_min_baseline".
Definition ReasonSmallDenom : string := "denominator_too_small".
Definition ReasonSmallDelta : string := "below_min_delta".
Definition ReasonSmallRatio : string := "below_min_ratio".
Definition ReasonBelowZ : string := "below_z".
Definition ReasonNeverReported : string := "never_reported".
Definition ReasonCoarseData : string := "resolution_unavailable".
Definition ReasonFetchFailed : string := "fetch_failed".
Definition ReasonThresholdUnmet : string := "threshold_unmet".
Definition ReasonConditionMet : string := "condition_met".

(** The field [Truth], the wire form of the verdict, is [o_Truth]. *)
Record Outcome : Type := mkOutcome {
  o_ConditionID : string;
  o_Kind : string;
  o_Label : string;
  o_Unit : string;
  o_Op : string;
  o_Threshold : f64;
  o_Observed : option f64;
  o_Baseline : option f64;
  o_Score : option f64;
  o_Samples : Z;
  o_BaselineSamples : Z;
  o_Denominator : f64;
  o_WindowFrom : Z;
  o_WindowTo : Z;
  o_Verdict : Truth;
  o_Truth : string;
  o_NoData : bool;
  o_Reason : string;
  o_Err : string;
}.

(** The part of an outcome [Evaluate] fills in step by step. *)
Record Findings : Type := mkFindings {
  n_Observed : option f64;
  n_Baseline : option f64;
  n_Score : option f64;
  n_Samples : Z;
  n_BaselineSamples : Z;
  n_Denominator : f64;
  n_NoData : bool;
  n_Err : string;
}.
Definition no_findings : Findings := mkFindings None None None 0 0 f_zero false "".

Definition finish (o : Outcome) (v : Truth) (reason : string) : Outcome :=
  mkOutcome (o_ConditionID o) (o_Kind o) (o_Label o) (o_Unit o) (o_Op o) (o_Threshold o)
    (o_Observed o) (o_Baseline o) (o_Score o) (o_Samples o) (o_BaselineSamples o)
    (o_Denominator o) (o_WindowFrom o) (o_WindowTo o) v (Truth_String v) (o_NoData o)
    (if String.eqb reason "" then o_Reason o else reason) (o_Err o).

Definition with_window (o : Outcome) (from to : Z) : Outcome :=
  mkOutcome (o_ConditionID o) (o_Kind o) (o_Label o) (o_Unit o) (o_Op o) (o_Threshold o)
    (o_Observed o) (o_Baseline o) (o_Score o) (o_Samples o) (o_BaselineSamples o)
    (o_Denominator o) from to (o_Verdict o) (o_Truth o) (o_NoData o) (o_Reason o) (o_Err o).

Definition with_findings (o : Outcome) (n : Findings) : Outcome :=
  mkOutcome (o_ConditionID o) (o_Kind o) (o_Label o) (o_Unit o) (o_Op o) (o_Threshold o)
    (n_Observed n) (n_Baseline n) (n_Score n) (n_Samples n) (n_BaselineSamples n)
    (n_Denominator n) (o_WindowFrom o) (o_WindowTo o) (o_Verdict o) (o_Truth o) (n_NoData n)
    (o_Reason o) (n_Err n).

(** ** condition.go *)
Definition KindThreshold : string := "threshold".
Definition KindSpike : string := "spike".
Definition KindAbsence : string := "absence".
Definition KindGroup : string := "group".
Definition MaxConditions : Z := 10.

(** [Params] is raw JSON: here the value it parses to, [None] when it is blank. *)
Inductive ConditionSpec : Type := mkSpec {
  cs_ID : string;
  cs_Type : string;
  cs_Source : string;
  cs_Metric : string;
  cs_Aggregate : string;
  cs_Scope : Scope;
  cs_Params : option any;
  cs_Conditions : list ConditionSpec;
}.

Record conditionBase : Type := mkBase {
  spec : ConditionSpec;
  metric : Metric;
  agg : string;
  step : Z;
}.

Definition base_query (c : conditionBase) (now buckets : Z) : Query :=
  let '(from, to) := Window now (step c) buckets in
  mkQuery (cs_Source (spec c)) (m_Name (metric c)) (agg c) (cs_Scope (spec c)) (step c) from to.

Definition base_outcome (c : conditionBase) (kind label op : string) (threshold : f64) : Outcome :=
  mkOutcome (cs_ID (spec c)) kind label (m_Unit (metric c)) op threshold
    None None None 0 0 f_zero zero_time zero_time False_ "" false "" "".

Definition decodeParams {A} (raw : option any) (zero : A) (dec : any -> res A) : res A :=
  match raw with
  | None => Ok zero
  | Some v =>
      match dec v with
      | Ok p => Ok p
      | Err e => Err (alerting_err ErrInvalidParams (error_text e))
      end
  end.

(** [int(d.Hours())] and [int(d.Minutes())] on whole hours and minutes. *)
Definition windowLabel (buckets step : Z) : string :=
  let d := wrap64 (buckets * step) in
  if Z.rem d Hour =? 0 then itoa (Z.quot d Hour) ++ "h"
  else if Z.rem d Minute =? 0 then itoa (Z.quot d Minute) ++ "m"
  else Duration_String d.

Definition scopeLabel (s : Scope) : string :=
  if negb (String.eqb (sc_AppName s) "") then ", app " ++ sc_AppName s
  else if negb (String.eqb (sc_IntegrationID s) "") then ", integration " ++ sc_IntegrationID s
  else if negb (String.eqb (sc_DeploymentID s) "") then ", deployment " ++ sc_DeploymentID s
  else "".

(** [type Condition interface] *)
Class Condition (C : Type) : Type := {
  ID : C -> string;
  Kind : C -> string;
  Label : C -> string;
  QueryOf : C -> Z -> Query;
  Evaluate : C -> Z -> Series -> Outcome;
  Unavailable : C -> string -> string -> Outcome;
  Downward : C -> bool;
}.

(** ** threshold.go *)
Definition defaultThresholdWindow : Z := 5.
Definition defaultMinDenominator : f64 := f_of_Z 20.

Record ThresholdParams : Type := mkThresholdParams {
  tp_Op : string;
  tp_Threshold : f64;
  tp_WindowBuckets : Z;
  tp_MinSamples : Z;
  tp_Confidence : f64;
  tp_MinDenominator : f64;
}.

Definition decode_threshold : any -> res ThresholdParams :=
  json_struct "alerting.ThresholdParams"
    ["op"; "threshold"; "windowBuckets"; "minSamples"; "confidence"; "minDenominator"] (fun m =>
    op ← json_string (m !! "op");
    threshold ← json_float (m !! "threshold");
    window ← json_int (m !! "windowBuckets");
    samples ← json_int (m !! "minSamples");
    confidence ← json_float (m !! "confidence");
    denominator ← json_float (m !! "minDenominator");
    mret (mkThresholdParams op threshold window samples confidence denominator)).

Record thresholdCondition : Type := mkThreshold {
  t_base : conditionBase;
  t_params : ThresholdParams;
}.

Definition too_many_samples (samples window : Z) : goerr :=
  alerting_err ErrInvalidParams
    ("minSamples " ++ itoa samples ++ " exceeds the " ++ itoa window ++ "-bucket window").

Definition newThreshold (base : conditionBase) : res thresholdCondition :=
  p ← decodeParams (cs_Params (spec base)) (mkThresholdParams "" f_zero 0 0 f_zero f_zero) decode_threshold;
  if negb (existsb (String.eqb (tp_Op p)) [OpGT; OpGTE; OpLT; OpLTE]) then
    Err (alerting_err ErrInvalidParams ("threshold needs one of gt/gte/lt/lte, got " ++ quote (tp_Op p)))
  else
    let window := if tp_WindowBuckets p <=? 0 then defaultThresholdWindow else tp_WindowBuckets p in
    let samples := if tp_MinSamples p <=? 0 then Z.quot (wrap64 (window + 1)) 2 else tp_MinSamples p in
    if window <? samples then Err (too_many_samples samples window)
    else
      let ratio := Ratio (metric base) in
      let confidence := if ratio && f_le (tp_Confidence p) f_zero
                        then defaultConfidence else tp_Confidence p in
      let denominator := if ratio && f_le (tp_MinDenominator p) f_zero
                         then defaultMinDenominator else tp_MinDenominator p in
      mret (mkThreshold base
        (mkThresholdParams (tp_Op p) (tp_Threshold p) window samples confidence denominator)).

Section threshold.
Implicit Types c : thresholdCondition.

Definition threshold_Label c : string :=
  m_Name (metric (t_base c)) ++ " " ++ tp_Op (t_params c) ++ " over "
  ++ windowLabel (tp_WindowBuckets (t_params c)) (step (t_base c))
  ++ scopeLabel (cs_Scope (spec (t_base c))).

Definition threshold_blank c : Outcome :=
  base_outcome (t_base c) KindThreshold (threshold_Label c) (tp_Op (t_params c)) (tp_Threshold (t_params c)).

Definition threshold_verdict c (statistic : f64) (out : Outcome) : Outcome :=
  if Compare (tp_Op (t_params c)) statistic (tp_Threshold (t_params c))
  then finish out True_ ReasonConditionMet
  else finish out False_ ReasonThresholdUnmet.

Definition evaluateRatio c (s : Series) (from to : Z) (out : Outcome) : Outcome :=
  let p := t_params c in
  let numerators := Known s from to in
  let samples := Z.of_nat (List.length numerators) in
  if samples =? 0 then
    finish (with_findings out (mkFindings None None None samples 0 f_zero true "")) Unknown ReasonNoData
  else if samples <? tp_MinSamples p then
    finish (with_findings out (mkFindings None None None samples 0 f_zero false "")) Unknown ReasonFewSamples
  else
    let numerator := sum_floats numerators in
    let denominator := SumDenominator s from to in
    if f_eq denominator f_zero then
      finish (with_findings out (mkFindings None None None samples 0 denominator true "")) Unknown ReasonNoData
    else
      let point := f_div numerator denominator in
      if f_lt denominator (tp_MinDenominator p) then
        finish (with_findings out (mkFindings (Some point) None None samples 0 denominator false ""))
          Unknown ReasonSmallDenom
      else
        match Bound (tp_Op p) numerator denominator (tp_Confidence p) with
        | None => finish (with_findings out (mkFindings (Some point) None None samples 0 denominator true ""))
                    Unknown ReasonNoData
        | Some bound =>
            threshold_verdict c bound
              (with_findings out (mkFindings (Some point) None (Some bound) samples 0 denominator false ""))
        end.

Definition threshold_Evaluate c (now : Z) (s : Series) : Outcome :=
  let p := t_params c in
  let '(from, to) := windowIndices s now (tp_WindowBuckets p) in
  let out := with_window (threshold_blank c) (BucketStart s from) (BucketStart s to) in
  if Ratio (metric (t_base c)) then evaluateRatio c s from to out
  else
    let known := Known s from to in
    let samples := Z.of_nat (List.length known) in
    if samples =? 0 then
      finish (with_findings out (mkFindings None None None samples 0 f_zero true "")) Unknown ReasonNoData
    else if samples <? tp_MinSamples p then
      finish (with_findings out (mkFindings None None None samples 0 f_zero false "")) Unknown ReasonFewSamples
    else
      match Reduce (agg (t_base c)) known with
      | Err e => finish (with_findings out (mkFindings None None None samples 0 f_zero false (error_text e)))
                   Unknown ReasonFetchFailed
      | Ok observed =>
          threshold_verdict c observed
            (with_findings out (mkFindings (Some observed) None None samples 0 f_zero false ""))
      end.

#[export] Instance threshold_Condition : Condition thresholdCondition := {|
  ID c := cs_ID (spec (t_base c));
  Kind _ := KindThreshold;
  Label := threshold_Label;
  QueryOf c now := base_query (t_base c) now (tp_WindowBuckets (t_params c));
  Evaluate := threshold_Evaluate;
  Unavailable c reason err :=
    finish (with_findings (threshold_blank c) (mkFindings None None None 0 0 f_zero false err)) Unknown reason;
  Downward c := op_Downward (tp_Op (t_params c));
|}.
End threshold.

(** ** spike.go *)
Definition defaultSpikeWindow : Z := 1.
Definition defaultGuardBuckets : Z := 1.
Definition defaultBaseline : Z := 30.
Definition defaultZ : f64 := f_of_Z 4.
Definition defaultMinRatio : f64 := f_of_Z 2.
Definition defaultMinBaseline : Z := 12.
Definition defaultCountMinDelta : f64 := f_of_Z 5.
Definition DirectionUp : string := "up".
Definition DirectionDown : string := "down".

Record SpikeParams : Type := mkSpikeParams {
  sp_WindowBuckets : Z;
  sp_BaselineBuckets : Z;
  sp_GuardBuckets : Z;
  sp_Direction : string;
  sp_Z : f64;
  sp_MinDelta : f64;
  sp_MinRatio : f64;
  sp_MinSamples : Z;
  sp_MinBaseline : Z;
  sp_MinScale : f64;
  sp_MinDenominator : f64;
}.

Definition decode_spike : any -> res SpikeParams :=
  json_struct "alerting.SpikeParams"
    ["windowBuckets"; "baselineBuckets"; "guardBuckets"; "direction"; "z"; "minDelta"; "minRatio";
     "minSamples"; "minBaseline"; "minScale"; "minDenominator"] (fun m =>
    window ← json_int (m !! "windowBuckets");
    baseline ← json_int (m !! "baselineBuckets");
    guard ← json_int (m !! "guardBuckets");
    direction ← json_string (m !! "direction");
    z ← json_float (m !! "z");
    delta ← json_float (m !! "minDelta");
    ratio ← json_float (m !! "minRatio");
    samples ← json_int (m !! "minSamples");
    min_baseline ← json_int (m !! "minBaseline");
    scale ← json_float (m !! "minScale");
    denominator ← json_float (m !! "minDenominator");
    mret (mkSpikeParams window baseline guard direction z delta ratio samples min_baseline scale denominator)).

Record spikeCondition : Type := mkSpike {
  s_base : conditionBase;
  s_params : SpikeParams;
}.

Definition applySpikeDefaults (p : SpikeParams) (metric : Metric) : SpikeParams :=
  mkSpikeParams
    (if sp_WindowBuckets p <=? 0 then defaultSpikeWindow else sp_WindowBuckets p)
    (if sp_BaselineBuckets p <=? 0 then defaultBaseline else sp_BaselineBuckets p)
    (if sp_GuardBuckets p <? 0 then 0
     else if sp_GuardBuckets p =? 0 then defaultGuardBuckets else sp_GuardBuckets p)
    (sp_Direction p)
    (if f_le (sp_Z p) f_zero then defaultZ else sp_Z p)
    (if f_le (sp_MinDelta p) f_zero && m_CountLike metric then defaultCountMinDelta else sp_MinDelta p)
    (if f_le (sp_MinRatio p) f_zero then defaultMinRatio else sp_MinRatio p)
    (if sp_MinSamples p <=? 0 then 1 else sp_MinSamples p)
    (if sp_MinBaseline p <=? 0 then defaultMinBaseline else sp_MinBaseline p)
    (sp_MinScale p)
    (if Ratio metric && f_le (sp_MinDenominator p) f_zero then defaultMinDenominator else sp_MinDenominator p).

Definition zero_spike : SpikeParams :=
  mkSpikeParams 0 0 0 "" f_zero f_zero f_zero 0 0 f_zero f_zero.

Definition with_direction (p : SpikeParams) (d : string) : SpikeParams :=
  mkSpikeParams (sp_WindowBuckets p) (sp_BaselineBuckets p) (sp_GuardBuckets p) d (sp_Z p)
    (sp_MinDelta p) (sp_MinRatio p) (sp_MinSamples p) (sp_MinBaseline p) (sp_MinScale p) (sp_MinDenominator p).

Definition newSpike (base : conditionBase) : res spikeCondition :=
  p ← decodeParams (cs_Params (spec base)) zero_spike decode_spike;
  let p := if String.eqb (sp_Direction p) "" then with_direction p DirectionUp else p in
  if negb (String.eqb (sp_Direction p) DirectionUp) && negb (String.eqb (sp_Direction p) DirectionDown) then
    Err (alerting_err ErrInvalidParams ("spike direction must be up or down, got " ++ quote (sp_Direction p)))
  else
    let p := applySpikeDefaults p (metric base) in
    if sp_WindowBuckets p <? sp_MinSamples p
    then Err (too_many_samples (sp_MinSamples p) (sp_WindowBuckets p))
    else mret (mkSpike base p).

Definition spikeOp (direction : string) : string :=
  if String.eqb direction DirectionDown then OpLT else OpGT.

Section spike.
Implicit Types c : spikeCondition.

Definition spike_Label c : string :=
  m_Name (metric (s_base c)) ++ " " ++ sp_Direction (s_params c) ++ " sharply over "
  ++ windowLabel (sp_WindowBuckets (s_params c)) (step (s_base c))
  ++ scopeLabel (cs_Scope (spec (s_base c))).

Definition spike_blank c : Outcome :=
  base_outcome (s_base c) KindSpike (spike_Label c) (spikeOp (sp_Direction (s_params c))) (sp_Z (s_params c)).

Definition clearsRatio c (observed median : f64) : bool :=
  let p := s_params c in
  if f_le median f_zero then true
  else if String.eqb (sp_Direction p) DirectionDown
  then f_le (f_mul observed (sp_MinRatio p)) median
  else f_ge observed (f_mul (sp_MinRatio p) median).

Definition gate c (out : Outcome) (z delta observed median : f64) : Outcome :=
  let p := s_params c in
  if f_lt z (sp_Z p) then finish out False_ ReasonBelowZ
  else if f_lt delta (sp_MinDelta p) then finish out False_ ReasonSmallDelta
  else if negb (clearsRatio c observed median) then finish out False_ ReasonSmallRatio
  else finish out True_ ReasonConditionMet.

Definition spike_span c : Z :=
  let p := s_params c in
  wrap64 (sp_WindowBuckets p + sp_GuardBuckets p + sp_BaselineBuckets p + sp_WindowBuckets p - 1).

Definition spike_Evaluate c (now : Z) (s : Series) : Outcome :=
  let p := s_params c in
  let out := spike_blank c in
  let rolled := Rolling s (agg (s_base c)) (sp_WindowBuckets p) (sp_MinSamples p) in
  let '(_, to) := windowIndices s now (sp_WindowBuckets p) in
  let obs := to - 1 in
  if obs <? 0 then
    finish (with_findings out (mkFindings None None None 0 0 f_zero true "")) Unknown ReasonNoData
  else
    let first := obs - sp_WindowBuckets p + 1 in
    let out := with_window out (BucketStart s first) (BucketStart s to) in
    let denominator := SumDenominator s first to in
    if Ratio (metric (s_base c)) && f_lt denominator (sp_MinDenominator p) then
      finish (with_findings out (mkFindings None None None 0 0 denominator false "")) Unknown ReasonSmallDenom
    else
      match At rolled obs with
      | None => finish (with_findings out (mkFindings None None None 0 0 f_zero true "")) Unknown ReasonNoData
      | Some x =>
          let samples := Z.of_nat (List.length (Known s first to)) in
          let baselineTo := obs - sp_GuardBuckets p in
          let baseline := Known rolled (baselineTo - sp_BaselineBuckets p) baselineTo in
          let bsamples := Z.of_nat (List.length baseline) in
          if bsamples <? sp_MinBaseline p then
            finish (with_findings out (mkFindings (Some x) None None samples bsamples f_zero false ""))
              Unknown ReasonShortBaseline
          else
            let '(median, mad) := default (f_zero, f_zero) (MAD baseline) in
            let scale := Scale median mad (m_CountLike (metric (s_base c))) (sp_MinScale p) in
            let delta := f_sub x median in
            let delta := if String.eqb (sp_Direction p) DirectionDown then f_neg delta else delta in
            let z := f_div delta scale in
            gate c (with_findings out (mkFindings (Some x) (Some median) (Some z) samples bsamples f_zero false ""))
              z delta x median
      end.

#[export] Instance spike_Condition : Condition spikeCondition := {|
  ID c := cs_ID (spec (s_base c));
  Kind _ := KindSpike;
  Label := spike_Label;
  QueryOf c now := base_query (s_base c) now (spike_span c);
  Evaluate := spike_Evaluate;
  Unavailable c reason err :=
    finish (with_findings (spike_blank c) (mkFindings None None None 0 0 f_zero false err)) Unknown reason;
  Downward c := String.eqb (sp_Direction (s_params c)) DirectionDown;
|}.
End spike.

(** ** absence.go *)
Definition defaultAbsenceFor : Z := 5.
Definition defaultAbsenceBaseline : Z := 12.

Record AbsenceParams : Type := mkAbsenceParams {
  ap_ForBuckets : Z;
  ap_MinBaseline : Z;
  ap_BaselineBuckets : Z;
}.

Definition decode_absence : any -> res AbsenceParams :=
  json_struct "alerting.AbsenceParams" ["forBuckets"; "minBaseline"; "baselineBuckets"] (fun m =>
    for_ ← json_int (m !! "forBuckets");
    min ← json_int (m !! "minBaseline");
    baseline ← json_int (m !! "baselineBuckets");
    mret (mkAbsenceParams for_ min baseline)).

Record absenceCondition : Type := mkAbsence {
  a_base : conditionBase;
  a_params : AbsenceParams;
}.

Definition newAbsence (base : conditionBase) : res absenceCondition :=
  p ← decodeParams (cs_Params (spec base)) (mkAbsenceParams 0 0 0) decode_absence;
  let p := mkAbsenceParams
    (if ap_ForBuckets p <=? 0 then defaultAbsenceFor else ap_ForBuckets p)
    (if ap_MinBaseline p <=? 0 then defaultAbsenceBaseline else ap_MinBaseline p)
    (if ap_BaselineBuckets p <=? 0 then defaultBaseline else ap_BaselineBuckets p) in
  if ap_BaselineBuckets p <? ap_MinBaseline p then
    Err (alerting_err ErrInvalidParams ("minBaseline " ++ itoa (ap_MinBaseline p) ++ " exceeds the "
           ++ itoa (ap_BaselineBuckets p) ++ "-bucket baseline"))
  else mret (mkAbsence base p).

Section absence.
Implicit Types c : absenceCondition.

Definition absence_Label c : string :=
  m_Name (metric (a_base c)) ++ " silent for "
  ++ windowLabel (ap_ForBuckets (a_params c)) (step (a_base c))
  ++ scopeLabel (cs_Scope (spec (a_base c))).

Definition absence_blank c : Outcome :=
  base_outcome (a_base c) KindAbsence (absence_Label c) OpLTE f_zero.

(** [v, ok := s.At(i); ok && v != 0] *)
Definition reporting (s : Series) (i : Z) : bool :=
  match At s i with Some v => negb (f_eq v f_zero) | None => false end.

Definition absence_Evaluate c (now : Z) (s : Series) : Outcome :=
  let p := a_params c in
  let '(from, to) := windowIndices s now (ap_ForBuckets p) in
  let out := with_window (absence_blank c) (BucketStart s from) (BucketStart s to) in
  if to <=? from then
    finish (with_findings out (mkFindings None None None 0 0 f_zero true "")) Unknown ReasonNoData
  else
    if existsb (reporting s) (range from to) then
      finish (with_findings out (mkFindings (Some f_zero) None None (to - from) 0 f_zero false ""))
        False_ ReasonThresholdUnmet
    else
      let reported := Z.of_nat (List.length (filter (fun i => reporting s i = true)
                        (range (Z.max (from - ap_BaselineBuckets p) 0) from))) in
      let out := with_findings out (mkFindings (Some f_zero) None None (to - from) reported f_zero false "") in
      if reported <? ap_MinBaseline p then finish out False_ ReasonNeverReported
      else finish out True_ ReasonConditionMet.

#[export] Instance absence_Condition : Condition absenceCondition := {|
  ID c := cs_ID (spec (a_base c));
  Kind _ := KindAbsence;
  Label := absence_Label;
  QueryOf c now := base_query (a_base c) now (wrap64 (ap_ForBuckets (a_params c) + ap_BaselineBuckets (a_params c)));
  Evaluate := absence_Evaluate;
  Unavailable c reason err :=
    finish (with_findings (absence_blank c) (mkFindings None None None 0 0 f_zero false err)) Unknown reason;
  Downward _ := true;
|}.
End absence.

(** ** The built conditions *)
Inductive condition : Type :=
  | CThreshold (c : thresholdCondition)
  | CSpike (c : spikeCondition)
  | CAbsence (c : absenceCondition).

(** Dynamic dispatch on the value an interface holds. *)
#[export] Instance condition_Condition : Condition condition := {|
  ID c := match c with CThreshold c => ID c | CSpike c => ID c | CAbsence c => ID c end;
  Kind c := match c with CThreshold c => Kind c | CSpike c => Kind c | CAbsence c => Kind c end;
  Label c := match c with CThreshold c => Label c | CSpike c => Label c | CAbsence c => Label c end;
  QueryOf c := match c with CThreshold c => QueryOf c | CSpike c => QueryOf c | CAbsence c => QueryOf c end;
  Evaluate c := match c with CThreshold c => Evaluate c | CSpike c => Evaluate c | CAbsence c => Evaluate c end;
  Unavailable c :=
    match c with CThreshold c => Unavailable c | CSpike c => Unavailable c | CAbsence c => Unavailable c end;
  Downward c := match c with CThreshold c => Downward c | CSpike c => Downward c | CAbsence c => Downward c end;
|}.

Definition NewCondition (spec : ConditionSpec) (step : Z) : res condition :=
  if String.eqb (cs_ID spec) "" then Err (alerting_err ErrInvalidParams "a condition needs an id")
  else if String.eqb (cs_Type spec) KindGroup || negb (Nat.eqb (List.length (cs_Conditions spec)) 0)
  then Err (alerting_err ErrNestedConditions ("condition " ++ quote (cs_ID spec)))
  else
    metric ← LookupMetric (cs_Source spec) (cs_Metric spec);
    let agg := if String.eqb (cs_Aggregate spec) "" then DefaultAggregate metric else cs_Aggregate spec in
    if negb (Allows metric agg) then
      Err (alerting_err ErrInvalidParams (m_Name metric ++ " does not take " ++ agg))
    else
      let base := mkBase spec metric agg step in
      if String.eqb (cs_Type spec) KindThreshold then CThreshold <$> newThreshold base
      else if String.eqb (cs_Type spec) KindSpike then CSpike <$> newSpike base
      else if String.eqb (cs_Type spec) KindAbsence then CAbsence <$> newAbsence base
      else Err (alerting_err ErrUnknownCondition (quote (cs_Type spec) ++ " on condition " ++ quote (cs_ID spec))).

(** ** What building establishes *)
Lemma newThreshold_ok base c :
  newThreshold base = Ok c ->
  t_base c = base /\ 1 <= tp_WindowBuckets (t_params c) /\
  tp_MinSamples (t_params c) <= tp_WindowBuckets (t_params c).
Proof.
  unfold newThreshold. intros (p & _ & H)%res_bind_ok. cbv zeta in H.
  destruct (negb _); [done|].
  set (w := if tp_WindowBuckets p <=? 0 then _ else _) in *.
  set (m := if tp_MinSamples p <=? 0 then _ else _) in *.
  destruct (Z.ltb_spec w m); [done|]. injection H as <-. cbn [t_base t_params tp_WindowBuckets tp_MinSamples].
  split; [done|]. split; [|lia]. subst w. unfold defaultThresholdWindow. destruct (Z.leb_spec (tp_WindowBuckets p) 0); lia.
Qed.

Lemma newSpike_ok base c :
  newSpike base = Ok c ->
  s_base c = base /\
  let p := s_params c in
  1 <= sp_MinSamples p <= sp_WindowBuckets p /\ 1 <= sp_BaselineBuckets p /\ 0 <= sp_GuardBuckets p /\
  1 <= sp_MinBaseline p /\
  (exists p0, decodeParams (cs_Params (spec base)) zero_spike decode_spike = Ok p0 /\
     p = applySpikeDefaults (if String.eqb (sp_Direction p0) "" then with_direction p0 DirectionUp else p0) (metric base)).
Proof.
  unfold newSpike. intros (p0 & Hp0 & H)%res_bind_ok. cbv zeta in H.
  set (p := if String.eqb (sp_Direction p0) "" then _ else _) in *.
  destruct (negb _ && _); [done|].
  destruct (Z.ltb_spec (sp_WindowBuckets (applySpikeDefaults p (metric base)))
    (sp_MinSamples (applySpikeDefaults p (metric base)))); [done|]. injection H as <-. split; [done|].
  cbn [s_params]. cbv zeta. split; [|split; [|split; [|split; [|by exists p0]]]]; [split; [|done]|..];
    cbn [applySpikeDefaults sp_MinSamples sp_WindowBuckets sp_BaselineBuckets sp_GuardBuckets sp_MinBaseline];
    unfold defaultBaseline, defaultGuardBuckets, defaultMinBaseline;
    repeat match goal with
    | |- context[?a <=? ?b] => destruct (Z.leb_spec a b)
    | |- context[?a <? ?b] => destruct (Z.ltb_spec a b)
    | |- context[?a =? ?b] => destruct (Z.eqb_spec a b)
    end; lia.
Qed.

Lemma newAbsence_ok base c :
  newAbsence base = Ok c ->
  a_base c = base /\ let p := a_params c in
  1 <= ap_ForBuckets p /\ 1 <= ap_MinBaseline p <= ap_BaselineBuckets p.
Proof.
  unfold newAbsence. intros (p0 & _ & H)%res_bind_ok. cbv zeta in H.
  match type of H with (if ?a <? ?b then _ else _) = _ => destruct (Z.ltb_spec a b); [done|] end.
  injection H as <-. split; [done|]. cbn [a_params ap_ForBuckets ap_MinBaseline ap_BaselineBuckets] in *.
  unfold defaultAbsenceFor, defaultAbsenceBaseline, defaultBaseline in *.
  destruct (Z.leb_spec (ap_ForBuckets p0) 0), (Z.leb_spec (ap_MinBaseline p0) 0); lia.
Qed.

(** How many buckets back from the closed instant a condition reads. *)
Definition lookback (c : condition) : Z :=
  match c with
  | CThreshold c => tp_WindowBuckets (t_params c)
  | CSpike c => let p := s_params c in
      sp_WindowBuckets p + sp_GuardBuckets p + sp_BaselineBuckets p + sp_WindowBuckets p - 1
  | CAbsence c => ap_ForBuckets (a_params c) + ap_BaselineBuckets (a_params c)
  end.
Definition base_of (c : condition) : conditionBase :=
  match c with CThreshold c => t_base c | CSpike c => s_base c | CAbsence c => a_base c end.

Lemma NewCondition_ok sp st c :
  NewCondition sp st = Ok c ->
  exists m ag, LookupMetric (cs_Source sp) (cs_Metric sp) = Ok m /\ Allows m ag = true /\
    base_of c = mkBase sp m ag st /\
    match c with
    | CThreshold c => newThreshold (mkBase sp m ag st) = Ok c
    | CSpike c => newSpike (mkBase sp m ag st) = Ok c
    | CAbsence c => newAbsence (mkBase sp m ag st) = Ok c
    end.
Proof.
  unfold NewCondition. destruct (String.eqb (cs_ID sp) ""); [done|]. destruct (_ || _); [done|].
  intros (m & Hm & H)%res_bind_ok. cbv zeta in H.
  set (ag := if String.eqb (cs_Aggregate sp) "" then _ else _) in *.
  destruct (Allows m ag) eqn:Ha; [|done]. cbn [negb] in H. exists m, ag.
  split; [done|]. split; [done|].
  destruct (String.eqb (cs_Type sp) KindThreshold).
  { destruct (newThreshold _) as [c0|] eqn:Hc; [|done]. injection H as <-.
    split; [simpl; by apply newThreshold_ok in Hc as [-> _]|done]. }
  destruct (String.eqb (cs_Type sp) KindSpike).
  { destruct (newSpike _) as [c0|] eqn:Hc; [|done]. injection H as <-.
    split; [simpl; by apply newSpike_ok in Hc as [-> _]|done]. }
  destruct (String.eqb (cs_Type sp) KindAbsence); [|done].
  destruct (newAbsence _) as [c0|] eqn:Hc; [|done]. injection H as <-.
  split; [simpl; by apply newAbsence_ok in Hc as [-> _]|done].
Qed.

Lemma lookback_pos sp st c : NewCondition sp st = Ok c -> 1 <= lookback c.
Proof.
  intros (m & ag & _ & _ & _ & H)%NewCondition_ok. destruct c; simpl.
  - apply newThreshold_ok in H. lia.
  - apply newSpike_ok in H as (_ & H). simpl in H. lia.
  - apply newAbsence_ok in H as (_ & H). simpl in H. lia.
Qed.

Lemma QueryOf_lookback c now :
  in_int64 (lookback c) -> QueryOf c now = base_query (base_of c) now (lookback c).
Proof. intros H. destruct c; simpl in *; unfold spike_span; rewrite ?wrap64_id by done; done. Qed.

Lemma base_query_span k b now n :
  step b = k * Millisecond -> 0 < k -> 0 <= now - EvalLag <= int64_max -> 1 <= n <= closed_at k now ->
  q_From (base_query b now n) = (closed_at k now - n) * (k * Millisecond) /\
  q_To (base_query b now n) = closed_at k now * (k * Millisecond) /\
  Buckets (base_query b now n) = n.
Proof.
  intros Hs Hk Hn Hb. unfold Buckets, base_query. rewrite Hs, Window_closed by done. simpl. split_and!; [done..|].
  assert (0 < k * Millisecond) by (unfold Millisecond; lia).
  assert (closed_at k now * (k * Millisecond) <= int64_max) by
    (unfold closed_at; rewrite Z.mul_comm; etransitivity; [apply Z.mul_div_le; lia|lia]).
  unfold BucketCount. destruct (Z.leb_spec (k * Millisecond) 0); [lia|].
  destruct (Z.leb_spec (closed_at k now * (k * Millisecond)) ((closed_at k now - n) * (k * Millisecond))); [nia|].
  cbn [orb]. unfold Sub. rewrite Z.min_r, Z.max_r by (unfold int64_min; nia).
  replace (closed_at k now * (k * Millisecond) - (closed_at k now - n) * (k * Millisecond)) with (n * (k * Millisecond)) by lia.
  apply Z.quot_mul. lia.
Qed.
