(* ===== verification/Coalesce.v ===== *)
(** Sharing a fetch between conditions: an evaluation is the same on the
    condition's own series and on the wider one a coalesced query fetched. *)
From S2P Require Import Prelude F64 GoTime Message Series Stats Verdict Metrics Conditions.
From Stdlib Require Import String.
#[local] Open Scope string_scope.
#[local] Open Scope Z_scope.

Lemma length_filter_map {A B} (f : B -> bool) (g : A -> B) (h : A -> bool) (l : list A) :
  (forall x, x ∈ l -> f (g x) = h x) ->
  List.length (filter (fun y => f y = true) (map g l)) = List.length (filter (fun x => h x = true) l).
Proof.
  induction l as [|x l IH]; intros H; [done|]. simpl map. rewrite !filter_cons.
  rewrite H by (by left). repeat case_decide; simpl; rewrite ?IH; try done; intros; apply H; by right.
Qed.

Section widened.
Context (k F : Z) (wide : Series) (now n : Z).
Hypothesis grid : on_grid k F wide.
Hypothesis Hnow : 0 <= now - EvalLag <= int64_max.
Hypothesis Hn : 1 <= n.
Hypothesis Hfrom : F <= closed_at k now - n.
Hypothesis Hto : closed_at k now <= F + Len wide.

Let o := closed_at k now - n - F.

Lemma indices_wide b : 0 <= b <= n -> windowIndices wide now b = (n - b + o, n + o).
Proof using All.
  intros. rewrite (windowIndices_grid k F) by (done || lia). unfold o. f_equal; lia.
Qed.

Lemma indices_narrow b : 0 <= b <= n -> windowIndices (narrow o n wide) now b = (n - b, n).
Proof using All.
  intros.
  assert (on_grid k (F + o) (narrow o n wide)) by (apply narrow_grid; unfold o; lia || done).
  assert (Len (narrow o n wide) = n) as Hl by (apply (narrow_Len k F); unfold o; lia || done).
  rewrite (windowIndices_grid k (F + o)) by (rewrite ?Hl; unfold o; lia || done).
  unfold o. f_equal; lia.
Qed.

Lemma threshold_widened c : tp_WindowBuckets (t_params c) = n ->
  threshold_Evaluate c now wide = threshold_Evaluate c now (narrow o n wide).
Proof using All.
  intros Hw. unfold threshold_Evaluate. rewrite Hw, indices_wide, indices_narrow by lia.
  assert (0 <= o /\ o + n <= Len wide) as [Ho1 Ho2] by (unfold o; lia).
  rewrite !(BucketStart_narrow k F), (Known_narrow o n) by (done || lia).
  unfold evaluateRatio. by rewrite (Known_narrow o n), (SumDenominator_narrow k F) by (done || lia).
Qed.

Lemma absence_widened c :
  1 <= ap_ForBuckets (a_params c) -> 1 <= ap_BaselineBuckets (a_params c) ->
  ap_ForBuckets (a_params c) + ap_BaselineBuckets (a_params c) = n ->
  absence_Evaluate c now wide = absence_Evaluate c now (narrow o n wide).
Proof using All.
  intros Hf Hb Hs. unfold absence_Evaluate. rewrite indices_wide, indices_narrow by lia.
  assert (0 <= o /\ o + n <= Len wide) as [Ho1 Ho2] by (unfold o; lia).
  rewrite !(BucketStart_narrow k F) by (done || lia).
  set (f := ap_ForBuckets (a_params c)) in *. set (bl := ap_BaselineBuckets (a_params c)) in *.
  assert (forall i, 0 <= i < n -> reporting (narrow o n wide) i = reporting wide (i + o)) as Hrep.
  { intros i Hi. unfold reporting. by rewrite At_narrow by lia. }
  destruct (Z.leb_spec (n + o) (n - f + o)), (Z.leb_spec n (n - f)); try lia.
  replace (n + o - (n - f + o)) with (n - (n - f)) by lia.
  replace (existsb (reporting wide) (range (n - f + o) (n + o)))
    with (existsb (reporting (narrow o n wide)) (range (n - f) n)).
  2:{ rewrite range_shift. apply eq_iff_eq_true. rewrite !existsb_exists. split.
      - intros (i & Hi & Hr). exists (i + o). apply list_elem_of_In, elem_of_range in Hi.
        rewrite Hrep in Hr by lia. split; [|done]. apply in_map_iff. exists i. split; [done|].
        apply list_elem_of_In, elem_of_range. lia.
      - intros (j & (i & <- & Hi)%in_map_iff & Hr). exists i. split; [done|].
        apply list_elem_of_In, elem_of_range in Hi. by rewrite Hrep by lia. }
  replace (List.length (filter (λ i, reporting wide i = true) (range (Z.max (n - f + o - bl) 0) (n - f + o))))
    with (List.length (filter (λ i, reporting (narrow o n wide) i = true) (range (Z.max (n - f - bl) 0) (n - f)))); [done|].
  replace (Z.max (n - f + o - bl) 0) with (Z.max (n - f - bl) 0 + o) by lia.
  rewrite range_shift. symmetry. apply length_filter_map.
  intros i [Hi1 Hi2]%elem_of_range. by rewrite Hrep by lia.
Qed.

Lemma spike_widened c :
  let p := s_params c in
  1 <= sp_MinSamples p <= sp_WindowBuckets p -> 1 <= sp_BaselineBuckets p -> 0 <= sp_GuardBuckets p ->
  sp_WindowBuckets p + sp_GuardBuckets p + sp_BaselineBuckets p + sp_WindowBuckets p - 1 = n ->
  spike_Evaluate c now wide = spike_Evaluate c now (narrow o n wide).
Proof using All.
  cbv zeta. intros Hw Hb Hg Hs. unfold spike_Evaluate. cbv zeta. rewrite indices_wide, indices_narrow by lia.
  assert (0 <= o /\ o + n <= Len wide) as [Ho1 Ho2] by (unfold o; lia).
  set (w := sp_WindowBuckets (s_params c)) in *. set (bl := sp_BaselineBuckets (s_params c)) in *.
  set (gd := sp_GuardBuckets (s_params c)) in *. set (m := sp_MinSamples (s_params c)) in *.
  destruct (Z.ltb_spec (n + o - 1) 0), (Z.ltb_spec (n - 1) 0); try lia.
  replace (n + o - 1 - w + 1) with (n - 1 - w + 1 + o) by lia.
  replace (n + o - 1 - gd - bl) with (n - 1 - gd - bl + o) by lia.
  replace (n + o - 1 - gd) with (n - 1 - gd + o) by lia.
  replace (n + o - 1) with (n - 1 + o) by lia.
  rewrite !(BucketStart_narrow k F), (SumDenominator_narrow k F), (Known_narrow o n),
    (Known_Rolling_narrow k F) by (done || lia).
  assert (At (Rolling (narrow o n wide) (agg (s_base c)) w m) (n - 1)
    = At (Rolling wide (agg (s_base c)) w m) (n - 1 + o)) as ->; [|done].
  rewrite !At_Rolling, (narrow_Len k F o n wide) by (done || lia).
  destruct (Z.leb_spec 0 (n - 1)), (Z.ltb_spec (n - 1) n), (Z.leb_spec 0 (n - 1 + o)),
    (Z.ltb_spec (n - 1 + o) (Len wide)); try lia.
  cbn [andb]. apply (rolled_at_narrow k F); lia || done.
Qed.
End widened.

(** Whatever wider stretch of the grid a coalesced query fetched, a condition
    evaluates it to the very outcome it gives on the buckets of its own query
    alone, which hold exactly the instants that query asked for. *)
Lemma coalescing_on_grid sp k now c F wide :
  NewCondition sp (k * Millisecond) = Ok c ->
  0 <= now - EvalLag <= int64_max -> lookback c <= closed_at k now ->
  on_grid k F wide ->
  F * (k * Millisecond) <= q_From (QueryOf c now) ->
  q_To (QueryOf c now) <= (F + Len wide) * (k * Millisecond) ->
  let q := QueryOf c now in
  let own := narrow (q_From q / (k * Millisecond) - F) (Buckets q) wide in
  Evaluate c now wide = Evaluate c now own /\
  BucketStart own 0 = q_From q /\ BucketStart own (Len own) = q_To q.
Proof.
  intros Hc Hnow Hl Hg Hf Ht q own. subst own q. assert (0 < k) by apply Hg.
  assert (0 < k * Millisecond) by (unfold Millisecond; lia).
  pose proof (lookback_pos _ _ _ Hc).
  assert (in_int64 (lookback c)).
  { unfold in_int64, int64_min. split; [lia|]. etransitivity; [apply Hl|]. unfold closed_at.
    etransitivity; [apply Z.div_le_upper_bound; [lia|]|apply Hnow]. nia. }
  pose proof (NewCondition_ok _ _ _ Hc) as (m & ag & _ & _ & Hbase & Hk).
  rewrite QueryOf_lookback in * by done. rewrite Hbase in *.
  destruct (base_query_span k (mkBase sp m ag (k * Millisecond)) now (lookback c)) as (Hqf & Hqt & Hqb);
    [done|done|done|lia|].
  rewrite Hqf in Hf |- *. rewrite Hqt in Ht |- *. rewrite Hqb. rewrite Z.div_mul by lia.
  assert (F <= closed_at k now - lookback c) by nia. assert (closed_at k now <= F + Len wide) by nia.
  split; [|split].
  - destruct c as [c|c|c]; simpl in *.
    + eapply threshold_widened; eauto.
    + apply newSpike_ok in Hk as (_ & Hp). simpl in Hp. eapply spike_widened; eauto; lia.
    + apply newAbsence_ok in Hk as (_ & Hp). simpl in Hp. eapply absence_widened; eauto; lia.
  - rewrite (BucketStart_narrow k F) by (lia || done).
    rewrite (BucketStart_grid k F) by (lia || done). lia.
  - rewrite (narrow_Len k F) by (lia || done). rewrite (BucketStart_narrow k F) by (lia || done).
    rewrite (BucketStart_grid k F) by (lia || done). lia.
Qed.
