(* ===== verification/Watch.v ===== *)
(** A watch: its validation, the fetches it plans and the evaluation its
    conditions combine to: [observability/internal/alerting/watch.go] with
    [evaluation.go]. *)
From S2P Require Import Prelude GoStr F64 GoTime Message Series Stats Verdict Metrics Conditions Coalesce.
From Stdlib Require Import String.
#[local] Open Scope string_scope.
#[local] Open Scope Z_scope.

Definition MinInterval : Z := MinStep.
Definition MaxInterval : Z := Hour.
Definition MaxName : Z := 200.
Definition SeverityInfo : string := "info".
Definition SeverityWarning : string := "warning".
Definition SeverityCritical : string := "critical".
Definition ValidSeverity (s : string) : bool :=
  existsb (String.eqb s) [SeverityInfo; SeverityWarning; SeverityCritical].

Record ActionSpec : Type := mkActionSpec {
  as_ID : string;
  as_Type : string;
  as_Params : option any;
}.

Record Watch : Type := mkWatch {
  w_ID : string;
  w_Name : string;
  w_Description : string;
  w_Enabled : bool;
  w_Severity : string;
  w_Combinator : string;
  w_Conditions : list ConditionSpec;
  w_Actions : list ActionSpec;
  w_OnNoData : string;
  w_Step : Z;
  w_Interval : Z;
  w_For : Z;
  w_Cooldown : Z;
  w_DefinitionHash : string;
  w_CreatedAt : Z;
  w_UpdatedAt : Z;
}.

Definition HoldEvaluations (w : Watch) : Z :=
  if (w_For w <=? 0) || (w_Interval w <=? 0) then 1
  else
    let n := Z.quot (wrap64 (wrap64 (w_For w + w_Interval w) - 1)) (w_Interval w) in
    if n <? 1 then 1 else n.

Definition invalid (text : string) : res unit := Err (alerting_err ErrInvalidWatch text).

Definition validate (w : Watch) : res unit :=
  let conditions := Z.of_nat (List.length (w_Conditions w)) in
  if is_blank (w_Name w) then invalid "a watch needs a name"
  else if MaxName <? Z.of_nat (String.length (w_Name w)) then
    invalid ("a name may not exceed " ++ itoa MaxName ++ " characters")
  else if negb (String.eqb (w_Combinator w) CombineAll) && negb (String.eqb (w_Combinator w) CombineAny) then
    invalid ("combinator must be all or any, got " ++ quote (w_Combinator w))
  else if conditions =? 0 then invalid "a watch with no conditions asks nothing"
  else if MaxConditions <? conditions then
    invalid (itoa conditions ++ " conditions exceeds the limit of " ++ itoa MaxConditions)
  else if (w_Step w <? MinStep) || (MaxStep <? w_Step w) then
    invalid ("step must be between " ++ Duration_String MinStep ++ " and " ++ Duration_String MaxStep
             ++ ", got " ++ Duration_String (w_Step w))
  else if (w_Interval w <? MinInterval) || (MaxInterval <? w_Interval w) then
    invalid ("interval must be between " ++ Duration_String MinInterval ++ " and " ++ Duration_String MaxInterval
             ++ ", got " ++ Duration_String (w_Interval w))
  else if (w_For w <? 0) || (w_Cooldown w <? 0) then invalid "for and cooldown may not be negative"
  else if negb (ValidSeverity (w_Severity w)) then
    invalid ("severity must be info, warning or critical, got " ++ quote (w_Severity w))
  else Ok tt.

Record Built : Type := mkBuilt {
  b_Watch : Watch;
  b_Conditions : list condition;
}.

Fixpoint build_conditions (step : Z) (seen : list string) (specs : list ConditionSpec) : res (list condition) :=
  match specs with
  | [] => Ok []
  | spec :: specs =>
      if existsb (String.eqb (cs_ID spec)) seen then
        Err (alerting_err ErrInvalidWatch ("two conditions share the id " ++ quote (cs_ID spec)))
      else
        c ← NewCondition spec step;
        cs ← build_conditions step (cs_ID spec :: seen) specs;
        mret (c :: cs)
  end.

Definition Build (w : Watch) : res Built :=
  _ ← validate w;
  built ← build_conditions (w_Step w) [] (w_Conditions w);
  mret (mkBuilt w built).

Definition built_Downward (b : Built) : bool := existsb Downward (b_Conditions b).

(** ** evaluation.go *)
Definition StatusOK : string := "ok".
Definition StatusFiring : string := "firing".
Definition StatusInsufficient : string := "insufficient".
Definition StatusError : string := "error".

Record Evaluation : Type := mkEvaluation {
  e_At : Z;
  e_Combinator : string;
  e_Outcomes : list Outcome;
  e_Verdict : Truth;
  e_Status : string;
  e_Matched : Z;
  e_Total : Z;
  e_Degraded : bool;
  e_WindowFrom : Z;
  e_WindowTo : Z;
  e_Duration : Z;
  e_Reason : string;
  e_Err : string;
}.

Definition Firing (e : Evaluation) : bool := bool_decide (e_Verdict e = True_).
Definition Decided (e : Evaluation) : bool := negb (bool_decide (e_Verdict e = Unknown)).

(** What a fetch gave: the series, or why there is none. *)
Record Fetched : Type := mkFetched {
  fe_Series : Series;
  fe_Err : option goerr;
}.

Definition allErrored (outcomes : list Outcome) : bool :=
  match outcomes with
  | [] => false
  | _ => forallb (fun o => negb (String.eqb (o_Err o) "")) outcomes
  end.

Definition statusOf (verdict : Truth) (outcomes : list Outcome) : string :=
  match verdict with
  | True_ => StatusFiring
  | False_ => StatusOK
  | Unknown => if allErrored outcomes then StatusError else StatusInsufficient
  end.

Definition widenSpan (span candidate : Z * Z) : Z * Z :=
  let '(from, to) := span in
  let '(cfrom, cto) := candidate in
  if IsZero cfrom && IsZero cto then (from, to)
  else (if IsZero from || (cfrom <? from) then cfrom else from, if to <? cto then cto else to).

(** [Plan] and [Evaluate] are written against the interface. *)
Section interface.
Context {C : Type} {HC : Condition C}.

(** The map of queries by key, with the order the keys were first seen in. *)
Fixpoint plan_loop (now : Z) (cs : list C) (order : list string) (byKey : gmap string Query) : list Query :=
  match cs with
  | [] => omap (fun key => byKey !! key) order
  | c :: cs =>
      let q := QueryOf c now in
      match byKey !! Key q with
      | Some existing => plan_loop now cs order (<[Key q := Widen existing q]> byKey)
      | None => plan_loop now cs (order ++ [Key q]) (<[Key q := q]> byKey)
      end
  end.
Definition plan_of (now : Z) (cs : list C) : list Query := plan_loop now cs [] ∅.

Definition evaluate_one (onNoData : string) (c : C) (now : Z) (fetched : gmap string Fetched) : Outcome :=
  match fetched !! Key (QueryOf c now) with
  | None => Unavailable c ReasonFetchFailed "no result was fetched for this condition"
  | Some result =>
      match fe_Err result with
      | Some err =>
          if error_is err ErrCoarseData then Unavailable c ReasonCoarseData (error_text err)
          else Unavailable c ReasonFetchFailed (error_text err)
      | None =>
          let out := Evaluate c now (fe_Series result) in
          if o_NoData out then finish out (policy_Truth onNoData) (o_Reason out) else out
      end
  end.

Definition evaluate_of (w : Watch) (cs : list C) (now : Z) (fetched : gmap string Fetched) : Evaluation :=
  let outcomes := map (fun c => evaluate_one (w_OnNoData w) c now fetched) cs in
  let verdict := Combine (w_Combinator w) (map o_Verdict outcomes) in
  let span := foldl widenSpan (zero_time, zero_time) (map (fun o => (o_WindowFrom o, o_WindowTo o)) outcomes) in
  mkEvaluation now (w_Combinator w) outcomes verdict (statusOf verdict outcomes)
    (Z.of_nat (List.length (filter (fun o => o_Verdict o = True_) outcomes)))
    (Z.of_nat (List.length cs))
    (existsb (fun o => negb (String.eqb (o_Err o) "") || bool_decide (o_Verdict o = Unknown)) outcomes)
    span.1 span.2 0 "" "".
End interface.

Definition Plan (b : Built) (now : Z) : list Query := plan_of now (b_Conditions b).
Definition evaluateOne (b : Built) (c : condition) (now : Z) (fetched : gmap string Fetched) : Outcome :=
  evaluate_one (w_OnNoData (b_Watch b)) c now fetched.
Definition built_Evaluate (b : Built) (now : Z) (fetched : gmap string Fetched) : Evaluation :=
  evaluate_of (b_Watch b) (b_Conditions b) now fetched.

(** [Runner.fetchAll]: the plan's queries, each fetched once. *)
Definition fetchAll (fetch : Query -> Fetched) (b : Built) (now : Z) : gmap string Fetched :=
  foldl (fun out q => <[Key q := fetch q]> out) ∅ (Plan b now).

(** ** What a plan covers *)
Section plans.
Context {C : Type} {HC : Condition C} (now : Z).

Record plan_state_ok (order : list string) (byKey : gmap string Query) : Prop := mkPlanOk {
  po_nodup : NoDup order;
  po_dom : forall key, key ∈ order <-> is_Some (byKey !! key);
  po_key : forall key q, byKey !! key = Some q -> Key q = key;
}.

Lemma plan_state_widen order byKey q existing :
  plan_state_ok order byKey -> byKey !! Key q = Some existing ->
  plan_state_ok order (<[Key q := Widen existing q]> byKey).
Proof.
  intros [Hn Hd Hk] He. split; [done|..].
  - intros key. rewrite Hd. destruct (decide (key = Key q)) as [->|Hne].
    + rewrite lookup_insert_eq, He. split; eauto.
    + by rewrite lookup_insert_ne.
  - intros key q' H. destruct (decide (key = Key q)) as [->|Hne].
    + rewrite lookup_insert_eq in H. injection H as <-. rewrite Key_Widen. eauto.
    + rewrite lookup_insert_ne in H by done. eauto.
Qed.

Lemma plan_state_new order byKey q :
  plan_state_ok order byKey -> byKey !! Key q = None ->
  plan_state_ok (order ++ [Key q]) (<[Key q := q]> byKey).
Proof.
  intros [Hn Hd Hk] He. split.
  - apply NoDup_app. split; [done|]. split; [|apply NoDup_singleton].
    intros key Hkey Hq%list_elem_of_singleton. subst. apply Hd in Hkey. rewrite He in Hkey. by destruct Hkey.
  - intros key. rewrite elem_of_app, list_elem_of_singleton, Hd. destruct (decide (key = Key q)) as [->|Hne].
    + rewrite lookup_insert_eq. split; [eauto|by right].
    + rewrite lookup_insert_ne by done. naive_solver.
  - intros key q' H. destruct (decide (key = Key q)) as [->|Hne].
    + rewrite lookup_insert_eq in H. by injection H as <-.
    + rewrite lookup_insert_ne in H by done. eauto.
Qed.

Definition covers (q q' : Query) : Prop :=
  Key q = Key q' /\ q_From q <= q_From q' /\ q_To q' <= q_To q.

Lemma covers_trans q1 q2 q3 : covers q1 q2 -> covers q2 q3 -> covers q1 q3.
Proof. unfold covers. intros (-> & ? & ?) (-> & ? & ?). split; [done|lia]. Qed.
Lemma covers_refl q : covers q q.
Proof. split; [done|lia]. Qed.
Lemma covers_widen q q' : Key q = Key q' -> covers (Widen q q') q /\ covers (Widen q q') q'.
Proof. intros H. unfold covers. rewrite Key_Widen, Widen_From, Widen_To. repeat split; lia || congruence. Qed.

Lemma plan_loop_nodup cs : forall order byKey,
  plan_state_ok order byKey -> NoDup (map Key (plan_loop now cs order byKey)).
Proof.
  induction cs as [|c cs IH]; intros order byKey Hok; simpl.
  - assert (map Key (omap (fun key => byKey !! key) order) = order) as ->; [|apply Hok].
    destruct Hok as [_ Hd Hk]. assert (forall key, key ∈ order -> is_Some (byKey !! key)) as Hd' by (intros; by apply Hd).
    clear Hd. induction order as [|key order IH]; [done|].
    destruct (Hd' key) as [q Hq]; [by left|].
    simpl. rewrite Hq. simpl. rewrite (Hk _ _ Hq). f_equal.
    apply IH. intros; apply Hd'. by right.
  - destruct (byKey !! Key (QueryOf c now)) as [existing|] eqn:E; apply IH.
    + by apply plan_state_widen.
    + by apply plan_state_new.
Qed.

Lemma plan_loop_covers cs : forall order byKey,
  plan_state_ok order byKey ->
  (forall key q, byKey !! key = Some q -> exists p, p ∈ plan_loop now cs order byKey /\ covers p q) /\
  (forall c, c ∈ cs -> exists p, p ∈ plan_loop now cs order byKey /\ covers p (QueryOf c now)).
Proof.
  induction cs as [|c cs IH]; intros order byKey Hok; simpl.
  - split; [|by intros c ?%elem_of_nil]. intros key q Hq. exists q. split; [|apply covers_refl].
    apply list_elem_of_omap. exists key. split; [|done]. apply Hok. eauto.
  - set (q := QueryOf c now). destruct (byKey !! Key q) as [existing|] eqn:E.
    + destruct (IH order (<[Key q := Widen existing q]> byKey)) as [H1 H2];
        [by apply plan_state_widen|].
      assert (Key existing = Key q) as Hke by (by eapply po_key).
      destruct (H1 (Key q) (Widen existing q)) as (p & Hp & Hc); [apply lookup_insert_eq|].
      destruct (covers_widen existing q Hke) as [Hw1 Hw2]. split.
      * intros key q' Hq'. destruct (decide (key = Key q)) as [->|Hne].
        -- rewrite E in Hq'. injection Hq' as <-. eauto using covers_trans.
        -- apply (H1 key). by rewrite lookup_insert_ne.
      * intros c' [->|Hc']%elem_of_cons; [|by apply H2]. exists p. eauto using covers_trans.
    + destruct (IH (order ++ [Key q])%list (<[Key q := q]> byKey)) as [H1 H2]; [by apply plan_state_new|]. split.
      * intros key q' Hq'. apply (H1 key). rewrite lookup_insert_ne; [done|]. intros <-. congruence.
      * intros c' [->|Hc']%elem_of_cons; [|by apply H2]. apply (H1 (Key q)). apply lookup_insert_eq.
Qed.

(** What a plan's queries inherit from the conditions' own. *)
Lemma plan_loop_inherits (P : Query -> Prop) cs :
  (forall q q', P q -> P q' -> Key q = Key q' -> P (Widen q q')) ->
  (forall c, c ∈ cs -> P (QueryOf c now)) ->
  forall order byKey, plan_state_ok order byKey -> (forall key q, byKey !! key = Some q -> P q) ->
  forall q, q ∈ plan_loop now cs order byKey -> P q.
Proof.
  intros HW. induction cs as [|c cs IH]; intros Hc order byKey Hok Hb q; simpl.
  - intros (key & _ & Hq)%list_elem_of_omap. eauto.
  - destruct (byKey !! Key (QueryOf c now)) as [existing|] eqn:E; apply IH.
    + intros; apply Hc. by right.
    + by apply plan_state_widen.
    + intros key q' [[<- <-]|[Hne H]]%lookup_insert_Some; [|eauto].
      apply HW; eauto; [apply Hc; by left|by eapply po_key].
    + intros; apply Hc. by right.
    + by apply plan_state_new.
    + intros key q' [[<- <-]|[Hne H]]%lookup_insert_Some; [|eauto]. apply Hc. by left.
Qed.

Lemma plan_state_init : plan_state_ok [] ∅.
Proof.
  split; [constructor|..].
  - intros key. rewrite lookup_empty. split; [by intros ?%elem_of_nil|by intros [? ?]].
  - intros key q. by rewrite lookup_empty.
Qed.
End plans.

Lemma fetchAll_lookup (fetch : Query -> Fetched) (plan : list Query) q :
  NoDup (map Key plan) -> q ∈ plan ->
  foldl (fun out q => <[Key q := fetch q]> out) (∅ : gmap string Fetched) plan !! Key q = Some (fetch q).
Proof.
  intros Hn. assert (forall (m : gmap string Fetched), q ∈ plan ->
    foldl (fun out q => <[Key q := fetch q]> out) m plan !! Key q = Some (fetch q)) as H; [|by apply H].
  assert (forall (m : gmap string Fetched) l key, key ∉ map Key l ->
    foldl (fun out q => <[Key q := fetch q]> out) m l !! key = m !! key) as Hother.
  { intros m l. revert m. induction l as [|p l IH]; intros m key Hk; [done|]. simpl in Hk |- *.
    rewrite IH by set_solver. apply lookup_insert_ne. set_solver. }
  induction plan as [|p plan IH]; intros m; [by intros ?%elem_of_nil|]. simpl in *.
  apply NoDup_cons in Hn as [Hp Hn]. intros [->|Hq]%elem_of_cons; [|by apply IH].
  rewrite Hother by done. apply lookup_insert_eq.
Qed.

(** ** Fetching from a store *)

(** A store as a watch sees it: for each kind of row a query names, the value
    of every bucket since the epoch, and for a ratio its denominators.  A fetch
    answers with the buckets of the query's span. *)
Record Rows : Type := mkRows {
  r_values : string -> Z -> option f64;
  r_denominators : string -> option (Z -> option f64);
  r_filled : string -> bool;
}.

Definition fetch_rows (rows : Rows) (q : Query) : Fetched :=
  let span := range (q_From q / q_Step q) (q_To q / q_Step q) in
  mkFetched
    (mkSeries (q_Step q) (UnixMilli (q_From q)) (map (r_values rows (Key q)) span)
       (match r_denominators rows (Key q) with None => [] | Some d => map d span end)
       (r_filled rows (Key q))) None.

(** A query for whole buckets of [k] milliseconds. *)
Definition whole (k : Z) (q : Query) : Prop :=
  exists f t, 0 <= f < t /\ t * (k * Millisecond) <= int64_max /\ q_Step q = k * Millisecond /\
    q_From q = f * (k * Millisecond) /\ q_To q = t * (k * Millisecond).

Lemma whole_widen k q q' : 0 < k -> whole k q -> whole k q' -> whole k (Widen q q').
Proof.
  intros Hk (f & t & Hft & Hmax & Hs & Hf & Ht) (f' & t' & Hft' & Hmax' & Hs' & Hf' & Ht').
  assert (0 < k * Millisecond) by (unfold Millisecond; lia).
  exists (Z.min f f'), (Z.max t t'). rewrite Widen_From, Widen_To, Hf, Hf', Ht, Ht'.
  split_and!; [lia..| |done| |]; nia.
Qed.

Lemma range_narrow F o n T : 0 <= o -> 0 <= n -> F + o + n <= T ->
  take (Z.to_nat n) (drop (Z.to_nat o) (range F T)) = range (F + o) (F + o + n).
Proof.
  intros Ho Hn HT. unfold range. replace (T - F) with (o + (n + (T - F - o - n))) by lia.
  rewrite seqZ_app, (seqZ_app _ n) by lia.
  rewrite drop_app_length' by (rewrite length_seqZ; lia).
  rewrite take_app_length' by (rewrite length_seqZ; lia). f_equal. lia.
Qed.

Lemma narrow_map {A} (f : Z -> option f64) (l : list A) F o n T : 0 <= o -> 0 <= n -> F + o + n <= T ->
  narrow_column o n (map f (range F T)) = map f (range (F + o) (F + o + n)).
Proof.
  intros. unfold narrow_column. rewrite skipn_map, firstn_map. f_equal. by apply range_narrow.
Qed.

Section transparency.
Context (k : Z) (rows : Rows).
Hypothesis Hk : 0 < k.

Lemma step_pos : 0 < k * Millisecond.
Proof using Hk. unfold Millisecond. lia. Qed.

Lemma whole_series q f t :
  0 <= f < t -> t * (k * Millisecond) <= int64_max -> q_Step q = k * Millisecond ->
  q_From q = f * (k * Millisecond) -> q_To q = t * (k * Millisecond) ->
  on_grid k f (fe_Series (fetch_rows rows q)) /\ Len (fe_Series (fetch_rows rows q)) = t - f.
Proof using Hk.
  intros Hft Hmax Hs Hf Ht. pose proof step_pos.
  assert (Len (fe_Series (fetch_rows rows q)) = t - f) as Hl.
  { unfold Len, fetch_rows. simpl. rewrite length_map, Hs, Hf, Ht, !Z.div_mul by lia.
    unfold range. rewrite length_seqZ. lia. }
  split; [|done]. split; [done|]. split; [done|].
  assert (t * k <= int64_max / Millisecond) by (apply Z.div_le_lower_bound; [unfold Millisecond; lia|nia]).
  split.
  - simpl. rewrite Hf, Z.mul_assoc. apply UnixMilli_mul, grid_int64. nia.
  - split; [lia|]. rewrite Hl. split; [replace (f + (t - f)) with t by lia; done|].
    simpl. destruct (r_denominators rows (Key q)); [right; by rewrite !length_map|by left].
Qed.

Lemma narrow_fetch q p f t f' t' :
  0 <= f' -> f' <= f < t -> t <= t' -> t' * (k * Millisecond) <= int64_max -> Key p = Key q ->
  q_Step q = k * Millisecond -> q_From q = f * (k * Millisecond) -> q_To q = t * (k * Millisecond) ->
  q_Step p = k * Millisecond -> q_From p = f' * (k * Millisecond) -> q_To p = t' * (k * Millisecond) ->
  narrow (f - f') (t - f) (fe_Series (fetch_rows rows p)) = fe_Series (fetch_rows rows q).
Proof using Hk.
  intros Hf0 Hft Ht Hmax HKey Hqs Hqf Hqt Hps Hpf Hpt. pose proof step_pos.
  unfold narrow, fetch_rows. simpl.
  rewrite HKey, Hqs, Hqf, Hqt, Hps, Hpf, Hpt, Milliseconds_mul, !Z.div_mul by lia.
  assert (forall g : Z -> option f64,
    narrow_column (f - f') (t - f) (map g (range f' t')) = map g (range f t)) as Hm.
  { intros g. rewrite (narrow_map g (@nil Z)) by lia. f_equal. f_equal; lia. }
  assert (t' * k <= int64_max / Millisecond) by (apply Z.div_le_lower_bound; [unfold Millisecond; lia|nia]).
  rewrite !Z.mul_assoc, !UnixMilli_mul by (apply grid_int64; nia).
  rewrite Hm. f_equal; [lia|].
  destruct (r_denominators rows (Key q)); [apply Hm|]. unfold narrow_column. by rewrite drop_nil, take_nil.
Qed.
End transparency.

Lemma build_conditions_ok step specs : forall seen cs,
  build_conditions step seen specs = Ok cs -> Forall2 (fun sp c => NewCondition sp step = Ok c) specs cs.
Proof.
  induction specs as [|sp specs IH]; intros seen cs; simpl.
  - intros [= <-]. constructor.
  - destruct (existsb _ _); [done|]. intros (c & Hc & (cs' & Hcs & [= <-])%res_bind_ok)%res_bind_ok.
    constructor; [done|]. by eapply IH.
Qed.

Lemma Build_ok w b :
  Build w = Ok b -> b_Watch b = w /\ validate w = Ok tt /\
  Forall2 (fun sp c => NewCondition sp (w_Step w) = Ok c) (w_Conditions w) (b_Conditions b).
Proof.
  unfold Build. intros ([] & Hv & (cs & Hcs & [= <-])%res_bind_ok)%res_bind_ok.
  split_and!; [done..|]. by eapply build_conditions_ok.
Qed.

Lemma Build_condition w b c :
  Build w = Ok b -> c ∈ b_Conditions b -> exists sp, sp ∈ w_Conditions w /\ NewCondition sp (w_Step w) = Ok c.
Proof.
  intros (_ & _ & H)%Build_ok Hc. apply list_elem_of_lookup in Hc as [i Hi].
  destruct (Forall2_lookup_r _ _ _ _ _ H Hi) as (sp & Hsp & Hn). eauto using list_elem_of_lookup_2.
Qed.

Lemma own_query_whole k now sp c :
  0 < k -> 0 <= now - EvalLag <= int64_max -> NewCondition sp (k * Millisecond) = Ok c ->
  lookback c <= closed_at k now ->
  let q := QueryOf c now in
  q_Step q = k * Millisecond /\ q_From q = (closed_at k now - lookback c) * (k * Millisecond) /\
  q_To q = closed_at k now * (k * Millisecond) /\ Buckets q = lookback c /\
  closed_at k now * (k * Millisecond) <= int64_max /\ 1 <= lookback c.
Proof.
  intros Hk Hnow Hc Hl q. assert (0 < k * Millisecond) by (unfold Millisecond; lia).
  pose proof (lookback_pos _ _ _ Hc).
  assert (closed_at k now * (k * Millisecond) <= int64_max) by
    (unfold closed_at; rewrite Z.mul_comm; etransitivity; [apply Z.mul_div_le; lia|lia]).
  assert (in_int64 (lookback c)) by (unfold in_int64, int64_min; nia).
  pose proof (NewCondition_ok _ _ _ Hc) as (m & ag & _ & _ & Hbase & _).
  subst q. rewrite QueryOf_lookback, Hbase by done.
  destruct (base_query_span k (mkBase sp m ag (k * Millisecond)) now (lookback c)) as (Hqf & Hqt & Hqb);
    [done|done|done|lia|].
  split_and!; done.
Qed.

(** A condition judges a fetch that covers its own query as it judges its own. *)
Lemma shared_fetch k now rows sp c p :
  0 < k -> 0 <= now - EvalLag <= int64_max -> NewCondition sp (k * Millisecond) = Ok c ->
  lookback c <= closed_at k now -> whole k p -> covers p (QueryOf c now) ->
  Evaluate c now (fe_Series (fetch_rows rows p)) = Evaluate c now (fe_Series (fetch_rows rows (QueryOf c now))).
Proof.
  intros Hk Hnow Hsp Hl (f' & t' & Hft & Hmax' & Hps & Hpf' & Hpt') (HKey & Hpf & Hpt).
  destruct (own_query_whole k now sp c Hk Hnow Hsp Hl) as (Hqs & Hqf & Hqt & Hqb & Hmax & Hlb).
  set (q := QueryOf c now) in *.
  destruct (whole_series k rows Hk p f' t' Hft Hmax' Hps Hpf' Hpt') as [Hgrid HLen].
  assert (0 < k * Millisecond) by (unfold Millisecond; lia).
  assert (f' <= closed_at k now - lookback c) by nia. assert (closed_at k now <= t') by nia.
  destruct (coalescing_on_grid sp k now c f' (fe_Series (fetch_rows rows p)) Hsp Hnow Hl Hgrid) as (He & _).
  { fold q. rewrite Hqf. nia. }
  { fold q. rewrite HLen, Hqt. nia. }
  fold q in He. rewrite He, Hqf, Hqb, Z.div_mul by lia. f_equal.
  replace (lookback c) with (closed_at k now - (closed_at k now - lookback c)) at 2 by lia.
  apply (narrow_fetch k) with (t' := t'); done || lia.
Qed.


Definition no_scope : Scope := mkScope "" "" "" "" [] "" [] ∅ "".
(** "traces > 3 over 2 minutes" and "traces silent for 5 minutes", in
    one-minute buckets. *)
Definition busy_spec : ConditionSpec :=
  mkSpec "c1" KindThreshold SourceTraces "traces" "" no_scope
    (Some (AMap {[ "op" := AStr OpGT; "threshold" := AInt 3; "windowBuckets" := AInt 2 ]})) [].
Definition silent_spec : ConditionSpec :=
  mkSpec "c2" KindAbsence SourceTraces "traces" "" no_scope None [].
Definition traffic_watch : Watch :=
  mkWatch "w" "traffic" "" true SeverityWarning CombineAny [busy_spec; silent_spec] [] NoDataOK
    Minute Minute (5 * Minute) 0 "h" zero_time zero_time.
Definition built_or_empty (w : Watch) : Built :=
  match Build w with Ok b => b | Err _ => mkBuilt w [] end.
Definition at_minute (m : Z) : Z := m * Minute + EvalLag.
(** Two traces in every minute. *)
Definition steady : Rows := mkRows (fun _ _ => Some (f_of_Z 2)) (fun _ => None) (fun _ => true).


(** A hold is counted in evaluations, rounded up: for a valid watch whose
    hold is at most the 2^31-1 seconds its column can store, the machine asks for
    the least number of consecutive evaluations, and at least one, that spans it
    at the watch's interval; no overflow shortens it. *)
Theorem hold_is_ceiling w :
  validate w = Ok tt -> w_For w <= (2 ^ 31 - 1) * Second ->
  let n := HoldEvaluations w in
  1 <= n /\ w_For w <= n * w_Interval w /\ (n - 1) * w_Interval w < Z.max 1 (w_For w).
Proof.
  intros Hv Hfor n.
  assert (MinInterval <= w_Interval w <= MaxInterval /\ 0 <= w_For w) as [Hi Hf].
  { unfold validate in Hv. cbv zeta in Hv. repeat (case_match; [done|]).
    repeat match goal with H : _ || _ = false |- _ => apply orb_false_elim in H as [? ?] end. lia. }
  unfold MinInterval, MinStep, MaxInterval, Hour, Minute, Second in *. subst n. unfold HoldEvaluations.
  destruct (Z.leb_spec (w_For w) 0), (Z.leb_spec (w_Interval w) 0); cbn [orb]; try lia.
  rewrite (wrap64_id (w_For w + w_Interval w)) by (unfold in_int64, int64_min, int64_max; lia).
  rewrite wrap64_id by (unfold in_int64, int64_min, int64_max; lia). cbv zeta.
  rewrite Z.quot_div_nonneg by lia.
  pose proof (Z.div_mod (w_For w + w_Interval w - 1) (w_Interval w)) as Hd.
  pose proof (Z.mod_pos_bound (w_For w + w_Interval w - 1) (w_Interval w)).
  set (n := (w_For w + w_Interval w - 1) / w_Interval w) in *.
  destruct (Z.ltb_spec n 1); nia.
Qed.

Lemma hold_is_ceiling_witness :
  validate traffic_watch = Ok tt /\ HoldEvaluations traffic_watch = 5 /\
  (1 <= HoldEvaluations traffic_watch /\
   w_For traffic_watch <= HoldEvaluations traffic_watch * w_Interval traffic_watch /\
   (HoldEvaluations traffic_watch - 1) * w_Interval traffic_watch < Z.max 1 (w_For traffic_watch)).
Proof.
  split; [vm_compute; reflexivity|]. split; [vm_compute; reflexivity|].
  apply (hold_is_ceiling traffic_watch); [vm_compute; reflexivity|vm_compute; discriminate].
Defined.
