(* ===== verification/AlertState.v ===== *)
(** The state machine of a watch:
    [observability/internal/alerting/state.go], with the writing of its state by
    [store/record.go] and the announcements of [runner.go]. *)
From S2P Require Import Prelude F64 GoTime Message Series Verdict Metrics Conditions Watch.
From Stdlib Require Import String.
#[local] Open Scope string_scope.
#[local] Open Scope Z_scope.

Definition resolveEvaluations : Z := 2.
Definition staleEvaluations : Z := 30.

(** [Phase] is a string type; these are the phases the code writes, and
    [PhaseOther] is any other string found in a row. *)
Inductive Phase : Type := PhaseOK | PhasePending | PhaseFiring | PhaseInvalid | PhaseOther (s : string).
#[global] Instance Phase_eq_dec : EqDecision Phase.
Proof. solve_decision. Defined.

Record State : Type := mkState {
  st_WatchID : string;
  st_Phase : Phase;
  st_Since : Z;
  st_ConsecutiveFiring : Z;
  st_ConsecutiveOK : Z;
  st_ConsecutiveErrors : Z;
  st_DefinitionHash : string;
  st_LastEvalAt : Z;
  st_LastStatus : string;
  st_LastValue : option f64;
  st_IncidentID : string;
  st_LastNotifiedAt : Z;
  st_MutedUntil : Z;
  st_NextDueAt : Z;
}.

Inductive ActionKind : Type := ActionOpen | ActionRepeat | ActionResolve | ActionClose.
#[global] Instance ActionKind_eq_dec : EqDecision ActionKind.
Proof. solve_decision. Defined.

Definition ClosedResolved : string := "resolved".
Definition ClosedStale : string := "stale".
Definition ClosedEdited : string := "edited".
Definition ClosedDisabled : string := "disabled".
Definition ClosedDeleted : string := "deleted".

Record Action : Type := mkAction {
  ac_Kind : ActionKind;
  ac_At : Z;
  ac_Reason : string;
}.

Fixpoint first_observed (outcomes : list Outcome) : option f64 :=
  match outcomes with
  | [] => None
  | o :: rest => match o_Observed o with Some v => Some v | None => first_observed rest end
  end.
Definition firstObserved (ev : Evaluation) : option f64 := first_observed (e_Outcomes ev).

(** [s.ConsecutiveFiring, s.ConsecutiveOK, s.ConsecutiveErrors = f, k, e] *)
Definition with_counts (s : State) (f k e : Z) : State :=
  mkState (st_WatchID s) (st_Phase s) (st_Since s) f k e (st_DefinitionHash s) (st_LastEvalAt s)
    (st_LastStatus s) (st_LastValue s) (st_IncidentID s) (st_LastNotifiedAt s) (st_MutedUntil s) (st_NextDueAt s).
(** [s.Phase, s.Since = p, now] *)
Definition with_phase (s : State) (p : Phase) (now : Z) : State :=
  mkState (st_WatchID s) p now (st_ConsecutiveFiring s) (st_ConsecutiveOK s) (st_ConsecutiveErrors s)
    (st_DefinitionHash s) (st_LastEvalAt s) (st_LastStatus s) (st_LastValue s) (st_IncidentID s)
    (st_LastNotifiedAt s) (st_MutedUntil s) (st_NextDueAt s).
Definition with_incident (s : State) (id : string) : State :=
  mkState (st_WatchID s) (st_Phase s) (st_Since s) (st_ConsecutiveFiring s) (st_ConsecutiveOK s)
    (st_ConsecutiveErrors s) (st_DefinitionHash s) (st_LastEvalAt s) (st_LastStatus s) (st_LastValue s)
    id (st_LastNotifiedAt s) (st_MutedUntil s) (st_NextDueAt s).
(** What [Step] stamps on every evaluation. *)
Definition evaluated (cur : State) (w : Watch) (ev : Evaluation) (now : Z) : State :=
  mkState (w_ID w) (st_Phase cur) (st_Since cur) (st_ConsecutiveFiring cur) (st_ConsecutiveOK cur)
    (st_ConsecutiveErrors cur) (st_DefinitionHash cur) now (e_Status ev) (firstObserved ev)
    (st_IncidentID cur) (st_LastNotifiedAt cur) (st_MutedUntil cur) (now + w_Interval w).

Definition reset (s : State) (w : Watch) (now : Z) (reason : string) : State * list Action :=
  let actions :=
    if bool_decide (st_Phase s = PhaseFiring) && negb (String.eqb (st_IncidentID s) "")
    then [mkAction ActionClose now reason] else [] in
  (mkState (st_WatchID s) PhaseOK now 0 0 0 (w_DefinitionHash w) (st_LastEvalAt s) (st_LastStatus s)
     (st_LastValue s) "" zero_time (st_MutedUntil s) (st_NextDueAt s), actions).

Definition Retire : State -> Watch -> Z -> string -> State * list Action := reset.

Definition firing (next : State) (w : Watch) (now : Z) (actions : list Action) : State * list Action :=
  let next := with_counts next (wrap64 (st_ConsecutiveFiring next + 1)) 0 0 in
  if st_ConsecutiveFiring next <? HoldEvaluations w then
    (if bool_decide (st_Phase next = PhasePending) then next else with_phase next PhasePending now, actions)
  else if bool_decide (st_Phase next = PhaseFiring) then
    (next, (actions ++ [mkAction ActionRepeat now ""])%list)
  else
    (with_incident (with_phase next PhaseFiring now) "", (actions ++ [mkAction ActionOpen now ""])%list).

Definition recovered (next : State) (w : Watch) (now : Z) (actions : list Action) : State * list Action :=
  let next := with_counts next 0 (wrap64 (st_ConsecutiveOK next + 1)) 0 in
  match st_Phase next with
  | PhaseFiring =>
      if st_ConsecutiveOK next <? resolveEvaluations then (next, actions)
      else (with_incident (with_phase next PhaseOK now) "",
            (actions ++ [mkAction ActionResolve now ClosedResolved])%list)
  | PhasePending => (with_phase next PhaseOK now, actions)
  | _ => (next, actions)
  end.

Definition undecided (next : State) (w : Watch) (now : Z) (actions : list Action) : State * list Action :=
  let next := with_counts next 0 0 (wrap64 (st_ConsecutiveErrors next + 1)) in
  match st_Phase next with
  | PhasePending => (with_phase next PhaseOK now, actions)
  | PhaseFiring =>
      if st_ConsecutiveErrors next <? staleEvaluations then (next, actions)
      else (with_incident (with_phase next PhaseOK now) "",
            (actions ++ [mkAction ActionClose now ClosedStale])%list)
  | _ => (next, actions)
  end.

Definition Step (cur : State) (w : Watch) (ev : Evaluation) (now : Z) : State * list Action :=
  let next := evaluated cur w ev now in
  let '(next, actions) :=
    if String.eqb (st_DefinitionHash cur) (w_DefinitionHash w) then (next, [])
    else reset next w now ClosedEdited in
  if negb (Decided ev) then undecided next w now actions
  else if Firing ev then firing next w now actions
  else recovered next w now actions.

Definition Muted (s : State) (now : Z) : bool :=
  negb (IsZero (st_MutedUntil s)) && (now <? st_MutedUntil s).

(** ** store/record.go: the state an evaluation is recorded with; the id of an
    incident is minted by the insert that opens it. *)
Definition Record_state (minted : string) (state : State) (actions : list Action) : State :=
  foldl (fun state a => if bool_decide (ac_Kind a = ActionOpen) then with_incident state minted else state)
    state actions.

(** One evaluation of a watch: what it decided, when, and the id the store
    would mint for an incident it opens. *)
Record Tick : Type := mkTick {
  tk_Evaluation : Evaluation;
  tk_Now : Z;
  tk_Minted : string;
}.

Definition advance (w : Watch) (s : State) (t : Tick) : State * list Action :=
  let '(next, actions) := Step s w (tk_Evaluation t) (tk_Now t) in
  (Record_state (tk_Minted t) next actions, actions).

(** ** Histories, newest evaluation first *)
Fixpoint run (w : Watch) (s0 : State) (h : list Tick) : State :=
  match h with [] => s0 | t :: h => (advance w (run w s0 h) t).1 end.

Inductive class : Type := Fires | Clean | Blind.
#[global] Instance class_eq_dec : EqDecision class.
Proof. solve_decision. Defined.

Definition classify (t : Tick) : class :=
  match e_Verdict (tk_Evaluation t) with True_ => Fires | False_ => Clean | Unknown => Blind end.

(** How many evaluations in a row, up to the newest, were of class [c]. *)
Fixpoint streak (c : class) (h : list Tick) : Z :=
  match h with
  | [] => 0
  | t :: h => if bool_decide (classify t = c) then 1 + streak c h else 0
  end.

(** No [n] evaluations in a row of class [c] anywhere in [h]. *)
Definition never (c : class) (n : Z) (h : list Tick) : Prop :=
  forall newer older, h = (newer ++ older)%list -> streak c older < n.

Definition at_rest (s : State) (w : Watch) : Prop :=
  st_Phase s = PhaseOK /\ st_ConsecutiveFiring s = 0 /\ st_ConsecutiveOK s = 0 /\
  st_ConsecutiveErrors s = 0 /\ st_DefinitionHash s = w_DefinitionHash w.

Lemma streak_nonneg c h : 0 <= streak c h <= Z.of_nat (List.length h).
Proof. induction h as [|t h IH]; simpl; [lia|]. case_bool_decide; lia. Qed.

Lemma streak_cons c t h : streak c (t :: h) = if bool_decide (classify t = c) then 1 + streak c h else 0.
Proof. done. Qed.

Lemma streak_app_le c newer older : streak c newer <= streak c (newer ++ older).
Proof.
  induction newer as [|t newer IH]; simpl; [apply streak_nonneg|]. case_bool_decide; lia.
Qed.

Lemma streak_app_stop c c' newer older :
  c ≠ c' -> 0 < streak c' older -> streak c (newer ++ older) = streak c newer.
Proof.
  intros Hne Hs. induction newer as [|t newer IH]; simpl; [|by rewrite IH].
  destruct older as [|t older]; [done|]. simpl in *. do 2 case_bool_decide; congruence || lia.
Qed.

Lemma never_app_r c n newer older : never c n (newer ++ older) -> never c n older.
Proof. intros H a b ->. apply (H (newer ++ a)%list). by rewrite app_assoc. Qed.

Lemma HoldEvaluations_pos w : 1 <= HoldEvaluations w.
Proof. unfold HoldEvaluations. destruct (_ || _); [lia|]. cbv zeta. case_match; lia. Qed.

(** The fields of a state the machine's moves depend on. *)
Record core : Type := mkCore {
  k_phase : Phase; k_fires : Z; k_clean : Z; k_blind : Z; k_hash : string;
}.
Definition core_of (s : State) : core :=
  mkCore (st_Phase s) (st_ConsecutiveFiring s) (st_ConsecutiveOK s) (st_ConsecutiveErrors s) (st_DefinitionHash s).

Lemma core_Record id s l : core_of (Record_state id s l) = core_of s.
Proof. revert s. induction l as [|a l IH]; intros s; simpl; [done|]. rewrite IH. by case_bool_decide. Qed.

(** One evaluation of a watch whose definition did not change. *)
Definition core_step (H : Z) (k : core) (c : class) : core :=
  match c with
  | Fires =>
      let f := wrap64 (k_fires k + 1) in
      mkCore (if f <? H then PhasePending else PhaseFiring) f 0 0 (k_hash k)
  | Clean =>
      let n := wrap64 (k_clean k + 1) in
      mkCore (match k_phase k with
              | PhaseFiring => if n <? resolveEvaluations then PhaseFiring else PhaseOK
              | PhasePending => PhaseOK
              | p => p
              end) 0 n 0 (k_hash k)
  | Blind =>
      let n := wrap64 (k_blind k + 1) in
      mkCore (match k_phase k with
              | PhaseFiring => if n <? staleEvaluations then PhaseFiring else PhaseOK
              | PhasePending => PhaseOK
              | p => p
              end) 0 0 n (k_hash k)
  end.

(** The actions that go with it. *)
Definition core_actions (H : Z) (k : core) (c : class) : list ActionKind :=
  match c, k_phase k with
  | Fires, PhaseFiring => if wrap64 (k_fires k + 1) <? H then [] else [ActionRepeat]
  | Fires, _ => if wrap64 (k_fires k + 1) <? H then [] else [ActionOpen]
  | Clean, PhaseFiring => if wrap64 (k_clean k + 1) <? resolveEvaluations then [] else [ActionResolve]
  | Blind, PhaseFiring => if wrap64 (k_blind k + 1) <? staleEvaluations then [] else [ActionClose]
  | _, _ => []
  end.

Lemma advance_core w s t :
  st_DefinitionHash s = w_DefinitionHash w ->
  core_of (advance w s t).1 = core_step (HoldEvaluations w) (core_of s) (classify t) /\
  map ac_Kind (advance w s t).2 = core_actions (HoldEvaluations w) (core_of s) (classify t).
Proof.
  intros Hh. unfold advance.
  destruct (Step s w (tk_Evaluation t) (tk_Now t)) as [next actions] eqn:E. cbn [fst snd].
  rewrite core_Record. unfold Step in E. rewrite Hh, String.eqb_refl in E. unfold classify.
  unfold Decided, Firing in E.
  destruct (e_Verdict (tk_Evaluation t)); cbn in E.
  - unfold recovered in E. cbn in E. destruct s as [? p]. cbn in *.
    destruct p; cbn in E; unfold core_of, core_step, core_actions; cbn;
      repeat case_match; simplify_eq; done.
  - unfold firing in E. cbn in E. destruct s as [? p]. cbn in *.
    unfold core_of, core_step, core_actions; cbn.
    destruct p; cbn in E; repeat case_match; simplify_eq; done.
  - unfold undecided in E. cbn in E. destruct s as [? p]. cbn in *.
    destruct p; cbn in E; unfold core_of, core_step, core_actions; cbn;
      repeat case_match; simplify_eq; done.
Qed.

Section history.
Context (w : Watch) (s0 : State).
Hypothesis rest : at_rest s0 w.

(** The counters count the evaluations up to the newest. *)
Lemma run_counts h :
  Z.of_nat (List.length h) < int64_max ->
  let s := run w s0 h in
  st_DefinitionHash s = w_DefinitionHash w /\ st_ConsecutiveFiring s = streak Fires h /\
  st_ConsecutiveOK s = streak Clean h /\ st_ConsecutiveErrors s = streak Blind h.
Proof using rest.
  induction h as [|t h IH]; intros Hlen s.
  { destruct rest as (_ & ? & ? & ? & ?). done. }
  destruct IH as (Hh & Hf & Hk & He); [simpl in Hlen; lia|].
  destruct (advance_core w (run w s0 h) t Hh) as [Hc _]. subst s. cbn [run].
  assert (forall c, wrap64 (streak c h + 1) = streak c h + 1) as Hw.
  { intros c. apply wrap64_id. pose proof (streak_nonneg c h). simpl in Hlen. unfold in_int64, int64_min. lia. }
  rewrite !streak_cons. unfold core_of in Hc. rewrite Hh, Hf, Hk, He in Hc.
  destruct (classify t); simpl in Hc; rewrite Hw in Hc; injection Hc as Hp -> -> -> ->;
    repeat (case_bool_decide; try done); split_and!; done || lia.
Qed.

Lemma run_phase t h :
  Z.of_nat (List.length (t :: h)) < int64_max ->
  let p := st_Phase (run w s0 h) in
  st_Phase (run w s0 (t :: h)) =
  match classify t with
  | Fires => if 1 + streak Fires h <? HoldEvaluations w then PhasePending else PhaseFiring
  | Clean => match p with
             | PhaseFiring => if 1 + streak Clean h <? resolveEvaluations then PhaseFiring else PhaseOK
             | PhasePending => PhaseOK
             | p => p
             end
  | Blind => match p with
             | PhaseFiring => if 1 + streak Blind h <? staleEvaluations then PhaseFiring else PhaseOK
             | PhasePending => PhaseOK
             | p => p
             end
  end.
Proof using rest.
  intros Hlen p. destruct (run_counts h) as (Hh & Hf & Hk & He); [simpl in Hlen; lia|].
  destruct (advance_core w (run w s0 h) t Hh) as [Hc _]. cbn [run].
  assert (forall c, wrap64 (streak c h + 1) = 1 + streak c h) as Hw.
  { intros c. rewrite wrap64_id; [lia|]. pose proof (streak_nonneg c h). simpl in Hlen.
    unfold in_int64, int64_min. lia. }
  apply (f_equal k_phase) in Hc. cbn [core_of k_phase] in Hc. rewrite Hc. subst p.
  unfold core_of. rewrite Hh, Hf, Hk, He.
  destruct (classify t); cbn [core_step k_phase k_fires k_clean k_blind]; rewrite ?Hw; try done;
    by destruct (st_Phase (run w s0 h)).
Qed.

Lemma run_phases h :
  Z.of_nat (List.length h) < int64_max ->
  st_Phase (run w s0 h) = PhaseOK \/ st_Phase (run w s0 h) = PhasePending \/ st_Phase (run w s0 h) = PhaseFiring.
Proof using rest.
  induction h as [|t h IH]; intros Hlen; [left; apply rest|].
  rewrite run_phase by done.
  destruct IH as [-> | [-> | ->]]; [simpl in Hlen; lia|..]; destruct (classify t); repeat case_match; auto.
Qed.

Lemma run_pending h :
  Z.of_nat (List.length h) < int64_max ->
  st_Phase (run w s0 h) = PhasePending <-> 0 < streak Fires h < HoldEvaluations w.
Proof using rest.
  intros Hlen. destruct h as [|t h].
  { simpl. destruct rest as [-> _]. split; [done|lia]. }
  rewrite run_phase, streak_cons by done. pose proof (streak_nonneg Fires h).
  destruct (classify t); rewrite ?bool_decide_eq_true_2, ?bool_decide_eq_false_2 by done.
  - destruct (Z.ltb_spec (1 + streak Fires h) (HoldEvaluations w)); split; done || lia.
  - split; [|lia]. by repeat case_match.
  - split; [|lia]. by repeat case_match.
Qed.

(** The evaluations since a hold was met that keep its episode firing. *)
Definition keeps_firing (newer : list Tick) : Prop :=
  never Clean resolveEvaluations newer /\ never Blind staleEvaluations newer /\
  (HoldEvaluations w = 1 \/ Forall (fun t => classify t ≠ Fires) newer).

Lemma keeps_firing_cons t newer :
  keeps_firing (t :: newer) -> keeps_firing newer.
Proof using.
  intros (Hc & Hb & Hf). split_and!.
  - by apply (never_app_r _ _ [t]) in Hc.
  - by apply (never_app_r _ _ [t]) in Hb.
  - destruct Hf as [Hf|Hf]; [by left|right]. by apply Forall_cons in Hf as [_ ?].
Qed.

Lemma never_cons c n t newer :
  never c n newer -> streak c (t :: newer) < n -> never c n (t :: newer).
Proof using.
  intros Hn Ht [|x a] b E; simplify_list_eq; [done|]. by apply (Hn a).
Qed.

Lemma firing_kept newer older :
  Z.of_nat (List.length (newer ++ older)) < int64_max ->
  HoldEvaluations w <= streak Fires older -> keeps_firing newer ->
  st_Phase (run w s0 (newer ++ older)) = PhaseFiring.
Proof using rest.
  intros Hlen Hhold Hkeep. pose proof (HoldEvaluations_pos w) as Hpos.
  induction newer as [|t newer IH]; simpl app in *.
  - destruct older as [|t older]; [simpl in Hhold; lia|]. rewrite run_phase by done.
    rewrite streak_cons in Hhold. case_bool_decide as Ht; [|lia]. rewrite Ht.
    destruct (Z.ltb_spec (1 + streak Fires older) (HoldEvaluations w)); [lia|done].
  - pose proof Hkeep as (Hc & Hb & Hf).
    rewrite run_phase, IH by (done || (simpl in *; lia) || by eapply keeps_firing_cons).
    specialize (Hc [] (t :: newer) eq_refl). specialize (Hb [] (t :: newer) eq_refl).
    rewrite streak_cons in Hc, Hb. destruct (classify t) eqn:Ht.
    + pose proof (streak_nonneg Fires (newer ++ older)).
      destruct Hf as [->|[Hx _]%Forall_cons]; [|done]. by destruct (Z.ltb_spec (1 + streak Fires (newer ++ older)) 1); [lia|].
    + rewrite (streak_app_stop Clean Fires) by (done || lia). simpl in Hc. by destruct (Z.ltb_spec (1 + streak Clean newer) resolveEvaluations); [|lia].
    + rewrite (streak_app_stop Blind Fires) by (done || lia). simpl in Hb. by destruct (Z.ltb_spec (1 + streak Blind newer) staleEvaluations); [|lia].
Qed.

Lemma firing_kept_inv h :
  Z.of_nat (List.length h) < int64_max ->
  st_Phase (run w s0 h) = PhaseFiring ->
  exists newer older, h = (newer ++ older)%list /\ HoldEvaluations w <= streak Fires older /\ keeps_firing newer.
Proof using rest.
  induction h as [|t h IH]; intros Hlen Hp.
  { simpl in Hp. destruct rest as [Hr _]. by rewrite Hr in Hp. }
  rewrite run_phase in Hp by done. destruct (classify t) eqn:Ht.
  - destruct (Z.ltb_spec (1 + streak Fires h) (HoldEvaluations w)); [done|].
    exists [], (t :: h). split; [done|]. rewrite streak_cons, bool_decide_eq_true_2 by done. split; [done|].
    split_and!; [by intros [] ? ?; simplify_list_eq..|]. by right.
  - destruct (st_Phase (run w s0 h)) eqn:E; try done.
    destruct (Z.ltb_spec (1 + streak Clean h) resolveEvaluations) as [Hlt|]; [|done].
    destruct IH as (newer & older & -> & Hhold & Hc & Hb & Hf); [simpl in Hlen; lia|done|].
    pose proof (streak_app_le Clean newer older).
    exists (t :: newer), older. split; [done|]. split; [done|]. split_and!.
    + apply never_cons; [done|]. rewrite streak_cons, bool_decide_eq_true_2 by done. lia.
    + apply never_cons; [done|]. rewrite streak_cons, bool_decide_eq_false_2 by congruence. done.
    + destruct Hf as [Hf|Hf]; [by left|right]. constructor; [congruence|done].
  - destruct (st_Phase (run w s0 h)) eqn:E; try done.
    destruct (Z.ltb_spec (1 + streak Blind h) staleEvaluations) as [Hlt|]; [|done].
    destruct IH as (newer & older & -> & Hhold & Hc & Hb & Hf); [simpl in Hlen; lia|done|].
    pose proof (streak_app_le Blind newer older).
    exists (t :: newer), older. split; [done|]. split; [done|]. split_and!.
    + apply never_cons; [done|]. rewrite streak_cons, bool_decide_eq_false_2 by congruence. done.
    + apply never_cons; [done|]. rewrite streak_cons, bool_decide_eq_true_2 by done. lia.
    + destruct Hf as [Hf|Hf]; [by left|right]. constructor; [congruence|done].
Qed.
End history.

(** C39: what the machine says of a watch is a fact about its history: after any
    number of evaluations from rest, it is pending exactly when the newest
    evaluations fired, but not yet as many in a row as the hold demands, and
    firing exactly when at some point a whole hold fired in a row and since then
    there were neither two clean evaluations in a row nor thirty undecided ones
    nor, when the hold is longer than one evaluation, any firing one after a
    break; otherwise it is at rest. *)
Theorem phase_of_history w s0 h :
  at_rest s0 w -> Z.of_nat (List.length h) < int64_max ->
  let p := st_Phase (run w s0 h) in
  (p = PhasePending <-> 0 < streak Fires h < HoldEvaluations w) /\
  (p = PhaseFiring <->
     exists newer older, h = (newer ++ older)%list /\ HoldEvaluations w <= streak Fires older /\
       never Clean resolveEvaluations newer /\ never Blind staleEvaluations newer /\
       (HoldEvaluations w = 1 \/ Forall (fun t => classify t ≠ Fires) newer)) /\
  (p = PhaseOK \/ p = PhasePending \/ p = PhaseFiring).
Proof.
  intros Hr Hlen p. split_and!.
  - by apply run_pending.
  - split; [by apply firing_kept_inv|]. intros (newer & older & -> & Hh & Hk). by apply firing_kept.
  - by apply run_phases.
Qed.

(** ** Closing an episode takes evidence *)

(** An episode ends on evidence only: in a watch run from rest under one
    definition, an evaluation resolves the incident only when it and the one
    before it were both decided and clean, and closes it as stale only when it
    was the thirtieth undecided one in a row; nothing else ends an episode, and
    only an evaluation that completes a hold opens one. *)
Theorem closing_needs_evidence w s0 h t a :
  at_rest s0 w -> Z.of_nat (List.length (t :: h)) < int64_max ->
  a ∈ map ac_Kind (advance w (run w s0 h) t).2 ->
  (a = ActionResolve -> 2 <= streak Clean (t :: h)) /\
  (a = ActionClose -> 30 <= streak Blind (t :: h)) /\
  (a = ActionOpen -> HoldEvaluations w <= streak Fires (t :: h)) /\
  (a = ActionRepeat -> HoldEvaluations w <= streak Fires (t :: h)).
Proof.
  intros Hr Hlen Ha. assert (Z.of_nat (List.length h) < int64_max) by (simpl in Hlen; lia).
  destruct (run_counts w s0 Hr h) as (Hh & Hf & Hk & He); [done|].
  destruct (advance_core w (run w s0 h) t Hh) as [_ Hacts]. rewrite Hacts in Ha.
  assert (forall c, wrap64 (streak c h + 1) = 1 + streak c h) as Hw.
  { intros c. rewrite wrap64_id; [lia|]. pose proof (streak_nonneg c h). simpl in Hlen.
    unfold in_int64, int64_min. lia. }
  unfold core_of in Ha. rewrite Hf, Hk, He in Ha. rewrite !streak_cons.
  destruct (classify t); cbn [core_actions k_phase k_fires k_clean k_blind] in Ha; rewrite Hw in Ha;
    rewrite ?bool_decide_eq_true_2, ?bool_decide_eq_false_2 by done;
    unfold resolveEvaluations, staleEvaluations in *;
    destruct (st_Phase (run w s0 h)); repeat case_match;
    repeat match goal with H : (_ <? _) = false |- _ => apply Z.ltb_ge in H end;
    decompose_list_elem_of; subst; split_and!; intros; done || lia.
Qed.

(** ** Episodes are bracketed *)

(** [actions] is what a watch with an episode open, or not, may do: open one
    when none is, repeat or end it when one is; the result is whether one is
    open afterwards. *)
Fixpoint follows (open : bool) (actions : list ActionKind) : option bool :=
  match actions with
  | [] => Some open
  | ActionOpen :: rest => if open then None else follows true rest
  | ActionRepeat :: rest => if open then follows true rest else None
  | ActionResolve :: rest | ActionClose :: rest => if open then follows false rest else None
  end.

Lemma follows_app l1 l2 open :
  follows open (l1 ++ l2) = match follows open l1 with Some open' => follows open' l2 | None => None end.
Proof. revert open. induction l1 as [|[] l1 IH]; intros []; simpl; done. Qed.

(** A watch's life: evaluations, under definitions that may change, and
    retirements. *)
Inductive Event : Type :=
  | Evaluated (w : Watch) (t : Tick)
  | Retired (w : Watch) (now : Z) (reason : string).

Definition apply_event (s : State) (e : Event) : State * list Action :=
  match e with
  | Evaluated w t => advance w s t
  | Retired w now reason => Retire s w now reason
  end.

Fixpoint live (s : State) (es : list Event) : State * list ActionKind :=
  match es with
  | [] => (s, [])
  | e :: es =>
      let '(s, actions) := apply_event s e in
      let '(s, later) := live s es in
      (s, (map ac_Kind actions ++ later)%list)
  end.

Lemma advance_incident w s t :
  st_DefinitionHash s = w_DefinitionHash w ->
  let kinds := map ac_Kind (advance w s t).2 in
  st_IncidentID (advance w s t).1 =
    if bool_decide (ActionOpen ∈ kinds) then tk_Minted t
    else if bool_decide (ActionResolve ∈ kinds \/ ActionClose ∈ kinds) then ""
    else st_IncidentID s.
Proof.
  intros Hh. unfold advance.
  destruct (Step s w (tk_Evaluation t) (tk_Now t)) as [next actions] eqn:E. cbn [fst snd].
  unfold Step in E. rewrite Hh, String.eqb_refl in E.
  unfold Decided, Firing, recovered, firing, undecided in E.
  destruct s as [? p]. cbn in *.
  destruct (e_Verdict (tk_Evaluation t)), p; cbn in E; repeat case_match; simplify_eq; done.
Qed.

Lemma Step_edited s w t :
  st_DefinitionHash s ≠ w_DefinitionHash w ->
  let '(s', closing) := reset s w (tk_Now t) ClosedEdited in
  st_DefinitionHash s' = w_DefinitionHash w /\
  advance w s t = ((advance w s' t).1, (closing ++ (advance w s' t).2)%list).
Proof.
  intros Hh. destruct (reset s w (tk_Now t) ClosedEdited) as [s' closing] eqn:E.
  unfold reset in E. injection E as <- <-. split; [done|].
  unfold advance, Step. rewrite (proj2 (String.eqb_neq _ _) Hh). cbn [st_DefinitionHash]. rewrite String.eqb_refl.
  unfold Decided, Firing, recovered, firing, undecided, reset.
  destruct s as [? p]. cbn.
  destruct (e_Verdict (tk_Evaluation t)); cbn;
    destruct (bool_decide (p = PhaseFiring) && _); cbn; repeat case_match; simplify_eq; done.
Qed.

(** The invariant of a watch whose holds are one evaluation long, after at most
    [n] evaluations. *)
Definition bracket_ok (n : Z) (s : State) : Prop :=
  (st_Phase s = PhaseOK \/ st_Phase s = PhaseFiring) /\
  0 <= st_ConsecutiveFiring s <= n /\
  (st_Phase s = PhaseFiring -> st_IncidentID s ≠ "").

Definition is_firing (s : State) : bool := bool_decide (st_Phase s = PhaseFiring).

Lemma advance_brackets n w s t :
  st_DefinitionHash s = w_DefinitionHash w -> HoldEvaluations w = 1 -> tk_Minted t ≠ "" ->
  0 <= n < int64_max -> bracket_ok n s ->
  follows (is_firing s) (map ac_Kind (advance w s t).2) = Some (is_firing (advance w s t).1) /\
  bracket_ok (n + 1) (advance w s t).1.
Proof.
  intros Hh Hold Hid Hn (Hp & Hf & Hi). unfold bracket_ok, is_firing.
  pose proof (advance_incident w s t Hh) as Hinc. cbv zeta in Hinc. rewrite Hinc.
  destruct (advance_core w s t Hh) as [Hc ->]. rewrite Hold in Hc |- *.
  pose proof (f_equal k_phase Hc) as Hphase. pose proof (f_equal k_fires Hc) as Hfires.
  cbn [core_of k_phase k_fires] in Hphase, Hfires. rewrite Hphase, Hfires.
  assert (wrap64 (st_ConsecutiveFiring s + 1) = st_ConsecutiveFiring s + 1) as Hw
    by (apply wrap64_id; unfold in_int64, int64_min; lia).
  unfold core_of. destruct (classify t); cbn [core_step core_actions k_phase k_fires k_clean k_blind];
    rewrite ?Hw; destruct Hp as [Hp|Hp]; rewrite Hp in *; repeat case_match;
    repeat match goal with H : (_ <? _) = true |- _ => apply Z.ltb_lt in H end;
    try lia; repeat split; (done || lia || auto).
Qed.

Lemma event_brackets n s e :
  match e with Evaluated w t => HoldEvaluations w = 1 /\ tk_Minted t ≠ "" | Retired _ _ _ => True end ->
  0 <= n < int64_max -> bracket_ok n s ->
  follows (is_firing s) (map ac_Kind (apply_event s e).2) = Some (is_firing (apply_event s e).1) /\
  bracket_ok (n + 1) (apply_event s e).1.
Proof.
  intros He Hn Hok.
  assert (forall w now reason, follows (is_firing s) (map ac_Kind (reset s w now reason).2) = Some false /\
    st_Phase (reset s w now reason).1 = PhaseOK /\ st_ConsecutiveFiring (reset s w now reason).1 = 0) as Hreset.
  { intros w now reason. destruct Hok as (Hp & _ & Hi). unfold is_firing, reset. cbn.
    destruct Hp as [Hp|Hp]; rewrite Hp; [done|]. rewrite !bool_decide_eq_true_2 by done.
    by rewrite (proj2 (String.eqb_neq _ _) (Hi Hp)). }
  destruct e as [w t|w now reason]; cbn [apply_event].
  - destruct He as [Hold Hid]. destruct (decide (st_DefinitionHash s = w_DefinitionHash w)) as [Hh|Hh].
    { by apply advance_brackets. }
    pose proof (Step_edited s w t Hh) as Hs. destruct (Hreset w (tk_Now t) ClosedEdited) as (Hfo & Hp & Hf).
    destruct (reset s w (tk_Now t) ClosedEdited) as [s' closing]. cbn [fst snd] in *.
    destruct Hs as [Hh' ->]. cbn [fst snd]. rewrite map_app, follows_app, Hfo.
    replace false with (is_firing s') by (unfold is_firing; by rewrite Hp).
    apply advance_brackets; try done. split_and!; [by left|lia..|by rewrite Hp].
  - unfold Retire. destruct (Hreset w now reason) as (Hfo & Hp & Hf). unfold is_firing at 2, bracket_ok.
    rewrite Hp, Hf. split; [done|]. split_and!; [by left|lia..|done].
Qed.

(** Episodes are bracketed: over any life of a watch whose hold is one
    evaluation long - edits and retirements included - what the machine asks to
    be announced is a sequence of episodes, each opened once, repeated while it
    lasts and ended once before the next opens, with an episode open at the end
    exactly when the phase is firing. *)
Theorem episodes_bracketed es s :
  st_Phase s = PhaseOK -> st_ConsecutiveFiring s = 0 ->
  Z.of_nat (List.length es) < int64_max ->
  Forall (fun e => match e with
                   | Evaluated w t => HoldEvaluations w = 1 /\ tk_Minted t ≠ ""
                   | Retired _ _ _ => True
                   end) es ->
  follows false (live s es).2 = Some (bool_decide (st_Phase (live s es).1 = PhaseFiring)).
Proof.
  intros Hp Hf Hlen Hes.
  assert (forall n, 0 <= n -> n + Z.of_nat (List.length es) < int64_max -> bracket_ok n s ->
    follows (is_firing s) (live s es).2 = Some (is_firing (live s es).1)) as H.
  { clear Hp Hf Hlen. revert s. induction Hes as [|e es He Hes IH]; intros s n Hn Hlen Hok; [done|].
    cbn [live]. simpl in Hlen. destruct (event_brackets n s e He) as [Hfo Hok']; [lia|done|].
    destruct (apply_event s e) as [s1 acts]. cbn [fst snd] in *.
    specialize (IH s1 (n + 1) ltac:(lia) ltac:(lia) Hok').
    destruct (live s1 es) as [s2 later]. cbn [fst snd] in *. by rewrite follows_app, Hfo. }
  specialize (H 0 ltac:(lia) ltac:(lia)). unfold is_firing in H. rewrite Hp in H. apply H.
  split_and!; [by left|lia..|by rewrite Hp].
Qed.

(** Under a longer hold they are not: when the hold is two evaluations or
    more, an episode that one clean evaluation interrupts before the condition
    fires again and then clears is left behind: the machine falls back to pending
    and from there to rest without asking for anything to be announced or closed,
    and its state still names the incident. *)
Theorem held_incident_orphaned w s clean fire clean' :
  st_DefinitionHash s = w_DefinitionHash w -> 2 <= HoldEvaluations w ->
  st_Phase s = PhaseFiring -> st_ConsecutiveOK s = 0 ->
  classify clean = Clean -> classify fire = Fires -> classify clean' = Clean ->
  let '(s1, a1) := advance w s clean in
  let '(s2, a2) := advance w s1 fire in
  let '(s3, a3) := advance w s2 clean' in
  st_Phase s2 = PhasePending /\ st_Phase s3 = PhaseOK /\ (a1 ++ a2 ++ a3)%list = [] /\
  st_IncidentID s3 = st_IncidentID s.
Proof.
  intros Hh Hold Hp Hk Hc1 Hc2 Hc3.
  destruct (advance_core w s clean Hh) as [K1 A1]. pose proof (advance_incident w s clean Hh) as I1.
  destruct (advance w s clean) as [s1 a1]. cbn [fst snd] in *.
  unfold core_of at 2 in K1. unfold core_of in A1. rewrite Hc1, Hp, Hk, Hh in *. cbn in K1, A1.
  injection K1 as P1 F1 O1 E1 H1.
  destruct (advance_core w s1 fire H1) as [K2 A2]. pose proof (advance_incident w s1 fire H1) as I2.
  destruct (advance w s1 fire) as [s2 a2]. cbn [fst snd] in *.
  unfold core_of at 2 in K2. unfold core_of in A2. rewrite Hc2, P1, F1, H1 in *.
  change (wrap64 (0 + 1)) with 1 in *. cbn [core_step core_actions k_fires k_phase k_hash] in K2, A2.
  change (wrap64 (0 + 1)) with 1 in *. rewrite (proj2 (Z.ltb_lt 1 (HoldEvaluations w))) in K2, A2 by lia.
  injection K2 as P2 F2 O2 E2 H2.
  destruct (advance_core w s2 clean' H2) as [K3 A3]. pose proof (advance_incident w s2 clean' H2) as I3.
  destruct (advance w s2 clean') as [s3 a3]. cbn [fst snd] in *.
  unfold core_of at 2 in K3. unfold core_of in A3. rewrite Hc3, P2 in *. cbn in K3, A3.
  injection K3 as P3 _ _ _ _.
  apply map_eq_nil in A1, A2, A3. subst. cbn [map] in I1, I2, I3.
  rewrite !bool_decide_eq_false_2 in I1, I2, I3 by set_solver. split_and!; try done. congruence.
Qed.

(** ** A watch to run *)
Definition example_watch (hold : Z) : Watch :=
  mkWatch "w" "traffic" "" true SeverityWarning CombineAny [] [] NoDataOK
    Minute Minute (hold * Minute) 0 "h1" zero_time zero_time.
Definition resting : State :=
  mkState "w" PhaseOK zero_time 0 0 0 "h1" zero_time "" None "" zero_time zero_time zero_time.
Definition tick (minute : Z) (v : Truth) : Tick :=
  mkTick (mkEvaluation (minute * Minute) CombineAny [] v (statusOf v []) 0 1 false zero_time zero_time 0 "" "")
    (minute * Minute) "i_1".

Lemma phase_of_history_witness :
  let h := [tick 4 Unknown; tick 3 False_; tick 2 True_; tick 1 True_] in
  at_rest resting (example_watch 2) /\ st_Phase (run (example_watch 2) resting h) = PhaseFiring /\
  (st_Phase (run (example_watch 2) resting h) = PhaseFiring <->
     exists newer older, h = (newer ++ older)%list /\ HoldEvaluations (example_watch 2) <= streak Fires older /\
       never Clean resolveEvaluations newer /\ never Blind staleEvaluations newer /\
       (HoldEvaluations (example_watch 2) = 1 \/ Forall (fun t => classify t ≠ Fires) newer)).
Proof.
  cbv zeta. split; [repeat split|]. split; [reflexivity|].
  apply (phase_of_history (example_watch 2) resting
    [tick 4 Unknown; tick 3 False_; tick 2 True_; tick 1 True_]); [repeat split|vm_compute; reflexivity].
Defined.

Lemma closing_needs_evidence_witness :
  let h := [tick 2 False_; tick 1 True_] in
  map ac_Kind (advance (example_watch 1) (run (example_watch 1) resting h) (tick 3 False_)).2 = [ActionResolve] /\
  2 <= streak Clean (tick 3 False_ :: h).
Proof.
  cbv zeta. split; [reflexivity|].
  apply (closing_needs_evidence (example_watch 1) resting [tick 2 False_; tick 1 True_] (tick 3 False_) ActionResolve).
  - repeat split.
  - vm_compute. reflexivity.
  - left.
  - reflexivity.
Defined.

Lemma episodes_bracketed_witness :
  let es := [Evaluated (example_watch 1) (tick 1 True_); Evaluated (example_watch 1) (tick 2 True_);
             Retired (example_watch 1) (3 * Minute) ClosedDisabled] in
  (live resting es).2 = [ActionOpen; ActionRepeat; ActionClose] /\
  follows false (live resting es).2 = Some (bool_decide (st_Phase (live resting es).1 = PhaseFiring)).
Proof.
  cbv zeta. split; [reflexivity|].
  apply episodes_bracketed; [reflexivity|reflexivity|vm_compute; reflexivity|].
  repeat constructor; discriminate.
Defined.

(** An open episode of a watch with a two-minute hold. *)
Definition firing_state : State :=
  run (example_watch 2) resting [tick 2 True_; tick 1 True_].
Lemma held_incident_orphaned_witness :
  st_IncidentID firing_state = "i_1" /\
  let '(s1, a1) := advance (example_watch 2) firing_state (tick 3 False_) in
  let '(s2, a2) := advance (example_watch 2) s1 (tick 4 True_) in
  let '(s3, a3) := advance (example_watch 2) s2 (tick 5 False_) in
  st_Phase s2 = PhasePending /\ st_Phase s3 = PhaseOK /\ (a1 ++ a2 ++ a3)%list = [] /\
  st_IncidentID s3 = st_IncidentID firing_state.
Proof.
  split; [reflexivity|].
  apply (held_incident_orphaned (example_watch 2) firing_state (tick 3 False_) (tick 4 True_) (tick 5 False_));
    reflexivity.
Defined.
