(* ===== verification/Judgement.v ===== *)
(** What the conditions of a watch conclude from little or no evidence. *)
From S2P Require Import Prelude GoStr F64 GoTime Message Series Stats Verdict Metrics Conditions Coalesce Watch.
From Stdlib Require Import String Floats.SpecFloat.
#[local] Open Scope string_scope.
#[local] Open Scope Z_scope.

(** ** A series nothing reported to *)
Definition silent_series (s : Series) : Prop :=
  Forall (fun v => v = None) (Values s) /\ Forall (fun v => v = None) (Denominator s).

Lemma known_at_silent column i : Forall (fun v => v = None) column -> known_at column i = None.
Proof.
  intros H. unfold known_at. destruct (i <? 0); [done|].
  destruct (column !! Z.to_nat i) as [v|] eqn:E; [|done].
  by rewrite (Forall_lookup_1 _ _ _ _ H E).
Qed.

Lemma omap_none {A B} (f : A -> option B) (l : list A) : (forall x, f x = None) -> omap f l = [].
Proof. intros H. induction l as [|x l IH]; [done|]. simpl. rewrite H. exact IH. Qed.

Lemma known_in_silent column a b : Forall (fun v => v = None) column -> known_in column a b = [].
Proof. intros H. apply omap_none. intros i. by apply known_at_silent. Qed.

Lemma At_Rolling_silent s agg w m i : silent_series s -> At (Rolling s agg w m) i = None.
Proof.
  intros [Hv Hd]. rewrite At_Rolling. destruct (_ && _); [|done]. unfold rolled_at.
  destruct (String.eqb agg AggRatio).
  - unfold rollingRatio. cbv zeta. rewrite omap_none; [|intros j; unfold At; by rewrite known_at_silent].
    by rewrite (proj2 (Z.ltb_lt _ _)) by (simpl; lia).
  - unfold Known. rewrite known_in_silent by done. by rewrite (proj2 (Z.ltb_lt _ _)) by (simpl; lia).
Qed.

(** Such a condition holds only if the policy for missing data says so. *)
Lemma silent_outcome sp st c now s :
  NewCondition sp st = Ok c -> silent_series s ->
  let out := Evaluate c now s in
  o_NoData out = true \/ o_Verdict out ≠ True_.
Proof.
  intros (m & ag & _ & _ & _ & Hk)%NewCondition_ok Hs out. pose proof Hs as [Hv Hd]. subst out.
  destruct c as [c|c|c]; cbn [Evaluate condition_Condition threshold_Condition spike_Condition absence_Condition].
  - unfold threshold_Evaluate. destruct (windowIndices _ _ _) as [from to]. cbv zeta.
    unfold evaluateRatio. cbv zeta. unfold Known. rewrite known_in_silent by done. simpl.
    by destruct (Ratio _); left.
  - unfold spike_Evaluate. cbv zeta. destruct (windowIndices _ _ _) as [from to].
    destruct (to - 1 <? 0); [by left|]. destruct (_ && _); [by right|].
    rewrite At_Rolling_silent by done. by left.
  - apply newAbsence_ok in Hk as (_ & _ & Hm). unfold absence_Evaluate. cbv zeta.
    destruct (windowIndices _ _ _) as [from to]. destruct (to <=? from); [by left|]. right.
    destruct (existsb _ _); [done|].
    assert (filter (fun i => reporting s i = true) (range (Z.max (from - ap_BaselineBuckets (a_params c)) 0) from) = []) as ->.
    { apply filter_none. intros i _. unfold reporting, At. by rewrite known_at_silent. }
    by rewrite (proj2 (Z.ltb_lt _ _)) by (simpl; lia).
Qed.

Lemma Unavailable_undecided (c : condition) reason err : o_Verdict (Unavailable c reason err) = Unknown.
Proof. by destruct c. Qed.

Lemma Combine_not_true c verdicts :
  c = CombineAll \/ c = CombineAny -> True_ ∉ verdicts -> Combine c verdicts ≠ True_.
Proof.
  intros Hc Hn. destruct verdicts as [|v vs]; [done|]. unfold Combine. destruct Hc as [-> | ->].
  - rewrite combine_loop_all. repeat case_bool_decide; try done.
    destruct v; [..|]; set_solver.
  - rewrite combine_loop_any. rewrite bool_decide_eq_false_2 by done. by destruct (_ || _).
Qed.

(** A store that has nothing to show never fires a watch: when every series
    it fetched is one nothing reported to, or the fetch failed, a valid watch
    does not fire, whatever its conditions, unless its policy is to read missing
    data as satisfying them. *)
Theorem silence_never_fires w b now fetched :
  Build w = Ok b -> w_OnNoData w ≠ NoDataFire ->
  (forall key f, fetched !! key = Some f -> fe_Err f = None -> silent_series (fe_Series f)) ->
  Firing (built_Evaluate b now fetched) = false.
Proof.
  intros Hb Hpolicy Hf. unfold Firing. apply bool_decide_eq_false_2.
  pose proof (Build_ok _ _ Hb) as (HW & Hv & _). unfold built_Evaluate, evaluate_of. cbn [e_Verdict].
  rewrite HW. apply Combine_not_true.
  - unfold validate in Hv. cbv zeta in Hv. do 2 (case_match; [done|]).
    destruct (String.eqb_spec (w_Combinator w) CombineAll), (String.eqb_spec (w_Combinator w) CombineAny); by auto.
  - rewrite map_map. intros (c & Hc & Hin)%list_elem_of_fmap. symmetry in Hc. revert Hc.
    unfold evaluate_one. destruct (fetched !! Key (QueryOf c now)) as [f|] eqn:E;
      [|by rewrite Unavailable_undecided].
    destruct (fe_Err f) eqn:He; [destruct (error_is _ _); by rewrite Unavailable_undecided|].
    destruct (Build_condition _ _ _ Hb Hin) as (sp & _ & Hsp). cbv zeta.
    destruct (silent_outcome sp _ c now (fe_Series f) Hsp (Hf _ _ E He)) as [-> | Hnt].
    + simpl. unfold policy_Truth. destruct (String.eqb_spec (w_OnNoData w) NoDataFire); [done|].
      by destruct (String.eqb _ _).
    + destruct (o_NoData _); [|done]. simpl. unfold policy_Truth.
      destruct (String.eqb_spec (w_OnNoData w) NoDataFire); [done|]. by destruct (String.eqb _ _).
Qed.

Lemma silence_never_fires_witness :
  is_ok (Build traffic_watch) = true /\
  let b := built_or_empty traffic_watch in
  Firing (built_Evaluate b (at_minute 100)
    (fetchAll (fetch_rows (mkRows (fun _ _ => None) (fun _ => None) (fun _ => false))) b (at_minute 100))) = false.
Proof.
  split; [vm_compute; reflexivity|]. cbv zeta.
  apply (silence_never_fires traffic_watch); [vm_compute; reflexivity|discriminate|].
  assert (map_Forall (fun _ f => silent_series (fe_Series f))
    (fetchAll (fetch_rows (mkRows (fun _ _ => None) (fun _ => None) (fun _ => false)))
       (built_or_empty traffic_watch) (at_minute 100))) as H.
  { unfold fetchAll. generalize (Plan (built_or_empty traffic_watch) (at_minute 100)). intros plan.
    assert (map_Forall (fun _ f => silent_series (fe_Series f)) (∅ : gmap string Fetched)) as Hm by apply map_Forall_empty.
    revert Hm. generalize (∅ : gmap string Fetched). induction plan as [|q plan IH]; intros m Hm; [done|].
    apply IH, map_Forall_insert_2; [|done]. split; [|constructor]. simpl.
    apply Forall_forall. intros v (i & -> & _)%list_elem_of_fmap. done. }
  intros key f Hf _. exact (H key f Hf).
Defined.

(** ** A baseline of nothing but zeros *)
Lemma omap_const {A B} (f : A -> option B) (l : list A) v :
  (forall x, x ∈ l -> f x = Some v) -> omap f l = replicate (List.length l) v.
Proof.
  intros H. induction l as [|x l IH]; [done|]. simpl. rewrite H by (by left).
  f_equal. apply IH. intros; apply H. by right.
Qed.

Lemma sum_floats_zeros n : sum_floats (replicate n f_zero) = f_zero.
Proof. unfold sum_floats. induction n as [|n IH]; [done|]. exact IH. Qed.

Lemma sort_floats_zeros n : sort_floats (replicate n f_zero) = replicate n f_zero.
Proof. induction n as [|n IH]; [done|]. simpl. rewrite IH. by destruct n. Qed.

Lemma Median_zeros n : (0 < n)%nat -> Median (replicate n f_zero) = Some f_zero.
Proof.
  intros Hn. unfold Median. destruct n as [|n]; [lia|]. cbn [replicate]. cbv zeta.
  change (f_zero :: replicate n f_zero) with (replicate (S n) f_zero). rewrite sort_floats_zeros, length_replicate.
  assert (forall i, (i < S n)%nat -> replicate (S n) f_zero !! i = Some f_zero) as Hz by (intros; by apply lookup_replicate_2).
  pose proof (Nat.div_lt (S n) 2).
  rewrite !Hz by lia. by destruct (Nat.eqb _ _).
Qed.

Lemma MAD_zeros n : (0 < n)%nat -> MAD (replicate n f_zero) = Some (f_zero, f_zero).
Proof.
  intros Hn. unfold MAD. rewrite Median_zeros by done. simpl.
  assert (map (fun v => f_abs (f_sub v f_zero)) (replicate n f_zero) = replicate n f_zero) as ->.
  { clear Hn. induction n as [|n IH]; [done|]. simpl. by rewrite IH. }
  by rewrite Median_zeros.
Qed.

Lemma known_in_const column v a b :
  (forall i, 0 <= i < Z.of_nat (List.length column) -> a <= i < b -> known_at column i = Some v) ->
  0 <= a -> b <= Z.of_nat (List.length column) -> known_in column a b = replicate (Z.to_nat (b - a)) v.
Proof.
  intros H Ha Hb. unfold known_in. rewrite (omap_const _ _ v).
  - unfold range. rewrite length_seqZ. f_equal. lia.
  - intros i [Hi1 Hi2]%elem_of_range. apply H; lia.
Qed.

Lemma windowIndices_le s now b : (windowIndices s now b).2 <= Len s.
Proof. unfold windowIndices, Len. destruct (_ || _); simpl; lia. Qed.

Lemma known_at_const column v i :
  Forall (fun x => x = Some v) column -> 0 <= i < Z.of_nat (List.length column) -> known_at column i = Some v.
Proof.
  intros H Hi. unfold known_at. destruct (Z.ltb_spec i 0); [lia|].
  destruct (lookup_lt_is_Some_2 column (Z.to_nat i)) as [x Hx]; [lia|].
  rewrite Hx. by rewrite (Forall_lookup_1 _ _ _ _ H Hx).
Qed.

Lemma rolled_zeros s w m i :
  Forall (fun v => v = Some f_zero) (Values s) -> 1 <= m <= w -> w - 1 <= i < Len s ->
  rolled_at s AggSum w m i = Some f_zero.
Proof.
  intros Hz Hm Hi. unfold rolled_at. cbn [String.eqb Ascii.eqb AggSum AggRatio]. simpl (String.eqb _ _). cbv iota.
  unfold Known. rewrite (known_in_const _ f_zero) by (unfold Len in *; intros; try apply known_at_const; lia || done).
  rewrite length_replicate.
  destruct (Z.ltb_spec (Z.of_nat (Z.to_nat (i + 1 - (i - w + 1)))) m); [lia|].
  destruct (Z.to_nat (i + 1 - (i - w + 1))) as [|n] eqn:E; [lia|].
  change (Reduce AggSum (replicate (S n) f_zero)) with (Ok (sum_floats (replicate (S n) f_zero))).
  by rewrite sum_floats_zeros.
Qed.

(** The spread a spike divides by can be zero: a spike condition on a summed
    metric that is neither a count nor a ratio, such as cost, with no floor of
    its own set, judges a series that never left zero to be spiking, its score
    0/0, a value JSON has no form for. *)
Theorem quiet_spend_spikes base c now s :
  newSpike base = Ok c -> agg base = AggSum ->
  Ratio (metric base) = false -> m_CountLike (metric base) = false ->
  sp_MinDelta (s_params c) = f_zero -> sp_MinScale (s_params c) = f_zero ->
  sp_MinBaseline (s_params c) <= sp_BaselineBuckets (s_params c) ->
  Forall (fun v => v = Some f_zero) (Values s) ->
  lookback (CSpike c) <= (windowIndices s now (sp_WindowBuckets (s_params c))).2 ->
  let out := Evaluate c now s in
  o_Verdict out = True_ /\ o_Observed out = Some f_zero /\ o_Baseline out = Some f_zero /\
  o_Score out = Some S754_nan /\ encodable (AFloat S754_nan) = false.
Proof.
  intros Hc Hagg Hratio Hcount Hdelta Hscale Hmin Hz Hto.
  apply newSpike_ok in Hc as (Hb & Hp). cbv zeta in Hp. destruct Hp as (Hw & Hbl & Hg & Hmb & _).
  pose proof (windowIndices_le s now (sp_WindowBuckets (s_params c))) as Hle.
  simpl in Hto. cbn [Evaluate spike_Condition]. unfold spike_Evaluate. cbv zeta.
  destruct (windowIndices s now (sp_WindowBuckets (s_params c))) as [from to]. cbn [snd] in *.
  rewrite Hb, Hagg, Hratio. cbn [andb].
  set (p := s_params c) in *.
  destruct (Z.ltb_spec (to - 1) 0); [lia|].
  assert (forall i, sp_WindowBuckets p - 1 <= i < Len s ->
    At (Rolling s AggSum (sp_WindowBuckets p) (sp_MinSamples p)) i = Some f_zero) as Hroll.
  { intros i Hi. rewrite At_Rolling. destruct (Z.leb_spec 0 i), (Z.ltb_spec i (Len s)); try lia. cbn [andb].
    rewrite !Z.max_l by lia. apply rolled_zeros; done || lia. }
  rewrite Hroll by lia.
  set (b1 := to - 1 - sp_GuardBuckets p) in *.
  assert (Known (Rolling s AggSum (sp_WindowBuckets p) (sp_MinSamples p)) (b1 - sp_BaselineBuckets p) b1
    = replicate (Z.to_nat (sp_BaselineBuckets p)) f_zero) as ->.
  { unfold Known. rewrite (known_in_const _ f_zero).
    - f_equal. lia.
    - intros i Hi1 Hi2. apply Hroll. rewrite length_Rolling in Hi1. unfold Len. lia.
    - lia.
    - rewrite length_Rolling. unfold Len in *. lia. }
  rewrite length_replicate.
  destruct (Z.ltb_spec (Z.of_nat (Z.to_nat (sp_BaselineBuckets p))) (sp_MinBaseline p)); [lia|].
  rewrite MAD_zeros by lia. cbn [default id]. rewrite Hscale, Hcount.
  change (Scale f_zero f_zero false f_zero) with f_zero. change (f_sub f_zero f_zero) with f_zero.
  assert (forall x : bool, f_div (if x then f_neg f_zero else f_zero) f_zero = S754_nan) as -> by (by intros []).
  unfold gate. fold p. rewrite Hdelta.
  assert (f_lt S754_nan (sp_Z p) = false) as -> by (by destruct (sp_Z p)).
  assert (forall x : bool, f_lt (if x then f_neg f_zero else f_zero) f_zero = false) as -> by (by intros []).
  assert (clearsRatio c f_zero f_zero = true) as -> by (unfold clearsRatio; done).
  done.
Qed.

(** "cost_usd up sharply over 1m", every parameter left at its default, over
    forty minutes that cost nothing. *)
Definition spend_spec : ConditionSpec :=
  mkSpec "c1" KindSpike SourceTraces "cost_usd" "" no_scope None [].
Definition cost_metric : Metric := mkMetric "cost_usd" SourceTraces [AggSum] UnitUSD false "" "".
Definition spend_base : conditionBase := mkBase spend_spec cost_metric AggSum Minute.
Definition spend_condition : spikeCondition :=
  match newSpike spend_base with Ok c => c | Err _ => mkSpike spend_base zero_spike end.
Definition quiet_spend : Series := mkSeries Minute (60 * 60000) (replicate 40 (Some f_zero)) [] true.

Lemma quiet_spend_spikes_witness :
  let out := Evaluate spend_condition (at_minute 100) quiet_spend in
  o_Verdict out = True_ /\ o_Observed out = Some f_zero /\ o_Baseline out = Some f_zero /\
  o_Score out = Some S754_nan /\ encodable (AFloat S754_nan) = false.
Proof.
  apply (quiet_spend_spikes spend_base spend_condition (at_minute 100) quiet_spend);
    try (vm_compute; reflexivity).
  - vm_compute. discriminate.
  - by apply Forall_replicate.
  - vm_compute. discriminate.
Defined.
