(* ===== verification/Cost.v ===== *)
(** Pricing model calls: [internal/cost/rate.go], [table.go], [price.go] and
    [pricer.go] of the observability service. *)
From S2P Require Import Prelude Order GoStr F64 F64Bound.
From stdpp Require Import sorting.
From Stdlib Require Import Floats.SpecFloat.
#[local] Open Scope string_scope.
#[local] Open Scope Z_scope.

(** ** rate.go *)
Definition OpEquals : string := "equals".
Definition OpStartsWith : string := "startsWith".
Definition OpIncludes : string := "includes".
Definition rankedProviders : list string := ["ANTHROPIC"; "OPENAI"; "GOOGLE"].

Record Rate : Type := mkRate {
  ra_ID : string;
  ra_Provider : string;
  ra_Pattern : string;
  ra_Operator : string;
  ra_InputPer1M : f64;
  ra_OutputPer1M : f64;
  ra_CacheReadPer1M : option f64;
  ra_CacheWritePer1M : option f64;
  ra_Preferred : bool
}.

#[global] Instance Rate_eq_dec : EqDecision Rate.
Proof. solve_decision. Defined.

Definition rate_matches (r : Rate) (model : string) : bool :=
  if String.eqb (ra_Operator r) OpEquals then String.eqb model (ra_Pattern r)
  else if String.eqb (ra_Operator r) OpStartsWith then has_prefix model (ra_Pattern r)
  else if String.eqb (ra_Operator r) OpIncludes then contains model (ra_Pattern r)
  else false.

Definition usablePrice (per1M : f64) : bool :=
  negb (is_nan per1M) && negb (is_inf per1M) && f_ge per1M f_zero.

Definition usable (r : Rate) : bool :=
  if String.eqb (ra_Pattern r) "" then false
  else if negb (usablePrice (ra_InputPer1M r)) || negb (usablePrice (ra_OutputPer1M r)) then false
  else String.eqb (ra_Operator r) OpEquals || String.eqb (ra_Operator r) OpStartsWith || String.eqb (ra_Operator r) OpIncludes.

Definition normalize (s : string) : string := ToLower (TrimSpace s).
Definition normalizeProvider (s : string) : string := ToUpper (TrimSpace s).

Definition operatorRank (op : string) : Z :=
  if String.eqb op OpEquals then 0
  else if String.eqb op OpStartsWith then 1
  else if String.eqb op OpIncludes then 2
  else 3.

Fixpoint rank_in (names : list string) (provider : string) : Z :=
  match names with
  | [] => 0
  | name :: rest => if String.eqb provider name then 0 else 1 + rank_in rest provider
  end.
Definition providerRank : string -> Z := rank_in rankedProviders.

Definition moreSpecific (a b : Rate) : bool :=
  let x := operatorRank (ra_Operator a) in let y := operatorRank (ra_Operator b) in
  if negb (x =? y) then x <? y else
  let x := Z.of_nat (String.length (ra_Pattern a)) in let y := Z.of_nat (String.length (ra_Pattern b)) in
  if negb (x =? y) then y <? x else
  let x := providerRank (ra_Provider a) in let y := providerRank (ra_Provider b) in
  if negb (x =? y) then x <? y else
  if negb (String.eqb (ra_Provider a) (ra_Provider b)) then String.ltb (ra_Provider a) (ra_Provider b) else
  if negb (Bool.eqb (ra_Preferred a) (ra_Preferred b)) then ra_Preferred a else
  if negb (f_eq (ra_InputPer1M a) (ra_InputPer1M b)) then f_lt (ra_InputPer1M a) (ra_InputPer1M b) else
  if negb (f_eq (ra_OutputPer1M a) (ra_OutputPer1M b)) then f_lt (ra_OutputPer1M a) (ra_OutputPer1M b) else
  if negb (String.eqb (ra_Pattern a) (ra_Pattern b)) then String.ltb (ra_Pattern a) (ra_Pattern b) else
  String.ltb (ra_ID a) (ra_ID b).

(** [sort.SliceStable]. *)
Definition sortBySpecificity : list Rate -> list Rate := sort_by moreSpecific.

(** ** table.go *)
Record Table : Type := mkTable {
  tb_exact : gmap string (list Rate);
  tb_fuzzy : list Rate;
  tb_count : Z
}.

Definition normalized (r : Rate) : Rate :=
  mkRate (ra_ID r) (normalizeProvider (ra_Provider r)) (normalize (ra_Pattern r)) (ra_Operator r)
    (ra_InputPer1M r) (ra_OutputPer1M r) (ra_CacheReadPer1M r) (ra_CacheWritePer1M r) (ra_Preferred r).

(** One round of the loop of [NewTable]. *)
Definition table_add (t : Table) (r : Rate) : Table :=
  let r := normalized r in
  if negb (usable r) then t
  else if String.eqb (ra_Operator r) OpEquals
  then mkTable (<[ra_Pattern r := (default [] (tb_exact t !! ra_Pattern r) ++ [r])%list]> (tb_exact t)) (tb_fuzzy t) (tb_count t + 1)
  else mkTable (tb_exact t) (tb_fuzzy t ++ [r])%list (tb_count t + 1).

Definition NewTable (rates : list Rate) : Table :=
  let t := foldl table_add (mkTable ∅ [] 0) rates in
  mkTable (sortBySpecificity <$> tb_exact t) (sortBySpecificity (tb_fuzzy t)) (tb_count t).

(** A nil table is [None]. *)
Definition lookup_rate (t : option Table) (model : string) : option Rate :=
  match t with
  | None => None
  | Some t =>
      let model := normalize model in
      if String.eqb model "" then None
      else match default [] (tb_exact t !! model) with
           | r :: _ => Some r
           | [] => List.find (fun r => rate_matches r model) (tb_fuzzy t)
           end
  end.

Definition Table_Len (t : option Table) : Z := match t with None => 0 | Some t => tb_count t end.

(** ** price.go *)
Definition tokensPerUnit : Z := 1000000.
Definition StatusPriced : string := "priced".
Definition StatusPricedPartial : string := "priced_partial".
Definition StatusUnpricedModel : string := "unpriced_model".
Definition StatusNoUsage : string := "no_usage".
Definition StatusReported : string := "reported".
Definition anthropicProvider : string := "ANTHROPIC".

Record Usage : Type := mkUsage {
  ug_InputTokens : Z;
  ug_OutputTokens : Z;
  ug_ThinkingTokens : Z;
  ug_CachedTokens : Z;
  ug_CacheWriteTokens : Z;
  ug_ReportedCostUSD : option f64
}.
Record cost_Call : Type := mkCall { ca_Model : string; ca_Provider : string; ca_Usage : option Usage; ca_Embedding : bool }.
Record Priced : Type := mkPriced { pr_Status : string; pr_Provider : string; pr_PriceID : string; pr_cost : f64 }.

(** [Priced{Status: status}]; the zero value has the empty status. *)
Definition unpriced (status : string) : Priced := mkPriced status "" "" f_zero.

Definition CostUSD (p : Priced) : f64 * bool :=
  if String.eqb (pr_Status p) StatusPriced || String.eqb (pr_Status p) StatusPricedPartial || String.eqb (pr_Status p) StatusReported
  then (pr_cost p, true) else (f_zero, false).

Definition nonNegative (n : Z) : Z := if n <? 0 then 0 else n.
Definition amount (tokens : Z) (per1M : f64) : f64 := f_mul (f_div (f_of_Z tokens) (f_of_Z tokensPerUnit)) per1M.

Definition providerOf (call : cost_Call) (rate : Rate) : string :=
  let reported := normalizeProvider (ca_Provider call) in
  if negb (String.eqb reported "") then reported else ra_Provider rate.

(** The status of the record it is given a pointer to, and the cost. *)
Definition cache_half (status : string) (cost : f64) (tokens : Z) (per1M : option f64) (rate : Rate) : string * f64 :=
  if 0 <? tokens
  then match per1M with
       | None => (StatusPricedPartial, f_add cost (amount tokens (ra_InputPer1M rate)))
       | Some per1M => (status, f_add cost (amount tokens per1M))
       end
  else (status, cost).
Definition cacheCost (status : string) (rate : Rate) (cached written : Z) : string * f64 :=
  let '(status, cost) := cache_half status f_zero cached (ra_CacheReadPer1M rate) rate in
  cache_half status cost written (ra_CacheWritePer1M rate) rate.

Definition Price (t : option Table) (call : cost_Call) : Priced :=
  match ca_Usage call with
  | None => unpriced StatusNoUsage
  | Some usage =>
      match lookup_rate t (ca_Model call) with
      | None => unpriced StatusUnpricedModel
      | Some rate =>
          if ca_Embedding call
          then mkPriced StatusPriced (ra_Provider rate) (ra_ID rate) (amount (nonNegative (ug_InputTokens usage)) (ra_InputPer1M rate))
          else
            let input := nonNegative (ug_InputTokens usage) in
            let output := nonNegative (ug_OutputTokens usage) in
            let cached := nonNegative (ug_CachedTokens usage) in
            let written := nonNegative (ug_CacheWriteTokens usage) in
            let billableInput :=
              if negb (String.eqb (providerOf call rate) anthropicProvider)
              then nonNegative (wrap64 (wrap64 (input - cached) - written)) else input in
            let cost := f_add (amount billableInput (ra_InputPer1M rate)) (amount output (ra_OutputPer1M rate)) in
            let '(status, cache) := cacheCost StatusPriced rate cached written in
            mkPriced status (ra_Provider rate) (ra_ID rate) (f_add cost cache)
      end
  end.

Definition reportedCost (call : cost_Call) : option Priced :=
  match ca_Usage call with
  | None => None
  | Some usage =>
      match ug_ReportedCostUSD usage with
      | None => None
      | Some amount => if f_lt amount f_zero then None else Some (mkPriced StatusReported (ca_Provider call) "" amount)
      end
  end.

(** ** pricer.go: the cards in force, in preference order; a nil pricer is [None] *)
Fixpoint first_card (sources : list (option Table)) (call : cost_Call) (priced : Priced) : Priced :=
  match sources with
  | [] => priced
  | source :: rest =>
      let priced := Price source call in
      if negb (String.eqb (pr_Status priced) StatusUnpricedModel) then priced else first_card rest call priced
  end.
Definition Pricer_Price (p : option (list (option Table))) (call : cost_Call) : Priced :=
  match reportedCost call with
  | Some reported => reported
  | None =>
      match ca_Usage call with
      | None => unpriced StatusNoUsage
      | Some _ =>
          match p with
          | None => unpriced StatusUnpricedModel
          | Some sources => first_card sources call (unpriced StatusUnpricedModel)
          end
      end
  end.
Definition Pricer_Len (p : option (list (option Table))) : Z :=
  match p with None => 0 | Some sources => foldl (fun total source => total + Table_Len source) 0 sources end.

(** ** The order of the rates is a strict weak order *)
Definition specificity : Rate -> Rate -> bool :=
  then_by (fun a b => operatorRank (ra_Operator a) <? operatorRank (ra_Operator b))
  (then_by (fun a b => Z.of_nat (String.length (ra_Pattern b)) <? Z.of_nat (String.length (ra_Pattern a)))
  (then_by (fun a b => providerRank (ra_Provider a) <? providerRank (ra_Provider b))
  (then_by (fun a b => String.ltb (ra_Provider a) (ra_Provider b))
  (then_by (fun a b => ra_Preferred a && negb (ra_Preferred b))
  (then_by (fun a b => f_lt (ra_InputPer1M a) (ra_InputPer1M b))
  (then_by (fun a b => f_lt (ra_OutputPer1M a) (ra_OutputPer1M b))
  (then_by (fun a b => String.ltb (ra_Pattern a) (ra_Pattern b))
           (fun a b => String.ltb (ra_ID a) (ra_ID b))))))))).

Definition priceable (r : Rate) : Prop := usable r = true.

Lemma usable_price p : usablePrice p = true -> f_nonneg p = true /\ is_finite p = true.
Proof. by destruct p as [[]|[]| |[] m e]. Qed.
Lemma priceable_rate r : priceable r ->
  ra_Pattern r <> "" /\ f_nonneg (ra_InputPer1M r) = true /\ is_finite (ra_InputPer1M r) = true /\
  f_nonneg (ra_OutputPer1M r) = true /\ is_finite (ra_OutputPer1M r) = true /\
  (ra_Operator r = OpEquals \/ ra_Operator r = OpStartsWith \/ ra_Operator r = OpIncludes).
Proof.
  unfold priceable, usable. destruct (String.eqb_spec (ra_Pattern r) "") as [|Hp]; [done|].
  destruct (usablePrice (ra_InputPer1M r)) eqn:Hi; [|done]. destruct (usablePrice (ra_OutputPer1M r)) eqn:Ho; [|done].
  apply usable_price in Hi as [? ?], Ho as [? ?]. cbn. intros [[Hop|Hop]%orb_prop|Hop]%orb_prop; apply String.eqb_eq in Hop; naive_solver.
Qed.

Lemma step_then_by {A} (differs : bool) (first rest : A -> A -> bool) a b r :
  differs = first a b || first b a -> r = rest a b -> (if differs then first a b else r) = then_by first rest a b.
Proof. intros -> ->. unfold then_by. by destruct (first a b), (first b a). Qed.

Lemma string_differs x y : negb (String.eqb x y) = String.ltb x y || String.ltb y x.
Proof.
  destruct (String.eqb_spec x y) as [->|Hne].
  - by rewrite string_irrefl.
  - destruct (String.ltb x y) eqn:H1, (String.ltb y x) eqn:H2; try done. by destruct Hne, (string_tie x y H1 H2).
Qed.
Lemma Z_differs x y : negb (x =? y) = (x <? y) || (y <? x).
Proof. lia. Qed.

Lemma more_specific_chain a b : priceable a -> priceable b -> moreSpecific a b = specificity a b.
Proof.
  intros Ha Hb. apply priceable_rate in Ha as (_ & Hai & _ & Hao & _), Hb as (_ & Hbi & _ & Hbo & _).
  unfold moreSpecific, specificity.
  apply (step_then_by _ (fun a b => operatorRank (ra_Operator a) <? operatorRank (ra_Operator b))); [apply Z_differs|].
  apply (step_then_by _ (fun a b => Z.of_nat (String.length (ra_Pattern b)) <? Z.of_nat (String.length (ra_Pattern a)))); [rewrite orb_comm; apply Z_differs|].
  apply (step_then_by _ (fun a b => providerRank (ra_Provider a) <? providerRank (ra_Provider b))); [apply Z_differs|].
  apply (step_then_by _ (fun a b => String.ltb (ra_Provider a) (ra_Provider b))); [apply string_differs|].
  unfold then_by at 1. destruct (ra_Preferred a), (ra_Preferred b); cbn; try done.
  all: apply (step_then_by _ (fun a b => f_lt (ra_InputPer1M a) (ra_InputPer1M b))); [by rewrite f_eq_lt, negb_involutive|].
  all: apply (step_then_by _ (fun a b => f_lt (ra_OutputPer1M a) (ra_OutputPer1M b))); [by rewrite f_eq_lt, negb_involutive|].
  all: apply (step_then_by _ (fun a b => String.ltb (ra_Pattern a) (ra_Pattern b))); [apply string_differs|done].
Qed.

Lemma specificity_order : weak_order priceable specificity.
Proof.
  unfold specificity.
  repeat apply then_by_order;
    [apply (by_key_order _ (fun _ => True) (fun r => operatorRank (ra_Operator r)))
    |apply (by_key_order _ (fun _ => True) (fun r => Z.of_nat (String.length (ra_Pattern r))) (fun x y => y <? x))
    |apply (by_key_order _ (fun _ => True) (fun r => providerRank (ra_Provider r)))
    |apply (by_key_order _ (fun _ => True) ra_Provider)
    |apply (by_key_order _ (fun _ => True) ra_Preferred (fun x y => x && negb y))
    |apply (by_key_order _ (fun x => f_nonneg x = true) ra_InputPer1M)
    |apply (by_key_order _ (fun x => f_nonneg x = true) ra_OutputPer1M)
    |apply (by_key_order _ (fun _ => True) ra_Pattern)
    |apply (by_key_order _ (fun _ => True) ra_ID)];
    auto using Z_order, Z_down_order, string_order, bool_order, f_lt_order;
    by intros a Ha%priceable_rate; tauto.
Qed.

Lemma more_specific_order : weak_order priceable moreSpecific.
Proof.
  destruct specificity_order as [Ha Hs]. split.
  - intros a b HPa HPb. rewrite !more_specific_chain by done. by apply Ha.
  - intros a b c HPa HPb HPc. rewrite !more_specific_chain by done. by apply Hs.
Qed.

(** What the chain leaves open has one key: what the card is indexed on. *)
Definition rateKey (r : Rate) : string * string * string := (ra_Provider r, ra_Pattern r, ra_Operator r).
Lemma operator_of_rank x y : (x = OpEquals \/ x = OpStartsWith \/ x = OpIncludes) -> (y = OpEquals \/ y = OpStartsWith \/ y = OpIncludes) ->
  operatorRank x = operatorRank y -> x = y.
Proof. by intros [->|[->| ->]] [->|[->| ->]]. Qed.
Lemma tie_same_key a b : priceable a -> priceable b -> moreSpecific a b = false -> moreSpecific b a = false -> rateKey a = rateKey b.
Proof.
  intros Ha Hb. rewrite !more_specific_chain by done. unfold specificity. intros H1 H2.
  apply then_by_tie in H1 as (Ho1 & Ho2 & H1 & H3); [|done]. apply then_by_tie in H1 as (_ & _ & H1 & H4); [|done].
  apply then_by_tie in H1 as (_ & _ & H1 & H5); [|done]. apply then_by_tie in H1 as (Hp1 & Hp2 & H1 & H6); [|done].
  apply then_by_tie in H1 as (_ & _ & H1 & H7); [|done]. apply then_by_tie in H1 as (_ & _ & H1 & H8); [|done].
  apply then_by_tie in H1 as (_ & _ & H1 & H9); [|done]. apply then_by_tie in H1 as (Hq1 & Hq2 & H1 & H10); [|done].
  apply priceable_rate in Ha as (_ & _ & _ & _ & _ & Ha), Hb as (_ & _ & _ & _ & _ & Hb).
  unfold rateKey. rewrite (string_tie _ _ Hp1 Hp2), (string_tie _ _ Hq1 Hq2). f_equal. apply operator_of_rank; [done..|]. lia.
Qed.

(** ** What a table holds *)
Definition admitted (rates : list Rate) : list Rate := List.filter usable (map normalized rates).
Definition exact_for (p : string) (r : Rate) : bool := String.eqb (ra_Operator r) OpEquals && String.eqb (ra_Pattern r) p.

Lemma table_add_one t r :
  tb_fuzzy (table_add t r) = (tb_fuzzy t ++ List.filter (fun r => negb (String.eqb (ra_Operator r) OpEquals)) (admitted [r]))%list /\
  (forall p, default [] (tb_exact (table_add t r) !! p) = (default [] (tb_exact t !! p) ++ List.filter (exact_for p) (admitted [r]))%list) /\
  tb_count (table_add t r) = tb_count t + Z.of_nat (List.length (admitted [r])).
Proof.
  unfold table_add, admitted, exact_for. cbn [map List.filter]. generalize (normalized r). clear r. intros r. cbv zeta.
  destruct (usable r); cbn [negb List.filter]; [|rewrite app_nil_r; split_and!; [done| |cbn; lia]; intros p; by rewrite app_nil_r].
  destruct (String.eqb (ra_Operator r) OpEquals); cbn [negb List.filter andb tb_fuzzy tb_exact tb_count]; split_and!; try (cbn; lia); try done.
  - by rewrite app_nil_r.
  - intros p. destruct (String.eqb_spec (ra_Pattern r) p) as [<-|Hp]; [by rewrite lookup_insert_eq|]. rewrite lookup_insert_ne by done. by rewrite app_nil_r.
  - intros p. by rewrite app_nil_r.
Qed.

Lemma table_add_all rates t :
  let t' := foldl table_add t rates in
  tb_fuzzy t' = (tb_fuzzy t ++ List.filter (fun r => negb (String.eqb (ra_Operator r) OpEquals)) (admitted rates))%list /\
  (forall p, default [] (tb_exact t' !! p) = (default [] (tb_exact t !! p) ++ List.filter (exact_for p) (admitted rates))%list) /\
  tb_count t' = tb_count t + Z.of_nat (List.length (admitted rates)).
Proof.
  revert t. induction rates as [|r rates IH]; intros t; cbn [foldl].
  { rewrite app_nil_r. split_and!; [done| |cbn; lia]. intros p. by rewrite app_nil_r. }
  destruct (IH (table_add t r)) as (Hf & He & Hc), (table_add_one t r) as (Hf1 & He1 & Hc1).
  assert (admitted (r :: rates) = (admitted [r] ++ admitted rates)%list) as Ha by (unfold admitted; by rewrite <-List.filter_app).
  cbv zeta. rewrite Ha, Hf, Hf1, Hc, Hc1, !List.filter_app, length_app, <-app_assoc. split_and!; [done| |lia].
  intros p. by rewrite He, He1, List.filter_app, <-app_assoc.
Qed.

Lemma table_holds rates : let t := NewTable rates in
  tb_fuzzy t = sortBySpecificity (List.filter (fun r => negb (String.eqb (ra_Operator r) OpEquals)) (admitted rates)) /\
  (forall p, default [] (tb_exact t !! p) = sortBySpecificity (List.filter (exact_for p) (admitted rates))) /\
  tb_count t = Z.of_nat (List.length (admitted rates)).
Proof.
  destruct (table_add_all rates (mkTable ∅ [] 0)) as (Hf & He & Hc). unfold NewTable. cbn. rewrite Hf, Hc. split_and!; [done| |done].
  intros p. specialize (He p). cbn [tb_exact] in He. rewrite lookup_empty in He. cbn in He. rewrite lookup_fmap, <-He. by destruct (tb_exact _ !! p).
Qed.

Lemma admitted_priceable rates r : r ∈ admitted rates -> priceable r.
Proof. unfold admitted. rewrite list_elem_of_In, filter_In. by intros [_ ?]. Qed.

(** ** Resolution *)
Definition candidates (rates : list Rate) (model : string) : list Rate :=
  List.filter (fun r => rate_matches r (normalize model)) (admitted rates).

Lemma in_filter {A} (f : A -> bool) (l : list A) x : x ∈ List.filter f l <-> x ∈ l /\ f x = true.
Proof. by rewrite !list_elem_of_In, filter_In. Qed.

Lemma filter_false {A} (f : A -> bool) (l : list A) : (forall x, x ∈ l -> f x = false) -> List.filter f l = [].
Proof. induction l as [|x l IH]; cbn; intros H; [done|]. rewrite (H x) by left. apply IH. intros y Hy. apply H. by right. Qed.
Lemma cut_none_of_empty p : p <> "" -> contains "" p = false.
Proof. by destruct p. Qed.
Lemma blank_matches_nothing r : priceable r -> rate_matches r "" = false.
Proof.
  intros (Hp & _ & _ & _ & _ & Hop)%priceable_rate. unfold rate_matches.
  destruct Hop as [->|[->| ->]]; cbn; [by destruct (ra_Pattern r)|by destruct (ra_Pattern r)|by apply cut_none_of_empty].
Qed.
Lemma exact_first a b : priceable a -> priceable b -> ra_Operator a = OpEquals -> ra_Operator b <> OpEquals -> moreSpecific b a = false.
Proof.
  intros _ (_ & _ & _ & _ & _ & Hb)%priceable_rate Ha Hne. unfold moreSpecific. rewrite Ha.
  destruct Hb as [Hb|[Hb|Hb]]; [by destruct Hne|by rewrite Hb..].
Qed.

Lemma exact_match r m : ra_Operator r = OpEquals -> rate_matches r m = exact_for m r.
Proof. intros H. unfold rate_matches, exact_for. rewrite H. cbn. apply String.eqb_sym. Qed.
Lemma in_sorted f rates r : r ∈ sortBySpecificity (List.filter f (admitted rates)) <-> r ∈ admitted rates /\ f r = true.
Proof. unfold sortBySpecificity. by rewrite sort_by_perm, in_filter. Qed.
Lemma sorted_admitted f rates : StronglySorted (not_after moreSpecific) (sortBySpecificity (List.filter f (admitted rates))).
Proof.
  apply (sort_by_sorted priceable); [apply more_specific_order|]. apply Forall_forall.
  intros r [Hr _]%in_filter. by apply (admitted_priceable rates).
Qed.
Lemma more_specific_irrefl r : priceable r -> moreSpecific r r = false.
Proof. intros Hr. destruct (moreSpecific r r) eqn:E; [|done]. by rewrite (wo_asym _ _ more_specific_order r r Hr Hr E) in E. Qed.

Lemma rate_resolves rates model :
  match lookup_rate (Some (NewTable rates)) model with
  | Some r => r ∈ candidates rates model /\ forall r', r' ∈ candidates rates model -> moreSpecific r' r = false
  | None => candidates rates model = []
  end.
Proof.
  destruct (table_holds rates) as (Hf & He & _). unfold lookup_rate, candidates. cbv zeta.
  destruct (String.eqb_spec (normalize model) "") as [->|Hm].
  { apply filter_false. intros r Hr. by apply blank_matches_nothing, (admitted_priceable rates). }
  rewrite He, Hf. set (m := normalize model). clearbody m. clear He Hf model Hm.
  destruct (sortBySpecificity (List.filter (exact_for m) (admitted rates))) as [|r rest] eqn:HG.
  - assert (forall r, r ∈ List.filter (fun r => rate_matches r m) (admitted rates) -> r ∈ sortBySpecificity (List.filter (fun r => negb (String.eqb (ra_Operator r) OpEquals)) (admitted rates))) as Hsub.
    { intros r [Hr Hx]%in_filter. apply in_sorted. split; [done|]. destruct (String.eqb_spec (ra_Operator r) OpEquals) as [Hop|]; [|done].
      rewrite exact_match in Hx by done. assert (r ∈ []) as []%elem_of_nil by (rewrite <-HG; by apply in_sorted). }
    pose proof (sorted_find _ (fun r => rate_matches r m) _ (sorted_admitted (fun r => negb (String.eqb (ra_Operator r) OpEquals)) rates)) as Hfind.
    destruct (List.find _ _) as [r|].
    + destruct Hfind as ([Hr _]%in_sorted & Hx & Hbest). split; [by apply in_filter|]. intros r' Hr'. pose proof Hr' as [_ Hx']%in_filter.
      destruct (Hbest r' (Hsub r' Hr') Hx') as [->|]; [|done]. by apply more_specific_irrefl, (admitted_priceable rates).
    + apply filter_false. intros r Hr. destruct (rate_matches r m) eqn:Hx; [|done]. rewrite <-Hx. by apply Hfind, Hsub, in_filter.
  - assert (forall x, x ∈ r :: rest <-> x ∈ admitted rates /\ exact_for m x = true) as Hin by (intros x; rewrite <-HG; apply in_sorted).
    pose proof (sorted_admitted (exact_for m) rates) as Hs. rewrite HG in Hs. apply StronglySorted_inv in Hs as [_ Hs].
    destruct (proj1 (Hin r)) as [Hr Hx]; [by left|]. assert (ra_Operator r = OpEquals) as Hop by (apply andb_prop in Hx as [Hop _]; by apply String.eqb_eq).
    split; [apply in_filter; by rewrite exact_match|]. intros r' [Hr' Hx']%in_filter.
    destruct (String.eqb_spec (ra_Operator r') OpEquals) as [Hop'|Hop'].
    + rewrite exact_match in Hx' by done. assert (r' ∈ r :: rest) as Hc by by apply Hin.
      apply elem_of_cons in Hc as [->|Hc]; [by apply more_specific_irrefl, (admitted_priceable rates)|]. rewrite Forall_forall in Hs. by apply Hs.
    + apply exact_first; [by apply (admitted_priceable rates)..|done|done].
Qed.

(** C17: a served model id is priced by the most specific rate that matches it -
    an exact name before a prefix before a substring, a longer pattern before a
    shorter one, and so on down the chain -, by none exactly when none does, and
    by the same one in whatever order the card lists its rates, when each
    provider, pattern and operator is listed once. *)
Theorem rate_most_specific rates rates' model :
  rates ≡ₚ rates' -> NoDup (map rateKey (admitted rates)) ->
  lookup_rate (Some (NewTable rates)) model = lookup_rate (Some (NewTable rates')) model /\
  match lookup_rate (Some (NewTable rates)) model with
  | Some r => r ∈ candidates rates model /\ forall r', r' ∈ candidates rates model -> r' = r \/ moreSpecific r r' = true
  | None => candidates rates model = []
  end.
Proof.
  intros Hp Hnd.
  assert (forall a b, a ∈ admitted rates -> b ∈ admitted rates -> moreSpecific a b = false -> moreSpecific b a = false -> a = b) as Htie.
  { intros a b Ha Hb H1 H2. pose proof (tie_same_key a b ltac:(by apply (admitted_priceable rates)) ltac:(by apply (admitted_priceable rates)) H1 H2) as Hk.
    apply list_elem_of_lookup in Ha as [i Hi], Hb as [j Hj].
    assert (i = j) as ->; [|congruence]. eapply (NoDup_lookup (map rateKey (admitted rates))); [done|by rewrite list_lookup_fmap, Hi|by rewrite list_lookup_fmap, Hj, Hk]. }
  assert (admitted rates ≡ₚ admitted rates') as Ha.
  { unfold admitted. clear Hnd Htie. induction Hp as [|x l l' _ IH|x y l|]; cbn; [done|by destruct (usable _); rewrite ?IH| |by etransitivity].
    destruct (usable _), (usable _); by try apply Permutation_swap. }
  assert (forall r, r ∈ candidates rates model <-> r ∈ candidates rates' model) as Hc by (intros r; unfold candidates; by rewrite !in_filter, Ha).
  pose proof (rate_resolves rates model) as H1. pose proof (rate_resolves rates' model) as H2.
  assert (forall r, r ∈ candidates rates model -> r ∈ admitted rates) as Hsub by by intros r [? _]%in_filter.
  split.
  - destruct (lookup_rate (Some (NewTable rates)) model) as [r|], (lookup_rate (Some (NewTable rates')) model) as [r'|]; try done.
    + destruct H1 as [Hr H1], H2 as [Hr' H2]. apply Hc in Hr'. f_equal. apply Htie; auto. by apply H2, Hc.
    + destruct H1 as [Hr%Hc _]. rewrite H2 in Hr. by apply elem_of_nil in Hr.
    + destruct H2 as [Hr%Hc _]. rewrite H1 in Hr. by apply elem_of_nil in Hr.
  - destruct (lookup_rate (Some (NewTable rates)) model) as [r|]; [|done]. destruct H1 as [Hr H1]. split; [done|]. intros r' Hr'.
    destruct (moreSpecific r r') eqn:E; [by right|left]. apply Htie; auto.
Qed.

(** ** The arithmetic *)
Lemma unit_is : f_of_Z tokensPerUnit = S754_finite false 8589934592000000 (-33).
Proof. vm_compute. reflexivity. Qed.

Lemma amount_nonneg tokens per1M : 0 <= tokens <= int64_max -> usablePrice per1M = true -> f_nonneg (amount tokens per1M) = true.
Proof.
  intros Ht [Hn Hf]%usable_price. unfold amount. rewrite unit_is.
  apply f_mul_nonneg; [apply f_div_nonneg, f_of_Z_nonneg; lia|done| |done].
  apply f_div_small; [apply f_of_Z_small; unfold in_int64, int64_min, int64_max in *; lia|lia..].
Qed.

Definition cache_usable (r : Rate) : Prop :=
  from_option usablePrice true (ra_CacheReadPer1M r) = true /\ from_option usablePrice true (ra_CacheWritePer1M r) = true.
Definition estimated (rate : Rate) (cached written : Z) : bool :=
  ((0 <? cached) && negb (bool_decide (is_Some (ra_CacheReadPer1M rate)))) || ((0 <? written) && negb (bool_decide (is_Some (ra_CacheWritePer1M rate)))).

Lemma cache_half_ok status cost tokens per1M rate :
  0 <= tokens <= int64_max -> f_nonneg cost = true -> from_option usablePrice true per1M = true -> usablePrice (ra_InputPer1M rate) = true ->
  f_nonneg (cache_half status cost tokens per1M rate).2 = true /\
  (cache_half status cost tokens per1M rate).1 = (if (0 <? tokens) && negb (bool_decide (is_Some per1M)) then StatusPricedPartial else status).
Proof.
  intros Ht Hc Hp Hi. unfold cache_half. destruct (0 <? tokens); [|done].
  destruct per1M as [p|]; cbn in *; split; try done; apply f_add_nonneg; auto using amount_nonneg.
Qed.
Lemma cache_cost_ok rate cached written : 0 <= cached <= int64_max -> 0 <= written <= int64_max -> usablePrice (ra_InputPer1M rate) = true -> cache_usable rate ->
  f_nonneg (cacheCost StatusPriced rate cached written).2 = true /\
  (cacheCost StatusPriced rate cached written).1 = (if estimated rate cached written then StatusPricedPartial else StatusPriced).
Proof.
  intros Hc Hw Hi [Hr1 Hr2]. unfold cacheCost, estimated.
  destruct (cache_half_ok StatusPriced f_zero cached (ra_CacheReadPer1M rate) rate Hc eq_refl Hr1 Hi) as [H1 H2].
  destruct (cache_half _ _ cached _ _) as [status cost]. cbn in H1, H2. subst status.
  match goal with |- context [cache_half ?s cost written ?p rate] => destruct (cache_half_ok s cost written p rate Hw H1 Hr2 Hi) as [H3 ->] end.
  split; [done|]. by destruct (_ && _), (_ && _).
Qed.

Lemma admitted_cache rates r : Forall cache_usable rates -> r ∈ admitted rates -> cache_usable r.
Proof.
  intros H [Hr _]%in_filter. apply list_elem_of_fmap in Hr as (r0 & -> & Hr0). rewrite Forall_forall in H. by apply H in Hr0.
Qed.

(** What is charged at the input rate: the whole count where the vendor leaves
    the cached tokens out of it, and what is left of it without them where it
    does not. *)
Definition billed (vendor : string) (input cached written : Z) : Z :=
  if String.eqb vendor anthropicProvider then input else Z.max 0 (input - cached - written).


Definition a_card : list Rate := [
  mkRate "1" "openai" "GPT-4o" OpStartsWith (f_lit 5 2) (f_of_Z 10) (Some (f_lit 5 4)) None true;
  mkRate "2" "ANTHROPIC" "claude" OpIncludes (f_of_Z 3) (f_of_Z 15) (Some (f_lit 3 10)) None true;
  mkRate "3" "OPENAI" "gpt-4o-mini" OpStartsWith (f_lit 3 20) (f_lit 3 5) None None true].
Definition a_call : cost_Call := mkCall "gpt-4o-mini-2024" "" (Some (mkUsage 1000 200 50 400 0 None)) false.

Lemma rate_most_specific_witness :
  lookup_rate (Some (NewTable a_card)) "GPT-4o-mini-2024" = lookup_rate (Some (NewTable (rev a_card))) "GPT-4o-mini-2024" /\
  ra_ID <$> lookup_rate (Some (NewTable a_card)) "GPT-4o-mini-2024" = Some "3".
Proof.
  split; [|vm_compute; reflexivity]. refine (proj1 (rate_most_specific a_card (rev a_card) "GPT-4o-mini-2024" _ _)).
  - apply Permutation_rev.
  - vm_compute. repeat constructor; rewrite ?elem_of_cons, ?elem_of_nil; naive_solver.
Defined.


(** A call made through a gateway: cached tokens are part of the input. *)
Example cached_once : billed "OPENROUTER" 1000 400 100 = 500 /\ billed anthropicProvider 1000 400 100 = 1000.
Proof. done. Qed.

(** A cache rate that is not a price is charged as it stands: the cost is
    negative, and its status says that it is in full. *)
Definition malformed_card : list Rate :=
  [mkRate "1" "OPENAI" "gpt-4o" OpEquals (f_of_Z 1) (f_of_Z 1) (Some (f_of_Z (-50))) None true].
Example malformed_cache_rate_charged :
  let p := Price (Some (NewTable malformed_card)) (mkCall "gpt-4o" "" (Some (mkUsage 1000 0 0 1000 0 None)) false) in
  pr_Status p = StatusPriced /\ f_lt (CostUSD p).1 f_zero = true.
Proof. vm_compute. done. Qed.

(** A cost the provider reported outranks every card, and a card that does not
    know the model leaves it to the next one. *)
Lemma pricer_order sources call :
  Pricer_Price (Some sources) call =
    match reportedCost call with
    | Some reported => reported
    | None =>
        if bool_decide (ca_Usage call = None) then unpriced StatusNoUsage
        else default (unpriced StatusUnpricedModel)
          (List.find (fun p => negb (String.eqb (pr_Status p) StatusUnpricedModel)) (map (fun source => Price source call) sources))
    end.
Proof.
  unfold Pricer_Price. destruct (reportedCost call); [done|]. destruct (ca_Usage call) eqn:Hu; [|done]. rewrite bool_decide_eq_false_2 by done.
  assert (forall priced, priced = unpriced StatusUnpricedModel -> first_card sources call priced =
    default (unpriced StatusUnpricedModel) (List.find (fun p => negb (String.eqb (pr_Status p) StatusUnpricedModel)) (map (fun source => Price source call) sources))) as H;
    [|by apply H].
  induction sources as [|source rest IH]; intros priced Hp; cbn; [done|]. destruct (negb _) eqn:E; [done|]. apply IH.
  apply negb_false_iff, String.eqb_eq in E. unfold Price in *. rewrite Hu in *. destruct (lookup_rate source (ca_Model call)); [|done].
  destruct (ca_Embedding call); [done|]. unfold cacheCost, cache_half in *.
  repeat match type of E with context [if ?b then _ else _] => destruct b; cbn in E; try done | context [match ?o with Some _ => _ | None => _ end] => destruct o; cbn in E; try done end.
Qed.
