(* ===== verification/Catalogue.v ===== *)
(** Where rate cards come from: [internal/cost/helicone.go], [openrouter.go],
    [diff.go], [refresher.go] and [store.go] of the observability service.

    Reading a feed over HTTP is its outcome, the decoded rows or an error. *)
From S2P Require Import Prelude Order GoStr F64 Cost.
From stdpp Require Import sorting pretty.
From Stdlib Require Import Floats.SpecFloat String Ascii.
#[local] Open Scope string_scope.
#[local] Open Scope Z_scope.

(** ** helicone.go *)
Definition errEmptyCatalogue : goerr := ErrMsg "cost: catalogue contains no usable rates".

Record FetchedCard : Type := mkFetched { fe_Rates : list Rate; fe_Unusable : Z; fe_Duplicates : Z }.
Record catalogueRow : Type := mkRow {
  cr_Provider : string;
  cr_Model : string;
  cr_Operator : string;
  cr_InputPer1M : f64;
  cr_OutputPer1M : f64;
  cr_CacheWritePer1M : option f64;
  cr_CacheReadPer1M : option f64;
  cr_Preferred : bool
}.

Definition row_rate (r : catalogueRow) : Rate :=
  mkRate "" (cr_Provider r) (cr_Model r) (cr_Operator r) (cr_InputPer1M r) (cr_OutputPer1M r)
    (cr_CacheReadPer1M r) (cr_CacheWritePer1M r) (cr_Preferred r).

(** The two loops of [reduce]. *)
Fixpoint keep_usable (rows : list catalogueRow) : list Rate * Z :=
  match rows with
  | [] => ([], 0)
  | row :: rest =>
      let '(rates, unusable) := keep_usable rest in
      let rate := normalized (row_rate row) in
      if negb (usable rate) then (rates, unusable + 1) else (rate :: rates, unusable)
  end.
Fixpoint first_per_key (seen : gset (string * string * string)) (rates : list Rate) : list Rate * Z :=
  match rates with
  | [] => ([], 0)
  | rate :: rest =>
      if decide (rateKey rate ∈ seen)
      then let '(out, duplicates) := first_per_key seen rest in (out, duplicates + 1)
      else let '(out, duplicates) := first_per_key ({[rateKey rate]} ∪ seen) rest in (rate :: out, duplicates)
  end.
Definition reduce (rows : list catalogueRow) : FetchedCard :=
  let '(rates, unusable) := keep_usable rows in
  let '(out, duplicates) := first_per_key ∅ (sortBySpecificity rates) in
  mkFetched out unusable duplicates.

Definition Catalogue_Fetch (payload : res (list catalogueRow)) : res FetchedCard :=
  rows ← payload;
  let fetched := reduce rows in
  match fe_Rates fetched with [] => Err errEmptyCatalogue | _ => Ok fetched end.

(** ** strconv.ParseFloat, on decimal texts: an optional sign, digits with an
    optional point, an optional exponent; and the words for the infinities and
    NaN.  Hexadecimal mantissas are left out.  [None] is an error, which a value
    too large for a float64 is. *)
Fixpoint decimal_digits (s : string) (acc : Z) (n : nat) : Z * nat * string :=
  match s with
  | String a r => match digit a with Some d => decimal_digits r (acc * 10 + d) (S n) | None => (acc, n, s) end
  | EmptyString => (acc, n, s)
  end.
Definition signed_text (s : string) : bool * string :=
  match s with
  | String a r => if Ascii.eqb a "-"%char then (true, r) else if Ascii.eqb a "+"%char then (false, r) else (false, s)
  | EmptyString => (false, s)
  end.
(** [m * 10^e], correctly rounded. *)
Definition decimal_value (neg : bool) (m e : Z) : f64 :=
  if m =? 0 then S754_zero neg
  else if 0 <=? e then binary_normalize prec emax (if neg then - (m * 10 ^ e) else m * 10 ^ e) 0 neg
  else let '(q, ex, l) := SFdiv_core_binary prec emax m 0 (10 ^ (- e)) 0 in binary_round_aux prec emax neg q ex l.
Definition ParseFloat (text : string) : option f64 :=
  let '(neg, s) := signed_text text in
  if bool_decide (ToLower s ∈ ["inf"; "infinity"]) then Some (S754_infinity neg)
  else if String.eqb (ToLower text) "nan" then Some S754_nan
  else
    let '(m, whole, s) := decimal_digits s 0 0 in
    let '(m, places, s) :=
      match s with
      | String a r => if Ascii.eqb a "."%char then let '(m, n, s) := decimal_digits r m 0 in (m, n, s) else (m, O, s)
      | EmptyString => (m, O, s)
      end in
    if Nat.eqb (whole + places) 0 then None
    else
      let finish e := let v := decimal_value neg m (e - Z.of_nat places) in if is_inf v then None else Some v in
      match s with
      | EmptyString => finish 0
      | String a r =>
          if Ascii.eqb a "e"%char || Ascii.eqb a "E"%char
          then let '(eneg, r) := signed_text r in
               let '(e, n, rest) := decimal_digits r 0 0 in
               if Nat.eqb n 0 || negb (String.eqb rest "") then None else finish (if eneg then - e else e)
          else None
      end.

(** ** openrouter.go *)
Definition variantSeparator : string := ":".
Definition vendorSeparator : string := "/".
Definition minSlugLength : nat := 4.

Record openRouterPricing : Type := mkPricing { op_Prompt : string; op_Completion : string; op_InputCacheRead : string; op_InputCacheWrite : string }.
Record openRouterModel : Type := mkModel { om_ID : string; om_Pricing : openRouterPricing }.

Definition vendorOf (id : string) : string :=
  match cut id vendorSeparator with None => "" | Some (vendor, _) => normalizeProvider vendor end.
(** [strings.ReplaceAll(s, ".", "-")]. *)
Fixpoint dots_to_dashes (s : string) : string :=
  match s with EmptyString => "" | String a r => String (if Ascii.eqb a "."%char then "-"%char else a) (dots_to_dashes r) end.
Definition bareSlugs (id : string) : list string :=
  match cut id vendorSeparator with
  | None => []
  | Some (_, slug) =>
      let slug := match cut slug variantSeparator with Some (before, _) => before | None => slug end in
      if Nat.ltb (String.length slug) minSlugLength then []
      else let dashed := dots_to_dashes slug in if negb (String.eqb dashed slug) then [slug; dashed] else [slug]
  end.

Definition perMillion (raw : string) : f64 :=
  match ParseFloat (TrimSpace raw) with
  | None => f_zero
  | Some value => let per1M := f_mul value (f_of_Z tokensPerUnit) in if negb (usablePrice per1M) then f_zero else per1M
  end.
Definition optionalPerMillion (raw : string) : option f64 :=
  if String.eqb (TrimSpace raw) "" then None
  else match ParseFloat (TrimSpace raw) with
       | None => None
       | Some value => let per1M := f_mul value (f_of_Z tokensPerUnit) in if negb (usablePrice per1M) then None else Some per1M
       end.

Definition model_rows (m : openRouterModel) : option (list catalogueRow) :=
  let id := normalize (om_ID m) in
  let provider := vendorOf id in
  let input := perMillion (op_Prompt (om_Pricing m)) in
  let output := perMillion (op_Completion (om_Pricing m)) in
  if String.eqb id "" || String.eqb provider "" || (f_eq input f_zero && f_eq output f_zero) then None
  else
    let cacheRead := optionalPerMillion (op_InputCacheRead (om_Pricing m)) in
    let cacheWrite := optionalPerMillion (op_InputCacheWrite (om_Pricing m)) in
    let add pattern operator := mkRow provider pattern operator input output cacheWrite cacheRead true in
    Some (add id OpEquals :: map (fun slug => add slug OpStartsWith) (bareSlugs id)).
Fixpoint openRouterRows (models : list openRouterModel) : list catalogueRow * Z :=
  match models with
  | [] => ([], 0)
  | m :: rest =>
      let '(rows, skipped) := openRouterRows rest in
      match model_rows m with None => (rows, skipped + 1) | Some added => ((added ++ rows)%list, skipped) end
  end.
Definition OpenRouterCatalogue_Fetch (payload : res (list openRouterModel)) : res FetchedCard :=
  models ← payload;
  let '(rows, skipped) := openRouterRows models in
  let fetched := reduce rows in
  match fe_Rates fetched with
  | [] => Err errEmptyCatalogue
  | _ => Ok (mkFetched (fe_Rates fetched) (fe_Unusable fetched + skipped) (fe_Duplicates fetched))
  end.

(** ** diff.go *)
Definition priceScale : Z := 10.
Definition quantize (f : f64) : f64 :=
  let factor := f_of_Z (10 ^ priceScale) in f_div (math_round (f_mul f factor)) factor.
Definition quantizeOptional (f : option f64) : option f64 := quantize <$> f.
Definition quantizeRate (r : Rate) : Rate :=
  mkRate (ra_ID r) (ra_Provider r) (ra_Pattern r) (ra_Operator r) (quantize (ra_InputPer1M r)) (quantize (ra_OutputPer1M r))
    (quantizeOptional (ra_CacheReadPer1M r)) (quantizeOptional (ra_CacheWritePer1M r)) (ra_Preferred r).

Definition sameOptional (a b : option f64) : bool :=
  match a, b with None, None => true | Some a, Some b => f_eq a b | _, _ => false end.
Definition samePrice (a b : Rate) : bool :=
  f_eq (ra_InputPer1M a) (ra_InputPer1M b) && f_eq (ra_OutputPer1M a) (ra_OutputPer1M b) &&
  Bool.eqb (ra_Preferred a) (ra_Preferred b) &&
  sameOptional (ra_CacheReadPer1M a) (ra_CacheReadPer1M b) && sameOptional (ra_CacheWritePer1M a) (ra_CacheWritePer1M b).

Record Change : Type := mkChange { ch_Rate : Rate; ch_Supersedes : string }.

Definition by_key (on_prices : list Rate) : gmap (string * string * string) Rate :=
  foldl (fun m rate => <[rateKey rate := rate]> m) ∅ on_prices.
Definition change_of (known : gmap (string * string * string) Rate) (incoming : Rate) : option Change :=
  let incoming := quantizeRate incoming in
  match known !! rateKey incoming with
  | None => Some (mkChange incoming "")
  | Some current => if samePrice current incoming then None else Some (mkChange incoming (ra_ID current))
  end.
Definition Diff (on_prices fetched : list Rate) : list Change := omap (change_of (by_key on_prices)) fetched.

(** ** refresher.go, against the storage and the feed it is given *)
Record Sync : Type := mkSync { sy_Source : string; sy_Models : Z; sy_Added : Z; sy_Changed : Z; sy_Err : option goerr }.

Class Prices (S : Type) : Type := {
  pc_Current : string -> SM S (list Rate);
  pc_Apply : string -> list Change -> SM S unit;
  pc_RecordSync : Sync -> SM S unit }.

Section refresher.
Context {S : Type} `{!Prices S}.

(** The card in force, beside the storage. *)
Record Refresher : Type := mkRefresher { rf_card : option Table; rf_store : S }.

Definition on_prices {A} (m : SM S A) : SM Refresher A := fun r =>
  let '(s, out) := m (rf_store r) in (mkRefresher (rf_card r) s, out).
Definition publish_card (rates : list Rate) : SM Refresher unit := fun r => (mkRefresher (Some (NewTable rates)) (rf_store r), Ok tt).

Definition Refresher_Load (source : string) : SM Refresher unit :=
  rates ← on_prices (pc_Current source);
  publish_card rates.

Definition added (changes : list Change) : Z := Z.of_nat (List.length (List.filter (fun c => String.eqb (ch_Supersedes c) "") changes)).

(** The outcome carries its error in [sy_Err]. *)
Definition refresh (source : string) (feed : res FetchedCard) : SM Refresher Sync :=
  let sync := mkSync source 0 0 0 None in
  match feed with
  | Err e => mret (mkSync source 0 0 0 (Some e))
  | Ok fetched =>
      let models := Z.of_nat (List.length (fe_Rates fetched)) in
      before ← attempt (on_prices (pc_Current source));
      match before with
      | Err e => mret (mkSync source models 0 0 (Some e))
      | Ok before =>
          let changes := Diff before (fe_Rates fetched) in
          let outcome := mkSync source models (added changes) (Z.of_nat (List.length changes) - added changes) in
          applied ← attempt (on_prices (pc_Apply source changes));
          current ← attempt (on_prices (pc_Current source));
          match current with Ok rates => publish_card rates | Err _ => mret tt end ≫= fun _ =>
          mret (outcome (match applied, current with Err e, _ => Some e | _, Err e => Some e | _, _ => None end))
      end
  end.

(** A failure to record the outcome is logged. *)
Definition cycle (source : string) (feed : res FetchedCard) : SM Refresher unit :=
  sync ← refresh source feed;
  attempt (on_prices (pc_RecordSync sync)) ≫= fun _ => mret tt.
End refresher.
Arguments Refresher : clear implicits.

(** ** store.go: the statements, on the rows of [llm_prices]

    [numeric] is what a column of the card keeps of a figure, none when it does
    not fit; [uuid] is the supply of row ids. *)
Record PriceRow : Type := mkPriceRow { pw_source : string; pw_rate : Rate; pw_open : bool }.
Record PriceTable : Type := mkPrices { pt_rows : list PriceRow; pt_next : nat; pt_syncs : list Sync }.

Section store.
Context (numeric : f64 -> option f64) (uuid : nat -> string).

Definition open_rows (source : string) (rows : list PriceRow) : list Rate :=
  map pw_rate (List.filter (fun row => String.eqb (pw_source row) source && pw_open row) rows).
Definition table_Current (source : string) : SM PriceTable (list Rate) := fun t => (t, Ok (open_rows source (pt_rows t))).

(** [UPDATE ... SET effective_to = now() WHERE id = $1 AND effective_to IS NULL]. *)
Definition close_row (id : string) (rows : list PriceRow) : list PriceRow :=
  map (fun row => if String.eqb (ra_ID (pw_rate row)) id && pw_open row then mkPriceRow (pw_source row) (pw_rate row) false else row) rows.

Definition optional_numeric (f : option f64) : option (option f64) :=
  match f with None => Some None | Some f => Some <$> numeric f end.
Definition as_stored (id : string) (r : Rate) : option Rate :=
  input ← numeric (ra_InputPer1M r); output ← numeric (ra_OutputPer1M r);
  cacheRead ← optional_numeric (ra_CacheReadPer1M r); cacheWrite ← optional_numeric (ra_CacheWritePer1M r);
  mret (mkRate id (ra_Provider r) (ra_Pattern r) (ra_Operator r) input output cacheRead cacheWrite (ra_Preferred r)).

(** The row of an [INSERT]: refused by the unique index on the open rows. *)
Definition insert_row (source : string) (rate : Rate) (t : PriceTable) : res PriceTable :=
  match as_stored (uuid (pt_next t)) rate with
  | None => Err (ErrMsg "numeric field overflow")
  | Some row =>
      if bool_decide (rateKey row ∈ map rateKey (open_rows source (pt_rows t)))
      then Err (ErrMsg "duplicate key value violates unique constraint")
      else Ok (mkPrices (pt_rows t ++ [mkPriceRow source row true])%list (S (pt_next t)) (pt_syncs t))
  end.
Definition apply_change (source : string) (t : res PriceTable) (change : Change) : res PriceTable :=
  t ← t;
  let t := if negb (String.eqb (ch_Supersedes change) "")
           then mkPrices (close_row (ch_Supersedes change) (pt_rows t)) (pt_next t) (pt_syncs t) else t in
  insert_row source (ch_Rate change) t.
(** One transaction: a statement that fails rolls all of them back. *)
Definition table_Apply (source : string) (changes : list Change) : SM PriceTable unit := fun t =>
  match changes with
  | [] => (t, Ok tt)
  | _ => match foldl (apply_change source) (Ok t) changes with
         | Ok t' => (t', Ok tt)
         | Err e => (t, Err (ErrWrap "cost: apply price changes: " e ""))
         end
  end.
Definition table_RecordSync (sync : Sync) : SM PriceTable unit := fun t =>
  (mkPrices (pt_rows t) (pt_next t) (sync :: pt_syncs t), Ok tt).

Definition price_store : Prices PriceTable :=
  {| pc_Current := table_Current; pc_Apply := table_Apply; pc_RecordSync := table_RecordSync |}.
End store.

(** ** Reducing a feed *)
Lemma keep_usable_is rows : (keep_usable rows).1 = admitted (map row_rate rows) /\
  Z.of_nat (List.length (keep_usable rows).1) + (keep_usable rows).2 = Z.of_nat (List.length rows).
Proof.
  unfold admitted. induction rows as [|row rows [IH1 IH2]]; [done|]. cbn [map List.filter keep_usable].
  destruct (keep_usable rows) as [rates n]. cbn in IH1, IH2. subst rates.
  destruct (usable (normalized (row_rate row))); cbn [negb fst snd List.length] in *; split; try done; lia.
Qed.

Lemma first_per_key_spec seen rates : let '(out, duplicates) := first_per_key seen rates in
  NoDup (map rateKey out) /\ (forall r, r ∈ out -> r ∈ rates /\ rateKey r ∉ seen) /\
  Z.of_nat (List.length out) + duplicates = Z.of_nat (List.length rates) /\
  (forall R, StronglySorted R rates -> forall r, r ∈ rates -> rateKey r ∈ seen \/
     exists r', r' ∈ out /\ rateKey r' = rateKey r /\ (r' = r \/ R r' r)).
Proof.
  revert seen. induction rates as [|rate rates IH]; intros seen; cbn.
  { split_and!; [constructor|by intros r ?%elem_of_nil|done|by intros R _ r ?%elem_of_nil]. }
  destruct (decide (rateKey rate ∈ seen)) as [Hin|Hin].
  - specialize (IH seen). destruct (first_per_key seen rates) as [out n]. destruct IH as (H1 & H2 & H3 & H4). split_and!; [done| |cbn; lia|].
    + intros r Hr. destruct (H2 r Hr). split; [by right|done].
    + intros R [Hs _]%StronglySorted_inv r [->|Hr]%elem_of_cons; [by left|by apply H4].
  - specialize (IH ({[rateKey rate]} ∪ seen)). destruct (first_per_key _ rates) as [out n]. destruct IH as (H1 & H2 & H3 & H4). split_and!.
    + constructor; [|done]. intros (r & Hk & Hr)%list_elem_of_fmap. destruct (H2 r Hr) as [_ Hne]. by apply Hne, elem_of_union_l, elem_of_singleton.
    + intros r [->|Hr]%elem_of_cons; [split; [by left|done]|]. destruct (H2 r Hr) as [? Hne]. split; [by right|]. intros Hs. by apply Hne, elem_of_union_r.
    + cbn. lia.
    + intros R [Hs Hall]%StronglySorted_inv r [->|Hr]%elem_of_cons; [right; exists rate; split; [by left|by auto]|].
      destruct (H4 R Hs r Hr) as [[Hk%elem_of_singleton|]%elem_of_union|(r' & Hr' & Hk & Hrel)]; [|by left|].
      * right. exists rate. split_and!; [by left|done|right]. rewrite Forall_forall in Hall. by apply Hall.
      * right. exists r'. split_and!; [by right|done|done].
Qed.

Lemma reduce_spec rows : let fetched := reduce rows in
  NoDup (map rateKey (fe_Rates fetched)) /\
  (forall r, r ∈ fe_Rates fetched -> r ∈ admitted (map row_rate rows)) /\
  (forall r, r ∈ admitted (map row_rate rows) ->
     exists r', r' ∈ fe_Rates fetched /\ rateKey r' = rateKey r /\ moreSpecific r r' = false) /\
  Z.of_nat (List.length (fe_Rates fetched)) + fe_Duplicates fetched + fe_Unusable fetched = Z.of_nat (List.length rows).
Proof.
  unfold reduce. destruct (keep_usable_is rows) as [Hk Hn]. destruct (keep_usable rows) as [rates n]. cbn in Hk, Hn. subst rates.
  pose proof (first_per_key_spec ∅ (sortBySpecificity (admitted (map row_rate rows)))) as H. destruct (first_per_key _ _) as [out d].
  destruct H as (H1 & H2 & H3 & H4). cbn [fe_Rates fe_Duplicates fe_Unusable]. split_and!; [done| | |].
  - intros r [Hr _]%H2. unfold sortBySpecificity in Hr. by rewrite sort_by_perm in Hr.
  - intros r Hr. assert (Forall priceable (admitted (map row_rate rows))) as Hall by (apply Forall_forall; apply admitted_priceable).
    destruct (H4 _ (sort_by_sorted _ _ more_specific_order _ Hall) r) as [?%elem_of_empty|(r' & Hr' & Hkey & Hrel)]; [by unfold sortBySpecificity; rewrite sort_by_perm|done|].
    exists r'. split_and!; [done..|]. destruct Hrel as [->|]; [|done]. by apply more_specific_irrefl, (admitted_priceable (map row_rate rows)).
  - unfold sortBySpecificity in H3. rewrite sort_by_perm in H3. lia.
Qed.

(** The order of the chain does not look at the cache prices: of two rows that
    differ only there, the one the feed lists first wins. *)
Definition twin (cacheRead : Z) : catalogueRow := mkRow "OPENAI" "gpt-4o" OpEquals (f_of_Z 3) (f_of_Z 10) None (Some (f_of_Z cacheRead)) true.
Example duplicate_kept_by_position :
  map ra_CacheReadPer1M (fe_Rates (reduce [twin 1; twin 2])) = [Some (f_of_Z 1)] /\
  map ra_CacheReadPer1M (fe_Rates (reduce [twin 2; twin 1])) = [Some (f_of_Z 2)].
Proof. vm_compute. done. Qed.

(** ** Prices as they are stored *)
#[local] Arguments quantize : simpl never.
Lemma factor_is : f_of_Z (10 ^ priceScale) = S754_finite false 5242880000000000 (-19).
Proof. vm_compute. reflexivity. Qed.
Lemma quantize_number f : is_nan f = false -> is_nan (quantize f) = false.
Proof.
  intros Hf. unfold quantize. cbv zeta. rewrite factor_is. apply f_div_pos, math_round_number, f_mul_const, Hf.
Qed.

Definition numbers (r : Rate) : Prop :=
  is_nan (ra_InputPer1M r) = false /\ is_nan (ra_OutputPer1M r) = false /\
  from_option is_nan false (ra_CacheReadPer1M r) = false /\ from_option is_nan false (ra_CacheWritePer1M r) = false.

Lemma same_optional_refl f : from_option is_nan false f = false -> sameOptional (quantizeOptional f) (quantizeOptional f) = true.
Proof. destruct f as [f|]; [|done]. cbn. intros H. by apply f_eq_refl, quantize_number. Qed.
Lemma same_price_quantized id r : numbers r ->
  samePrice (mkRate id (ra_Provider r) (ra_Pattern r) (ra_Operator r) (quantize (ra_InputPer1M r)) (quantize (ra_OutputPer1M r))
    (quantizeOptional (ra_CacheReadPer1M r)) (quantizeOptional (ra_CacheWritePer1M r)) (ra_Preferred r)) (quantizeRate r) = true.
Proof.
  intros (Hi & Ho & Hr & Hw). unfold samePrice. cbn. rewrite !f_eq_refl by by apply quantize_number. rewrite !same_optional_refl by done.
  by rewrite Bool.eqb_reflx.
Qed.

Lemma by_key_lookup l r : NoDup (map rateKey l) -> r ∈ l -> by_key l !! rateKey r = Some r.
Proof.
  unfold by_key. cut (forall m : gmap (string * string * string) Rate, NoDup (map rateKey l) ->
    (r ∈ l -> foldl (fun m rate => <[rateKey rate := rate]> m) m l !! rateKey r = Some r) /\
    (rateKey r ∉ map rateKey l -> foldl (fun m rate => <[rateKey rate := rate]> m) m l !! rateKey r = m !! rateKey r)); [naive_solver|].
  induction l as [|x l IH]; intros m Hnd; cbn; [by split; [intros ?%elem_of_nil|]|]. apply NoDup_cons in Hnd as [Hx Hnd].
  destruct (IH (<[rateKey x := x]> m) Hnd) as [H1 H2]. split.
  - intros [->|Hr]%elem_of_cons; [|by apply H1]. rewrite H2 by done. by rewrite lookup_insert_eq.
  - intros [Hne Hn]%not_elem_of_cons. rewrite H2 by done. by rewrite lookup_insert_ne.
Qed.
Lemma by_key_none l k : k ∉ map rateKey l -> by_key l !! k = None.
Proof.
  unfold by_key. rewrite <-(lookup_empty (M := gmap (string * string * string)) (A := Rate) k). generalize (∅ : gmap (string * string * string) Rate).
  induction l as [|x l IH]; intros m Hn; cbn; [done|]. apply not_elem_of_cons in Hn as [Hne Hn]. rewrite IH by done. by rewrite lookup_insert_ne.
Qed.
Lemma by_key_some l k r : by_key l !! k = Some r -> r ∈ l /\ rateKey r = k.
Proof.
  unfold by_key. cut (forall m : gmap (string * string * string) Rate, foldl (fun m rate => <[rateKey rate := rate]> m) m l !! k = Some r -> (r ∈ l /\ rateKey r = k) \/ m !! k = Some r).
  { intros H Hl. by destruct (H ∅ Hl). }
  induction l as [|x l IH]; intros m Hl; cbn in *; [by right|]. destruct (IH _ Hl) as [[? ?]|Hm]; [left; split; [by right|done]|].
  destruct (decide (rateKey x = k)) as [<-|Hne]; [rewrite lookup_insert_eq in Hm; injection Hm as ->; left; split; [by left|done]|].
  rewrite lookup_insert_ne in Hm by done. by right.
Qed.

(** ** Writing a card *)
Section apply.
Context (numeric : f64 -> option f64) (uuid : nat -> string).
Context (numeric_exact : forall f g, numeric (quantize f) = Some g -> g = quantize f).
Context (uuid_inj : forall i j, uuid i = uuid j -> i = j) (uuid_named : forall i, uuid i <> "").

(** Ids are distinct and come from the supply; a source has one open row per key. *)
Definition ids (t : PriceTable) : list string := map (ra_ID ∘ pw_rate) (pt_rows t).
Record table_sound (source : string) (t : PriceTable) : Prop := {
  ts_ids : NoDup (ids t);
  ts_supply : forall id, id ∈ ids t -> exists i, (i < pt_next t)%nat /\ id = uuid i;
  ts_keys : NoDup (map rateKey (open_rows source (pt_rows t))) }.

Lemma open_rows_cons source row rows :
  open_rows source (row :: rows) = ((if String.eqb (pw_source row) source && pw_open row then [pw_rate row] else []) ++ open_rows source rows)%list.
Proof. unfold open_rows. cbn. by destruct (_ && _). Qed.
Definition not_superseded (id : string) (r : Rate) : bool := negb (String.eqb (ra_ID r) id).
Lemma open_rows_close source id rows :
  open_rows source (close_row id rows) = List.filter (not_superseded id) (open_rows source rows).
Proof.
  induction rows as [|[src r o] rows IH]; [done|]. unfold close_row. cbn [map]. fold (close_row id rows).
  rewrite !open_rows_cons, List.filter_app, IH. f_equal. cbn [pw_rate pw_source pw_open].
  unfold not_superseded. destruct (String.eqb (ra_ID r) id) eqn:Hid, o, (String.eqb src source) eqn:Hs; cbn; rewrite ?Hid, ?Hs; done.
Qed.
Lemma ids_close id t n s : ids (mkPrices (close_row id (pt_rows t)) n s) = ids t.
Proof.
  unfold ids, close_row. cbn. rewrite map_map. apply map_ext. intros row. by destruct (String.eqb _ _ && _).
Qed.
Lemma close_nothing id rows : (forall row, row ∈ rows -> ra_ID (pw_rate row) <> id) -> close_row id rows = rows.
Proof.
  intros H. unfold close_row. rewrite <-(map_id rows) at 2. apply map_ext_in. intros row Hrow%list_elem_of_In.
  destruct (String.eqb_spec (ra_ID (pw_rate row)) id) as [He|]; [|done]. by apply H in He.
Qed.
Lemma open_in_ids source t r : r ∈ open_rows source (pt_rows t) -> ra_ID r ∈ ids t.
Proof.
  unfold open_rows, ids. intros (row & -> & [Hrow _]%in_filter)%list_elem_of_fmap. apply list_elem_of_fmap. by exists row.
Qed.
Lemma as_stored_key id r row : as_stored numeric id r = Some row -> rateKey row = rateKey r /\ ra_ID row = id.
Proof.
  unfold as_stored. destruct (numeric (ra_InputPer1M r)); [|done]. destruct (numeric (ra_OutputPer1M r)); [|done]. cbn.
  destruct (optional_numeric _ (ra_CacheReadPer1M r)); [|done]. destruct (optional_numeric _ (ra_CacheWritePer1M r)); [|done]. by intros [= <-].
Qed.
Lemma as_stored_quantized id r row : as_stored numeric id (quantizeRate r) = Some row ->
  row = mkRate id (ra_Provider r) (ra_Pattern r) (ra_Operator r) (quantize (ra_InputPer1M r)) (quantize (ra_OutputPer1M r))
    (quantizeOptional (ra_CacheReadPer1M r)) (quantizeOptional (ra_CacheWritePer1M r)) (ra_Preferred r).
Proof.
  assert (forall f g, optional_numeric numeric (quantizeOptional f) = Some g -> g = quantizeOptional f) as Ho.
  { intros [f|] g; cbn; [|congruence]. destruct (numeric (quantize f)) as [g'|] eqn:E; cbn; [|done].
    intros [= <-]. f_equal. by apply numeric_exact. }
  unfold as_stored, quantizeRate. cbn [ra_InputPer1M ra_OutputPer1M ra_CacheReadPer1M ra_CacheWritePer1M ra_Provider ra_Pattern ra_Operator ra_Preferred].
  destruct (numeric (quantize (ra_InputPer1M r))) as [i|] eqn:Ei; cbn [mbind option_bind]; [|done].
  destruct (numeric (quantize (ra_OutputPer1M r))) as [o|] eqn:Eo; cbn [mbind option_bind]; [|done].
  destruct (optional_numeric numeric (quantizeOptional (ra_CacheReadPer1M r))) as [cr|] eqn:Er; cbn [mbind option_bind]; [|done].
  destruct (optional_numeric numeric (quantizeOptional (ra_CacheWritePer1M r))) as [cw|] eqn:Ew; cbn [mbind option_bind]; [|done].
  intros [= <-]. apply numeric_exact in Ei, Eo. apply Ho in Er, Ew. by subst.
Qed.

(** One change that goes through. *)
Lemma change_applies source t c t' : table_sound source t -> apply_change numeric uuid source (Ok t) c = Ok t' ->
  exists row, as_stored numeric (uuid (pt_next t)) (ch_Rate c) = Some row /\
    open_rows source (pt_rows t') = (List.filter (not_superseded (ch_Supersedes c)) (open_rows source (pt_rows t)) ++ [row])%list /\
    pt_next t' = S (pt_next t) /\ pt_syncs t' = pt_syncs t /\
    (exists rows, pt_rows t' = (rows ++ [mkPriceRow source row true])%list /\ map pw_rate rows = map pw_rate (pt_rows t) /\ map pw_source rows = map pw_source (pt_rows t)) /\
    table_sound source t'.
Proof.
  intros [Hids Hsup Hkeys]. unfold apply_change. cbn [mbind res_bind].
  set (u := if negb _ then _ else t).
  assert (open_rows source (pt_rows u) = List.filter (not_superseded (ch_Supersedes c)) (open_rows source (pt_rows t)) /\ ids u = ids t /\
    pt_next u = pt_next t /\ pt_syncs u = pt_syncs t /\ map pw_rate (pt_rows u) = map pw_rate (pt_rows t) /\ map pw_source (pt_rows u) = map pw_source (pt_rows t)) as (Ho & Hi & Hn & Hsy & Hr & Hsrc).
  { subst u. destruct (String.eqb_spec (ch_Supersedes c) "") as [He|Hne]; cbn [negb pt_rows pt_next pt_syncs].
    - rewrite He. split_and!; try done. symmetry. rewrite <-open_rows_close, close_nothing; [done|].
      intros row Hrow Hid. destruct (Hsup "") as (i & _ & Hu); [|by apply (uuid_named i)]. rewrite <-Hid. apply list_elem_of_fmap. by exists row.
    - split_and!; [apply open_rows_close|apply ids_close|done|done|unfold close_row; rewrite map_map; apply map_ext; intros row; by destruct (_ && _)|].
      unfold close_row. rewrite map_map. apply map_ext. intros row. by destruct (_ && _). }
  clearbody u. unfold insert_row. rewrite Hn. destruct (as_stored numeric (uuid (pt_next t)) (ch_Rate c)) as [row|] eqn:Hrow; [|done].
  case_bool_decide as Hdup; [done|]. intros [= <-]. pose proof (as_stored_key _ _ _ Hrow) as [Hk Hid].
  exists row. cbn [pt_rows pt_next pt_syncs]. split_and!; [done| |done|done| |].
  - unfold open_rows at 1. rewrite List.filter_app, map_app. fold (open_rows source (pt_rows u)). rewrite Ho. cbn. by rewrite String.eqb_refl.
  - exists (pt_rows u). done.
  - assert (ids (mkPrices (pt_rows u ++ [mkPriceRow source row true]) (S (pt_next t)) (pt_syncs u)) = (ids t ++ [uuid (pt_next t)])%list) as Hids'
      by (rewrite <-Hi; unfold ids; cbn; by rewrite map_app, <-Hid).
    split; rewrite ?Hids'; cbn [pt_rows pt_next].
    + apply NoDup_app. split_and!; [done| |by apply NoDup_singleton]. intros id Hin Heq%list_elem_of_singleton. subst id.
      destruct (Hsup _ Hin) as (i & Hlt & Hu). apply uuid_inj in Hu. lia.
    + intros id [Hin|Heq%list_elem_of_singleton]%elem_of_app; [destruct (Hsup _ Hin) as (i & ? & ?); exists i; split; [lia|done]|exists (pt_next t); split; [lia|done]].
    + unfold open_rows at 1. rewrite List.filter_app, !map_app. cbn. rewrite String.eqb_refl. cbn. apply NoDup_app.
      fold (open_rows source (pt_rows u)). split_and!.
      * rewrite Ho. clear -Hkeys. induction (open_rows source (pt_rows t)) as [|r l IH]; cbn in *; [done|]. apply NoDup_cons in Hkeys as [Hr Hl].
        destruct (not_superseded _ r); cbn; [|by apply IH]. constructor; [|by apply IH]. intros (r' & Hr' & [Hin _]%in_filter)%list_elem_of_fmap.
        apply Hr. rewrite Hr'. apply list_elem_of_fmap. by exists r'.
      * intros k Hin Heq%list_elem_of_singleton. by subst k.
      * apply NoDup_singleton.
Qed.

Lemma apply_from_error source e changes : foldl (apply_change numeric uuid source) (Err e) changes = Err e.
Proof. by induction changes. Qed.

(** A list of changes that goes through: the open rows are the old ones that
    none of them supersedes, and then one row for each change. *)
Lemma changes_apply source changes t t' : table_sound source t ->
  (forall c i, c ∈ changes -> (pt_next t <= i)%nat -> ch_Supersedes c <> uuid i) ->
  foldl (apply_change numeric uuid source) (Ok t) changes = Ok t' ->
  table_sound source t' /\ pt_syncs t' = pt_syncs t /\
  map pw_rate (pt_rows t) `prefix_of` map pw_rate (pt_rows t') /\
  exists rows, Forall2 (fun c row => exists i, as_stored numeric (uuid i) (ch_Rate c) = Some row) changes rows /\
    open_rows source (pt_rows t') =
      (List.filter (fun r => negb (bool_decide (ra_ID r ∈ map ch_Supersedes changes))) (open_rows source (pt_rows t)) ++ rows)%list.
Proof.
  revert t. induction changes as [|c changes IH]; intros t Hs Hnew Hfold.
  { injection Hfold as <-. split_and!; [done..|]. exists []. split; [done|]. rewrite app_nil_r. cbn.
    induction (open_rows source (pt_rows t)) as [|r l IH]; cbn; [done|]. by rewrite <-IH. }
  cbn [foldl] in Hfold. destruct (apply_change numeric uuid source (Ok t) c) as [t1|e] eqn:H1; [|by rewrite apply_from_error in Hfold].
  destruct (change_applies source t c t1 Hs H1) as (row & Hrow & Ho & Hn & Hsy & (rows1 & Hr1 & Hr2 & _) & Hs1).
  destruct (IH t1 Hs1) as (Hs' & Hsy' & Hpre & rows & Hall & Hopen); [intros c' i Hc' Hi; apply Hnew; [by right|lia]|done|].
  split_and!; [done|congruence| |].
  - etransitivity; [|exact Hpre]. rewrite Hr1, map_app, Hr2. by exists [row].
  - exists (row :: rows). split; [constructor; [by eexists|done]|]. rewrite Hopen, Ho, List.filter_app. cbn [List.filter].
    rewrite bool_decide_eq_false_2; [|].
    2:{ pose proof (as_stored_key _ _ _ Hrow) as [_ ->]. intros (c' & Hc' & Hin)%list_elem_of_fmap. eapply (Hnew c'); [by right|done|by rewrite Hc']. }
    cbn [negb]. rewrite <-app_assoc. f_equal. clear. induction (open_rows source (pt_rows t)) as [|r l IH]; cbn [List.filter]; [done|].
    cbn [map]. destruct (String.eqb_spec (ra_ID r) (ch_Supersedes c)) as [Heq|Hne].
    + unfold not_superseded at 1. rewrite Heq, String.eqb_refl. cbn [negb]. rewrite bool_decide_eq_true_2 by by left. cbn [negb]. done.
    + unfold not_superseded at 1. rewrite (proj2 (String.eqb_neq _ _) Hne). cbn [negb List.filter].
      rewrite (bool_decide_ext (ra_ID r ∈ ch_Supersedes c :: map ch_Supersedes changes) (ra_ID r ∈ map ch_Supersedes changes)); [by rewrite IH|].
      rewrite elem_of_cons. naive_solver.
Qed.
(** ** One refresh *)
Lemma change_origin open F c : c ∈ Diff open F -> exists r, r ∈ F /\ ch_Rate c = quantizeRate r /\
  ((by_key open !! rateKey r = None /\ ch_Supersedes c = "") \/
   exists cur, by_key open !! rateKey r = Some cur /\ samePrice cur (quantizeRate r) = false /\ ch_Supersedes c = ra_ID cur).
Proof.
  unfold Diff. intros (r & Hr & Hc)%list_elem_of_omap. exists r. unfold change_of in Hc. change (rateKey (quantizeRate r)) with (rateKey r) in Hc.
  cbv zeta in Hc. destruct (by_key open !! rateKey r) as [cur|] eqn:Hk.
  - destruct (samePrice cur (quantizeRate r)) eqn:Hs; [done|]. injection Hc as <-. split_and!; [done..|]. right. by exists cur.
  - injection Hc as <-. split_and!; [done..|]. by left.
Qed.

Lemma open_same_id source t r1 r2 : table_sound source t -> r1 ∈ open_rows source (pt_rows t) -> r2 ∈ open_rows source (pt_rows t) ->
  ra_ID r1 = ra_ID r2 -> r1 = r2.
Proof.
  intros [Hids _ _]. unfold open_rows, ids in *. intros (row1 & -> & [H1 _]%in_filter)%list_elem_of_fmap (row2 & -> & [H2 _]%in_filter)%list_elem_of_fmap Heq.
  apply list_elem_of_lookup in H1 as [i Hi], H2 as [j Hj].
  assert (i = j) as ->; [|congruence]. eapply NoDup_lookup; [exact Hids|by rewrite list_lookup_fmap, Hi|rewrite list_lookup_fmap, Hj; cbn; congruence].
Qed.

Lemma superseded_open source t F r c : table_sound source t -> r ∈ open_rows source (pt_rows t) ->
  c ∈ Diff (open_rows source (pt_rows t)) F -> ch_Supersedes c = ra_ID r ->
  exists r', r' ∈ F /\ rateKey r' = rateKey r /\ samePrice r (quantizeRate r') = false.
Proof.
  intros Hs Hr (r' & Hr' & _ & [[_ He]|(cur & Hcur & Hsame & He)])%change_origin Hid.
  - exfalso. destruct (ts_supply _ _ Hs (ra_ID r)) as (i & _ & Hu); [by apply (open_in_ids source)|]. apply (uuid_named i). congruence.
  - apply by_key_some in Hcur as [Hin Hk]. assert (cur = r) as -> by (eapply open_same_id; [done..|congruence]). by exists r'.
Qed.

Lemma settled_after source F t t' rows : NoDup (map rateKey F) -> Forall numbers F -> table_sound source t -> table_sound source t' ->
  let open := open_rows source (pt_rows t) in let changes := Diff open F in
  Forall2 (fun c row => exists i, as_stored numeric (uuid i) (ch_Rate c) = Some row) changes rows ->
  open_rows source (pt_rows t') = (List.filter (fun r => negb (bool_decide (ra_ID r ∈ map ch_Supersedes changes))) open ++ rows)%list ->
  (forall r, r ∈ F -> exists r', r' ∈ open_rows source (pt_rows t') /\ rateKey r' = rateKey r /\ samePrice r' (quantizeRate r) = true) /\
  (forall r, r ∈ open -> rateKey r ∉ map rateKey F -> r ∈ open_rows source (pt_rows t')).
Proof.
  intros HF Hnum Hs Hs' open changes Hall Hopen.
  assert (forall r, r ∈ open -> (forall c, c ∈ changes -> ch_Supersedes c <> ra_ID r) -> r ∈ open_rows source (pt_rows t')) as Hstay.
  { intros r Hr Hno. rewrite Hopen. apply elem_of_app. left. apply in_filter. split; [done|]. apply negb_true_iff, bool_decide_eq_false.
    intros (c & Hc & Hin)%list_elem_of_fmap. by apply (Hno c). }
  assert (forall r, r ∈ F -> forall c, c ∈ changes -> ch_Rate c = quantizeRate r ->
    exists r', r' ∈ open_rows source (pt_rows t') /\ rateKey r' = rateKey r /\ samePrice r' (quantizeRate r) = true) as Hnew.
  { intros r Hr c Hc Hq. destruct (proj1 (list_elem_of_lookup _ _) Hc) as [i Hi]. destruct (Forall2_lookup_l _ _ _ _ _ Hall Hi) as (row & Hrow & j & Hst).
    rewrite Hq in Hst. exists row. split_and!.
    - rewrite Hopen. apply elem_of_app. right. by eapply list_elem_of_lookup_2.
    - by destruct (as_stored_key _ _ _ Hst).
    - apply as_stored_quantized in Hst as ->. apply same_price_quantized. by eapply Forall_forall in Hnum. }
  split.
  - intros r Hr. assert (change_of (by_key open) r = match by_key open !! rateKey r with None => Some (mkChange (quantizeRate r) "")
      | Some cur => if samePrice cur (quantizeRate r) then None else Some (mkChange (quantizeRate r) (ra_ID cur)) end) as Hch by done.
    destruct (change_of (by_key open) r) as [c|] eqn:Hc.
    { apply (Hnew r Hr c); [by apply list_elem_of_omap; exists r|]. destruct (by_key open !! rateKey r) as [cur|]; [destruct (samePrice _ _); [done|]|]; by injection Hch as ->. }
    destruct (by_key open !! rateKey r) as [cur|] eqn:Hk; [|done]. destruct (samePrice cur (quantizeRate r)) eqn:Hsame; [|done].
    apply by_key_some in Hk as [Hcur Hk]. exists cur. split_and!; [|done..]. apply Hstay; [done|]. intros c Hcin Hid.
    destruct (superseded_open source t F cur c Hs Hcur Hcin Hid) as (r' & Hr' & Hk' & Hdiff).
    assert (r' = r) as ->; [|congruence]. apply list_elem_of_lookup in Hr as [i Hi], Hr' as [j Hj].
    assert (i = j) as ->; [|congruence]. eapply NoDup_lookup; [exact HF|by rewrite list_lookup_fmap, Hi|by rewrite list_lookup_fmap, Hj; cbn; congruence].
  - intros r Hr Hno. apply Hstay; [done|]. intros c Hc Hid. destruct (superseded_open source t F r c Hs Hr Hc Hid) as (r' & Hr' & Hk & _).
    apply Hno. rewrite <-Hk. apply list_elem_of_fmap. by exists r'.
Qed.

Lemma diff_settled open F : NoDup (map rateKey open) ->
  (forall r, r ∈ F -> exists r', r' ∈ open /\ rateKey r' = rateKey r /\ samePrice r' (quantizeRate r) = true) -> Diff open F = [].
Proof.
  intros Hnd HF. unfold Diff. induction F as [|r F IH]; [done|]. cbn. unfold change_of at 1. change (rateKey (quantizeRate r)) with (rateKey r).
  destruct (HF r ltac:(left)) as (r' & Hin & Hk & Hsame). cbv zeta. rewrite <-Hk, (by_key_lookup _ _ Hnd Hin), Hsame. apply IH. intros x Hx. apply HF. by right.
Qed.

Lemma fetched_numbers rows : Forall (fun row => from_option is_nan false (cr_CacheReadPer1M row) = false /\ from_option is_nan false (cr_CacheWritePer1M row) = false) rows ->
  Forall numbers (fe_Rates (reduce rows)).
Proof.
  intros Hrows. apply Forall_forall. intros r Hr. destruct (reduce_spec rows) as (_ & Hin & _). apply Hin in Hr. clear Hin.
  pose proof (admitted_priceable _ _ Hr) as (_ & Hi & _ & Ho & _)%priceable_rate. unfold numbers. rewrite !nonneg_not_nan by done.
  apply in_filter in Hr as [Hr _]. apply list_elem_of_fmap in Hr as (r0 & -> & Hr). apply list_elem_of_fmap in Hr as (row & -> & Hr).
  rewrite Forall_forall in Hrows. by destruct (Hrows row Hr).
Qed.
End apply.

(** C12: a refresh of a rate card leaves one open row for each entry, keeps the
    history - rows are only added, none is ever rewritten - and puts the card it
    reads back in force.  When it succeeds, every published entry is open at its
    published price, the entries the feed no longer carries stay open, and there
    is nothing left for the same feed to change; when a write fails the table is
    as it was, and when the feed does, so is the card. *)
Theorem refresh_settles (numeric : f64 -> option f64) (uuid : nat -> string) source rows card t :
  (forall f g, numeric (quantize f) = Some g -> g = quantize f) ->
  (forall i j, uuid i = uuid j -> i = j) -> (forall i, uuid i <> "") ->
  Forall (fun row => from_option is_nan false (cr_CacheReadPer1M row) = false /\ from_option is_nan false (cr_CacheWritePer1M row) = false) rows ->
  table_sound uuid source t ->
  (exists sync card' t',
     @refresh _ (price_store numeric uuid) source (Ok (reduce rows)) (mkRefresher card t) = (mkRefresher card' t', Ok sync) /\
     card' = Some (NewTable (open_rows source (pt_rows t'))) /\ table_sound uuid source t' /\
     map pw_rate (pt_rows t) `prefix_of` map pw_rate (pt_rows t') /\
     match sy_Err sync with
     | Some _ => t' = t
     | None =>
         (forall r, r ∈ fe_Rates (reduce rows) -> exists r', r' ∈ open_rows source (pt_rows t') /\ rateKey r' = rateKey r /\ samePrice r' (quantizeRate r) = true) /\
         (forall r, r ∈ open_rows source (pt_rows t) -> rateKey r ∉ map rateKey (fe_Rates (reduce rows)) -> r ∈ open_rows source (pt_rows t')) /\
         Diff (open_rows source (pt_rows t')) (fe_Rates (reduce rows)) = []
     end) /\
  forall e, exists sync, @refresh _ (price_store numeric uuid) source (Err e) (mkRefresher card t) = (mkRefresher card t, Ok sync) /\ sy_Err sync = Some e.
Proof.
  intros Hex Hinj Hnamed Hrows Hs. split; [|intros e; by eexists]. set (F := fe_Rates (reduce rows)).
  pose proof (fetched_numbers rows Hrows) as Hnum. destruct (reduce_spec rows) as (HF & _). fold F in Hnum, HF.
  set (changes := Diff (open_rows source (pt_rows t)) F).
  destruct (table_Apply numeric uuid source changes t) as [t' out] eqn:Ha.
  eexists _, _, t'. split.
  { unfold refresh, attempt, on_prices, publish_card, mbind, SM_bind. cbn [fe_Rates pc_Current pc_Apply price_store table_Current rf_store rf_card mret SM_ret].
    cbv zeta. fold F. fold changes. rewrite Ha. reflexivity. }
  split; [done|]. cbn [sy_Err]. unfold table_Apply in Ha.
  assert ((t' = t /\ exists e, out = Err e) \/ (foldl (apply_change numeric uuid source) (Ok t) changes = Ok t' /\ out = Ok tt)) as [[-> [e ->]]|[Hfold ->]].
  { destruct changes as [|c cs]; [right; by injection Ha as <- <-|]. destruct (foldl _ _ _) as [t2|e]; injection Ha as <- <-; eauto. }
  { split_and!; [done..|done]. }
  destruct (changes_apply numeric uuid Hinj Hnamed source changes t t' Hs) as (Hs' & _ & Hpre & new & Hall & Hopen); [|done|].
  { intros c i Hc Hi Hsup. apply change_origin in Hc as (r & _ & _ & [[_ He]|(cur & Hcur & _ & He)]); [by apply (Hnamed i); congruence|].
    apply by_key_some in Hcur as [Hcur _]. destruct (ts_supply _ _ _ Hs (ra_ID cur)) as (j & Hj & Hu); [by apply (open_in_ids source)|].
    assert (i = j) by (apply Hinj; congruence). lia. }
  destruct (settled_after numeric uuid Hex Hnamed source F t t' new HF Hnum Hs Hs' Hall Hopen) as [H1 H2].
  split_and!; [done..|]. apply diff_settled; [apply (ts_keys _ _ _ Hs')|done].
Qed.

Definition row_id (n : nat) : string := "row " ++ itoa (Z.of_nat n).
Definition empty_prices : PriceTable := mkPrices [] 0 [].
Lemma refresh_settles_witness :
  exists sync t', @refresh _ (price_store Some row_id) "helicone" (Ok (reduce [twin 1; twin 2])) (mkRefresher None empty_prices) =
    (mkRefresher (Some (NewTable (open_rows "helicone" (pt_rows t')))) t', Ok sync) /\ sy_Added sync = 1 /\
    List.length (open_rows "helicone" (pt_rows t')) = 1%nat.
Proof.
  destruct (refresh_settles Some row_id "helicone" [twin 1; twin 2] None empty_prices) as [(sync & card & t' & Hrun & -> & _) _].
  - by intros f g [= <-].
  - unfold row_id, itoa. intros i j H. injection H as H. rewrite !nil_app in H. apply Nat2Z.inj. by apply (inj (pretty (A := Z))) in H.
  - done.
  - repeat constructor.
  - split; [constructor|by intros id ?%elem_of_nil|constructor].
  - exists sync, t'. split; [exact Hrun|].
    pose proof (f_equal (fun x => match x.2 with Ok s => sy_Added s | Err _ => 0 end) Hrun) as H1.
    pose proof (f_equal (fun x => List.length (open_rows "helicone" (pt_rows (rf_store x.1)))) Hrun) as H2.
    cbn [fst snd rf_store] in H1, H2. rewrite <-H1, <-H2. split; vm_compute; reflexivity.
Defined.
