(* ===== verification/Trace.v ===== *)
(** The trace records the observability service stores: [internal/ingest/trace.go]
    and [log.go].

    A [json.RawMessage] is a string, the empty one when there is none.  What the
    JSON library makes of a text is a class: a theorem holds for any of its
    instances. *)
From S2P Require Import Prelude GoStr F64 GoTime Cost.
From Stdlib Require Import String Ascii.
#[local] Open Scope string_scope.
#[local] Open Scope Z_scope.

Definition KindFlowStarted : string := "flow.started".
Definition KindFlowCompleted : string := "flow.completed".
Definition KindFlowDropped : string := "flow.dropped".
Definition KindFlowFailed : string := "flow.failed".
Definition KindBlockPreInvoke : string := "block.pre-invoke".
Definition KindBlockPostInvoke : string := "block.post-invoke".
Definition KindLLMTurn : string := "llm.turn".
Definition KindLLMEmbed : string := "llm.embed".
Definition KindTraceDropped : string := "trace.dropped".

Record TraceRecord : Type := mkTraceRecord {
  tr_DeploymentID : string;
  tr_AppName : string;
  tr_AppVersion : string;
  tr_TraceID : string;
  tr_Seq : Z;
  tr_Kind : string;
  tr_EventID : string;
  tr_CorrelationID : string;
  tr_Flow : string;
  tr_Path : string;
  tr_BlockType : string;
  tr_Time : Z;
  tr_DurationNs : Z;
  tr_Err : string;
  tr_Dropped : bool;
  tr_Truncated : bool;
  tr_Body : string;
  tr_Vars : string;
  tr_Attrs : string;
  tr_Model : string;
  tr_Provider : string;
  tr_Usage : option Usage
}.

Record TraceRow : Type := mkTraceRow { tw_Record : TraceRecord; tw_IntegrationID : string; tw_Priced : Priced }.

(** The zero value of [cost.Priced]. *)
Definition zeroPriced : Priced := unpriced "".

Definition is_model_call (kind : string) : bool := String.eqb kind KindLLMTurn || String.eqb kind KindLLMEmbed.
Definition ModelCall (r : TraceRecord) : cost_Call * bool :=
  if String.eqb (tr_Kind r) KindLLMTurn then (mkCall (tr_Model r) (tr_Provider r) (tr_Usage r) false, true)
  else if String.eqb (tr_Kind r) KindLLMEmbed then (mkCall (tr_Model r) (tr_Provider r) (tr_Usage r) true, true)
  else (mkCall "" "" None false, false).

(** ** What the JSON library does with a text

    [raw_object] is [json.Unmarshal] into a [map[string]json.RawMessage], [null]
    giving a map of nothing; [raw_string] is the same into a [string], which
    [null] leaves empty; [raw_usage] into [usageWire].  [text_string] and
    [text_object] are [json.Marshal]; [range_keys] is the order in which [range]
    visits a map. *)
Class RawJSON : Type := {
  raw_object : string -> option (gmap string string);
  raw_string : string -> option string;
  raw_usage : string -> option Usage;
  text_string : string -> option string;
  text_object : gmap string string -> option string;
  range_keys : gmap string string -> list string }.

(** ** Decoding a record *)
Definition attrModel : string := "model".
Definition attrProvider : string := "provider".
Definition attrUsage : string := "usage".

Record traceWire : Type := mkWire {
  wi_Seq : Z;  (* a uint64 *)
  wi_Kind : string;
  wi_TraceID : string;
  wi_EventID : string;
  wi_CorrelationID : string;
  wi_Flow : string;
  wi_Path : string;
  wi_BlockType : string;
  wi_OccurredAt : Z;
  wi_DurationNs : Z;
  wi_Err : string;
  wi_Dropped : bool;
  wi_Body : string;
  wi_Vars : string;
  wi_Truncated : bool;
  wi_Attrs : string;
  wi_DeploymentID : string;
  wi_AppName : string;
  wi_AppVersion : string
}.

Definition clampSeq (seq : Z) : Z := if int64_max <? seq then int64_max else seq.

Section records.
Context {RJ : RawJSON}.

Definition parseModelCall (attrs : string) : string * string * option Usage :=
  if String.eqb attrs "" then ("", "", None)
  else match raw_object attrs with
       | None => ("", "", None)
       | Some fields =>
           let text name := match fields !! name with Some raw => default "" (raw_string raw) | None => "" end in
           (text attrModel, text attrProvider, fields !! attrUsage ≫= raw_usage)
       end.

(** [now] is what [time.Now] returns, for a record without a time of its own. *)
Definition parseTraceRecord (now : Z) (data : res traceWire) : res TraceRecord :=
  match data with
  | Err e => Err (ErrWrap "ingest: decode trace record: " e "")
  | Ok wire =>
      if String.eqb (wi_DeploymentID wire) "" then Err (ErrMsg "ingest: trace record has no deploymentId")
      else if String.eqb (wi_Kind wire) "" then Err (ErrMsg "ingest: trace record has no kind")
      else
        let at_ := if IsZero (wi_OccurredAt wire) then now else wi_OccurredAt wire in
        let '(model, provider, usage) := if is_model_call (wi_Kind wire) then parseModelCall (wi_Attrs wire) else ("", "", None) in
        Ok (mkTraceRecord (wi_DeploymentID wire) (wi_AppName wire) (wi_AppVersion wire) (wi_TraceID wire) (clampSeq (wi_Seq wire))
              (wi_Kind wire) (wi_EventID wire) (wi_CorrelationID wire) (wi_Flow wire) (wi_Path wire) (wi_BlockType wire)
              at_ (wi_DurationNs wire) (wi_Err wire) (wi_Dropped wire) (wi_Truncated wire) (wi_Body wire) (wi_Vars wire) (wi_Attrs wire)
              model provider usage)
  end.

(** ** log.go *)
Record LogEvent : Type := mkLogEvent {
  le_DeploymentID : string; le_AppName : string; le_AppVersion : string; le_Time : Z; le_Level : string; le_Message : string; le_Attrs : string }.

Definition takeString (fields : gmap string string) (key : string) : gmap string string * string :=
  match fields !! key with
  | None => (fields, "")
  | Some raw => (delete key fields, default "" (raw_string raw))
  end.

(** [parse_time] is [time.Parse(time.RFC3339Nano, _)]. *)
Definition parseLogEvent (parse_time : string -> res Z) (now : Z) (data : string) : res LogEvent :=
  match raw_object data with
  | None => Err (ErrMsg "ingest: decode record")
  | Some fields =>
      let '(fields, deploymentID) := takeString fields "deploymentId" in
      if String.eqb deploymentID "" then Err (ErrMsg "ingest: record has no deploymentId")
      else
        let '(fields, appName) := takeString fields "appName" in
        let '(fields, appVersion) := takeString fields "appVersion" in
        let '(fields, level) := takeString fields "level" in
        let '(fields, message) := takeString fields "msg" in
        let '(fields, ts) := takeString fields "time" in
        at_ ← (if String.eqb ts "" then Ok now
               else match parse_time ts with
                    | Ok t => Ok t
                    | Err e => Err (ErrWrap ("ingest: parse time " ++ quote ts ++ ": ") e "")
                    end);
        match text_object fields with
        | None => Err (ErrMsg "ingest: re-encode attrs")
        | Some attrs => Ok (mkLogEvent deploymentID appName appVersion at_ level message attrs)
        end
  end.

(** Every attribute of a record that is not one of its own fields is kept. *)
Definition log_fields : list string := ["deploymentId"; "appName"; "appVersion"; "level"; "msg"; "time"].
Lemma take_string_rest fields key k : k <> key -> (takeString fields key).1 !! k = fields !! k.
Proof. intros H. unfold takeString. destruct (fields !! key); cbn; [|done]. by rewrite lookup_delete_ne. Qed.
Lemma take_string_taken fields key : (takeString fields key).1 !! key = None.
Proof. unfold takeString. destruct (fields !! key) eqn:E; cbn; [|done]. by rewrite lookup_delete_eq. Qed.

Lemma log_keeps_attributes parse_time now data fields e :
  raw_object data = Some fields -> parseLogEvent parse_time now data = Ok e ->
  exists rest, text_object rest = Some (le_Attrs e) /\ forall k, rest !! k = if decide (k ∈ log_fields) then None else fields !! k.
Proof.
  intros Hf. unfold parseLogEvent. rewrite Hf.
  pose proof (take_string_taken fields "deploymentId") as T1. pose proof (take_string_rest fields "deploymentId") as R1.
  destruct (takeString fields "deploymentId") as [f1 s1]. destruct (String.eqb s1 ""); [done|].
  pose proof (take_string_taken f1 "appName") as T2. pose proof (take_string_rest f1 "appName") as R2. destruct (takeString f1 "appName") as [f2 s2].
  pose proof (take_string_taken f2 "appVersion") as T3. pose proof (take_string_rest f2 "appVersion") as R3. destruct (takeString f2 "appVersion") as [f3 s3].
  pose proof (take_string_taken f3 "level") as T4. pose proof (take_string_rest f3 "level") as R4. destruct (takeString f3 "level") as [f4 s4].
  pose proof (take_string_taken f4 "msg") as T5. pose proof (take_string_rest f4 "msg") as R5. destruct (takeString f4 "msg") as [f5 s5].
  pose proof (take_string_taken f5 "time") as T6. pose proof (take_string_rest f5 "time") as R6. destruct (takeString f5 "time") as [f6 s6].
  cbn in *. destruct (if String.eqb s6 "" then _ else _) as [t|err]; cbn [mbind res_bind]; [|done].
  destruct (text_object f6) as [attrs|] eqn:Ha; [|done]. intros [= <-]. exists f6. split; [done|]. intros k.
  destruct (decide (k = "time")) as [->|N6]; [by rewrite T6, decide_True by set_solver|]. rewrite R6 by done.
  destruct (decide (k = "msg")) as [->|N5]; [by rewrite T5, decide_True by set_solver|]. rewrite R5 by done.
  destruct (decide (k = "level")) as [->|N4]; [by rewrite T4, decide_True by set_solver|]. rewrite R4 by done.
  destruct (decide (k = "appVersion")) as [->|N3]; [by rewrite T3, decide_True by set_solver|]. rewrite R3 by done.
  destruct (decide (k = "appName")) as [->|N2]; [by rewrite T2, decide_True by set_solver|]. rewrite R2 by done.
  destruct (decide (k = "deploymentId")) as [->|N1]; [by rewrite T1, decide_True by set_solver|]. rewrite R1 by done.
  rewrite decide_False; [done|]. unfold log_fields. rewrite !elem_of_cons, elem_of_nil. tauto.
Qed.
End records.
