(* ===== verification/Fold.v ===== *)
(** [internal/fold/fold.go] of the observability service: the arithmetic of a run
    of near-identical records, and the one record that stands for it. *)
From S2P Require Import Prelude Order GoStr F64 GoTime Cost Trace.
From stdpp Require Import sorting.
From Stdlib Require Import String Ascii.
#[local] Open Scope string_scope.
#[local] Open Scope Z_scope.

Definition AttrFolded : string := "folded".
Definition BodiesFirst : string := "first".

Record RunKey : Type := mkKey { ky_TraceID : string; ky_Kind : string; ky_Path : string; ky_BlockType : string }.
Definition KeyOf (r : TraceRow) : RunKey :=
  mkKey (tr_TraceID (tw_Record r)) (tr_Kind (tw_Record r)) (tr_Path (tw_Record r)) (tr_BlockType (tw_Record r)).
Definition Key_String (k : RunKey) : string := ky_TraceID k ++ "|" ++ ky_Kind k ++ "|" ++ ky_Path k ++ "|" ++ ky_BlockType k.

Record Open : Type := mkOpen {
  op_Key : RunKey;
  op_First : TraceRow;
  op_Count : Z;
  op_LastSeq : Z;
  op_LastEnd : Z;
  op_Shape : string;
  op_Chunks : gmap Z string;
  op_Bytes : Z;
  op_Truncated : bool;
  op_Mergeable : bool;
  op_Err : string;
  op_Dropped : bool
}.

Definition mergeFields : list string := ["text"; "delta"; "content"; "chunk"].

(** A record with what [Close] writes into it. *)
Definition closed_record (r : TraceRecord) (at_ duration : Z) (err : string) (dropped truncated : bool) (body attrs : string) : TraceRecord :=
  mkTraceRecord (tr_DeploymentID r) (tr_AppName r) (tr_AppVersion r) (tr_TraceID r) (tr_Seq r) (tr_Kind r) (tr_EventID r) (tr_CorrelationID r)
    (tr_Flow r) (tr_Path r) (tr_BlockType r) at_ duration err dropped truncated body (tr_Vars r) attrs (tr_Model r) (tr_Provider r) (tr_Usage r).

Section fold.
Context {RJ : RawJSON}.

(** The loop of [split] over the keys in order. *)
Definition split_field (fields : gmap string string) (acc : string * string * bool) (k : string) : string * string * bool :=
  let '(shape, text, mergeable) := acc in
  let raw := default "" (fields !! k) in
  match (if bool_decide (k ∈ mergeFields) then raw_string raw else None) with
  | Some s => (shape, s, true)
  | None => (shape ++ k ++ "=" ++ raw ++ ";", text, mergeable)
  end.
Definition sorted_keys (fields : gmap string string) : list string := sort_strings (map fst (map_to_list fields)).
Definition split_body (body : string) : string * string * bool :=
  if String.eqb body "" then ("", "", false)
  else match raw_object body with
       | None => ("", "", false)
       | Some fields => foldl (split_field fields) ("", "", false) (sorted_keys fields)
       end.

(** The run's text goes into the first payload field that [range] comes to. *)
Definition is_payload (fields : gmap string string) (k : string) : bool :=
  bool_decide (k ∈ mergeFields) && match fields !! k ≫= raw_string with Some _ => true | None => false end.
Definition merged (body text : string) : string :=
  match raw_object body with
  | None => body
  | Some fields =>
      match text_string text with
      | None => body
      | Some encoded =>
          let fields := match List.find (is_payload fields) (range_keys fields) with
                        | Some k => <[k := encoded]> fields
                        | None => fields
                        end in
          default body (text_object fields)
      end
  end.

Definition withFolded (attrs : string) (count firstSeq lastSeq : Z) (mergeable : bool) : string :=
  let fields := if String.eqb attrs "" then ∅ else default ∅ (raw_object attrs) in
  let folded := <["count" := itoa count]> (<["firstSeq" := itoa firstSeq]> (<["lastSeq" := itoa lastSeq]> ∅)) in
  match (if mergeable then Some folded else (fun raw => <["bodies" := raw]> folded) <$> text_string BodiesFirst) ≫= text_object with
  | None => attrs
  | Some encoded => default attrs (text_object (<[AttrFolded := encoded]> fields))
  end.

Definition Start (r : TraceRow) : Open :=
  let '(shape, text, mergeable) := split_body (tr_Body (tw_Record r)) in
  let rec := tw_Record r in
  mkOpen (KeyOf r) r 1 (tr_Seq rec) (tr_Time rec) shape (if mergeable then {[ tr_Seq rec := text ]} else ∅)
    (if mergeable then Z.of_nat (String.length text) else 0) false mergeable (tr_Err rec) (tr_Dropped rec || tr_Truncated rec).

Definition SameShape (o : Open) (r : TraceRow) : bool :=
  let '(shape, _, _) := split_body (tr_Body (tw_Record r)) in String.eqb shape (op_Shape o).

Definition with_chunks (chunks : gmap Z string) (bytes : Z) (truncated : bool) (o : Open) : Open :=
  mkOpen (op_Key o) (op_First o) (op_Count o) (op_LastSeq o) (op_LastEnd o) (op_Shape o) chunks bytes truncated (op_Mergeable o) (op_Err o) (op_Dropped o).

Definition Absorb (o : Open) (r : TraceRow) (maxBytes : Z) : Open :=
  let rec := tw_Record r in
  let o := mkOpen (op_Key o) (op_First o) (op_Count o + 1)
             (if op_LastSeq o <? tr_Seq rec then tr_Seq rec else op_LastSeq o)
             (if op_LastEnd o <? tr_Time rec then tr_Time rec else op_LastEnd o)
             (op_Shape o) (op_Chunks o) (op_Bytes o) (op_Truncated o) (op_Mergeable o)
             (if String.eqb (op_Err o) "" then tr_Err rec else op_Err o)
             (op_Dropped o || tr_Dropped rec || tr_Truncated rec) in
  if negb (op_Mergeable o) then o
  else
    let '(_, text, _) := split_body (tr_Body rec) in
    if String.eqb text "" then o
    else if maxBytes <? op_Bytes o + Z.of_nat (String.length text) then with_chunks (op_Chunks o) (op_Bytes o) true o
    else with_chunks (<[tr_Seq rec := text]> (op_Chunks o)) (op_Bytes o + Z.of_nat (String.length text)) (op_Truncated o) o.

(** [join]: the chunks in the order of their numbers. *)
Definition chunk_before (a b : Z * string) : bool := a.1 <? b.1.
Definition join_chunks (chunks : gmap Z string) : string :=
  foldr (fun c rest => c.2 ++ rest) "" (sort_by chunk_before (map_to_list chunks)).

Definition Close (o : Open) (min : Z) : TraceRow * bool :=
  if op_Count o <? min then (op_First o, false)
  else
    let first := tw_Record (op_First o) in
    let began := tr_Time first + wrap64 (- tr_DurationNs first) in
    let duration := if began <? op_LastEnd o then Sub (op_LastEnd o) began else tr_DurationNs first in
    let body := if op_Mergeable o then merged (tr_Body first) (join_chunks (op_Chunks o)) else tr_Body first in
    let attrs := withFolded (tr_Attrs first) (op_Count o) (tr_Seq first) (op_LastSeq o) (op_Mergeable o) in
    (mkTraceRow (closed_record first (op_LastEnd o) duration (op_Err o) (op_Dropped o) (op_Truncated o || tr_Truncated first) body attrs)
       (tw_IntegrationID (op_First o)) (tw_Priced (op_First o)), true).

(** A whole run. *)
Definition run_of (r : TraceRow) (rs : list TraceRow) (maxBytes : Z) : Open := foldl (fun o r => Absorb o r maxBytes) (Start r) rs.
End fold.

(** ** Joining chunks *)
Definition join_list (l : list (Z * string)) : string := foldr (fun c rest => c.2 ++ rest) "" l.

Lemma chunk_order : weak_order (fun _ => True) chunk_before.
Proof. by apply (by_key_order _ (fun _ => True) fst Z.ltb), Z_order. Qed.
Lemma chunk_tie (l : list (Z * string)) a b : NoDup (map fst l) -> a ∈ l -> b ∈ l ->
  not_after chunk_before a b -> not_after chunk_before b a -> a = b.
Proof.
  unfold not_after, chunk_before. rewrite !Z.ltb_ge. intros Hnd Ha Hb H1 H2.
  apply list_elem_of_lookup in Ha as [i Hi], Hb as [j Hj]. assert (i = j) as ->; [|congruence].
  eapply NoDup_lookup; [exact Hnd|by rewrite list_lookup_fmap, Hi|rewrite list_lookup_fmap, Hj; cbn; f_equal; lia].
Qed.
Lemma sort_chunks_agree (l l' : list (Z * string)) : NoDup (map fst l) -> l ≡ₚ l' -> sort_by chunk_before l = sort_by chunk_before l'.
Proof.
  intros Hnd Hp. apply (sort_by_agree (fun _ => True)); [apply chunk_order|by apply Forall_forall|done|].
  intros a b Ha Hb. by apply (chunk_tie l).
Qed.

(** Chunks without text read the same left out. *)
Definition loud (c : Z * string) : bool := negb (String.eqb c.2 "").
Lemma join_loud (l : list (Z * string)) : join_list (List.filter loud l) = join_list l.
Proof.
  induction l as [|[s text] l IH]; [done|]. cbn [List.filter]. unfold loud at 1. cbn [snd].
  destruct (String.eqb_spec text "") as [->|]; cbn; [exact IH|f_equal; exact IH].
Qed.
Lemma filter_sorted {A} (R : A -> A -> Prop) (f : A -> bool) l : StronglySorted R l -> StronglySorted R (List.filter f l).
Proof.
  induction 1 as [|x l Hs IH Hx]; cbn; [constructor|]. destruct (f x); [|done]. constructor; [done|].
  rewrite Forall_forall in Hx |- *. intros y Hy. apply Hx. rewrite list_elem_of_In, filter_In in Hy. rewrite list_elem_of_In. tauto.
Qed.
Lemma filter_perm {A} (f : A -> bool) l l' : l ≡ₚ l' -> List.filter f l ≡ₚ List.filter f l'.
Proof.
  induction 1 as [|x l l' _ IH|x y l|l l1 l' _ IH1 _ IH2]; cbn; [done| | |by rewrite IH1]; [destruct (f x); by rewrite IH|].
  destruct (f x), (f y); [apply Permutation_swap|done..].
Qed.
Lemma sort_filter (f : Z * string -> bool) (l : list (Z * string)) : NoDup (map fst l) ->
  List.filter f (sort_by chunk_before l) = sort_by chunk_before (List.filter f l).
Proof.
  intros Hnd. assert (forall l, StronglySorted (not_after chunk_before) (sort_by chunk_before l)) as Hs
    by (intros l'; apply (sort_by_sorted (fun _ => True)); [apply chunk_order|by apply Forall_forall]).
  apply (StronglySorted_unique_strong (not_after chunk_before)).
  - intros a b Ha Hb. assert (a ∈ l /\ b ∈ l) as [Hal Hbl].
    { rewrite list_elem_of_In, filter_In, <-list_elem_of_In, sort_by_perm in Ha. rewrite sort_by_perm, list_elem_of_In, filter_In, <-list_elem_of_In in Hb. tauto. }
    by apply (chunk_tie l).
  - apply filter_sorted, Hs.
  - apply Hs.
  - etransitivity; [apply filter_perm, sort_by_perm|symmetry; apply sort_by_perm].
Qed.
Lemma join_by_loud (m : gmap Z string) (l : list (Z * string)) : NoDup (map fst l) ->
  List.filter loud (map_to_list m) ≡ₚ List.filter loud l -> join_chunks m = join_list (sort_by chunk_before l).
Proof.
  intros Hnd Hp. change (join_chunks m) with (join_list (sort_by chunk_before (map_to_list m))).
  rewrite <-join_loud, <-(join_loud (sort_by chunk_before l)), !sort_filter; [|done|apply NoDup_fst_map_to_list].
  f_equal. apply sort_chunks_agree; [|done]. pose proof (NoDup_fst_map_to_list m) as Hm.
  clear -Hm. change (NoDup (map fst (map_to_list m))) in Hm. induction (map_to_list m) as [|c l IH]; cbn in *; [done|].
  apply NoDup_cons in Hm as [Hc Hm]. destruct (loud c); cbn; [|by apply IH]. apply NoDup_cons. split; [|by apply IH].
  intros (c' & Hc' & Hin)%list_elem_of_fmap. rewrite list_elem_of_In, filter_In, <-list_elem_of_In in Hin. apply Hc. rewrite Hc'.
  apply list_elem_of_fmap. exists c'. tauto.
Qed.

(** ** The fields of a run *)
Section runs.
Context {RJ : RawJSON}.
Definition seq_of (r : TraceRow) : Z := tr_Seq (tw_Record r).
Definition time_of (r : TraceRow) : Z := tr_Time (tw_Record r).
Definition shape_of (r : TraceRow) : string := (split_body (tr_Body (tw_Record r))).1.1.
Definition payload_of (r : TraceRow) : string := (split_body (tr_Body (tw_Record r))).1.2.
Definition mergeable_of (r : TraceRow) : bool := (split_body (tr_Body (tw_Record r))).2.
Definition lossy (r : TraceRow) : bool := tr_Dropped (tw_Record r) || tr_Truncated (tw_Record r).
Definition text_size (rs : list TraceRow) : Z := foldr (fun r n => Z.of_nat (String.length (payload_of r)) + n) 0 rs.
Definition first_error (rs : list TraceRow) : string :=
  default "" (List.find (fun e => negb (String.eqb e "")) (map (fun r => tr_Err (tw_Record r)) rs)).

Lemma start_fields r : Start r =
  mkOpen (KeyOf r) r 1 (seq_of r) (time_of r) (shape_of r) (if mergeable_of r then {[ seq_of r := payload_of r ]} else ∅)
    (if mergeable_of r then Z.of_nat (String.length (payload_of r)) else 0) false (mergeable_of r) (tr_Err (tw_Record r)) (lossy r).
Proof. unfold Start, shape_of, payload_of, mergeable_of. by destruct (split_body _) as [[shape text] mergeable]. Qed.
Lemma same_shape_is o r : SameShape o r = String.eqb (shape_of r) (op_Shape o).
Proof. unfold SameShape, shape_of. by destruct (split_body _) as [[shape text] mergeable]. Qed.

Lemma absorb_fields o r maxBytes : let o' := Absorb o r maxBytes in
  op_Key o' = op_Key o /\ op_First o' = op_First o /\ op_Count o' = op_Count o + 1 /\ op_LastSeq o' = Z.max (op_LastSeq o) (seq_of r) /\
  op_LastEnd o' = Z.max (op_LastEnd o) (time_of r) /\ op_Shape o' = op_Shape o /\ op_Mergeable o' = op_Mergeable o /\
  op_Err o' = (if String.eqb (op_Err o) "" then tr_Err (tw_Record r) else op_Err o) /\ op_Dropped o' = op_Dropped o || lossy r /\
  (op_Chunks o', op_Bytes o', op_Truncated o') =
    if negb (op_Mergeable o) || String.eqb (payload_of r) "" then (op_Chunks o, op_Bytes o, op_Truncated o)
    else if maxBytes <? op_Bytes o + Z.of_nat (String.length (payload_of r)) then (op_Chunks o, op_Bytes o, true)
    else (<[seq_of r := payload_of r]> (op_Chunks o), op_Bytes o + Z.of_nat (String.length (payload_of r)), op_Truncated o).
Proof.
  unfold Absorb, lossy, seq_of, time_of, payload_of. destruct (split_body _) as [[shape text] m]. cbn.
  assert (forall a b : Z, (if a <? b then b else a) = Z.max a b) as Hmax by (intros a b; destruct (Z.ltb_spec a b); lia).
  destruct (op_Mergeable o); cbn; [destruct (String.eqb text ""); [|destruct (maxBytes <? _)]|]; cbn; rewrite !Hmax, ?orb_assoc; by split_and!.
Qed.

Lemma find_app {A} (f : A -> bool) l l' : List.find f (l ++ l') = match List.find f l with Some x => Some x | None => List.find f l' end.
Proof. induction l as [|x l IH]; cbn; [done|]. by destruct (f x). Qed.
Lemma first_error_snoc rs x :
  first_error (rs ++ [x]) = if String.eqb (first_error rs) "" then tr_Err (tw_Record x) else first_error rs.
Proof.
  unfold first_error. rewrite map_app, find_app.
  destruct (List.find (fun e => negb (String.eqb e "")) (map (fun r => tr_Err (tw_Record r)) rs)) as [e|] eqn:Hfind; cbn.
  - apply find_some in Hfind as [_ Hne]. apply negb_true_iff in Hne. by rewrite Hne.
  - by destruct (String.eqb_spec (tr_Err (tw_Record x)) "") as [->|].
Qed.
Lemma text_size_app rs rs' : text_size (rs ++ rs') = text_size rs + text_size rs'.
Proof. induction rs as [|r rs IH]; cbn [text_size app foldr]; [done|]. fold (text_size (rs ++ rs')) (text_size rs). lia. Qed.
Lemma text_size_nonneg rs : 0 <= text_size rs.
Proof. induction rs as [|r rs IH]; cbn; [done|]. fold (text_size rs). lia. Qed.

(** A run whose text fits: every field in terms of its records. *)
Lemma run_fields r rs maxBytes : NoDup (map seq_of (r :: rs)) -> text_size (r :: rs) <= maxBytes ->
  let o := run_of r rs maxBytes in
  op_Key o = KeyOf r /\ op_First o = r /\ op_Count o = 1 + Z.of_nat (List.length rs) /\
  op_LastSeq o = foldr Z.max (seq_of r) (map seq_of rs) /\ op_LastEnd o = foldr Z.max (time_of r) (map time_of rs) /\
  op_Shape o = shape_of r /\ op_Mergeable o = mergeable_of r /\ op_Err o = first_error (r :: rs) /\
  op_Dropped o = existsb lossy (r :: rs) /\ op_Truncated o = false /\ op_Bytes o = (if mergeable_of r then text_size (r :: rs) else 0) /\
  (forall s, s ∉ map seq_of (r :: rs) -> op_Chunks o !! s = None) /\
  (mergeable_of r = true -> List.filter loud (map_to_list (op_Chunks o)) ≡ₚ List.filter loud (map (fun x => (seq_of x, payload_of x)) (r :: rs))).
Proof.
  unfold run_of. induction rs as [|x rs IH] using rev_ind; intros Hnd Hsize.
  { rewrite start_fields. cbn. fold (text_size []). destruct (mergeable_of r); split_and!; try done; try (cbn; lia).
    all: try by (unfold first_error; cbn; destruct (String.eqb_spec (tr_Err (tw_Record r)) "") as [->|]).
    all: try by rewrite orb_false_r.
    - intros s Hs. rewrite lookup_singleton_ne; [done|set_solver].
    - intros _. by rewrite map_to_list_singleton. }
  rewrite foldl_app. cbn [foldl]. set (o := foldl _ (Start r) rs) in *.
  assert (NoDup (map seq_of (r :: rs)) /\ seq_of x ∉ map seq_of (r :: rs)) as [Hnd1 Hx].
  { revert Hnd. change (r :: rs ++ [x]) with ((r :: rs) ++ [x])%list. rewrite map_app. intros (H1 & H2 & _)%NoDup_app. split; [done|].
    intros Hin. eapply H2; [done|by left]. }
  change (r :: rs ++ [x]) with ((r :: rs) ++ [x])%list in Hsize |- *. rewrite text_size_app in Hsize |- *.
  assert (text_size [x] = Z.of_nat (String.length (payload_of x))) as Hone by (cbn; lia). rewrite Hone in Hsize |- *.
  destruct IH as (Hk & Hf & Hc & Hls & Hle & Hsh & Hm & He & Hd & Ht & Hb & Hch & Hj); [done|lia|].
  destruct (absorb_fields o x maxBytes) as (Ak & Af & Ac & Als & Ale & Ash & Am & Ae & Ad & At).
  rewrite Ak, Af, Ac, Als, Ale, Ash, Am, Ae, Ad, Hk, Hf, Hc, Hls, Hle, Hsh, Hm, He, Hd. rewrite Hm, Hb, Ht in At.
  assert (forall (a : Z) l b, foldr Z.max a (l ++ [b])%list = Z.max (foldr Z.max a l) b) as Hmax by (intros a l b; induction l as [|y l IHl]; cbn; lia).
  assert (mergeable_of r = true -> payload_of x <> "" -> op_Bytes (Absorb o x maxBytes) = text_size (r :: rs) + Z.of_nat (String.length (payload_of x)) /\
    op_Truncated (Absorb o x maxBytes) = false /\ op_Chunks (Absorb o x maxBytes) = <[seq_of x := payload_of x]> (op_Chunks o)) as Hloud.
  { intros Hmr Hne. rewrite Hmr in At. rewrite (proj2 (String.eqb_neq _ _) Hne) in At. cbn [negb orb] in At.
    destruct (Z.ltb_spec maxBytes (text_size (r :: rs) + Z.of_nat (String.length (payload_of x)))); [lia|]. by injection At. }
  assert (mergeable_of r = false \/ payload_of x = "" -> op_Bytes (Absorb o x maxBytes) = (if mergeable_of r then text_size (r :: rs) else 0) /\
    op_Truncated (Absorb o x maxBytes) = false /\ op_Chunks (Absorb o x maxBytes) = op_Chunks o) as Hquiet.
  { intros [Hq|Hq]; rewrite ?Hq; rewrite Hq in At; cbn [negb orb String.eqb] in At; rewrite ?orb_true_r in At; injection At as -> -> ->; done. }
  clear At. assert (mergeable_of r = true /\ payload_of x <> "" \/ (mergeable_of r = false \/ payload_of x = "")) as Hcase.
  { destruct (mergeable_of r), (String.eqb_spec (payload_of x) ""); auto. }
  split_and!; try done.
  - rewrite length_app. cbn. lia.
  - rewrite map_app. cbn [map]. by rewrite Hmax.
  - rewrite map_app. cbn [map]. by rewrite Hmax.
  - by rewrite first_error_snoc.
  - rewrite existsb_app. cbn. by rewrite orb_false_r.
  - destruct Hcase as [[Hm1 Hm2]|Hq]; [by apply Hloud|by apply Hquiet].
  - destruct Hcase as [[Hm1 Hm2]|Hq]; [destruct (Hloud Hm1 Hm2) as (-> & _ & _)|destruct (Hquiet Hq) as (-> & _ & _)].
    + by rewrite Hm1.
    + destruct (mergeable_of r); [|done]. destruct Hq as [?| ->]; [done|]. cbn [String.length]. lia.
  - intros s Hs. rewrite map_app in Hs. destruct Hcase as [[Hm1 Hm2]|Hq]; [destruct (Hloud Hm1 Hm2) as (_ & _ & ->)|destruct (Hquiet Hq) as (_ & _ & ->)].
    + apply not_elem_of_app in Hs as [Hs Hsx]. rewrite lookup_insert_ne; [by apply Hch|]. intros <-. apply Hsx. cbn. by left.
    + apply not_elem_of_app in Hs as [Hs _]. by apply Hch.
  - intros Hm1. rewrite map_app, List.filter_app. destruct Hcase as [[_ Hm2]|Hq]; [destruct (Hloud Hm1 Hm2) as (_ & _ & ->)|destruct (Hquiet Hq) as (_ & _ & ->)].
    + assert (loud (seq_of x, payload_of x) = true) as HL by (unfold loud; cbn; by rewrite (proj2 (String.eqb_neq _ _) Hm2)).
      etransitivity; [apply filter_perm, map_to_list_insert, Hch, Hx|].
      assert (List.filter loud (map (fun x => (seq_of x, payload_of x)) [x]) = [(seq_of x, payload_of x)]) as -> by (cbn; by rewrite HL).
      assert (List.filter loud ((seq_of x, payload_of x) :: map_to_list (op_Chunks o)) = (seq_of x, payload_of x) :: List.filter loud (map_to_list (op_Chunks o))) as -> by (cbn; by rewrite HL).
      rewrite (Hj Hm1). apply Permutation_cons_append.
    + destruct Hq as [|Hq]; [congruence|]. assert (loud (seq_of x, payload_of x) = false) as HL by (unfold loud; cbn; by rewrite Hq).
      assert (List.filter loud (map (fun x => (seq_of x, payload_of x)) [x]) = []) as -> by (cbn; by rewrite HL). by rewrite (Hj Hm1), app_nil_r.
Qed.

End runs.

(** ** A stream of two frames *)
Module Frames.
(** A JSON object is the text of its field [text], or a text without fields. *)
#[export] Instance texts : RawJSON := {
  raw_object s := Some (if String.eqb s "{}" then ∅ else {[ "text" := s ]});
  raw_string s := Some s;
  raw_usage _ := None;
  text_string s := Some s;
  text_object m := Some (default "{}" (m !! "text"));
  range_keys m := map fst (map_to_list m) }.
(** One frame of a stream, and the next. *)
Definition frame_row (seq : Z) (fold_event text : string) : TraceRow :=
  mkTraceRow (mkTraceRecord "d" "app" "v" "t" seq KindBlockPostInvoke fold_event "" "f" "f/1" "agent" (seq * 10 ^ 9) 0 "" false false text "" "" "" "" None)
    "i" zeroPriced.
Definition frame1 : TraceRow := frame_row 1 "e1" "Hel".
Definition frame2 : TraceRow := frame_row 2 "e2" "lo".
End Frames.
Import Frames.
