(* ===== verification/FoldStore.v ===== *)
(** [internal/fold/store.go] and [scripts.go] of the observability service: the
    open runs, kept in Redis so that every replica adds to the same ones.

    Redis runs a script with nothing interleaved, so a script is a function of
    its state.  The commands it uses are a class, with their documented effect on
    the hashes and sorted sets as laws.  Numbers in a script are exact below
    2^53. *)
From S2P Require Import Prelude Order GoStr F64 GoTime Cost Trace Fold.
From stdpp Require Import pretty.
From Stdlib Require Import String Ascii.
#[local] Open Scope string_scope.
#[local] Open Scope Z_scope.

(** ** The commands *)
Class Redis (R : Type) : Type := {
  HGETALL : R -> string -> gmap string string;
  HSET : string -> gmap string string -> R -> R;
  DEL : string -> R -> R;
  EXPIRE : string -> Z -> R -> R;
  ZSCORES : R -> string -> gmap string Z;
  ZADD : string -> Z -> string -> R -> R;
  ZREM : string -> string -> R -> R;
  (** [ZRANGEBYSCORE key -inf max LIMIT 0 limit]. *)
  ZRANGEBYSCORE : R -> string -> Z -> nat -> list string }.

Class RedisLaws (R : Type) `{!Redis R} : Prop := {
  hash_HSET : forall r k fields k', HGETALL (HSET k fields r) k' = if decide (k = k') then fields ∪ HGETALL r k' else HGETALL r k';
  hash_DEL : forall r k k', HGETALL (DEL k r) k' = if decide (k = k') then ∅ else HGETALL r k';
  hash_EXPIRE : forall r k ttl k', HGETALL (EXPIRE k ttl r) k' = HGETALL r k';
  hash_ZADD : forall r z s m k', HGETALL (ZADD z s m r) k' = HGETALL r k';
  hash_ZREM : forall r z m k', HGETALL (ZREM z m r) k' = HGETALL r k';
  zset_HSET : forall r k fields z, ZSCORES (HSET k fields r) z = ZSCORES r z;
  zset_EXPIRE : forall r k ttl z, ZSCORES (EXPIRE k ttl r) z = ZSCORES r z;
  zset_DEL : forall r k z, z <> k -> ZSCORES (DEL k r) z = ZSCORES r z;
  zset_ZADD : forall r z s m z', ZSCORES (ZADD z s m r) z' = if decide (z = z') then <[m := s]> (ZSCORES r z') else ZSCORES r z';
  zset_ZREM : forall r z m z', ZSCORES (ZREM z m r) z' = if decide (z = z') then delete m (ZSCORES r z') else ZSCORES r z';
  (** The members that are due, least score first, at most [limit] of them. *)
  range_due : forall r z max, exists due, NoDup due /\ (forall m, m ∈ due <-> exists s, ZSCORES r z !! m = Some s /\ s <= max) /\
    forall limit, ZRANGEBYSCORE r z max limit = take limit due }.

(** ** store.go *)
Definition keyPrefix : string := "octo:fold:".
Definition chunkSuf : string := ":chunks".
Definition pendingSuf : string := ":pending".
Definition openZSet : string := "octo:fold:open".

Definition boolArg (b : bool) : string := if b then "1" else "".
(** The scripts' [atoi]: zero for what is not a number. *)
Definition fold_atoi (s : string) : Z := default 0 (atoi s).

Definition blank_json (raw : string) : string := if String.eqb raw "null" then "" else raw.
(** [denull] on the three payloads. *)
Definition denull (row : TraceRow) : TraceRow :=
  let r := tw_Record row in
  mkTraceRow (mkTraceRecord (tr_DeploymentID r) (tr_AppName r) (tr_AppVersion r) (tr_TraceID r) (tr_Seq r) (tr_Kind r) (tr_EventID r) (tr_CorrelationID r)
    (tr_Flow r) (tr_Path r) (tr_BlockType r) (tr_Time r) (tr_DurationNs r) (tr_Err r) (tr_Dropped r) (tr_Truncated r)
    (blank_json (tr_Body r)) (blank_json (tr_Vars r)) (blank_json (tr_Attrs r)) (tr_Model r) (tr_Provider r) (tr_Usage r))
    (tw_IntegrationID row) (tw_Priced row).

(** [json.Marshal] and [json.Unmarshal] of a row. *)
Class RowJSON : Type := { row_text : TraceRow -> res string; text_row : string -> option TraceRow }.

Section store.
Context {R : Type} {RD : Redis R} {RJ : RawJSON} {RW : RowJSON}.

Record fold_args : Type := mkArgs {
  fa_shape : string; fa_text : string; fa_seq : Z; fa_end : Z; fa_err : string; fa_dropped : string; fa_mergeable : string;
  fa_first : string; fa_deadline : Z; fa_ttl : Z; fa_maxBytes : Z; fa_minRun : Z }.

(** What a closed run hands back: its fields, its chunks and what it held. *)
Definition popped : Type := gmap string string * gmap string string * gmap string string.
Definition pop_run (hash : string) (r : R) : popped := (HGETALL r hash, HGETALL r (hash ++ chunkSuf), HGETALL r (hash ++ pendingSuf)).
Definition drop_run (hash : string) (r : R) : R :=
  ZREM openZSet hash (DEL (hash ++ pendingSuf) (DEL (hash ++ chunkSuf) (DEL hash r))).

Definition hget (r : R) (key field : string) : string := default "" (HGETALL r key !! field).
Definition set_field (key field value : string) (r : R) : R := HSET key {[ field := value ]} r.

(** A run that starts with this record. *)
Definition start_run (hash : string) (a : fold_args) (r : R) : R :=
  let r := HSET hash (<["shape" := fa_shape a]> (<["count" := itoa 1]> (<["lastSeq" := itoa (fa_seq a)]> (<["lastEnd" := itoa (fa_end a)]>
             (<["bytes" := itoa 0]> (<["truncated" := ""]> (<["mergeable" := fa_mergeable a]> (<["err" := fa_err a]>
             (<["dropped" := fa_dropped a]> (<["first" := fa_first a]> ∅)))))))))) r in
  let r := set_field (hash ++ pendingSuf) (itoa (fa_seq a)) (fa_first a) r in
  if negb (String.eqb (fa_mergeable a) "")
  then set_field hash "bytes" (itoa (Z.of_nat (String.length (fa_text a)))) (set_field (hash ++ chunkSuf) (itoa (fa_seq a)) (fa_text a) r)
  else r.

(** One more record for a run that is open, a statement of the script each. *)
Definition hold_record (hash : string) (count : Z) (a : fold_args) (r : R) : R :=
  if count <? fa_minRun a then set_field (hash ++ pendingSuf) (itoa (fa_seq a)) (fa_first a) r
  else if count =? fa_minRun a then DEL (hash ++ pendingSuf) r else r.
Definition raise_field (hash field : string) (v : Z) (r : R) : R :=
  if fold_atoi (hget r hash field) <? v then set_field hash field (itoa v) r else r.
Definition first_err (hash err : string) (r : R) : R :=
  if negb (String.eqb err "") && String.eqb (hget r hash "err") "" then set_field hash "err" err r else r.
Definition mark_dropped (hash dropped : string) (r : R) : R :=
  if negb (String.eqb dropped "") then set_field hash "dropped" dropped r else r.
Definition add_chunk (hash : string) (a : fold_args) (r : R) : R :=
  let size := Z.of_nat (String.length (fa_text a)) in
  if negb (String.eqb (hget r hash "mergeable") "") && (0 <? size) then
    let used := fold_atoi (hget r hash "bytes") in
    if fa_maxBytes a <? used + size then set_field hash "truncated" "1" r
    else set_field hash "bytes" (itoa (used + size)) (set_field (hash ++ chunkSuf) (itoa (fa_seq a)) (fa_text a) r)
  else r.
Definition extend_run (hash : string) (a : fold_args) (r : R) : R :=
  let count := fold_atoi (hget r hash "count") + 1 in
  let r := hold_record hash count a (set_field hash "count" (itoa count) r) in
  let r := raise_field hash "lastEnd" (fa_end a) (raise_field hash "lastSeq" (fa_seq a) r) in
  add_chunk hash a (mark_dropped hash (fa_dropped a) (first_err hash (fa_err a) r)).

Definition appendScript (hash : string) (a : fold_args) (r : R) : R * option popped :=
  let '(r, closed, still_open) :=
    match HGETALL r hash !! "shape" with
    | Some shape => if negb (String.eqb shape (fa_shape a)) then (drop_run hash r, Some (pop_run hash r), false) else (r, None, true)
    | None => (r, None, false)
    end in
  let r := if (still_open : bool) then extend_run hash a r else start_run hash a r in
  let r := ZADD openZSet (fa_deadline a) hash r in
  (EXPIRE (hash ++ pendingSuf) (fa_ttl a) (EXPIRE (hash ++ chunkSuf) (fa_ttl a) (EXPIRE hash (fa_ttl a) r)), closed).

Fixpoint pop_all (due : list string) (r : R) : R * list popped :=
  match due with
  | [] => (r, [])
  | hash :: rest =>
      let found := if decide (HGETALL r hash = ∅) then [] else [pop_run hash r] in
      let '(r, out) := pop_all rest (drop_run hash r) in (r, (found ++ out)%list)
  end.
Definition expireScript (now : Z) (limit : nat) (r : R) : R * list popped := pop_all (ZRANGEBYSCORE r openZSet now limit) r.

(** *** Reading back what was held *)
Definition decodeRecord (encoded : string) : option TraceRow := denull <$> text_row encoded.

Definition number_before (a b : Z) : bool := a <? b.
Definition decodePending (pending : gmap string string) : list TraceRow :=
  omap (fun seq => pending !! itoa seq ≫= decodeRecord) (sort_by number_before (map (fun kv => fold_atoi kv.1) (map_to_list pending))).

Definition decode_chunks (chunks : gmap string string) : gmap Z string :=
  list_to_map (map (fun kv => (fold_atoi kv.1, kv.2)) (map_to_list chunks)).
Definition decodeOpen (fields chunks : gmap string string) : res Open :=
  let field f := default "" (fields !! f) in
  match decodeRecord (field "first") with
  | None => Err (ErrMsg "fold: decode first record")
  | Some first =>
      Ok (mkOpen (KeyOf first) first (fold_atoi (field "count")) (fold_atoi (field "lastSeq")) (of_UnixMilli (fold_atoi (field "lastEnd")))
            (field "shape") (decode_chunks chunks) (fold_atoi (field "bytes")) (negb (String.eqb (field "truncated") ""))
            (negb (String.eqb (field "mergeable") "")) (field "err") (negb (String.eqb (field "dropped") "")))
  end.

Record foldConfig : Type := mkFoldConfig { fc_window : Z; fc_ttl : Z; fc_maxBytes : Z; fc_minRun : Z }.

Definition decodeOne (s : foldConfig) (p : popped) : res (list TraceRow) :=
  let '(fields, chunks, pending) := p in
  if decide (fields = ∅) then Ok []
  else
    open ← decodeOpen fields chunks;
    let '(rec, folded) := Close open (fc_minRun s) in
    if (folded : bool) then Ok [rec] else Ok (decodePending pending).

Definition append_args (s : foldConfig) (row : TraceRow) (first : string) (now : Z) : fold_args :=
  let r := tw_Record row in
  let '(shape, text, mergeable) := split_body (tr_Body r) in
  mkArgs shape text (tr_Seq r) (UnixMilli (tr_Time r)) (tr_Err r) (boolArg (tr_Dropped r || tr_Truncated r)) (boolArg mergeable) first
    (UnixMilli (now + fc_window s)) (Z.quot (fc_ttl s) Second) (fc_maxBytes s) (fc_minRun s).
Definition run_key (row : TraceRow) : string := keyPrefix ++ Key_String (KeyOf row).

Definition Append (s : foldConfig) (row : TraceRow) (now : Z) (r : R) : R * res (list TraceRow) :=
  match row_text row with
  | Err e => (r, Err (ErrWrap "fold: encode record: " e ""))
  | Ok first =>
      let '(r, closed) := appendScript (run_key row) (append_args s row first now) r in
      (r, match closed with None => Ok [] | Some p => decodeOne s p end)
  end.

(** A run that cannot be decoded fails the pop, which has emptied them all. *)
Fixpoint decode_all (s : foldConfig) (ps : list popped) : res (list TraceRow) :=
  match ps with
  | [] => Ok []
  | p :: rest => recs ← decodeOne s p; out ← decode_all s rest; Ok (recs ++ out)%list
  end.
Definition Expire (s : foldConfig) (now : Z) (limit : nat) (r : R) : R * res (list TraceRow) :=
  let '(r, ps) := expireScript (UnixMilli now) limit r in (r, decode_all s ps).
End store.
