(* ===== verification/RedisMaps.v ===== *)
(** Hashes and sorted sets as maps: commands that keep the laws [FoldStore] asks
    of Redis, and the JSON of two records, for the concrete histories of
    [FoldRefine]'s and [FoldOnce]'s theorems. *)
From S2P Require Import Prelude Order GoStr Decimal F64 GoTime Cost Trace Fold FoldStore.
From stdpp Require Import pretty.
From Stdlib Require Import String Ascii.
#[local] Open Scope string_scope.
#[local] Open Scope Z_scope.

Export Frames.
Module RedisMaps.
Record maps : Type := mkMaps { hashes : gmap string (gmap string string); zsets : gmap string (gmap string Z) }.
Definition hash_at (r : maps) (k : string) : gmap string string := default ∅ (hashes r !! k).
Definition zset_at (r : maps) (k : string) : gmap string Z := default ∅ (zsets r !! k).
Definition score_before (a b : string * Z) : bool := a.2 <? b.2.
Definition due_members (r : maps) (z : string) (max : Z) : list string :=
  map fst (sort_by score_before (List.filter (fun kv => kv.2 <=? max) (map_to_list (zset_at r z)))).

Definition empty : maps := mkMaps ∅ ∅.
#[export] Instance maps_redis : Redis maps := {
  HGETALL := hash_at;
  HSET k fields r := mkMaps (<[k := fields ∪ hash_at r k]> (hashes r)) (zsets r);
  DEL k r := mkMaps (delete k (hashes r)) (delete k (zsets r));
  EXPIRE _ _ r := r;
  ZSCORES := zset_at;
  ZADD z s m r := mkMaps (hashes r) (<[z := <[m := s]> (zset_at r z)]> (zsets r));
  ZREM z m r := mkMaps (hashes r) (<[z := delete m (zset_at r z)]> (zsets r));
  ZRANGEBYSCORE r z max limit := take limit (due_members r z max) }.

Lemma filter_NoDup_map {A B} (f : A -> B) (p : A -> bool) (l : list A) : NoDup (map f l) -> NoDup (map f (List.filter p l)).
Proof.
  induction l as [|x l IH]; cbn; [done|]. intros [Hx Hnd]%NoDup_cons. destruct (p x); cbn; [|by apply IH].
  apply NoDup_cons. split; [|by apply IH]. intros (y & Hy & Hin)%list_elem_of_fmap. apply Hx. rewrite Hy. apply list_elem_of_fmap. exists y.
  rewrite list_elem_of_In, filter_In, <-list_elem_of_In in Hin. tauto.
Qed.
#[export] Instance maps_laws : RedisLaws maps.
Proof.
  split; try (intros; cbn; unfold hash_at, zset_at; cbn; done).
  - intros r k fields k'. cbn. unfold hash_at. cbn. destruct (decide (k = k')) as [<-|]; [by rewrite lookup_insert_eq|by rewrite lookup_insert_ne].
  - intros r k k'. cbn. unfold hash_at. cbn. destruct (decide (k = k')) as [<-|]; [by rewrite lookup_delete_eq|by rewrite lookup_delete_ne].
  - intros r k z Hne. cbn. unfold zset_at. cbn. by rewrite lookup_delete_ne by done.
  - intros r z s m z'. cbn. unfold zset_at. cbn. destruct (decide (z = z')) as [<-|]; [by rewrite lookup_insert_eq|by rewrite lookup_insert_ne].
  - intros r z m z'. cbn. unfold zset_at. cbn. destruct (decide (z = z')) as [<-|]; [by rewrite lookup_insert_eq|by rewrite lookup_insert_ne].
  - intros r z max. exists (due_members r z max). split_and!; [| |done].
    + unfold due_members. rewrite (Permutation_map fst (sort_by_perm score_before _)). apply filter_NoDup_map, NoDup_fst_map_to_list.
    + intros m. unfold due_members. cbn. rewrite (Permutation_map fst (sort_by_perm score_before _)). split.
      * intros ([m' s] & -> & Hin)%list_elem_of_fmap. rewrite list_elem_of_In, filter_In, <-list_elem_of_In in Hin.
        destruct Hin as [Hin%elem_of_map_to_list Hle%Z.leb_le]. by exists s.
      * intros (s & Hl & Hle). apply list_elem_of_fmap. exists (m, s). split; [done|].
        rewrite list_elem_of_In, filter_In, <-list_elem_of_In, elem_of_map_to_list. split; [done|]. by apply Z.leb_le.
Qed.

Definition of_frames (row : TraceRow) : Prop := row = frame1 \/ row = frame2.
#[export] Instance frame_texts : RowJSON := {
  row_text row := Ok (if String.eqb (tr_EventID (tw_Record row)) "e1" then "1" else "2");
  text_row s := if String.eqb s "1" then Some frame1 else Some frame2 }.
Lemma frames_read row : of_frames row -> exists text, row_text row = Ok text /\ decodeRecord text = Some row.
Proof. intros [->| ->]; by eexists. Qed.
End RedisMaps.
