(* ===== verification/FoldRefine.v ===== *)
(** The scripts of [FoldStore] do the arithmetic of [Fold]: the store refines one
    open run per key, held in memory. *)
From S2P Require Import Prelude Order GoStr Decimal F64 GoTime Cost Trace Fold FoldStore RedisMaps.
From stdpp Require Import sorting pretty.
From Stdlib Require Import String Ascii.
#[local] Open Scope string_scope.
#[local] Open Scope Z_scope.

(** ** The specification *)
Record open_run : Type := mkLive { lv_open : Open; lv_held : gmap Z TraceRow; lv_due : Z }.

(** A run that was kept ends on a whole millisecond. *)
Definition ms_open (o : Open) : Open :=
  mkOpen (op_Key o) (op_First o) (op_Count o) (op_LastSeq o) (of_UnixMilli (UnixMilli (op_LastEnd o))) (op_Shape o) (op_Chunks o) (op_Bytes o)
    (op_Truncated o) (op_Mergeable o) (op_Err o) (op_Dropped o).
Definition held_rows (held : gmap Z TraceRow) : list TraceRow :=
  omap (fun seq => held !! seq) (sort_by number_before (map fst (map_to_list held))).

Inductive fold_event : Type := Put (row : TraceRow) (now : Z) | Sweep (now : Z) (limit : nat).

Section spec.
Context {RJ : RawJSON} (s : foldConfig).

Definition give (l : open_run) : list TraceRow :=
  let '(rec, folded) := Close (ms_open (lv_open l)) (fc_minRun s) in if (folded : bool) then [rec] else held_rows (lv_held l).
Definition due_at (now : Z) : Z := UnixMilli (now + fc_window s).
Definition fresh_run (row : TraceRow) (now : Z) : open_run := mkLive (Start row) {[ seq_of row := row ]} (due_at now).
Definition longer_run (l : open_run) (row : TraceRow) (now : Z) : open_run :=
  let o := Absorb (lv_open l) row (fc_maxBytes s) in
  mkLive o (if op_Count o <? fc_minRun s then <[seq_of row := row]> (lv_held l) else if op_Count o =? fc_minRun s then ∅ else lv_held l) (due_at now).

Definition spec_append (row : TraceRow) (now : Z) (runs : gmap string open_run) : gmap string open_run * list TraceRow :=
  match runs !! run_key row with
  | Some l => if SameShape (lv_open l) row then (<[run_key row := longer_run l row now]> runs, [])
              else (<[run_key row := fresh_run row now]> runs, give l)
  | None => (<[run_key row := fresh_run row now]> runs, [])
  end.
Fixpoint spec_close (due : list string) (runs : gmap string open_run) : gmap string open_run * list TraceRow :=
  match due with
  | [] => (runs, [])
  | k :: rest =>
      let '(runs', out) := spec_close rest (delete k runs) in
      (runs', (match runs !! k with Some l => give l | None => [] end ++ out)%list)
  end.

(** A sweep closes runs that are due, as many as the limit lets it. *)
Inductive spec_step : gmap string open_run -> fold_event -> gmap string open_run -> list TraceRow -> Prop :=
| step_put runs row now : spec_step runs (Put row now) (spec_append row now runs).1 (spec_append row now runs).2
| step_sweep runs now limit due : NoDup due -> (forall k, k ∈ due <-> exists l, runs !! k = Some l /\ lv_due l <= UnixMilli now) ->
    spec_step runs (Sweep now limit) (spec_close (take limit due) runs).1 (spec_close (take limit due) runs).2.
Inductive spec_run : gmap string open_run -> list fold_event -> gmap string open_run -> list (list TraceRow) -> Prop :=
| run_nil runs : spec_run runs [] runs []
| run_cons runs e runs1 out evs runs2 outs :
    spec_step runs e runs1 out -> spec_run runs1 evs runs2 outs -> spec_run runs (e :: evs) runs2 (out :: outs).
End spec.

(** ** Keys *)
Definition tidy (k : string) : Prop := HasSuffix k chunkSuf = false /\ HasSuffix k pendingSuf = false /\ k <> openZSet.

Lemma append_inj_r s t u : (s ++ u = t ++ u)%string -> s = t.
Proof.
  intros H. assert (String.length s = String.length t) as Hl by (apply (f_equal String.length) in H; rewrite !length_app_str in H; lia).
  by rewrite <-(str_take_app s u), H, Hl, str_take_app.
Qed.
Lemma suffix_not_self k suf : suf <> "" -> k <> (k ++ suf)%string.
Proof.
  intros Hs H. apply (f_equal String.length) in H. rewrite length_app_str in H. destruct suf; [done|]. cbn in H. lia.
Qed.
Lemma last_of_app s suf a : last (list_ascii_of_string suf) = Some a -> last (list_ascii_of_string (s ++ suf)) = Some a.
Proof.
  intros H. induction s as [|b s IH]; [by rewrite nil_app|]. rewrite cons_app. cbn [list_ascii_of_string]. rewrite last_cons, IH. done.
Qed.
Lemma chunks_not_pending k k' : (k ++ chunkSuf)%string <> (k' ++ pendingSuf)%string.
Proof.
  intros H. pose proof (last_of_app k chunkSuf "s" eq_refl) as H1. rewrite H, (last_of_app k' pendingSuf "g" eq_refl) in H1. done.
Qed.
Lemma open_not_chunks k : openZSet <> (k ++ chunkSuf)%string.
Proof. intros H. pose proof (last_of_app k chunkSuf "s" eq_refl) as H1. rewrite <-H in H1. done. Qed.
Lemma open_not_pending k : openZSet <> (k ++ pendingSuf)%string.
Proof. intros H. pose proof (last_of_app k pendingSuf "g" eq_refl) as H1. rewrite <-H in H1. done. Qed.

(** The three keys of a run. *)
Definition own (k key : string) : Prop := key = k \/ key = (k ++ chunkSuf)%string \/ key = (k ++ pendingSuf)%string.
Lemma own_hash k : own k k. Proof. by left. Qed.
Lemma own_chunks k : own k (k ++ chunkSuf). Proof. by right; left. Qed.
Lemma own_pending k : own k (k ++ pendingSuf). Proof. by right; right. Qed.
#[local] Hint Resolve own_hash own_chunks own_pending : core.
Lemma own_apart k k' key : tidy k -> tidy k' -> own k key -> own k' key -> k = k'.
Proof.
  intros (C & P & _) (C' & P' & _) [->|[->| ->]] [H|[H|H]]; try done; subst;
    rewrite ?HasSuffix_app in *; try done; try (by eapply append_inj_r); exfalso; eapply chunks_not_pending; [exact H|symmetry; exact H].
Qed.

#[local] Instance itoa_inj : Inj (=) (=) itoa.
Proof. intros x y H. by apply (inj (pretty (A := Z))) in H. Qed.
Definition numbered {A} (m : gmap Z A) : gmap string A := kmap itoa m.

(** A number that a script computes with as it stands. *)
Definition exact (z : Z) : Prop := - 2 ^ 53 <= z <= 2 ^ 53.
Lemma exact_int64 z : exact z -> in_int64 z.
Proof. unfold exact, in_int64, int64_min, int64_max. lia. Qed.
Lemma fold_atoi_itoa z : exact z -> fold_atoi (itoa z) = z.
Proof. intros H%exact_int64. unfold fold_atoi. by rewrite atoi_itoa. Qed.
Lemma flag_true b : negb (String.eqb (boolArg b) "") = b.
Proof. by destruct b. Qed.

Section refine.
Context {R : Type} {RD : Redis R} {RL : RedisLaws R} {RJ : RawJSON} {RW : RowJSON} (s : foldConfig).
(** The rows that JSON keeps as they are: their payloads as the library writes
    them, and no price. *)
Context (plain : TraceRow -> Prop) (plain_reads : forall row, plain row -> exists text, row_text row = Ok text /\ decodeRecord text = Some row).

Definition enc (row : TraceRow) : string := match row_text row with Ok text => text | Err _ => "" end.

Definition run_fields_of (shape : string) (count lastSeq lastEnd bytes : Z) (truncated mergeable : bool) (err : string) (dropped : bool) (first : string) : gmap string string :=
  <["shape" := shape]> (<["count" := itoa count]> (<["lastSeq" := itoa lastSeq]> (<["lastEnd" := itoa lastEnd]>
    (<["bytes" := itoa bytes]> (<["truncated" := boolArg truncated]> (<["mergeable" := boolArg mergeable]> (<["err" := err]>
    (<["dropped" := boolArg dropped]> (<["first" := first]> ∅))))))))).
Definition fields_map (o : Open) (first : string) : gmap string string :=
  run_fields_of (op_Shape o) (op_Count o) (op_LastSeq o) (UnixMilli (op_LastEnd o)) (op_Bytes o) (op_Truncated o) (op_Mergeable o) (op_Err o) (op_Dropped o) first.

Lemma enc_reads row : plain row -> decodeRecord (enc row) = Some row.
Proof. intros (text & Ht & Hd)%plain_reads. unfold enc. by rewrite Ht. Qed.

(** What the keys of a run hold. *)
Definition run_hashes (r : R) (k : string) : popped := (HGETALL r k, HGETALL r (k ++ chunkSuf), HGETALL r (k ++ pendingSuf)).
Definition live_hashes (l : open_run) : popped :=
  (fields_map (lv_open l) (enc (op_First (lv_open l))), numbered (op_Chunks (lv_open l)), numbered (enc <$> lv_held l)).

(** A time whose milliseconds are such a number. *)
Definition dated (t : Z) : Prop := exact (t / Millisecond).
Lemma dated_milli t : dated t -> exact (UnixMilli t).
Proof. intros H. unfold UnixMilli. by rewrite wrap64_id by by apply exact_int64. Qed.
Definition in_range (l : open_run) : Prop :=
  exact (op_Count (lv_open l)) /\ exact (op_LastSeq (lv_open l)) /\ exact (op_Bytes (lv_open l)) /\ dated (op_LastEnd (lv_open l)) /\
  (forall seq, is_Some (op_Chunks (lv_open l) !! seq) -> exact seq) /\ (forall seq, is_Some (lv_held l !! seq) -> exact seq) /\
  plain (op_First (lv_open l)) /\ op_Key (lv_open l) = KeyOf (op_First (lv_open l)) /\ (forall seq row, lv_held l !! seq = Some row -> plain row).

(** *** Reading a run back *)
Lemma decode_chunks_numbered (m : gmap Z string) : (forall seq, is_Some (m !! seq) -> exact seq) -> decode_chunks (numbered m) = m.
Proof.
  intros Hr. unfold decode_chunks, numbered.
  assert (map (fun kv => (fold_atoi kv.1, kv.2)) (map_to_list (kmap (M2 := gmap string) itoa m)) ≡ₚ map_to_list m) as Hp.
  { etransitivity; [apply Permutation_map, map_to_list_kmap; apply _|].
    assert (forall l : list (Z * string), (forall p, p ∈ l -> exact p.1) -> map (fun kv => (fold_atoi kv.1, kv.2)) (prod_map itoa id <$> l) = l) as Hl.
    { induction l as [|[seq text] l IH]; intros Hin; cbn; [done|]. rewrite fold_atoi_itoa by (apply (Hin (seq, text)); by left).
      rewrite IH; [done|]. intros p Hp. apply Hin. by right. }
    rewrite Hl; [done|]. intros [seq text] Hin%elem_of_map_to_list. apply Hr. by eexists. }
  rewrite <-(list_to_map_to_list m) at 2. apply list_to_map_proper; [|done].
  change (NoDup (map fst (map (fun kv => (fold_atoi kv.1, kv.2)) (map_to_list (kmap (M2 := gmap string) itoa m))))).
  rewrite Hp. apply NoDup_fst_map_to_list.
Qed.

Lemma number_order : weak_order (fun _ => True) number_before.
Proof. apply Z_order. Qed.
Lemma decode_pending_numbered (held : gmap Z TraceRow) :
  (forall seq, is_Some (held !! seq) -> exact seq) -> (forall seq row, held !! seq = Some row -> plain row) ->
  decodePending (numbered (enc <$> held)) = held_rows held.
Proof.
  intros Hr Hpl. unfold decodePending, held_rows, numbered.
  assert (map (fun kv => fold_atoi kv.1) (map_to_list (kmap (M2 := gmap string) itoa (enc <$> held))) ≡ₚ map fst (map_to_list held)) as Hp.
  { etransitivity; [apply Permutation_map, map_to_list_kmap; apply _|]. rewrite map_to_list_fmap.
    assert (forall l : list (Z * TraceRow), (forall p, p ∈ l -> exact p.1) -> map (fun kv => fold_atoi kv.1) (prod_map itoa id <$> (prod_map id enc <$> l)) = map fst l) as Hl.
    { induction l as [|[seq row] l IH]; intros Hin; cbn; [done|]. rewrite fold_atoi_itoa by (apply (Hin (seq, row)); by left).
      rewrite IH; [done|]. intros p Hp. apply Hin. by right. }
    rewrite Hl; [done|]. intros [seq row] Hin%elem_of_map_to_list. apply Hr. by eexists. }
  rewrite (sort_by_agree (fun _ => True) number_before number_order _ _ ltac:(by apply Forall_forall) Hp).
  2:{ unfold not_after, number_before. intros a b _ _ H1%Z.ltb_ge H2%Z.ltb_ge. lia. }
  apply list_omap_ext, Forall2_same_length_lookup_2; [done|]. intros i seq seq' H1 H2. assert (seq = seq') as <- by congruence.
  rewrite lookup_kmap by apply _. rewrite lookup_fmap. destruct (held !! seq) as [row|] eqn:E; [|done]. cbn.
  apply enc_reads. by eapply Hpl.
Qed.

Lemma fields_not_empty o first : fields_map o first <> ∅.
Proof. apply insert_non_empty. Qed.
Lemma boolArg_eq b : negb (String.eqb (boolArg b) "") = b.
Proof. by destruct b. Qed.

Lemma decode_one_live l : in_range l -> decodeOne s (live_hashes l) = Ok (give s l).
Proof.
  intros (Hc & Hs & Hb & He & Hch & Hh & Hpl & Hk & Hhp). unfold decodeOne, live_hashes. destruct (decide _) as [E|_]; [by apply fields_not_empty in E|].
  unfold decodeOpen, fields_map, run_fields_of. simplify_map_eq. cbn [default from_option].
  rewrite (enc_reads _ Hpl).
  unfold give. apply dated_milli in He. rewrite !fold_atoi_itoa, !boolArg_eq, decode_chunks_numbered by done.
  assert (mkOpen (KeyOf (op_First (lv_open l))) (op_First (lv_open l)) (op_Count (lv_open l)) (op_LastSeq (lv_open l)) (of_UnixMilli (UnixMilli (op_LastEnd (lv_open l))))
    (op_Shape (lv_open l)) (op_Chunks (lv_open l)) (op_Bytes (lv_open l)) (op_Truncated (lv_open l)) (op_Mergeable (lv_open l)) (op_Err (lv_open l)) (op_Dropped (lv_open l)) = ms_open (lv_open l)) as ->
    by (unfold ms_open; by rewrite Hk).
  cbn [mbind res_bind]. destruct (Close _ _) as [rec []]; [done|]. by rewrite decode_pending_numbered.
Qed.
(** *** The scripts on the keys of one run *)
Definition only_own (k : string) (r r' : R) : Prop :=
  (forall key, ~ own k key -> HGETALL r' key = HGETALL r key) /\ ZSCORES r' openZSet = ZSCORES r openZSet.
Lemma only_own_refl k r : only_own k r r.
Proof. done. Qed.
Lemma only_own_trans k r r1 r2 : only_own k r r1 -> only_own k r1 r2 -> only_own k r r2.
Proof. intros [H1 Z1] [H2 Z2]. split; [|congruence]. intros key Hk. by rewrite H2, H1. Qed.
Lemma only_own_if k r r1 r2 (b : bool) : only_own k r r1 -> only_own k r r2 -> only_own k r (if b then r1 else r2).
Proof. by destruct b. Qed.

Lemma hash_set key f v r key' : HGETALL (set_field key f v r) key' = if decide (key = key') then <[f := v]> (HGETALL r key') else HGETALL r key'.
Proof. unfold set_field. rewrite hash_HSET. destruct (decide _); [|done]. by rewrite insert_union_singleton_l. Qed.
Lemma own_set k key f v r r1 : own k key -> only_own k r r1 -> only_own k r (set_field key f v r1).
Proof.
  intros Ho [H1 Z1]. split; [|by unfold set_field; rewrite zset_HSET]. intros key' Hn. rewrite hash_set, decide_False; [by apply H1|by intros ->].
Qed.
Lemma own_del k key r r1 : tidy k -> own k key -> only_own k r r1 -> only_own k r (DEL key r1).
Proof.
  intros Ht Ho [H1 Z1]. split.
  - intros key' Hn. rewrite hash_DEL, decide_False; [by apply H1|by intros ->].
  - rewrite zset_DEL; [done|]. destruct Ho as [->|[->| ->]]; [intros Heq; by destruct Ht as (_ & _ & Ht)|apply open_not_chunks|apply open_not_pending].
Qed.

Section one_run.
Context (k : string) (Hk : tidy k).
Lemma key_chunks : k <> (k ++ chunkSuf)%string. Proof. by apply suffix_not_self. Qed.
Lemma key_pending : k <> (k ++ pendingSuf)%string. Proof. by apply suffix_not_self. Qed.

Lemma at_set_hash r f v h c p : run_hashes r k = (h, c, p) -> run_hashes (set_field k f v r) k = (<[f := v]> h, c, p).
Proof.
  unfold run_hashes. intros [= <- <- <-]. rewrite !hash_set, decide_True by done.
  by rewrite (decide_False (P := k = (k ++ chunkSuf)%string)), (decide_False (P := k = (k ++ pendingSuf)%string)) by auto using key_chunks, key_pending.
Qed.
Lemma at_set_chunk r f v h c p : run_hashes r k = (h, c, p) -> run_hashes (set_field (k ++ chunkSuf) f v r) k = (h, <[f := v]> c, p).
Proof.
  unfold run_hashes. intros [= <- <- <-]. rewrite !hash_set, (decide_True (P := (k ++ chunkSuf)%string = (k ++ chunkSuf)%string)) by done.
  by rewrite (decide_False (P := (k ++ chunkSuf)%string = k)), (decide_False (P := (k ++ chunkSuf)%string = (k ++ pendingSuf)%string))
    by (try apply chunks_not_pending; intros H; by apply key_chunks).
Qed.
Lemma at_set_pending r f v h c p : run_hashes r k = (h, c, p) -> run_hashes (set_field (k ++ pendingSuf) f v r) k = (h, c, <[f := v]> p).
Proof.
  unfold run_hashes. intros [= <- <- <-]. rewrite !hash_set, (decide_True (P := (k ++ pendingSuf)%string = (k ++ pendingSuf)%string)) by done.
  by rewrite (decide_False (P := (k ++ pendingSuf)%string = k)), (decide_False (P := (k ++ pendingSuf)%string = (k ++ chunkSuf)%string))
    by (first [intros H; by apply key_pending|intros H; by eapply chunks_not_pending]).
Qed.
Lemma at_del_pending r h c p : run_hashes r k = (h, c, p) -> run_hashes (DEL (k ++ pendingSuf) r) k = (h, c, ∅).
Proof.
  unfold run_hashes. intros [= <- <- <-]. rewrite !hash_DEL, (decide_True (P := (k ++ pendingSuf)%string = (k ++ pendingSuf)%string)) by done.
  by rewrite (decide_False (P := (k ++ pendingSuf)%string = k)), (decide_False (P := (k ++ pendingSuf)%string = (k ++ chunkSuf)%string))
    by (first [intros H; by apply key_pending|intros H; by eapply chunks_not_pending]).
Qed.
Lemma at_if r1 r2 (b : bool) x1 x2 : run_hashes r1 k = x1 -> run_hashes r2 k = x2 -> run_hashes (if b then r1 else r2) k = if b then x1 else x2.
Proof. by destruct b. Qed.
(** A field that may be written over. *)
Lemma at_maybe r f (b : bool) v h c p : run_hashes r k = (h, c, p) ->
  run_hashes (if b then set_field k f v r else r) k = (if b then <[f := v]> h else h, c, p).
Proof. intros H. destruct b; [by apply at_set_hash|done]. Qed.
Lemma at_hget r f h c p : run_hashes r k = (h, c, p) -> hget r k f = default "" (h !! f).
Proof. unfold run_hashes, hget. by intros [= -> _ _]. Qed.

Lemma own_maybe f (b : bool) v r r1 : only_own k r r1 -> only_own k r (if b then set_field k f v r1 else r1).
Proof. intros H. apply only_own_if; [by apply own_set|done]. Qed.
Lemma start_own a r : only_own k r (start_run k a r).
Proof.
  unfold start_run. assert (forall fields, only_own k r (HSET k fields r)) as H.
  { intros fields. split; [|by rewrite zset_HSET]. intros key Hn. rewrite hash_HSET, decide_False; [done|intros ->; by apply Hn]. }
  apply only_own_if; repeat (apply own_set; [done|]); apply H.
Qed.
Lemma extend_own a r : only_own k r (extend_run k a r).
Proof.
  unfold extend_run, add_chunk, mark_dropped, first_err, raise_field, hold_record. cbv zeta.
  repeat first [apply own_maybe|apply only_own_if|(apply own_set; [done|])|(apply own_del; [done|done|])]; apply only_own_refl.
Qed.

(** *** Writing one field of a run *)
Ltac write_field f := intros; unfold run_fields_of; repeat (rewrite (insert_insert_ne _ f) by done); by rewrite insert_insert_eq.
Lemma write_count v sh c ls le b tr m e d fi : <["count" := itoa v]> (run_fields_of sh c ls le b tr m e d fi) = run_fields_of sh v ls le b tr m e d fi.
Proof. write_field "count". Qed.
Lemma write_lastSeq v sh c ls le b tr m e d fi : <["lastSeq" := itoa v]> (run_fields_of sh c ls le b tr m e d fi) = run_fields_of sh c v le b tr m e d fi.
Proof. write_field "lastSeq". Qed.
Lemma write_lastEnd v sh c ls le b tr m e d fi : <["lastEnd" := itoa v]> (run_fields_of sh c ls le b tr m e d fi) = run_fields_of sh c ls v b tr m e d fi.
Proof. write_field "lastEnd". Qed.
Lemma write_bytes v sh c ls le b tr m e d fi : <["bytes" := itoa v]> (run_fields_of sh c ls le b tr m e d fi) = run_fields_of sh c ls le v tr m e d fi.
Proof. write_field "bytes". Qed.
Lemma write_truncated sh c ls le b tr m e d fi : <["truncated" := "1"]> (run_fields_of sh c ls le b tr m e d fi) = run_fields_of sh c ls le b true m e d fi.
Proof. change "1" with (boolArg true). write_field "truncated". Qed.
Lemma write_err v sh c ls le b tr m e d fi : <["err" := v]> (run_fields_of sh c ls le b tr m e d fi) = run_fields_of sh c ls le b tr m v d fi.
Proof. write_field "err". Qed.
Lemma write_dropped v sh c ls le b tr m e d fi : <["dropped" := boolArg v]> (run_fields_of sh c ls le b tr m e d fi) = run_fields_of sh c ls le b tr m e v fi.
Proof. write_field "dropped". Qed.

Lemma numbered_insert {A} (m : gmap Z A) seq x : numbered (<[seq := x]> m) = <[itoa seq := x]> (numbered m).
Proof. unfold numbered. by rewrite kmap_insert by apply _. Qed.
Lemma numbered_singleton {A} seq (x : A) : numbered {[ seq := x ]} = {[ itoa seq := x ]}.
Proof. unfold numbered. by rewrite kmap_singleton by apply _. Qed.

Lemma args_fields row first now : append_args s row first now =
  mkArgs (shape_of row) (payload_of row) (seq_of row) (UnixMilli (time_of row)) (tr_Err (tw_Record row)) (boolArg (lossy row)) (boolArg (mergeable_of row)) first
    (due_at s now) (Z.quot (fc_ttl s) Second) (fc_maxBytes s) (fc_minRun s).
Proof. unfold append_args, shape_of, payload_of, mergeable_of. by destruct (split_body _) as [[shape text] m]. Qed.

Lemma start_hashes row now r : run_hashes r k = (∅, ∅, ∅) ->
  run_hashes (start_run k (append_args s row (enc row) now) r) k = live_hashes (fresh_run s row now).
Proof.
  intros H. rewrite args_fields. unfold live_hashes, fresh_run. cbn [lv_open lv_held]. rewrite start_fields. unfold fields_map. cbn.
  rewrite map_fmap_singleton, numbered_singleton. unfold start_run. cbn [fa_shape fa_seq fa_end fa_mergeable fa_err fa_dropped fa_first fa_text].
  match goal with |- context [HSET k ?f r] => set (fields := f); assert (run_hashes (HSET k fields r) k = (fields, ∅, ∅)) as H0 end.
  { unfold run_hashes in H |- *. injection H as H1 H2 H3. rewrite !hash_HSET, decide_True by done.
    rewrite (decide_False (P := k = (k ++ chunkSuf)%string)), (decide_False (P := k = (k ++ pendingSuf)%string)) by auto using key_chunks, key_pending.
    by rewrite H1, H2, H3, (right_id_L ∅ (∪)). }
  pose proof (at_set_pending _ (itoa (seq_of row)) (enc row) _ _ _ H0) as H1. rewrite boolArg_eq.
  assert (fields = run_fields_of (shape_of row) 1 (seq_of row) (UnixMilli (time_of row)) 0 false (mergeable_of row) (tr_Err (tw_Record row)) (lossy row) (enc row)) as Hf by done.
  destruct (mergeable_of row) eqn:Hm.
  - rewrite (at_set_hash _ "bytes" _ _ _ _ (at_set_chunk _ (itoa (seq_of row)) (payload_of row) _ _ _ H1)), Hf, write_bytes, numbered_singleton. done.
  - rewrite H1, Hf. unfold numbered. by rewrite kmap_empty.
Qed.

Lemma at_hold r count a h held c row : run_hashes r k = (h, c, numbered (enc <$> held)) -> fa_first a = enc row ->
  run_hashes (hold_record k count a r) k =
    (h, c, numbered (enc <$> (if count <? fa_minRun a then <[fa_seq a := row]> held else if count =? fa_minRun a then ∅ else held))).
Proof.
  intros H Hf. unfold hold_record. destruct (count <? fa_minRun a); [|destruct (count =? fa_minRun a); [|done]].
  - by rewrite (at_set_pending _ _ _ _ _ _ H), fmap_insert, numbered_insert, Hf.
  - rewrite (at_del_pending _ _ _ _ H), fmap_empty. unfold numbered. by rewrite kmap_empty.
Qed.
Lemma at_raise r f v v0 h c p : run_hashes r k = (h, c, p) -> h !! f = Some (itoa v0) -> exact v0 ->
  run_hashes (raise_field k f v r) k = (<[f := itoa (Z.max v0 v)]> h, c, p).
Proof.
  intros H Hf Hr. unfold raise_field. rewrite (at_hget _ f _ _ _ H), Hf. cbn [default from_option id]. rewrite fold_atoi_itoa by done.
  destruct (Z.ltb_spec v0 v); [rewrite Z.max_r by lia; by apply at_set_hash|].
  rewrite Z.max_l by lia. by rewrite insert_id.
Qed.
Lemma at_err r err sh n ls le b tr m e d fi c p : run_hashes r k = (run_fields_of sh n ls le b tr m e d fi, c, p) ->
  run_hashes (first_err k err r) k = (run_fields_of sh n ls le b tr m (if String.eqb e "" then err else e) d fi, c, p).
Proof.
  intros H. unfold first_err. rewrite (at_hget _ "err" _ _ _ H). change (default "" _) with e.
  destruct (String.eqb_spec e "") as [->|]; [|by rewrite andb_false_r]. destruct (String.eqb_spec err "") as [->|]; [done|]. cbn.
  by rewrite (at_set_hash _ "err" err _ _ _ H), write_err.
Qed.
Lemma at_dropped r dropped sh n ls le b tr m e d fi c p : run_hashes r k = (run_fields_of sh n ls le b tr m e d fi, c, p) ->
  run_hashes (mark_dropped k (boolArg dropped) r) k = (run_fields_of sh n ls le b tr m e (d || dropped) fi, c, p).
Proof.
  intros H. unfold mark_dropped. rewrite boolArg_eq. destruct dropped; [|by rewrite orb_false_r]. rewrite orb_true_r.
  by rewrite (at_set_hash _ "dropped" (boolArg true) _ _ _ H), write_dropped.
Qed.
Lemma at_chunk r a sh n ls le b tr m e d fi chunks p : run_hashes r k = (run_fields_of sh n ls le b tr m e d fi, numbered chunks, p) -> exact b ->
  run_hashes (add_chunk k a r) k =
    let '(chunks', b', tr') :=
      if negb m || String.eqb (fa_text a) "" then (chunks, b, tr)
      else if fa_maxBytes a <? b + Z.of_nat (String.length (fa_text a)) then (chunks, b, true)
      else (<[fa_seq a := fa_text a]> chunks, b + Z.of_nat (String.length (fa_text a)), tr) in
    (run_fields_of sh n ls le b' tr' m e d fi, numbered chunks', p).
Proof.
  intros H Hb. unfold add_chunk. rewrite (at_hget _ "mergeable" _ _ _ H), (at_hget _ "bytes" _ _ _ H).
  change (default "" (_ !! "mergeable")) with (boolArg m). change (default "" (_ !! "bytes")) with (itoa b). rewrite fold_atoi_itoa, boolArg_eq by done.
  destruct m; [|done]. cbn [andb negb orb]. destruct (String.eqb_spec (fa_text a) "") as [->|Hne]; [done|].
  assert ((0 <? Z.of_nat (String.length (fa_text a))) = true) as -> by (destruct (fa_text a); [done|by apply Z.ltb_lt]).
  destruct (_ <? _); [by rewrite (at_set_hash _ "truncated" "1" _ _ _ H), write_truncated|].
  by rewrite (at_set_hash _ "bytes" _ _ _ _ (at_set_chunk _ (itoa (fa_seq a)) (fa_text a) _ _ _ H)), write_bytes, numbered_insert.
Qed.

Lemma milli_max a b : dated a -> dated b -> UnixMilli (Z.max a b) = Z.max (UnixMilli a) (UnixMilli b).
Proof.
  unfold dated, UnixMilli. intros Ha%exact_int64 Hb%exact_int64. rewrite (wrap64_id (a / _)), (wrap64_id (b / _)), wrap64_id by (try done; by destruct (Z.max_spec a b) as [[_ ->]|[_ ->]]).
  assert (forall x y, x <= y -> x / Millisecond <= y / Millisecond) as Hmono by (intros x y H; by apply Z.div_le_mono).
  destruct (Z.max_spec a b) as [[Hab%Z.lt_le_incl%Hmono ->]|[Hab%Hmono ->]]; [by rewrite Z.max_r|by rewrite Z.max_l].
Qed.

Lemma extend_hashes l row now r : run_hashes r k = live_hashes l -> in_range l -> dated (time_of row) ->
  run_hashes (extend_run k (append_args s row (enc row) now) r) k = live_hashes (longer_run s l row now).
Proof.
  intros H (Hc & Hs & Hb & He & _) Hd. rewrite args_fields. unfold live_hashes, longer_run, fields_map in *. cbn [lv_open lv_held].
  destruct (absorb_fields (lv_open l) row (fc_maxBytes s)) as (_ & -> & -> & -> & -> & -> & -> & -> & -> & At). rewrite milli_max by done.
  unfold extend_run. cbn [fa_seq fa_end fa_err fa_dropped]. cbv zeta.
  rewrite (at_hget _ "count" _ _ _ H). change (default "" (_ !! "count")) with (itoa (op_Count (lv_open l))). rewrite fold_atoi_itoa by done.
  apply (at_set_hash _ "count" (itoa (op_Count (lv_open l) + 1))) in H. rewrite write_count in H.
  match goal with |- context [hold_record k _ ?a _] => set (args := a) end.
  apply (at_hold _ (op_Count (lv_open l) + 1) args _ _ _ row) in H; [|done].
  apply (at_raise _ "lastSeq" (seq_of row) (op_LastSeq (lv_open l))) in H; [|done..]. rewrite write_lastSeq in H.
  apply (at_raise _ "lastEnd" (UnixMilli (time_of row)) (UnixMilli (op_LastEnd (lv_open l)))) in H; [|done|by apply dated_milli]. rewrite write_lastEnd in H.
  apply (at_err _ (tr_Err (tw_Record row))) in H. apply (at_dropped _ (lossy row)) in H. apply (at_chunk _ args) in H; [|done].
  unfold args in H at 2 3 4 5 6 7 8 9. cbn [fa_text fa_seq fa_maxBytes fa_minRun] in H. rewrite <-At in H. exact H.
Qed.
End one_run.

(** *** The whole store *)
Definition unused : popped := (∅, ∅, ∅).
Definition row_ok (row : TraceRow) : Prop :=
  plain row /\ tidy (run_key row) /\ exact (seq_of row) /\ dated (time_of row) /\ exact (Z.of_nat (String.length (payload_of row))).
Definition run_sound (n : Z) (l : open_run) : Prop := in_range l /\ op_Count (lv_open l) <= n /\ 0 < op_Count (lv_open l) /\ 0 <= op_Bytes (lv_open l).
Definition holds (n : Z) (runs : gmap string open_run) (r : R) : Prop :=
  (forall k, tidy k -> run_hashes r k = match runs !! k with Some l => live_hashes l | None => unused end) /\
  (forall k l, runs !! k = Some l -> tidy k /\ run_sound n l) /\
  ZSCORES r openZSet = lv_due <$> runs.

Lemma drop_own k r : tidy k -> (forall key, ~ own k key -> HGETALL (drop_run k r) key = HGETALL r key) /\
  run_hashes (drop_run k r) k = unused /\ ZSCORES (drop_run k r) openZSet = delete k (ZSCORES r openZSet).
Proof.
  intros Hk. assert (only_own k r (DEL (k ++ pendingSuf) (DEL (k ++ chunkSuf) (DEL k r)))) as [H1 Z1]
    by (repeat (apply own_del; [done|done|]); apply only_own_refl).
  unfold drop_run. split_and!.
  - intros key Hn. rewrite hash_ZREM. by apply H1.
  - unfold run_hashes. rewrite !hash_ZREM, !hash_DEL. by repeat (destruct (decide _); try done).
  - by rewrite zset_ZREM, decide_True, Z1.
Qed.
Lemma hashes_apart k k' r r' : tidy k -> tidy k' -> k <> k' -> (forall key, ~ own k key -> HGETALL r' key = HGETALL r key) ->
  run_hashes r' k' = run_hashes r k'.
Proof.
  intros Hk Hk' Hne H. assert (forall key, own k' key -> ~ own k key) as Hapart by (intros key H1 H2; apply Hne; by eapply own_apart).
  unfold run_hashes. rewrite !H by auto. done.
Qed.
Lemma holds_drop n runs k r : holds n runs r -> tidy k -> holds n (delete k runs) (drop_run k r).
Proof.
  intros (Hh & Hr & Hz) Hk. destruct (drop_own k r Hk) as (D1 & D2 & D3). split_and!.
  - intros k' Hk'. destruct (decide (k' = k)) as [->|Hne]; [by rewrite lookup_delete_eq|].
    rewrite lookup_delete_ne by done. rewrite <-Hh by done. by apply (hashes_apart k).
  - intros k' l [_ Hl]%lookup_delete_Some. by apply Hr.
  - by rewrite D3, Hz, fmap_delete.
Qed.
(** A script that leaves the run of [k] as [l] has it. *)
Lemma holds_write n runs k r r1 l ttl : holds n runs r -> tidy k -> only_own k r r1 -> run_hashes r1 k = live_hashes l -> run_sound n l ->
  holds n (<[k := l]> runs) (EXPIRE (k ++ pendingSuf) ttl (EXPIRE (k ++ chunkSuf) ttl (EXPIRE k ttl (ZADD openZSet (lv_due l) k r1)))).
Proof.
  intros (Hh & Hr & Hz) Hk [H1 Z1] Hl Hs. split_and!.
  - intros k' Hk'. unfold run_hashes. rewrite !hash_EXPIRE, !hash_ZADD. fold (run_hashes r1 k').
    destruct (decide (k' = k)) as [->|Hne]; [by rewrite lookup_insert_eq|].
    rewrite lookup_insert_ne by done. rewrite <-Hh by done. by apply (hashes_apart k).
  - intros k' l' [[<- <-]|[_ Hl']]%lookup_insert_Some; [done|by apply Hr].
  - by rewrite !zset_EXPIRE, zset_ZADD, decide_True, Z1, Hz, fmap_insert.
Qed.

Lemma fresh_sound row now n : row_ok row -> 1 <= n -> run_sound n (fresh_run s row now).
Proof.
  intros (Hpl & _ & Hseq & Hd & Ht) Hn. unfold run_sound, in_range, fresh_run. cbn [lv_open lv_held]. rewrite start_fields.
  cbn [op_Count op_LastSeq op_Bytes op_LastEnd op_Chunks op_First op_Key].
  assert (exact 1 /\ exact 0) as [? ?] by (unfold exact; lia). split_and!; try done; try lia.
  - by destruct (mergeable_of row).
  - intros seq [x Hx]. destruct (mergeable_of row); [|done]. by apply lookup_singleton_Some in Hx as [<- _].
  - intros seq [x Hx]. by apply lookup_singleton_Some in Hx as [<- _].
  - intros seq x Hx. by apply lookup_singleton_Some in Hx as [_ <-].
  - destruct (mergeable_of row); lia.
Qed.
Lemma longer_sound l row now n : run_sound n l -> row_ok row -> fc_maxBytes s <= 2 ^ 53 -> n + 1 <= 2 ^ 53 -> run_sound (n + 1) (longer_run s l row now).
Proof.
  intros ((Hc & Hs & Hb & He & Hch & Hh & Hpl & Hk & Hhp) & Hn & H0 & Hb0) (Hpr & _ & Hseq & Hd & _) Hmax Hlim.
  unfold run_sound, in_range, longer_run. cbn [lv_open lv_held].
  destruct (absorb_fields (lv_open l) row (fc_maxBytes s)) as (-> & -> & Ac & -> & -> & _ & _ & _ & _ & At). rewrite Ac.
  assert (exact (op_Bytes (Absorb (lv_open l) row (fc_maxBytes s))) /\ 0 <= op_Bytes (Absorb (lv_open l) row (fc_maxBytes s)) /\
    forall seq, is_Some (op_Chunks (Absorb (lv_open l) row (fc_maxBytes s)) !! seq) -> exact seq) as (B1 & B2 & B3).
  { destruct (_ || _); [by injection At as -> -> _|]. destruct (Z.ltb_spec (fc_maxBytes s) (op_Bytes (lv_open l) + Z.of_nat (String.length (payload_of row)))); [by injection At as -> -> _|].
    injection At as -> -> _. split_and!; [unfold exact in *; lia|lia|]. intros seq Hx. destruct (decide (seq = seq_of row)) as [->|]; [done|].
    rewrite lookup_insert_ne in Hx by done. by apply Hch. }
  assert (forall a b, exact a -> exact b -> exact (Z.max a b)) as Hmx by (intros a b ? ?; by destruct (Z.max_spec a b) as [[_ ->]|[_ ->]]).
  split_and!; try done; try lia.
  - unfold exact in *. lia.
  - by apply Hmx.
  - unfold dated in *. destruct (Z.max_spec (op_LastEnd (lv_open l)) (time_of row)) as [[_ ->]|[_ ->]]; done.
  - intros seq. destruct (op_Count _ + 1 <? _); intros Hx; [|destruct (_ =? _); [by apply lookup_empty_is_Some in Hx|by apply Hh]].
    destruct (decide (seq = seq_of row)) as [->|]; [done|]. rewrite lookup_insert_ne in Hx by done. by apply Hh.
  - intros seq x. destruct (op_Count _ + 1 <? _); intros Hx; [|destruct (_ =? _); [done|by eapply Hhp]].
    apply lookup_insert_Some in Hx as [[_ <-]|[_ Hx]]; [done|by eapply Hhp].
Qed.
Lemma sound_more n n' l : run_sound n l -> n <= n' -> run_sound n' l.
Proof. unfold run_sound. intros (? & ? & ? & ?) ?. split_and!; try done. lia. Qed.
Lemma holds_more n n' runs r : holds n runs r -> n <= n' -> holds n' runs r.
Proof. intros (H1 & H2 & H3) Hn. split_and!; try done. intros k l Hl. destruct (H2 k l Hl). split; [done|by eapply sound_more]. Qed.


Lemma same_shape_stored l k : run_hashes l k = unused -> HGETALL l k !! "shape" = None.
Proof. unfold run_hashes, unused. by intros [= -> _ _]. Qed.

(** One [Append] of the store is the one of the specification. *)
Lemma append_refines n runs r row now : fc_maxBytes s <= 2 ^ 53 -> n + 1 <= 2 ^ 53 -> 0 <= n -> row_ok row -> holds n runs r ->
  exists r', Append s row now r = (r', Ok (spec_append s row now runs).2) /\ holds (n + 1) (spec_append s row now runs).1 r'.
Proof.
  intros Hmax Hlim Hn Hrow Hh. pose proof Hh as (Hk & Hr & Hz). pose proof Hrow as (Hpl & Ht & _).
  specialize (Hk _ Ht). unfold Append, appendScript. destruct (plain_reads _ Hpl) as (text & Htext & _). rewrite Htext.
  assert (enc row = text) as <- by (unfold enc; by rewrite Htext). rewrite (args_fields row (enc row) now).
  match goal with |- context [start_run _ ?a _] => assert (a = append_args s row (enc row) now) as Ha by (by rewrite args_fields); rewrite Ha; clear Ha end.
  assert (fa_shape (append_args s row (enc row) now) = shape_of row) as -> by (by rewrite args_fields).
  assert (fa_deadline (append_args s row (enc row) now) = due_at s now) as -> by (by rewrite args_fields).
  set (k := run_key row) in *. unfold spec_append. fold k. destruct (runs !! k) as [l|] eqn:El.
  - destruct (Hr _ _ El) as [_ Hs]. assert (HGETALL r k !! "shape" = Some (op_Shape (lv_open l))) as ->.
    { unfold run_hashes, live_hashes in Hk. by injection Hk as -> _ _. }
    rewrite same_shape_is, (String.eqb_sym (shape_of row)). destruct (String.eqb _ _); cbn [negb].
    + eexists. split; [done|]. apply (holds_write _ runs k r _ (longer_run s l row now)); [eapply holds_more; [done|lia]|done|by apply extend_own| |by apply longer_sound].
      apply extend_hashes; [done|apply Hs|]. by destruct Hrow as (_ & _ & _ & ? & _).
    + eexists. split.
      * f_equal. change (pop_run k r) with (run_hashes r k). rewrite Hk. apply decode_one_live, Hs.
      * assert (<[k := fresh_run s row now]> runs = <[k := fresh_run s row now]> (delete k runs)) as -> by by rewrite insert_delete_eq.
        apply (holds_write _ _ k (drop_run k r) _ (fresh_run s row now)); [|done|by apply start_own| |apply fresh_sound; [done|lia]].
        -- eapply holds_more; [by apply holds_drop|lia].
        -- apply start_hashes. by apply drop_own.
  - rewrite (same_shape_stored _ _ Hk). eexists. split; [done|].
    apply (holds_write _ _ k r _ (fresh_run s row now)); [eapply holds_more; [done|lia]|done|by apply start_own| |apply fresh_sound; [done|lia]].
    by apply start_hashes.
Qed.

Lemma pop_all_refines n due : forall runs r, holds n runs r -> NoDup due -> (forall k, k ∈ due -> is_Some (runs !! k)) ->
  decode_all s (pop_all due r).2 = Ok (spec_close s due runs).2 /\ holds n (spec_close s due runs).1 (pop_all due r).1.
Proof.
  induction due as [|k due IH]; intros runs r Hh Hnd Hin; cbn; [done|].
  apply NoDup_cons in Hnd as [Hk Hnd]. destruct (Hin k) as [l El]; [by left|]. pose proof Hh as (Hall & Hr & _). destruct (Hr _ _ El) as [Ht Hs].
  specialize (Hall _ Ht). rewrite El in Hall |- *. destruct (IH (delete k runs) (drop_run k r)) as [IH1 IH2]; [by apply holds_drop|done| |].
  { intros k' Hk'. rewrite lookup_delete_ne by (by intros ->). apply Hin. by right. }
  destruct (decide (HGETALL r k = ∅)) as [He|_].
  { unfold run_hashes, live_hashes in Hall. injection Hall as Hf _ _. rewrite Hf in He. by apply fields_not_empty in He. }
  change (pop_run k r) with (run_hashes r k). rewrite Hall.
  destruct (pop_all due (drop_run k r)) as [r' ps]. destruct (spec_close s due (delete k runs)) as [runs' outs]. cbn [fst snd] in *.
  split; [|done]. cbn [app decode_all]. by rewrite decode_one_live, IH1 by apply Hs.
Qed.

(** *** A history of the store *)
Definition fold_step (e : fold_event) (r : R) : R * res (list TraceRow) :=
  match e with Put row now => Append s row now r | Sweep now limit => Expire s now limit r end.
Fixpoint store_run (evs : list fold_event) (r : R) : R * list (res (list TraceRow)) :=
  match evs with
  | [] => (r, [])
  | e :: evs => let '(r, out) := fold_step e r in let '(r, outs) := store_run evs r in (r, out :: outs)
  end.
Definition rows_put (evs : list fold_event) : list TraceRow := omap (fun e => match e with Put row _ => Some row | Sweep _ _ => None end) evs.

Lemma expire_refines n runs r now limit : holds n runs r ->
  exists runs' out r', Expire s now limit r = (r', Ok out) /\ spec_step s runs (Sweep now limit) runs' out /\ holds n runs' r'.
Proof.
  intros Hh. pose proof Hh as (_ & _ & Hz). destruct (range_due r openZSet (UnixMilli now)) as (due & Hnd & Hdue & Hlim).
  assert (forall k, k ∈ due <-> exists l, runs !! k = Some l /\ lv_due l <= UnixMilli now) as Hdue'.
  { intros k. rewrite Hdue, Hz, lookup_fmap. split.
    - intros (z & Hl & Hle). apply fmap_Some in Hl as (l & Hl & ->). by exists l.
    - intros (l & -> & Hle). by eexists. }
  unfold Expire, expireScript. rewrite Hlim. destruct (pop_all_refines n (take limit due) runs r Hh) as [H1 H2].
  - eapply sublist_NoDup; [exact Hnd|apply sublist_take].
  - intros k Hk. destruct (proj1 (Hdue' k)) as (l & Hl & _); [|by eexists]. by eapply subseteq_take.
  - destruct (pop_all _ _) as [r' ps]. cbn [fst snd] in *. eexists _, _, r'. rewrite H1. split_and!; [done| |done]. by apply step_sweep.
Qed.

Lemma store_simulates evs : forall n runs r, fc_maxBytes s <= 2 ^ 53 -> 0 <= n -> n + Z.of_nat (List.length (rows_put evs)) <= 2 ^ 53 ->
  Forall row_ok (rows_put evs) -> holds n runs r ->
  exists runs' outs r' n', store_run evs r = (r', map Ok outs) /\ spec_run s runs evs runs' outs /\ holds n' runs' r'.
Proof.
  induction evs as [|e evs IH]; intros n runs r Hmax Hn Hlim Hrows Hh; [by exists runs, [], r, n; split_and!; [|constructor|]|].
  assert (exists runs1 out r1 n1, fold_step e r = (r1, Ok out) /\ spec_step s runs e runs1 out /\ holds n1 runs1 r1 /\
    0 <= n1 /\ n1 + Z.of_nat (List.length (rows_put evs)) <= 2 ^ 53 /\ Forall row_ok (rows_put evs)) as (runs1 & out & r1 & n1 & H1 & S1 & Hh1 & Hn1 & Hlim1 & Hrows1).
  { destruct e as [row now|now limit]; cbn [fold_step].
    - apply Forall_cons in Hrows as [Hrow Hrows]. change (rows_put (Put row now :: evs)) with (row :: rows_put evs) in Hlim. cbn [List.length] in Hlim.
      destruct (append_refines n runs r row now Hmax ltac:(lia) Hn Hrow Hh) as (r1 & -> & Hh1). eexists _, _, r1, (n + 1).
      split_and!; [done|constructor|done|lia|lia|done].
    - destruct (expire_refines n runs r now limit Hh) as (runs1 & out & r1 & -> & S1 & Hh1). by exists runs1, out, r1, n. }
  destruct (IH n1 runs1 r1) as (runs' & outs & r' & n' & H2 & S2 & Hh2); [done..|].
  exists runs', (out :: outs), r', n'. cbn [store_run]. rewrite H1, H2. split_and!; [done|by econstructor|done].
Qed.
Definition store_empty (r : R) : Prop := (forall k, tidy k -> run_hashes r k = unused) /\ ZSCORES r openZSet = ∅.
Lemma empty_holds r : store_empty r -> holds 0 ∅ r.
Proof. intros [H1 H2]. split_and!; [intros k Hk; rewrite lookup_empty; by apply H1|done|by rewrite H2, fmap_empty]. Qed.

End refine.

(** *** A concrete history *)
Import RedisMaps.
Module FoldHistory.
Definition cfg : foldConfig := mkFoldConfig (2 * Second) (600 * Second) 1000 2.
Definition history : list fold_event := [Put frame2 0; Sweep 0 10; Put frame1 1; Sweep (3 * Second) 10].
Lemma frames_ok : Forall (row_ok of_frames) (rows_put history).
Proof.
  repeat constructor; unfold of_frames; try (by left); try (by right); try (by vm_compute); by intros H; vm_compute in H.
Qed.
Lemma store_starts_empty : store_empty RedisMaps.empty.
Proof. split; [|done]. intros k _. unfold run_hashes, unused. cbn. unfold hash_at. cbn. by rewrite !lookup_empty. Qed.
(** Both frames in one record, read in the order of their numbers. *)
Example history_folds : map (fun out => match out with Ok rows => map (fun row => tr_Body (tw_Record row)) rows | Err _ => [] end)
  (store_run cfg history RedisMaps.empty).2 = [[]; []; []; ["Hello"]].
Proof. vm_compute. reflexivity. Qed.
End FoldHistory.

