(* ===== verification/FoldOnce.v ===== *)
(** Every record handed to the fold comes back once: as itself, or as one of the
    run that the record it comes back in stands for. *)
From S2P Require Import Prelude Order GoStr Decimal F64 GoTime Cost Trace Fold FoldStore RedisMaps FoldRefine.
From stdpp Require Import sorting.
From Stdlib Require Import String Ascii.
#[local] Open Scope string_scope.
#[local] Open Scope Z_scope.

(** ** What a run stands for *)
Section groups.
Context {RJ : RawJSON} (s : foldConfig).

Definition held_of (g : list TraceRow) : gmap Z TraceRow := foldl (fun m row => <[seq_of row := row]> m) ∅ g.
(** What becomes of the records of one run. *)
Definition out_of (g : list TraceRow) : list TraceRow :=
  match g with [] => [] | r :: rest => give s (mkLive (run_of r rest (fc_maxBytes s)) (held_of g) 0) end.
Definition stands_as (l : open_run) (g : list TraceRow) : Prop := exists r rest,
  g = r :: rest /\ lv_open l = run_of r rest (fc_maxBytes s) /\ (Z.of_nat (List.length g) < fc_minRun s -> lv_held l = held_of g).
(** The records of a run are of one key and one shape. *)
Definition alike (k : string) (g : list TraceRow) : Prop :=
  exists r rest, g = r :: rest /\ Forall (fun x => run_key x = k /\ shape_of x = shape_of r) g.
Definition stands (runs : gmap string open_run) (grp : gmap string (list TraceRow)) : Prop :=
  forall k, match runs !! k, grp !! k with
       | Some l, Some g => stands_as l g /\ alike k g
       | None, None => True
       | _, _ => False
       end.

Lemma run_steady r rest maxBytes : let o := run_of r rest maxBytes in
  op_Count o = 1 + Z.of_nat (List.length rest) /\ op_Shape o = shape_of r /\ op_First o = r /\ op_Key o = KeyOf r /\ op_Mergeable o = mergeable_of r /\
  op_LastSeq o = foldr Z.max (seq_of r) (map seq_of rest).
Proof.
  unfold run_of. induction rest as [|x rest IH] using rev_ind; [by rewrite start_fields|].
  rewrite foldl_app. cbn [foldl]. destruct IH as (H1 & H2 & H3 & H4 & H5 & H6).
  destruct (absorb_fields (foldl (fun o r => Absorb o r maxBytes) (Start r) rest) x maxBytes) as (A1 & A2 & A3 & A4 & _ & A6 & A7 & _).
  cbv zeta. rewrite A1, A2, A3, A4, A6, A7, H1, H2, H3, H4, H5, H6, length_app, map_app. cbn. split_and!; try done; [lia|].
  rewrite foldr_app. cbn. clear. induction rest as [|y l IHl]; cbn; lia.
Qed.
Lemma ms_open_fields o : op_Count (ms_open o) = op_Count o /\ op_First (ms_open o) = op_First o /\ op_Mergeable (ms_open o) = op_Mergeable o /\
  op_LastSeq (ms_open o) = op_LastSeq o.
Proof. done. Qed.

Lemma give_out l g : stands_as l g -> give s l = out_of g.
Proof.
  intros (r & rest & -> & Ho & Hh). unfold out_of, give. cbn [lv_open lv_held]. rewrite Ho.
  destruct (run_steady r rest (fc_maxBytes s)) as (Hc & _). unfold Close. cbn [ms_open op_Count]. rewrite Hc.
  destruct (Z.ltb_spec (1 + Z.of_nat (List.length rest)) (fc_minRun s)); [|done]. rewrite Hh; [done|]. cbn [List.length]. lia.
Qed.
Lemma represents_fresh row now : stands_as (fresh_run s row now) [row].
Proof. exists row, []. split_and!; try done. Qed.
Lemma represents_longer l g row now : stands_as l g -> stands_as (longer_run s l row now) (g ++ [row]).
Proof.
  intros (r & rest & -> & Ho & Hh). exists r, (rest ++ [row])%list. split; [done|].
  assert (Absorb (run_of r rest (fc_maxBytes s)) row (fc_maxBytes s) = run_of r (rest ++ [row]) (fc_maxBytes s)) as Ha by (unfold run_of; by rewrite foldl_app).
  unfold longer_run. cbn [lv_open lv_held]. rewrite Ho, Ha. split; [done|]. intros Hlen.
  destruct (run_steady r (rest ++ [row]) (fc_maxBytes s)) as (Hc & _). rewrite Hc. cbn [app List.length] in *. rewrite length_app in *. cbn [List.length] in *.
  destruct (Z.ltb_spec (1 + Z.of_nat (List.length rest + 1)) (fc_minRun s)); [|lia].
  rewrite Hh by lia. unfold held_of. cbn [foldl app]. by rewrite foldl_app.
Qed.

(** *** What comes back *)
Definition tagged (g : list TraceRow) : list (Z * TraceRow) := map (fun row => (seq_of row, row)) g.
Lemma held_of_list g : held_of g = list_to_map (reverse (tagged g)).
Proof.
  unfold held_of. induction g as [|row g IH] using rev_ind; [done|].
  unfold tagged. rewrite foldl_app, map_app, reverse_app. cbn. by rewrite IH.
Qed.
Lemma tagged_seqs g : map fst (tagged g) = map seq_of g.
Proof. unfold tagged. rewrite map_map. by apply map_ext. Qed.
Lemma held_rows_perm g : NoDup (map seq_of g) -> held_rows (held_of g) ≡ₚ g.
Proof.
  intros Hnd. assert (NoDup ((reverse (tagged g)).*1)) as Hnd' by (rewrite reverse_Permutation; change (NoDup (map fst (tagged g))); by rewrite tagged_seqs).
  unfold held_rows. rewrite sort_by_perm. rewrite held_of_list, map_to_list_to_map, reverse_Permutation by done. rewrite tagged_seqs.
  assert (forall l, l ⊆ g -> omap (fun seq => (list_to_map (M := gmap Z TraceRow) (reverse (tagged g))) !! seq) (map seq_of l) = l) as H; [|by rewrite H].
  induction l as [|row l IH]; intros Hsub; [done|]. cbn.
  assert ((list_to_map (M := gmap Z TraceRow) (reverse (tagged g))) !! seq_of row = Some row) as ->.
  { apply elem_of_list_to_map_1; [done|]. rewrite elem_of_reverse. apply list_elem_of_fmap. exists row. split; [done|]. apply Hsub. by left. }
  f_equal. apply IH. intros x Hx. apply Hsub. by right.
Qed.

(** A run too short to fold gives its records back, a longer one the one record
    that counts them. *)
Lemma out_short g : g <> [] -> Z.of_nat (List.length g) < fc_minRun s -> NoDup (map seq_of g) -> out_of g ≡ₚ g.
Proof.
  destruct g as [|r rest]; [done|]. intros _ Hlen Hnd. unfold out_of, give. cbn [lv_open lv_held].
  destruct (run_steady r rest (fc_maxBytes s)) as (Hc & _). unfold Close. cbn [ms_open op_Count]. rewrite Hc.
  cbn [List.length] in Hlen. destruct (Z.ltb_spec (1 + Z.of_nat (List.length rest)) (fc_minRun s)); [|lia]. by apply held_rows_perm.
Qed.
Definition stands_for (rec : TraceRow) (r : TraceRow) (rest : list TraceRow) : Prop :=
  seq_of rec = seq_of r /\ KeyOf rec = KeyOf r /\
  tr_Attrs (tw_Record rec) = withFolded (tr_Attrs (tw_Record r)) (1 + Z.of_nat (List.length rest)) (seq_of r)
    (foldr Z.max (seq_of r) (map seq_of rest)) (mergeable_of r).
Lemma out_long r rest : fc_minRun s <= Z.of_nat (List.length (r :: rest)) -> exists rec, out_of (r :: rest) = [rec] /\ stands_for rec r rest.
Proof.
  intros Hlen. unfold out_of, give. cbn [lv_open lv_held]. destruct (run_steady r rest (fc_maxBytes s)) as (Hc & _ & Hf & _ & Hm & Hl).
  destruct (ms_open_fields (run_of r rest (fc_maxBytes s))) as (Mc & Mf & Mm & Ml).
  unfold Close. rewrite Mc, Mf, Mm, Ml, Hc, Hf, Hm, Hl. cbn [List.length] in Hlen.
  destruct (Z.ltb_spec (1 + Z.of_nat (List.length rest)) (fc_minRun s)); [lia|]. eexists. split; [done|]. by split_and!.
Qed.

(** ** A step of the store *)
Definition all_rows (grp : gmap string (list TraceRow)) : list TraceRow := List.concat (map snd (map_to_list grp)).
Lemma all_rows_fresh grp k g : grp !! k = None -> all_rows (<[k := g]> grp) ≡ₚ (g ++ all_rows grp)%list.
Proof. intros H. unfold all_rows. by rewrite map_to_list_insert. Qed.
Lemma all_rows_take grp k g : grp !! k = Some g -> all_rows grp ≡ₚ (g ++ all_rows (delete k grp))%list.
Proof. intros H. rewrite <-(insert_delete_id _ _ _ H) at 1. apply all_rows_fresh, lookup_delete_eq. Qed.
Lemma stands_insert runs grp k l g : stands runs grp -> stands_as l g -> alike k g -> stands (<[k := l]> runs) (<[k := g]> grp).
Proof.
  intros Hs Hr Ha k'. destruct (decide (k' = k)) as [->|Hne]; [by rewrite !lookup_insert_eq|]. rewrite !lookup_insert_ne by done. apply Hs.
Qed.
Lemma stands_delete runs grp k : stands runs grp -> stands (delete k runs) (delete k grp).
Proof. intros Hs k'. destruct (decide (k' = k)) as [->|Hne]; [by rewrite !lookup_delete_eq|]. rewrite !lookup_delete_ne by done. apply Hs. Qed.
Lemma alike_more k r rest row : alike k (r :: rest) -> run_key row = k -> shape_of row = shape_of r -> alike k ((r :: rest) ++ [row]).
Proof.
  intros (r' & rest' & [= <- <-] & Hall) Hk Hsh. exists r, (rest ++ [row])%list. split; [done|]. apply Forall_app. split; [done|]. by repeat constructor.
Qed.

Lemma close_groups due : forall runs grp, stands runs grp -> exists closed grp',
  stands (spec_close s due runs).1 grp' /\ all_rows grp ≡ₚ (List.concat closed ++ all_rows grp')%list /\
  (spec_close s due runs).2 = List.concat (map out_of closed) /\ Forall (fun g => exists k, alike k g) closed.
Proof.
  induction due as [|k due IH]; intros runs grp Hs; cbn [spec_close]; [by exists [], grp|].
  destruct (IH _ _ (stands_delete _ _ k Hs)) as (closed & grp' & H1 & H2 & H3 & H4).
  destruct (spec_close s due (delete k runs)) as [runs' out]. cbn [fst snd] in *. specialize (Hs k).
  destruct (runs !! k) as [l|] eqn:El, (grp !! k) as [g|] eqn:Eg; try done.
  - destruct Hs as [Hr Ha]. exists (g :: closed), grp'. cbn [List.concat map]. split_and!; [done| |by rewrite (give_out _ _ Hr), H3|constructor; [by eexists|done]].
    rewrite (all_rows_take _ _ _ Eg), H2. by rewrite app_assoc.
  - exists closed, grp'. split_and!; try done. by rewrite <-(delete_id grp k) by done.
Qed.
Lemma step_groups runs e runs' out grp : spec_step s runs e runs' out -> stands runs grp -> exists closed grp',
  stands runs' grp' /\ (rows_put [e] ++ all_rows grp ≡ₚ List.concat closed ++ all_rows grp')%list /\
  out = List.concat (map out_of closed) /\ Forall (fun g => exists k, alike k g) closed.
Proof.
  intros [runs0 row now|runs0 now limit due _ _] Hs; [|apply close_groups, Hs].
  pose proof (Hs (run_key row)) as Hk. unfold spec_append. cbn [rows_put omap list_omap app].
  assert (alike (run_key row) [row]) as Halone by (exists row, []; split; [done|by repeat constructor]).
  destruct (runs0 !! run_key row) as [l|] eqn:El, (grp !! run_key row) as [g|] eqn:Eg; try done.
  - destruct Hk as [Hr Ha]. destruct (SameShape (lv_open l) row) eqn:Esh; cbn [fst snd].
    + exists [], (<[run_key row := (g ++ [row])%list]> grp). split_and!; [|cbn [List.concat app]|done|done].
      * apply stands_insert; [done|by apply represents_longer|]. destruct Hr as (r & rest & -> & Ho & _). apply alike_more; [done|done|].
        rewrite same_shape_is, Ho in Esh. apply String.eqb_eq in Esh. by rewrite Esh, (proj1 (proj2 (run_steady r rest _))).
      * rewrite <-insert_delete_eq, all_rows_fresh by apply lookup_delete_eq. rewrite (all_rows_take _ _ _ Eg).
        rewrite <-app_assoc. apply Permutation_middle.
    + exists [g], (<[run_key row := [row]]> grp). cbn [List.concat app map]. rewrite !app_nil_r. split_and!; [| |by apply give_out|constructor; [by eexists|done]].
      * apply stands_insert; [done|apply represents_fresh|done].
      * rewrite <-insert_delete_eq, all_rows_fresh by apply lookup_delete_eq. rewrite (all_rows_take _ _ _ Eg). cbn [app]. apply Permutation_middle.
  - exists [], (<[run_key row := [row]]> grp). cbn [List.concat app map fst snd]. split_and!; [|by rewrite all_rows_fresh|done|done].
    apply stands_insert; [done|apply represents_fresh|done].
Qed.
Lemma run_groups runs evs runs' outs grp : spec_run s runs evs runs' outs -> stands runs grp -> exists closed grp',
  stands runs' grp' /\ (rows_put evs ++ all_rows grp ≡ₚ List.concat closed ++ all_rows grp')%list /\
  List.concat outs = List.concat (map out_of closed) /\ Forall (fun g => exists k, alike k g) closed.
Proof.
  intros H. revert grp. induction H as [runs|runs e runs1 out evs runs2 outs Hstep _ IH]; intros grp Hs; [by exists [], grp|].
  destruct (step_groups _ _ _ _ _ Hstep Hs) as (closed1 & grp1 & Hs1 & Hp1 & Ho1 & Ha1).
  destruct (IH _ Hs1) as (closed2 & grp2 & Hs2 & Hp2 & Ho2 & Ha2).
  exists (closed1 ++ closed2)%list, grp2. rewrite List.concat_app, map_app, List.concat_app. cbn [List.concat]. rewrite Ho1, Ho2. split_and!; try done; [|by apply Forall_app].
  assert (rows_put (e :: evs) = rows_put [e] ++ rows_put evs)%list as -> by (by destruct e).
  rewrite <-app_assoc, (Permutation_app_swap_app (rows_put [e])), Hp1, app_assoc, (Permutation_app_comm (rows_put evs)), <-app_assoc, Hp2.
  by rewrite app_assoc.
Qed.

Lemma stands_nothing : stands ∅ ∅.
Proof. intros k. by rewrite !lookup_empty. Qed.
(** What a run gives back when it is closed. *)
Definition comes_back (g out : list TraceRow) : Prop := exists r rest, g = r :: rest /\
  Forall (fun x => run_key x = run_key r /\ shape_of x = shape_of r) rest /\
  (Z.of_nat (List.length g) < fc_minRun s -> out ≡ₚ g) /\
  (fc_minRun s <= Z.of_nat (List.length g) -> exists rec, out = [rec] /\ stands_for rec r rest).
Lemma group_comes_back k g : alike k g -> NoDup (map (fun row => (run_key row, seq_of row)) g) -> comes_back g (out_of g).
Proof.
  intros (r & rest & -> & Hall) Hnd. exists r, rest. apply Forall_cons in Hall as [[Hk _] Hrest]. split_and!; [done| | |apply out_long].
  - eapply Forall_impl; [exact Hrest|]. intros x [Hx Hsh]. split; [congruence|done].
  - intros Hlen. apply out_short; [done|done|].
    assert (map (fun row => (run_key row, seq_of row)) (r :: rest) = map (pair k) (map seq_of (r :: rest))) as Hpair.
    { rewrite map_map. apply map_ext_in. intros x Hx. f_equal. assert (Forall (fun x => run_key x = k) (r :: rest)) as Hkeys
        by (constructor; [done|]; eapply Forall_impl; [exact Hrest|]; by intros y [? _]).
      rewrite Forall_forall in Hkeys. apply Hkeys. by apply list_elem_of_In. }
    rewrite Hpair in Hnd. by eapply NoDup_fmap_1.
Qed.
Lemma part_distinct {B} (f : TraceRow -> B) (closed : list (list TraceRow)) rest l :
  NoDup (map f l) -> l ≡ₚ (List.concat closed ++ rest)%list -> Forall (fun g => NoDup (map f g)) closed.
Proof.
  intros Hnd Hp. rewrite Hp in Hnd. clear Hp. induction closed as [|g closed IH]; [constructor|].
  cbn [List.concat] in Hnd. rewrite <-app_assoc, map_app in Hnd. apply NoDup_app in Hnd as (Hg & _ & Hrest). constructor; [done|by apply IH].
Qed.
End groups.

(** No record of a stream is lost or counted twice: records of distinct numbers
    that were appended to an empty store are afterwards either still in an open
    run, which the store has due for closing, or in exactly one run that was
    closed and gave back what it stood for. *)
Lemma store_accounts {R : Type} {RD : Redis R} {RL : RedisLaws R} {RJ : RawJSON} {RW : RowJSON} (s : foldConfig)
    (plain : TraceRow -> Prop) (plain_reads : forall row, plain row -> exists text, row_text row = Ok text /\ decodeRecord text = Some row)
    (evs : list fold_event) (r : R) :
  fc_maxBytes s <= 2 ^ 53 -> Z.of_nat (List.length (rows_put evs)) <= 2 ^ 53 -> Forall (row_ok plain) (rows_put evs) -> store_empty r ->
  NoDup (map (fun row => (run_key row, seq_of row)) (rows_put evs)) ->
  exists outs r' closed given open, store_run s evs r = (r', map Ok outs) /\ List.concat outs = List.concat given /\
    rows_put evs ≡ₚ (List.concat closed ++ all_rows open)%list /\ Forall2 (comes_back s) closed given /\
    (forall k, is_Some (open !! k) <-> is_Some (ZSCORES r' openZSet !! k)).
Proof.
  intros Hmax Hlen Hrows He Hnd.
  destruct (store_simulates s plain plain_reads evs 0 ∅ r Hmax ltac:(lia) Hlen Hrows (empty_holds _ _ He)) as (runs & outs & r' & n & H1 & H2 & H3).
  destruct (run_groups s _ _ _ _ ∅ H2 (stands_nothing s)) as (closed & open & Hs & Hp & Ho & Ha).
  unfold all_rows at 1 in Hp. rewrite map_to_list_empty, app_nil_r in Hp.
  exists outs, r', closed, (map (out_of s) closed), open. split_and!; [done|done|done| |].
  - pose proof (part_distinct _ _ _ _ Hnd Hp) as Hd. clear -Ha Hd. induction closed as [|g closed IH]; [constructor|].
    apply Forall_cons in Ha as [[k Hk] Ha]. apply Forall_cons in Hd as [Hg Hd]. constructor; [by eapply group_comes_back|by apply IH].
  - intros k. destruct H3 as (_ & _ & ->). rewrite lookup_fmap, fmap_is_Some. specialize (Hs k).
    destruct (runs !! k), (open !! k); try done; split; intros [? ?]; by (done || eexists).
Qed.

Import RedisMaps.
(** Records of one number in one run: the second takes the place of the first. *)
Example one_number_loses_a_record :
  out_of (mkFoldConfig (2 * Second) (600 * Second) 1000 5) [frame_row 1 "e1" "Hel"; frame_row 1 "e2" "lo"] = [frame_row 1 "e2" "lo"].
Proof. vm_compute. reflexivity. Qed.
