(* ===== verification/Ingest.v ===== *)
(** [internal/ingest/traceconsumer.go] of the observability service: decoding,
    pricing, folding and batching what arrives, and the flush on the way out.

    What a call outside the process answered - the integration lookup, the clock -
    comes with the message it was asked for; the folder and the store are classes.
    The writer is one goroutine, so its life is the sequence of the events its
    [select] takes. *)
From S2P Require Import Prelude Order GoStr F64 GoTime Cost Trace Fold FoldStore RedisMaps FoldRefine FoldOnce.
From Stdlib Require Import String Ascii.
#[local] Open Scope string_scope.
#[local] Open Scope Z_scope.

Definition traceBatchSize : nat := 500.
Definition expireLimit : nat := 200.
Definition expirePasses : nat := 10.

(** ** What the consumer calls *)
Class Folder (F : Type) : Type := {
  folder_Append : TraceRow -> Z -> F -> F * res (list TraceRow);
  folder_Expire : Z -> nat -> F -> F * res (list TraceRow) }.
(** A store, with the batches it has been given. *)
Class TraceStore (D : Type) : Type := {
  Insert : list TraceRow -> D -> D * option goerr;
  inserted : D -> list (list TraceRow);
  inserted_Insert : forall rows d, inserted (Insert rows d).1 = (inserted d ++ [rows])%list }.

(** A delivered message, with what the lookup of its deployment and the clock
    answered while it was taken. *)
Record trace_delivery : Type := mkDelivery {
  dl_Data : res traceWire;
  dl_integration : res (string * bool);
  dl_price : cost_Call -> Priced;
  dl_now : Z }.

Definition foldable (kind : string) : bool := String.eqb kind KindBlockPreInvoke || String.eqb kind KindBlockPostInvoke.

Record traceBatch : Type := mkBatch { tb_rows : list TraceRow; tb_armed : bool }.
Definition newTraceBatch : traceBatch := mkBatch [] false.

Section consumer.
Context {F D : Type} {FF : Folder F} {DD : TraceStore D} {RJ : RawJSON}.

Record writer : Type := mkWriter { wr_batch : traceBatch; wr_folder : option F; wr_store : D }.

(** [flush] disarms, and writes what there is; a failed write is logged. *)
Definition batch_flush (w : writer) : writer :=
  match tb_rows (wr_batch w) with
  | [] => mkWriter (mkBatch [] false) (wr_folder w) (wr_store w)
  | rows => mkWriter (mkBatch [] false) (wr_folder w) (Insert rows (wr_store w)).1
  end.
Definition batch_add (w : writer) (row : TraceRow) : writer :=
  let rows := (tb_rows (wr_batch w) ++ [row])%list in
  if (traceBatchSize <=? List.length rows)%nat then batch_flush (mkWriter (mkBatch rows (tb_armed (wr_batch w))) (wr_folder w) (wr_store w))
  else mkWriter (mkBatch rows true) (wr_folder w) (wr_store w).

(** [row]. *)
Definition row_of (m : trace_delivery) : option TraceRow :=
  match parseTraceRecord (dl_now m) (dl_Data m) with
  | Err _ => None
  | Ok record =>
      let integration := match dl_integration m with Ok (id, true) => id | _ => "" end in
      let '(call, isModelCall) := ModelCall record in
      Some (mkTraceRow record integration (if (isModelCall : bool) then dl_price m call else zeroPriced))
  end.

Definition fold_row (w : writer) (row : TraceRow) (now : Z) : writer * list TraceRow :=
  match wr_folder w with
  | None => (w, [row])
  | Some f =>
      if negb (foldable (tr_Kind (tw_Record row))) then (w, [row])
      else
        let '(f, out) := folder_Append row now f in
        (mkWriter (wr_batch w) (Some f) (wr_store w), match out with Ok rows => rows | Err _ => [row] end)
  end.
Definition take_message (w : writer) (m : trace_delivery) : writer :=
  match row_of m with
  | None => w
  | Some row => let '(w, rows) := fold_row w row (dl_now m) in foldl batch_add w rows
  end.

(** [sweep], the clock read before each pop. *)
Fixpoint sweep_passes (n : nat) (clock : nat -> Z) (w : writer) : writer :=
  match n with
  | O => w
  | S n =>
      match wr_folder w with
      | None => w
      | Some f =>
          let '(f, done_) := folder_Expire (clock n) expireLimit f in
          let w := mkWriter (wr_batch w) (Some f) (wr_store w) in
          match done_ with
          | Err _ => w
          | Ok rows => let w := foldl batch_add w rows in
                       if (List.length rows <? expireLimit)%nat then w else sweep_passes n clock w
          end
      end
  end.
Definition sweep_folds (clock : nat -> Z) (w : writer) : writer := sweep_passes expirePasses clock w.

(** The cases of the [select] while the context is live, and the drain that ends
    the loop once it is done: the record in hand if there was one, what is in the
    channel, a last sweep, the flush. *)
Inductive wake : Type := Delivered (m : trace_delivery) | BatchDue | SweepDue (clock : nat -> Z).
Definition on_wake (w : writer) (e : wake) : writer :=
  match e with
  | Delivered m => take_message w m
  | BatchDue => batch_flush w
  | SweepDue clock => batch_flush (sweep_folds clock w)
  end.
Definition drain_writer (first : option trace_delivery) (waiting : list trace_delivery) (clock : nat -> Z) (w : writer) : writer :=
  let w := match first with Some m => take_message w m | None => w end in
  batch_flush (sweep_folds clock (foldl take_message w waiting)).
Definition write (wakes : list wake) (first : option trace_delivery) (waiting : list trace_delivery) (clock : nat -> Z) (w : writer) : writer :=
  drain_writer first waiting clock (foldl on_wake w wakes).

(** Every message the writer took, in order. *)
Definition messages_taken (wakes : list wake) (first : option trace_delivery) (waiting : list trace_delivery) : list trace_delivery :=
  (omap (fun e => match e with Delivered m => Some m | _ => None end) wakes ++ option_list first ++ waiting)%list.

(** ** The batch *)
Definition batch_ok (w : writer) : Prop :=
  (List.length (tb_rows (wr_batch w)) < traceBatchSize)%nat /\ (tb_armed (wr_batch w) = true <-> tb_rows (wr_batch w) <> []).
Definition batches_ok (d : D) : Prop := Forall (fun rows => rows <> [] /\ (List.length rows <= traceBatchSize)%nat) (inserted d).
(** Every row that has been added, in order. *)
Definition rows_added (w : writer) : list TraceRow := (List.concat (inserted (wr_store w)) ++ tb_rows (wr_batch w))%list.

(** What a step of the writer does to its batch and its store: [rows] are added
    in order. *)
Definition adds (rows : list TraceRow) (w w' : writer) : Prop :=
  rows_added w' = (rows_added w ++ rows)%list /\
  (batch_ok w -> batches_ok (wr_store w) -> batch_ok w' /\ batches_ok (wr_store w')).

Lemma adds_nil w : adds [] w w.
Proof. split; [by rewrite app_nil_r|done]. Qed.
Lemma adds_trans rows rows' w w1 w2 : adds rows w w1 -> adds rows' w1 w2 -> adds (rows ++ rows') w w2.
Proof. intros [H1 K1] [H2 K2]. split; [by rewrite H2, H1, app_assoc|]. intros Hb Hs. destruct (K1 Hb Hs). by apply K2. Qed.

Lemma flush_batch w : tb_rows (wr_batch (batch_flush w)) = [] /\ tb_armed (wr_batch (batch_flush w)) = false /\ wr_folder (batch_flush w) = wr_folder w.
Proof. unfold batch_flush. by destruct (tb_rows (wr_batch w)). Qed.
Lemma flush_written w : rows_added (batch_flush w) = rows_added w.
Proof.
  unfold batch_flush, rows_added. destruct (tb_rows (wr_batch w)) as [|r rows] eqn:E; cbn [wr_batch wr_store tb_rows]; [done|].
  rewrite inserted_Insert, List.concat_app. cbn [List.concat]. by rewrite !app_nil_r.
Qed.
Lemma flush_batches w : (List.length (tb_rows (wr_batch w)) <= traceBatchSize)%nat -> batches_ok (wr_store w) -> batches_ok (wr_store (batch_flush w)).
Proof.
  intros Hl Hs. unfold batch_flush. destruct (tb_rows (wr_batch w)) as [|r rows] eqn:E; cbn [wr_store]; [done|].
  unfold batches_ok. rewrite inserted_Insert. apply Forall_app. split; [done|]. by apply Forall_singleton.
Qed.
Lemma flush_ok w : batch_ok (batch_flush w).
Proof. destruct (flush_batch w) as (H1 & H2 & _). unfold batch_ok. rewrite H1, H2. split; [by apply Nat.ltb_lt|done]. Qed.
Lemma flush_adds w : adds [] w (batch_flush w).
Proof.
  split; [by rewrite flush_written, app_nil_r|]. intros [Hl _] Hs. split; [apply flush_ok|]. apply flush_batches; [lia|done].
Qed.

Lemma add_adds w row : adds [row] w (batch_add w row).
Proof.
  unfold batch_add. destruct (Nat.leb_spec traceBatchSize (List.length (tb_rows (wr_batch w) ++ [row]))) as [Hge|Hlt].
  - split; [by rewrite flush_written; unfold rows_added; cbn; rewrite app_assoc|].
    intros [Hl _] Hs. split; [apply flush_ok|]. apply flush_batches; [|done]. cbn. rewrite length_app. cbn. lia.
  - split; [by unfold rows_added; cbn; rewrite app_assoc|]. intros _ Hs. split; [|done]. split; [done|].
    cbn. split; [intros _ [_ ?]%app_eq_nil; done|done].
Qed.
Lemma add_folder w row : wr_folder (batch_add w row) = wr_folder w.
Proof. unfold batch_add. destruct (_ <=? _)%nat; [|done]. by rewrite (proj2 (proj2 (flush_batch _))). Qed.
Lemma adds_all rows : forall w, adds rows w (foldl batch_add w rows) /\ wr_folder (foldl batch_add w rows) = wr_folder w.
Proof.
  induction rows as [|row rows IH]; intros w; cbn [foldl]; [split; [apply adds_nil|done]|].
  destruct (IH (batch_add w row)) as [H1 H2]. split; [|by rewrite H2, add_folder].
  apply (adds_trans [row] rows _ (batch_add w row)); [apply add_adds|done].
Qed.

(** ** What the writer does

    Each row it adds was produced by a message that goes straight through, or by
    a call of the folder. *)
Definition folder_step (e : fold_event) (f : F) : F * res (list TraceRow) :=
  match e with Put row now => folder_Append row now f | Sweep now limit => folder_Expire now limit f end.
Fixpoint folder_run (evs : list fold_event) (f : F) : F * list (res (list TraceRow)) :=
  match evs with
  | [] => (f, [])
  | e :: evs => let '(f, out) := folder_step e f in let '(f, outs) := folder_run evs f in (f, out :: outs)
  end.
Lemma folder_run_app evs evs' f : folder_run (evs ++ evs') f =
  let '(f, outs) := folder_run evs f in let '(f, outs') := folder_run evs' f in (f, (outs ++ outs')%list).
Proof.
  revert f. induction evs as [|e evs IH]; intros f; cbn [app folder_run]; [by destruct (folder_run evs' f)|].
  destruct (folder_step e f) as [f1 out]. rewrite IH. destruct (folder_run evs f1) as [f2 outs]. by destruct (folder_run evs' f2).
Qed.

Inductive passage : Type := Direct (row : TraceRow) | Called (e : fold_event) (out : res (list TraceRow)).
Definition handled_rows (h : passage) : list TraceRow :=
  match h with
  | Direct row => [row]
  | Called _ (Ok rows) => rows
  | Called (Put row _) (Err _) => [row]
  | Called (Sweep _ _) (Err _) => []
  end.
Definition handled_event (h : passage) : option fold_event := match h with Direct _ => None | Called e _ => Some e end.
Definition handled_out (h : passage) : option (res (list TraceRow)) := match h with Direct _ => None | Called _ out => Some out end.
(** The row it was taken for. *)
Definition handled_row (h : passage) : option TraceRow := match h with Direct row => Some row | Called (Put row _) _ => Some row | _ => None end.
Definition row_foldable (row : TraceRow) : bool := foldable (tr_Kind (tw_Record row)).
(** Only block records go through the folder, and all of them do. *)
Definition routed (h : passage) : Prop :=
  match h with Direct row => row_foldable row = false | Called (Put row _) _ => row_foldable row = true | _ => True end.
Definition called (hs : list passage) (f f' : option F) : Prop :=
  match f with
  | None => f' = None /\ Forall (fun h => handled_event h = None) hs
  | Some f => Forall routed hs /\ exists f1, f' = Some f1 /\ folder_run (omap handled_event hs) f = (f1, omap handled_out hs)
  end.
Definition does (hs : list passage) (rows : list TraceRow) (w w' : writer) : Prop :=
  adds (flat_map handled_rows hs) w w' /\ called hs (wr_folder w) (wr_folder w') /\ omap handled_row hs = rows.

Lemma does_nil w : does [] [] w w.
Proof.
  split; [apply adds_nil|]. split; [|done]. unfold called. destruct (wr_folder w) as [f|]; [|done]. split; [done|]. by exists f.
Qed.
Lemma does_trans hs hs' rows rows' w w1 w2 : does hs rows w w1 -> does hs' rows' w1 w2 -> does (hs ++ hs') (rows ++ rows') w w2.
Proof.
  intros (A1 & C1 & R1) (A2 & C2 & R2). split_and!.
  - rewrite flat_map_app. by eapply adds_trans.
  - unfold called in *. destruct (wr_folder w) as [f|].
    + destruct C1 as (Hr1 & f1 & E1 & F1). rewrite E1 in C2. destruct C2 as (Hr2 & f2 & E2 & F2). split; [by apply Forall_app|]. exists f2. split; [done|].
      by rewrite !omap_app, folder_run_app, F1, F2.
    + destruct C1 as [E1 H1]. rewrite E1 in C2. destruct C2 as [E2 H2]. split; [done|]. by apply Forall_app.
  - by rewrite omap_app, R1, R2.
Qed.
Lemma does_flush w : does [] [] w (batch_flush w).
Proof.
  split; [apply flush_adds|]. split; [|done]. rewrite (proj2 (proj2 (flush_batch w))). apply (does_nil w).
Qed.

(** A change of the folder alone, and the rows that follow from it. *)
Definition with_folder (f : F) (w : writer) : writer := mkWriter (wr_batch w) (Some f) (wr_store w).
Lemma does_call e f f' out w : wr_folder w = Some f -> folder_step e f = (f', out) -> routed (Called e out) ->
  does [Called e out] (option_list (handled_row (Called e out))) w (foldl batch_add (with_folder f' w) (handled_rows (Called e out))).
Proof.
  intros Hf Hstep Hr. destruct (adds_all (handled_rows (Called e out)) (with_folder f' w)) as [Ha Hw]. split_and!.
  - cbn [flat_map]. rewrite app_nil_r. exact Ha.
  - unfold called. rewrite Hf, Hw. split; [by constructor|]. exists f'. split; [done|]. cbn. by rewrite Hstep.
  - cbn. by destruct e.
Qed.

Lemma take_does w m : exists hs, does hs (option_list (row_of m)) w (take_message w m).
Proof.
  unfold take_message. destruct (row_of m) as [row|]; [|exists []; apply does_nil]. unfold fold_row.
  destruct (wr_folder w) as [f|] eqn:Ef; [destruct (foldable (tr_Kind (tw_Record row))) eqn:Ek; cbn [negb]|].
  - destruct (folder_Append row (dl_now m) f) as [f' out] eqn:Ea. exists [Called (Put row (dl_now m)) out].
    assert (routed (Called (Put row (dl_now m)) out)) as Hr by done.
    pose proof (does_call (Put row (dl_now m)) f f' out w Ef Ea Hr) as Hd. by destruct out.
  - exists [Direct row]. destruct (adds_all [row] w) as [Ha Hw]. split_and!; [exact Ha| |done].
    unfold called. rewrite Hw, Ef. split; [by repeat constructor|]. by exists f.
  - exists [Direct row]. destruct (adds_all [row] w) as [Ha Hw]. split_and!; [exact Ha| |done].
    unfold called. rewrite Hw, Ef. split; [done|]. by repeat constructor.
Qed.
Lemma sweep_does n clock : forall w, exists hs, does hs [] w (sweep_passes n clock w).
Proof.
  induction n as [|n IH]; intros w; cbn [sweep_passes]; [exists []; apply does_nil|].
  destruct (wr_folder w) as [f|] eqn:Ef; [|exists []; apply does_nil].
  destruct (folder_Expire (clock n) expireLimit f) as [f' out] eqn:Ee.
  pose proof (does_call (Sweep (clock n) expireLimit) f f' out w Ef Ee I) as Hd. cbn [handled_row option_list] in Hd.
  destruct out as [rows|err]; [|by exists [Called (Sweep (clock n) expireLimit) (Err err)]].
  destruct (_ <? _)%nat; [by exists [Called (Sweep (clock n) expireLimit) (Ok rows)]|].
  destruct (IH (foldl batch_add (with_folder f' w) rows)) as [hs Hhs]. exists ([Called (Sweep (clock n) expireLimit) (Ok rows)] ++ hs)%list.
  by apply (does_trans _ _ [] [] _ _ _ Hd).
Qed.
Lemma takes_do ms : forall w, exists hs, does hs (omap row_of ms) w (foldl take_message w ms).
Proof.
  induction ms as [|m ms IH]; intros w; cbn [foldl]; [exists []; apply does_nil|].
  destruct (take_does w m) as [hs1 H1], (IH (take_message w m)) as [hs2 H2]. exists (hs1 ++ hs2)%list.
  pose proof (does_trans _ _ _ _ _ _ _ H1 H2) as H. cbn. by destruct (row_of m).
Qed.
Definition message_of (e : wake) : option trace_delivery := match e with Delivered m => Some m | _ => None end.
Lemma wake_does w e : exists hs, does hs (omap row_of (option_list (message_of e))) w (on_wake w e).
Proof.
  destruct e as [m| |clock]; cbn [on_wake message_of option_list].
  - destruct (takes_do [m] w) as [hs H]. by exists hs.
  - exists []. apply does_flush.
  - destruct (sweep_does expirePasses clock w) as [hs H]. exists (hs ++ [])%list. apply (does_trans _ _ [] [] _ _ _ H), does_flush.
Qed.
Lemma wakes_do es : forall w, exists hs, does hs (omap row_of (omap message_of es)) w (foldl on_wake w es).
Proof.
  induction es as [|e es IH]; intros w; cbn [foldl]; [exists []; apply does_nil|].
  destruct (wake_does w e) as [hs1 H1], (IH (on_wake w e)) as [hs2 H2]. exists (hs1 ++ hs2)%list.
  pose proof (does_trans _ _ _ _ _ _ _ H1 H2) as H. rewrite <-omap_app in H. cbn. by destruct (message_of e).
Qed.
Lemma write_does wakes first waiting clock w : exists hs, does hs (omap row_of (messages_taken wakes first waiting)) w (write wakes first waiting clock w).
Proof.
  unfold write, drain_writer, messages_taken. destruct (wakes_do wakes w) as [hs1 H1]. set (w1 := foldl on_wake w wakes) in *.
  destruct (takes_do (option_list first) w1) as [hs2 H2].
  assert (match first with Some m => take_message w1 m | None => w1 end = foldl take_message w1 (option_list first)) as -> by (by destruct first).
  set (w2 := foldl take_message w1 (option_list first)) in *. destruct (takes_do waiting w2) as [hs3 H3]. set (w3 := foldl take_message w2 waiting) in *.
  destruct (sweep_does expirePasses clock w3) as [hs4 H4].
  pose proof (does_trans _ _ _ _ _ _ _ H4 (does_flush _)) as H5.
  exists (hs1 ++ hs2 ++ hs3 ++ hs4 ++ [])%list. rewrite !omap_app.
  apply (does_trans _ _ _ _ _ _ _ H1), (does_trans _ _ _ _ _ _ _ H2). rewrite <-(app_nil_r (omap row_of waiting)). by apply (does_trans _ _ _ _ _ _ _ H3).
Qed.

(** A folder that answers without an error: the rows in order of kind. *)
Lemma direct_rows hs outs : omap handled_out hs = map Ok outs ->
  flat_map handled_rows hs ≡ₚ (omap (fun h => match h with Direct row => Some row | _ => None end) hs ++ List.concat outs)%list.
Proof.
  revert outs. induction hs as [|h hs IH]; intros outs Ho; [by destruct outs|].
  destruct h as [row|e out]; cbn in *; [by rewrite (IH outs Ho)|].
  destruct outs as [|o outs]; [done|]. injection Ho as -> Ho. cbn. rewrite (IH outs Ho). destruct e; cbn; apply Permutation_app_swap_app.
Qed.
Lemma split_rows hs : Forall routed hs ->
  omap (fun h => match h with Direct row => Some row | _ => None end) hs = List.filter (fun row => negb (row_foldable row)) (omap handled_row hs) /\
  rows_put (omap handled_event hs) = List.filter row_foldable (omap handled_row hs).
Proof.
  unfold rows_put. induction 1 as [|h hs Hr _ [IH1 IH2]]; [done|].
  destruct h as [row|[row now|now limit] out]; cbn in *; rewrite ?Hr; cbn; (split; [try f_equal; exact IH1|try f_equal; exact IH2]).
Qed.
End consumer.
Arguments writer : clear implicits.
Arguments wake : clear implicits.

(** ** The fold store behind the writer *)
Definition fold_folder {R : Type} {RD : Redis R} {RJ : RawJSON} {RW : RowJSON} (s : foldConfig) : Folder R := {|
  folder_Append row now r := Append s row now r; folder_Expire now limit r := Expire s now limit r |}.
Lemma folder_run_store {R : Type} {RD : Redis R} {RJ : RawJSON} {RW : RowJSON} (s : foldConfig) evs (r : R) :
  folder_run (FF := fold_folder s) evs r = store_run s evs r.
Proof. revert r. induction evs as [|e evs IH]; intros r; cbn; [done|]. destruct e; cbn; [destruct (Append s row now r)|destruct (Expire s now limit r)]; by rewrite IH. Qed.


(** *** A concrete consumer *)
Import RedisMaps.
Module IngestHistory.
#[export] Instance list_store : TraceStore (list (list TraceRow)) := {
  Insert rows d := ((d ++ [rows])%list, None); inserted d := d; inserted_Insert rows d := eq_refl }.
Definition wire (seq : Z) (fold_event kind text : string) : traceWire :=
  mkWire seq kind "t" fold_event "" "f" "f/1" "agent" (seq * 10 ^ 9) 0 "" false text "" false "" "d" "app" "v".
Definition message (seq : Z) (fold_event kind text : string) (now : Z) : trace_delivery :=
  mkDelivery (Ok (wire seq fold_event kind text)) (Ok ("i", true)) (fun _ => zeroPriced) now.
Definition wakes : list wake :=
  [Delivered (message 9 "e9" KindFlowStarted "{}" 0); Delivered (message 2 "e2" KindBlockPostInvoke "lo" 0); SweepDue (fun _ => 0);
   Delivered (message 1 "e1" KindBlockPostInvoke "Hel" 1)].
Definition at_end : nat -> Z := fun _ => 3 * Second.
Definition writes : list (list TraceRow) :=
  wr_store (write (FF := fold_folder FoldHistory.cfg) wakes None [] at_end (mkWriter newTraceBatch (Some RedisMaps.empty) [])).
(** The flow's record at the first sweep, the folded answer on the way out. *)
Example writes_are : map (map (fun row => (tr_Kind (tw_Record row), tr_Body (tw_Record row)))) writes =
  [[(KindFlowStarted, "{}")]; [(KindBlockPostInvoke, "Hello")]].
Proof. vm_compute. reflexivity. Qed.
End IngestHistory.
Import IngestHistory.
