(* ===== verification/RuntimeVersion.v ===== *)
(** [internal/runtimeversion] of the orchestrator: which release an image is,
    which of two releases is behind, and what a deployment may be pinned to. *)
From S2P Require Import Prelude Order GoStr.
From stdpp Require Import sorting.
From Stdlib Require Import String Ascii.
#[local] Open Scope string_scope.
#[local] Open Scope Z_scope.

(** [strings.LastIndex(s, string(c))]. *)
Fixpoint last_index (s : string) (c : ascii) : option nat :=
  match s with
  | "" => None
  | String a r => (match last_index r c with Some i => Some (S i) | None => if Ascii.eqb a c then Some 0%nat else None end)
  end.
Definition after_last (s : string) (c : ascii) : string := match last_index s c with Some i => str_drop (S i) s | None => s end.

Definition ImageTag (image : string) : string :=
  if contains_byte image "@" then ""
  else
    let name := after_last image "/" in
    match last_index name ":" with
    | None => ""
    | Some i => if String.eqb (str_take i name) "sha256" || String.eqb (str_take i name) "sha512" then "" else str_drop (S i) name
    end.
Definition Current (version image : string) : string := if negb (String.eqb version "") then version else ImageTag image.

(** [releasePattern]: an optional [v], then numbers with dots between them. *)
Fixpoint all_digits (s : string) : bool :=
  match s with "" => true | String a r => match digit a with Some _ => all_digits r | None => false end end.
Definition number_text (s : string) : bool := negb (String.eqb s "") && all_digits s.
Definition without_v (s : string) : string := match s with String "v" r => r | _ => s end.
Definition release_parts (tag : string) : option (list Z) :=
  let fields := split_on "." (without_v (TrimSpace tag)) in
  if forallb number_text fields then mapM atoi fields else None.
Definition IsRelease (tag : string) : bool := match release_parts tag with Some _ => true | None => false end.

Definition part (parts : list Z) (i : nat) : Z := default 0 (parts !! i).
(** The loop of [Behind] over [n] components from [i] on. *)
Fixpoint older_from (n i : nat) (a b : list Z) : bool :=
  match n with
  | O => false
  | S n => if negb (part a i =? part b i) then part a i <? part b i else older_from n (S i) a b
  end.
Definition older_release (a b : list Z) : bool := older_from (List.length a `max` List.length b) 0 a b.
Definition Behind (deployed current : string) : bool :=
  if String.eqb deployed "" || String.eqb current "" || String.eqb deployed current then false
  else match release_parts deployed, release_parts current with Some a, Some b => older_release a b | _, _ => false end.

Definition WithTag (image tag : string) : string :=
  let name := match index_byte image "@" with Some i => str_take i image | None => image end in
  let name := match last_index name ":" with
              | Some i => if match last_index name "/" with Some slash => (slash <? i)%nat | None => true end then str_take i name else name
              | None => name
              end in
  name ++ ":" ++ tag.

(** ** supported.go *)
Definition newer_first (a b : string) : bool := Behind b a.
Section pins.
(** [supported.json], every entry a release. *)
Context (supported : list string).
Definition pinnable_with (current v : string) : bool :=
  negb (String.eqb v current) && (String.eqb current "" || negb (IsRelease current) || negb (Behind current v)).
Definition Pinnable (current : string) : list string :=
  sort_by newer_first ((if IsRelease current then [current] else []) ++ List.filter (pinnable_with current) supported).
Definition CanPin (version current : string) : bool := bool_decide (version ∈ Pinnable current).
End pins.

(** ** The order of releases *)
Lemma part_beyond a i : (List.length a <= i)%nat -> part a i = 0.
Proof. intros H. unfold part. by rewrite lookup_ge_None_2. Qed.
Lemma older_beyond n i a b : (List.length a <= i)%nat -> (List.length b <= i)%nat -> older_from n i a b = false.
Proof.
  revert i. induction n as [|n IH]; intros i Ha Hb; cbn; [done|]. rewrite !part_beyond by done. cbn. apply IH; lia.
Qed.
(** More rounds of the loop change nothing. *)
Lemma older_more n m i a b : (List.length a <= n + i)%nat -> (List.length b <= n + i)%nat -> older_from (n + m) i a b = older_from n i a b.
Proof.
  revert i. induction n as [|n IH]; intros i Ha Hb; cbn [Nat.add older_from]; [by apply older_beyond|].
  destruct (negb _); [done|]. apply IH; lia.
Qed.
Lemma older_rounds n a b : (List.length a <= n)%nat -> (List.length b <= n)%nat -> older_release a b = older_from n 0 a b.
Proof.
  intros Ha Hb. unfold older_release. set (k := (List.length a `max` List.length b)%nat). replace n with (k + (n - k))%nat by lia.
  symmetry. apply older_more; lia.
Qed.
Lemma older_loop_order n i {Q} : weak_order Q (older_from n i).
Proof.
  split.
  - intros a b _ _. revert i. induction n as [|n IH]; intros i; cbn; [done|].
    destruct (Z.eqb_spec (part a i) (part b i)) as [->|Hne]; cbn.
    + rewrite Z.eqb_refl. cbn. apply IH.
    + rewrite (proj2 (Z.eqb_neq _ _)) by congruence. cbn. rewrite Z.ltb_lt, Z.ltb_ge. lia.
  - intros a b c _ _ _. revert i. induction n as [|n IH]; intros i; cbn; [done|].
    destruct (Z.eqb_spec (part a i) (part b i)) as [->|Hab]; cbn.
    + destruct (Z.eqb_spec (part b i) (part c i)) as [->|Hbc]; cbn.
      * rewrite Z.eqb_refl. cbn. apply IH.
      * intros _. rewrite (proj2 (Z.eqb_neq (part c i) _)) by congruence. cbn. rewrite !Z.ltb_lt. lia.
    + rewrite Z.ltb_lt. intros Hlt.
      destruct (Z.eqb_spec (part a i) (part c i)) as [Hac|Hac]; cbn.
      * right. rewrite (proj2 (Z.eqb_neq _ _)) by lia. cbn. rewrite Z.ltb_lt. lia.
      * destruct (Z.lt_ge_cases (part a i) (part c i)); [left; by apply Z.ltb_lt|right].
        rewrite (proj2 (Z.eqb_neq _ _)) by lia. cbn. rewrite Z.ltb_lt. lia.
Qed.
Lemma older_order {Q} : weak_order Q older_release.
Proof.
  split.
  - intros a b Ha Hb. set (n := (List.length a `max` List.length b)%nat). rewrite (older_rounds n a b), (older_rounds n b a) by lia.
    by apply (wo_asym _ _ (older_loop_order n 0 (Q := Q))).
  - intros a b c Ha Hb Hc. set (n := Nat.max (Nat.max (List.length a) (List.length b)) (List.length c)).
    rewrite (older_rounds n a b), (older_rounds n a c), (older_rounds n c b) by lia.
    by apply (wo_split _ _ (older_loop_order n 0 (Q := Q))).
Qed.
Lemma older_irrefl a : older_release a a = false.
Proof.
  unfold older_release. generalize (List.length a `max` List.length a)%nat 0%nat. intros n. induction n as [|n IH]; intros i; cbn; [done|].
  rewrite Z.eqb_refl. apply IH.
Qed.

Definition released (v : string) : Prop := is_Some (release_parts v).
Lemma is_released v : IsRelease v = true <-> released v.
Proof. unfold IsRelease, released. destruct (release_parts v); split; try done; by intros [? ?]. Qed.
Lemma behind_parts v w a b : release_parts v = Some a -> release_parts w = Some b -> Behind v w = older_release a b.
Proof.
  intros Ha Hb. unfold Behind. rewrite Ha, Hb. destruct (String.eqb_spec v "") as [->|]; [done|]. destruct (String.eqb_spec w "") as [->|]; [done|].
  cbn [orb]. destruct (String.eqb_spec v w) as [->|]; [|done]. assert (a = b) as -> by congruence. by rewrite older_irrefl.
Qed.
Lemma behind_order : weak_order released newer_first.
Proof.
  unfold newer_first. split.
  - intros v w [a Ha] [b Hb]. rewrite (behind_parts w v b a), (behind_parts v w a b) by done. by apply (wo_asym (fun _ => True) _ older_order).
  - intros v w u [a Ha] [b Hb] [c Hc]. rewrite (behind_parts w v b a), (behind_parts u v c a), (behind_parts w u b c) by done.
    intros H. apply or_comm, (wo_split (fun _ => True) _ older_order b a c I I I H).
Qed.

(** A pin never runs ahead of the install.  Whatever release an install
    deploys, what one of its deployments may be pinned to is that release and the
    supported ones that are not newer, each listed once, newest first: no entry is
    behind one that follows it. *)
Theorem pinnable_releases supported current :
  Forall released supported -> NoDup supported -> released current ->
  (forall v, CanPin supported v current = true <-> v = current \/ (v ∈ supported /\ Behind current v = false)) /\
  NoDup (Pinnable supported current) /\
  StronglySorted (fun a b => Behind a b = false) (Pinnable supported current).
Proof.
  intros Hsup Hnd Hcur. pose proof (proj2 (is_released _) Hcur) as Hc. unfold CanPin, Pinnable. rewrite Hc. set (l := ([current] ++ List.filter _ supported)%list).
  assert (forall v, v ∈ List.filter (pinnable_with current) supported <-> v ∈ supported /\ v <> current /\ Behind current v = false) as Hin.
  { intros v. rewrite list_elem_of_In, filter_In, <-list_elem_of_In. unfold pinnable_with. rewrite Hc.
    assert (String.eqb current "" = false) as -> by (destruct (String.eqb_spec current "") as [->|]; [by destruct Hcur|done]). cbn [negb orb].
    rewrite andb_true_iff, !negb_true_iff, String.eqb_neq. tauto. }
  assert (Forall released l) as Hl.
  { constructor; [done|]. apply Forall_forall. intros v Hv%Hin. rewrite Forall_forall in Hsup. by apply Hsup, Hv. }
  split_and!.
  - intros v. rewrite bool_decide_eq_true, sort_by_perm. unfold l. cbn [app]. rewrite elem_of_cons, Hin. split; [tauto|].
    intros [->|[Hv Hb]]; [by left|]. destruct (decide (v = current)); [by left|by right].
  - rewrite sort_by_perm. apply NoDup_cons. split; [by intros (_ & ? & _)%Hin|]. apply NoDup_ListNoDup, List.NoDup_filter. by apply NoDup_ListNoDup.
  - apply (sort_by_sorted released newer_first behind_order l Hl).
Qed.
Example some_pins : Pinnable ["0.11.14"; "0.11.13"; "0.9"] "v0.11.13" = ["v0.11.13"; "0.11.13"; "0.9"].
Proof. vm_compute. reflexivity. Qed.
Lemma pinnable_releases_witness :
  CanPin ["0.11.14"; "0.11.13"] "0.11.13" "0.11.13" = true /\ CanPin ["0.11.14"; "0.11.13"] "0.11.14" "0.11.13" = false.
Proof.
  destruct (pinnable_releases ["0.11.14"; "0.11.13"] "0.11.13") as [H _];
    [repeat constructor; by apply is_released; vm_compute|by apply (bool_decide_unpack _); vm_compute|by apply is_released; vm_compute|].
  split; [apply H; by left|]. apply not_true_iff_false. intros [?|[_ Hb]]%H; [done|]. by vm_compute in Hb.
Defined.

(** ** A pin and the image it gives *)
Lemma last_index_none s c : contains_byte s c = false -> last_index s c = None.
Proof. induction s as [|a s IH]; cbn; [done|]. destruct (Ascii.eqb a c); cbn; [done|]. by intros ->%IH. Qed.
Lemma last_index_app_r s c r : contains_byte r c = false -> last_index (s ++ String c r) c = Some (String.length s).
Proof.
  intros Hr. induction s as [|a s IH]; [rewrite nil_app; cbn; by rewrite last_index_none, Ascii.eqb_refl|].
  rewrite cons_app. cbn. by rewrite IH.
Qed.
Lemma last_index_app_l s c r : contains_byte r c = false -> last_index (s ++ r) c = last_index s c.
Proof. intros Hr. induction s as [|a s IH]; [rewrite nil_app; by apply last_index_none|]. rewrite cons_app. cbn. by rewrite IH. Qed.
Lemma last_index_length s c i : last_index s c = Some i -> (i < String.length s)%nat.
Proof.
  revert i. induction s as [|a s IH]; intros i; cbn; [done|]. destruct (last_index s c) as [j|]; [intros [= <-]; specialize (IH j eq_refl); lia|].
  destruct (Ascii.eqb a c); intros [= <-]. lia.
Qed.
Lemma str_drop_app_l n s r : (n <= String.length s)%nat -> str_drop n (s ++ r) = (str_drop n s ++ r)%string.
Proof.
  revert s. induction n as [|n IH]; intros s Hn; [done|]. destruct s as [|a s]; cbn in Hn; [lia|]. rewrite cons_app. cbn. apply IH. lia.
Qed.
Lemma after_last_app s c r : contains_byte r c = false -> after_last (s ++ r) c = (after_last s c ++ r)%string.
Proof.
  intros Hr. unfold after_last. rewrite last_index_app_l by done. destruct (last_index s c) as [i|] eqn:E; [|done].
  apply last_index_length in E. by apply str_drop_app_l.
Qed.
Lemma index_byte_cut s c i : index_byte s c = Some i -> contains_byte (str_take i s) c = false.
Proof.
  revert i. induction s as [|a s IH]; intros i; cbn; [done|]. destruct (Ascii.eqb a c) eqn:E; [intros [= <-]; done|].
  destruct (index_byte s c) as [j|]; [|done]. intros [= <-]. cbn. rewrite E. cbn. by apply IH.
Qed.
Lemma index_byte_absent s c : index_byte s c = None -> contains_byte s c = false.
Proof. induction s as [|a s IH]; cbn; [done|]. destruct (Ascii.eqb a c); [done|]. destruct (index_byte s c); [done|]. intros _. by apply IH. Qed.
Lemma contains_byte_take n s c : contains_byte s c = false -> contains_byte (str_take n s) c = false.
Proof. revert s. induction n as [|n IH]; intros [|a s]; cbn; try done. destruct (Ascii.eqb a c); cbn; [done|]. apply IH. Qed.

(** The repository of an image, its digest and its tag taken off. *)
Definition repository (image : string) : string :=
  let name := match index_byte image "@" with Some i => str_take i image | None => image end in
  match last_index name ":" with
  | Some i => if match last_index name "/" with Some slash => (slash <? i)%nat | None => true end then str_take i name else name
  | None => name
  end.
Lemma with_tag_repository image tag : WithTag image tag = (repository image ++ ":" ++ tag)%string.
Proof. done. Qed.
Lemma repository_plain image : contains_byte (repository image) "@" = false.
Proof.
  unfold repository. set (name := match index_byte image "@" with Some i => str_take i image | None => image end).
  assert (contains_byte name "@" = false) as Hn.
  { unfold name. destruct (index_byte image "@") as [i|] eqn:E; [by apply index_byte_cut in E|by apply index_byte_absent]. }
  destruct (last_index name ":"); [|done]. destruct (match last_index name "/" with Some _ => _ | None => _ end); [by apply contains_byte_take|done].
Qed.

(** A pinned image names its pin.  The image a deployment pinned to a tag is
    put on - the repository of the configured image, whatever tag, digest or
    registry port that carries - reads back as that very tag. *)
Theorem pinned_image_names_its_pin image tag :
  contains_byte tag "@" = false -> contains_byte tag "/" = false -> contains_byte tag ":" = false ->
  after_last (repository image) "/" <> "sha256" -> after_last (repository image) "/" <> "sha512" ->
  ImageTag (WithTag image tag) = tag.
Proof.
  intros Hat Hslash Hcolon H256 H512. rewrite with_tag_repository. unfold ImageTag.
  assert (forall c, c <> ":"%char -> contains_byte tag c = false -> contains_byte (":" ++ tag) c = false) as Hc.
  { intros c Hne Ht. rewrite cons_app, nil_app. change (Ascii.eqb ":" c || contains_byte tag c = false). rewrite Ht, orb_false_r. apply Ascii.eqb_neq. congruence. }
  rewrite contains_byte_app, repository_plain, Hc by done. cbn [orb].
  rewrite after_last_app by by apply Hc. set (name := after_last (repository image) "/").
  change (":" ++ tag)%string with (String ":" tag). rewrite last_index_app_r by done.
  rewrite str_take_app, (proj2 (String.eqb_neq name _) H256), (proj2 (String.eqb_neq name _) H512). cbn [orb].
  assert ((name ++ String ":" tag = (name ++ ":") ++ tag)%string) as -> by (by rewrite app_str_assoc, (cons_app ":" ""), nil_app).
  assert (S (String.length name) = String.length (name ++ ":")) as -> by (rewrite length_app_str; cbn; lia). apply str_drop_app.
Qed.
Lemma pinned_image_names_its_pin_witness : ImageTag (WithTag "registry:5000/octo/runtime:0.8@sha256:ab" "0.11.13") = "0.11.13".
Proof. apply (pinned_image_names_its_pin "registry:5000/octo/runtime:0.8@sha256:ab" "0.11.13"); try (by vm_compute); by intros H; vm_compute in H. Defined.
