(* ===== verification/Slug.v ===== *)
(** Deployment addresses: [slugify] and [allocateSlug] of
    [internal/deployment/service.go]. *)
From S2P Require Import Prelude GoStr.
From Stdlib Require Import String Ascii.
#[local] Open Scope string_scope.
#[local] Open Scope Z_scope.

Definition maxSlug : nat := 54.

(** [strings.ToLower] as a slug sees it: two runes outside ASCII have a lower case
    letter in it, the Kelvin sign and the dotted capital I. *)
Fixpoint lower_name (s : string) : string :=
  match s with
  | "" => ""
  | String a r =>
      match r with
      | String b r1 =>
          if (code a =? 196) && (code b =? 176) then String "i" (lower_name r1)
          else match r1 with
               | String c r2 => if (code a =? 226) && (code b =? 132) && (code c =? 170) then String "k" (lower_name r2)
                                else String (lower_ascii a) (lower_name r)
               | "" => String (lower_ascii a) (lower_name r)
               end
      | "" => String (lower_ascii a) (lower_name r)
      end
  end.
Definition slug_char (a : ascii) : bool := ((97 <=? code a) && (code a <=? 122)) || ((48 <=? code a) && (code a <=? 57)).

(** The loop over the name: [started] is that something has been written, [dash]
    that the last byte written stands for what was skipped.  A rune of several
    bytes is skipped byte by byte, for one dash in all. *)
Fixpoint slug_bytes (started dash : bool) (s : string) : string :=
  match s with
  | "" => ""
  | String a r =>
      if slug_char a then String a (slug_bytes true false r)
      else if started && negb dash then String "-" (slug_bytes true true r)
      else slug_bytes started dash r
  end.

(** [strings.Trim(s, "-")]. *)
Fixpoint drop_dashes (s : string) : string :=
  match s with "" => "" | String a r => if Ascii.eqb a "-" then drop_dashes r else s end.
Fixpoint trim_end (s : string) : string :=
  match s with
  | "" => ""
  | String a r => match trim_end r with "" => if Ascii.eqb a "-" then "" else String a "" | t => String a t end
  end.
Definition trim_dashes (s : string) : string := trim_end (drop_dashes s).
Definition bounded_slug (out : string) : string :=
  if (maxSlug <? String.length out)%nat then trim_dashes (str_take maxSlug out) else out.
Definition slugify (name : string) : string := bounded_slug (trim_dashes (slug_bytes false false (lower_name name))).

(** ** Allocation *)
Definition ErrSlugExhausted : goerr := ErrMsg "could not allocate a unique deployment slug".
Fixpoint zeros (n : nat) : string := match n with O => "" | S n => String "0" (zeros n) end.
(** [fmt.Sprintf("-%03d", i)]. *)
Definition pad3 (i : nat) : string := let s := itoa (Z.of_nat i) in zeros (3 - String.length s) ++ s.
Definition slug_base (base : string) : string := bounded_slug (if String.eqb base "" then "integration" else base).
Definition slug_candidate (base : string) (i : nat) : string :=
  match i with
  | O => base
  | _ =>
      let suffix := String "-" (pad3 i) in
      (if (maxSlug <? String.length base + String.length suffix)%nat then trim_dashes (str_take (maxSlug - String.length suffix) base) else base) ++ suffix
  end.
Section allocate.
(** [IntegrationIDBySlug]: whether a deployment has the slug. *)
Context (claimed : string -> res bool).
Fixpoint allocate_from (n i : nat) (base : string) : res string :=
  match n with
  | O => Err ErrSlugExhausted
  | S n => match claimed (slug_candidate base i) with
           | Err e => Err e
           | Ok true => allocate_from n (S i) base
           | Ok false => Ok (slug_candidate base i)
           end
  end.
Definition allocateSlug (base : string) : res string := allocate_from 1000 0 (slug_base base).
End allocate.

(** ** Labels

    A DNS label as the slug makes one: letters and digits with single dashes
    between them.  [prev] is that the byte before is a dash, or none at all. *)
Fixpoint labelled (prev : bool) (s : string) : bool :=
  match s with
  | "" => negb prev
  | String a r => if slug_char a then labelled false r else Ascii.eqb a "-" && negb prev && labelled true r
  end.
Definition is_label (s : string) : bool := labelled true s.
(** The same, a last dash allowed. *)
Fixpoint label_start (prev : bool) (s : string) : bool :=
  match s with
  | "" => true
  | String a r => if slug_char a then label_start false r else Ascii.eqb a "-" && negb prev && label_start true r
  end.

Lemma slug_char_dash a : slug_char a = true -> Ascii.eqb a "-" = false.
Proof. intros H. apply Ascii.eqb_neq. intros ->. by vm_compute in H. Qed.
Lemma labelled_start prev s : labelled prev s = true -> label_start prev s = true.
Proof. revert prev. induction s as [|a s IH]; intros prev; cbn; [done|]. destruct (slug_char a); [apply IH|]. rewrite !andb_true_iff. intros [? ?]; auto. Qed.
Lemma label_start_take n prev s : label_start prev s = true -> label_start prev (str_take n s) = true.
Proof.
  revert prev s. induction n as [|n IH]; intros prev [|a s]; cbn; try done. destruct (slug_char a); [apply IH|].
  rewrite !andb_true_iff. intros [? ?]; auto.
Qed.
Lemma slug_bytes_start started dash s : (started = false -> dash = false) -> label_start (negb started || dash) (slug_bytes started dash s) = true.
Proof.
  revert started dash. induction s as [|a s IH]; intros started dash Hd; cbn; [done|].
  destruct (slug_char a) eqn:Ha; cbn; [rewrite Ha; by apply (IH true false)|].
  destruct started; cbn; [|by apply (IH false)]. destruct dash; cbn; [by apply (IH true true)|]. by apply (IH true true).
Qed.
Lemma drop_dashes_start s : label_start true s = true -> drop_dashes s = s.
Proof. destruct s as [|a s]; cbn; [done|]. destruct (slug_char a) eqn:Ha; [by rewrite slug_char_dash|]. by rewrite andb_false_r. Qed.
Lemma trim_end_label prev s : label_start prev s = true -> trim_end s = "" \/ labelled prev (trim_end s) = true.
Proof.
  revert prev. induction s as [|a s IH]; intros prev; cbn; [by left|]. destruct (slug_char a) eqn:Ha.
  - intros H. right. destruct (IH false H) as [->|Hl]; [rewrite slug_char_dash by done; cbn; by rewrite Ha|].
    destruct (trim_end s); [rewrite slug_char_dash by done; cbn; by rewrite Ha|]. cbn [labelled]. by rewrite Ha.
  - rewrite !andb_true_iff. intros [[Hd Hp] H]. destruct (IH true H) as [->|Hl]; [left; by rewrite Hd|].
    destruct (trim_end s); [by rewrite Hd; left|]. right. cbn [labelled]. by rewrite Ha, Hd, Hp.
Qed.
Lemma trim_end_length s : (String.length (trim_end s) <= String.length s)%nat.
Proof. induction s as [|a s IH]; cbn; [done|]. destruct (trim_end s); [destruct (Ascii.eqb a "-"); cbn; lia|]. cbn in *. lia. Qed.
Lemma trim_label s : label_start true s = true -> trim_dashes s = "" \/ is_label (trim_dashes s) = true.
Proof. intros H. unfold trim_dashes. rewrite drop_dashes_start by done. by apply trim_end_label. Qed.
Lemma trim_length s : label_start true s = true -> (String.length (trim_dashes s) <= String.length s)%nat.
Proof. intros H. unfold trim_dashes. rewrite drop_dashes_start by done. apply trim_end_length. Qed.
Lemma trim_end_full prev s : labelled prev s = true -> trim_end s = s.
Proof.
  revert prev. induction s as [|a s IH]; intros prev; cbn; [done|]. destruct (slug_char a) eqn:Ha.
  - intros H. rewrite (IH _ H). destruct s; [by rewrite slug_char_dash|done].
  - rewrite !andb_true_iff. intros [[_ _] H]. rewrite (IH _ H). by destruct s.
Qed.
Lemma trim_full s : is_label s = true -> trim_dashes s = s.
Proof. intros H. unfold trim_dashes. rewrite drop_dashes_start by by apply labelled_start. by eapply trim_end_full. Qed.
(** Cut short, a label that is left with anything starts as before. *)
Lemma trim_end_keeps a s : slug_char a = true -> trim_end (String a s) <> "".
Proof. intros Ha. cbn. destruct (trim_end s); [by rewrite slug_char_dash|done]. Qed.
Lemma trim_take_label n s : is_label s = true -> (0 < n)%nat -> is_label (trim_dashes (str_take n s)) = true.
Proof.
  intros H Hn. assert (label_start true (str_take n s) = true) as Hs by by apply label_start_take, labelled_start.
  destruct (trim_label _ Hs) as [He|]; [|done]. exfalso. revert He. unfold trim_dashes. rewrite drop_dashes_start by done.
  destruct s as [|a s], n as [|n]; try done; try lia. cbn [str_take]. apply trim_end_keeps. unfold is_label in H. cbn in H.
  destruct (slug_char a); [done|]. by rewrite andb_false_r in H.
Qed.
Lemma length_take n s : (String.length (str_take n s) <= n)%nat.
Proof. revert s. induction n as [|n IH]; intros [|a s]; cbn; try lia. specialize (IH s). lia. Qed.
Lemma bounded_label s : is_label s = true -> is_label (bounded_slug s) = true /\ (String.length (bounded_slug s) <= maxSlug)%nat.
Proof.
  intros H. unfold bounded_slug. destruct (Nat.ltb_spec maxSlug (String.length s)); [|split; [done|lia]].
  assert (label_start true (str_take maxSlug s) = true) as Hs by by apply label_start_take, labelled_start.
  split; [apply trim_take_label; [done|by apply Nat.ltb_lt]|]. pose proof (trim_length _ Hs). pose proof (length_take maxSlug s). lia.
Qed.

(** What slugify makes is a slug, and a slug is left as it is. *)
Definition is_slug (s : string) : Prop := (s = "" \/ is_label s = true) /\ (String.length s <= maxSlug)%nat.
Lemma slugify_label name : is_slug (slugify name).
Proof.
  unfold slugify, is_slug. assert (label_start true (slug_bytes false false (lower_name name)) = true) as H by by apply (slug_bytes_start false false).
  destruct (trim_label _ H) as [->|Hl]; [split; [by left|by apply Nat.leb_le]|]. destruct (bounded_label _ Hl). split; [by right|done].
Qed.

Lemma slug_char_cases a : slug_char a = true \/ Ascii.eqb a "-" = true -> 0 <= code a < 123.
Proof.
  unfold slug_char. intros [H|H%Ascii.eqb_eq]; [|subst; by vm_compute]. unfold code in *.
  apply orb_true_iff in H. rewrite !andb_true_iff, !Z.leb_le in H. lia.
Qed.
Lemma lower_slug_char a : slug_char a = true \/ Ascii.eqb a "-" = true -> lower_ascii a = a.
Proof.
  intros H. unfold lower_ascii. destruct ((65 <=? code a) && (code a <=? 90)) eqn:E; [|done]. exfalso.
  apply andb_true_iff in E as [E1%Z.leb_le E2%Z.leb_le]. destruct H as [H|H%Ascii.eqb_eq]; [|subst; by vm_compute in E1].
  unfold slug_char in H. apply orb_true_iff in H. rewrite !andb_true_iff, !Z.leb_le in H. lia.
Qed.
Lemma label_bytes prev a s : label_start prev (String a s) = true -> (slug_char a = true \/ Ascii.eqb a "-" = true) /\ exists prev', label_start prev' s = true.
Proof. cbn. destruct (slug_char a); [split; [by left|by eexists]|]. rewrite !andb_true_iff. intros [[? ?] ?]. split; [by right|by eexists]. Qed.
Lemma lower_label prev s : label_start prev s = true -> lower_name s = s.
Proof.
  revert prev. induction s as [|a s IH]; intros prev H; [done|]. destruct (label_bytes _ _ _ H) as [Ha [prev' Hs]].
  pose proof (slug_char_cases a Ha) as Hc. cbn [lower_name]. rewrite (IH _ Hs), lower_slug_char by done.
  rewrite (proj2 (Z.eqb_neq (code a) 196)), (proj2 (Z.eqb_neq (code a) 226)) by lia. cbn [andb]. destruct s as [|b [|c s]]; done.
Qed.
Lemma slug_bytes_label started dash s : labelled (negb started || dash) s = true -> slug_bytes started dash s = s.
Proof.
  revert started dash. induction s as [|a s IH]; intros started dash; cbn; [done|]. destruct (slug_char a) eqn:Ha.
  - intros H. f_equal. by apply (IH true false).
  - rewrite !andb_true_iff. intros [[Hd%Ascii.eqb_eq Hp] H]. subst a. destruct started, dash; try done. cbn. f_equal. by apply (IH true true).
Qed.

(** An address is settled by being made.  Whatever a name holds, its slug is
    empty or a DNS label short enough for the internal Service - lower case
    letters and digits with single dashes between them - and making a slug of a
    slug changes nothing, so the address a person is shown is the one that is
    checked and stored. *)
Theorem slug_settled name : is_slug (slugify name) /\ slugify (slugify name) = slugify name.
Proof.
  pose proof (slugify_label name) as Hs. split; [done|]. destruct Hs as [[->|Hl] Hlen]; [done|].
  unfold slugify at 1. rewrite (lower_label true) by by apply labelled_start.
  rewrite (slug_bytes_label false false) by done. rewrite trim_full by done.
  unfold bounded_slug. destruct (Nat.ltb_spec maxSlug (String.length (slugify name))); [lia|done].
Qed.
Example a_slug : slugify "  Order -- Intake (v2)! " = "order-intake-v2".
Proof. vm_compute. reflexivity. Qed.

(** ** What is allocated *)
Lemma labelled_app prev s t : labelled prev s = true -> is_label t = true -> labelled prev (s ++ String "-" t) = true.
Proof.
  intros Hs Ht. revert prev Hs. induction s as [|a s IH]; intros prev; [rewrite nil_app; cbn; intros ->; exact Ht|].
  rewrite cons_app. cbn. destruct (slug_char a); [apply IH|]. rewrite !andb_true_iff. intros [? ?]. auto.
Qed.
Lemma pad3_ok i : (i < 1000)%nat -> is_label (pad3 i) = true /\ String.length (pad3 i) = 3%nat.
Proof.
  intros H. assert (forallb (fun i => is_label (pad3 i) && (String.length (pad3 i) =? 3)%nat) (seq 0 1000) = true) as Hall by (vm_compute; reflexivity).
  rewrite forallb_forall in Hall. specialize (Hall i). rewrite in_seq in Hall. apply andb_true_iff in Hall as [? ?%Nat.eqb_eq]; [done|lia].
Qed.
Lemma candidate_label base i : is_label base = true -> (String.length base <= maxSlug)%nat -> (i < 1000)%nat ->
  is_label (slug_candidate base i) = true /\ (String.length (slug_candidate base i) <= maxSlug)%nat.
Proof.
  intros Hb Hl Hi. destruct i as [|i]; [done|]. cbn [slug_candidate]. destruct (pad3_ok (S i) Hi) as [Hp H3].
  cbn [String.length]. rewrite H3. rewrite length_app_str. cbn [String.length]. rewrite H3.
  destruct (Nat.ltb_spec maxSlug (String.length base + 4)) as [Hlt|Hge]; [|split; [by apply labelled_app|lia]].
  assert (label_start true (str_take (maxSlug - 4) base) = true) as Hs by by apply label_start_take, labelled_start.
  split; [apply labelled_app; [apply trim_take_label; [done|by apply Nat.ltb_lt]|done]|].
  pose proof (trim_length _ Hs). pose proof (length_take (maxSlug - 4) base). unfold maxSlug in *. lia.
Qed.
Lemma slug_base_label base : is_slug base -> is_label (slug_base base) = true /\ (String.length (slug_base base) <= maxSlug)%nat.
Proof.
  intros [[->|Hl] Hlen]; unfold slug_base; [split; [by vm_compute|by apply Nat.leb_le]|]. destruct (String.eqb_spec base "") as [->|]; [done|]. by apply bounded_label.
Qed.

Section allocated.
Context (claimed : string -> res bool).
Lemma allocate_from_spec base n i : match allocate_from claimed n i base with
  | Ok slug => exists j, (i <= j < i + n)%nat /\ slug = slug_candidate base j /\ claimed slug = Ok false /\
                 forall k, (i <= k < j)%nat -> claimed (slug_candidate base k) = Ok true
  | Err e => (e = ErrSlugExhausted /\ forall k, (i <= k < i + n)%nat -> claimed (slug_candidate base k) = Ok true) \/
             exists j, (i <= j < i + n)%nat /\ claimed (slug_candidate base j) = Err e /\ forall k, (i <= k < j)%nat -> claimed (slug_candidate base k) = Ok true
  end.
Proof.
  revert i. induction n as [|n IH]; intros i; cbn; [left; split; [done|lia]|].
  destruct (claimed (slug_candidate base i)) as [[]|e] eqn:E.
  - specialize (IH (S i)). destruct (allocate_from claimed n (S i) base) as [slug|e].
    + destruct IH as (j & Hj & Hs & Hf & Hk). exists j. split_and!; [lia|lia|exact Hs|exact Hf|]. intros k Hr. destruct (decide (k = i)) as [->|]; [done|]. apply Hk. lia.
    + destruct IH as [[He Hk]|(j & Hj & Hf & Hk)]; [left|right; exists j]; split_and!; try done; try lia;
        intros k Hr; (destruct (decide (k = i)) as [->|]; [done|]; apply Hk; lia).
  - exists i. split_and!; [lia|lia|reflexivity|exact E|lia].
  - right. exists i. split_and!; [lia|lia|exact E|lia].
Qed.

Lemma allocated_ok base slug : is_slug base -> allocateSlug claimed base = Ok slug ->
  is_label slug = true /\ (String.length slug <= maxSlug)%nat /\ claimed slug = Ok false.
Proof.
  intros Hbase. unfold allocateSlug. destruct (slug_base_label _ Hbase) as [Hb Hl]. pose proof (allocate_from_spec (slug_base base) 1000 0) as H.
  intros E. rewrite E in H. destruct H as (j & Hj & -> & Hf & _). destruct (candidate_label (slug_base base) j Hb Hl); [lia|done].
Qed.

(** C19: an allocated address is a free label.  The slug allocated for an
    integration is a DNS label that fits, that no deployment has, and every
    candidate before it is taken; the allocation fails only because a lookup
    does, or with every one of the thousand candidates taken. *)
Theorem allocated_slug_is_free name :
  match allocateSlug claimed (slugify name) with
  | Ok slug => is_label slug = true /\ (String.length slug <= maxSlug)%nat /\ claimed slug = Ok false /\
      exists i, (i < 1000)%nat /\ slug = slug_candidate (slug_base (slugify name)) i /\
        forall k, (k < i)%nat -> claimed (slug_candidate (slug_base (slugify name)) k) = Ok true
  | Err e => (e = ErrSlugExhausted /\ forall k, (k < 1000)%nat -> claimed (slug_candidate (slug_base (slugify name)) k) = Ok true) \/
      exists i, (i < 1000)%nat /\ claimed (slug_candidate (slug_base (slugify name)) i) = Err e
  end.
Proof.
  unfold allocateSlug. set (base := slug_base (slugify name)). destruct (slug_base_label _ (slugify_label name)) as [Hb Hl]. fold base in Hb, Hl.
  pose proof (allocate_from_spec base 1000 0) as H. remember 1000%nat as thousand eqn:Ht. destruct (allocate_from claimed thousand 0 base) as [slug|e].
  - destruct H as (j & Hj & -> & Hf & Hk). destruct (candidate_label base j Hb Hl) as [? ?]; [lia|]. split_and!; [done..|].
    exists j. split_and!; [lia|done|]. intros k ?. apply Hk. lia.
  - destruct H as [[He Hk]|(j & Hj & Hf & _)]; [left|right].
    + split; [done|]. intros k ?. apply Hk. lia.
    + exists j. split; [lia|done].
Qed.
End allocated.
