(* ===== verification/EnvPorts.v ===== *)
(** [internal/deployment/envports.go] of the orchestrator: what a definition
    declares, what a deployment provides for it, and the port it is reached on.

    The YAML library is a class: it reads a definition into the declarations. *)
From S2P Require Import Prelude Order GoStr Decimal Dotenv.
From Stdlib Require Import String Ascii.
#[local] Open Scope string_scope.
#[local] Open Scope Z_scope.

Definition envHTTPPort : string := "HTTP_PORT".
Definition envHTTPHost : string := "HTTP_HOST".
Definition envObservabilityURL : string := "OBSERVABILITY_URL".
Definition bindAllHost : string := "0.0.0.0".
Definition httpConnectorType : string := "http".
Definition defaultImplicitPort : Z := 8080.

(** One entry of [env:]. *)
Record env_entry : Type := mkEntry { ee_Name : string; ee_Default : option string; ee_Required : bool }.
Record EnvVarDecl : Type := mkDecl { ev_Name : string; ev_Default : string; ev_Required : bool }.
Record EnvBinding : Type := mkBinding { eb_Value : string; eb_Secret : string }.

(** A setting read untyped: absent, a text, or anything else. *)
Inductive untyped : Type := NoValue | Text (s : string) | OtherValue.
Record http_connector : Type := mkConnector { hc_Name : string; hc_Type : string; hc_Host : untyped; hc_Port : untyped }.
Record flow_source : Type := mkSource { fs_Connector : string; fs_Type : string }.
Record httpDecl : Type := mkHttpDecl { hd_Connectors : list http_connector; hd_Flows : list (option flow_source) }.

Class DefinitionYAML : Type := { env_decl : string -> option (list env_entry); http_decl : string -> option httpDecl }.

Definition before_name (a b : EnvVarDecl) : bool := String.ltb (ev_Name a) (ev_Name b).
Definition managed (name : string) : bool :=
  String.eqb name "" || String.eqb name envHTTPPort || String.eqb name envHTTPHost || String.eqb name envObservabilityURL.

(** ** .env files *)
(** One line of [parseDotEnvKeys]. *)
Definition env_line_key (line : string) : option string :=
  let line := TrimSpace line in
  if String.eqb line "" || has_prefix line "#" then None
  else
    let line := TrimPrefix line "export " in
    match index_byte line "=" with
    | None | Some O => None
    | Some eq => let key := TrimSpace (str_take eq line) in if String.eqb key "" then None else Some key
    end.
Definition parseDotEnvKeys (content : string) : gset string := list_to_set (omap env_line_key (split_on line_feed content)).

Section envports.
Context {DY : DefinitionYAML}.

Definition entry_decl (e : env_entry) : option EnvVarDecl :=
  let name := TrimSpace (ee_Name e) in
  if managed name then None else Some (mkDecl name (default "" (ee_Default e)) (ee_Required e)).
Definition declaredEnvVars (definition : string) : list EnvVarDecl :=
  match env_decl definition with None => [] | Some env => sort_by before_name (omap entry_decl env) end.

Definition provides (b : EnvBinding) : bool := negb (String.eqb (eb_Value b) "") || negb (String.eqb (eb_Secret b) "").
Definition providedEnvKeys (bindings : gmap string EnvBinding) : gset string :=
  dom (filter (fun kv => provides kv.2 = true) bindings).

Definition missingRequiredEnv (definition : string) (provided : gset string) : list string :=
  sort_strings (map ev_Name (List.filter (fun ev => ev_Required ev && negb (bool_decide (ev_Name ev ∈ provided))) (declaredEnvVars definition))).

(** ** The port *)
Definition takesEnvVar (raw : untyped) (name : string) (declared : gset string) : bool :=
  match raw with
  | NoValue => true
  | Text v => let s := TrimSpace v in String.eqb s "" || (String.eqb s ("${" ++ name ++ "}") && bool_decide (name ∈ declared))
  | OtherValue => false
  end.
Definition takesEnvPort (raw : untyped) (declared : gset string) : bool := takesEnvVar raw envHTTPPort declared.
Definition takesEnvHost (raw : untyped) (declared : gset string) : bool :=
  match raw with Text s => if String.eqb (TrimSpace s) bindAllHost then true else takesEnvVar raw envHTTPHost declared | _ => takesEnvVar raw envHTTPHost declared end.

(** The http instances: the last one of a name, their names, how many take the
    environment's address. *)
Definition bind_connector (declared : gset string) (acc : gmap string bool * list string * nat) (c : http_connector) : gmap string bool * list string * nat :=
  let '(envBound, names, count) := acc in
  if negb (String.eqb (TrimSpace (hc_Type c)) httpConnectorType) then acc
  else
    let name := TrimSpace (hc_Name c) in
    let bound := takesEnvPort (hc_Port c) declared && takesEnvHost (hc_Host c) declared in
    (<[name := bound]> envBound, (names ++ [name])%list, if bound then S count else count).
Definition lone_connector (envBound : gmap string bool) (names : list string) : bool :=
  match names with [] => true | [name] => default false (envBound !! name) | _ => false end.
(** The first flow whose source settles it. *)
Fixpoint wired_flow (envBound : gmap string bool) (names : list string) (flows : list (option flow_source)) : bool :=
  match flows with
  | [] => false
  | None :: flows => wired_flow envBound names flows
  | Some source :: flows =>
      let bind := TrimSpace (fs_Connector source) in
      if negb (String.eqb bind "") then
        match envBound !! bind with
        | Some bound => bound
        | None => if negb (String.eqb bind httpConnectorType) then wired_flow envBound names flows else lone_connector envBound names
        end
      else if negb (String.eqb (TrimSpace (fs_Type source)) httpConnectorType) then wired_flow envBound names flows
      else lone_connector envBound names
  end.
Definition wiresInjectedPort (definition : string) (declared : gset string) : bool :=
  match http_decl definition with
  | None => false
  | Some decl =>
      let '(envBound, names, count) := foldl (bind_connector declared) (∅, [], 0%nat) (hd_Connectors decl) in
      if (1 <? count)%nat then false else wired_flow envBound names (hd_Flows decl)
  end.

(** A default of [HTTP_PORT] that is a port takes the place of the last one. *)
Definition entry_port (port : Z) (e : env_entry) : Z :=
  if negb (String.eqb (TrimSpace (ee_Name e)) envHTTPPort) then port
  else match ee_Default e ≫= fun d => atoi (TrimSpace d) with
       | Some p => if (0 <? p) && (p <=? 65535) then p else port
       | None => port
       end.
Definition resolveRuntimeEnv (definition : string) : Z * gmap string string * bool :=
  match env_decl definition with
  | None => (0, ∅, false)
  | Some env =>
      let declared := list_to_set (map (fun e => TrimSpace (ee_Name e)) env) in
      let port := foldl entry_port defaultImplicitPort env in
      if negb (wiresInjectedPort definition declared) then (0, ∅, false)
      else (port, <[envHTTPPort := itoa port]> (<[envHTTPHost := bindAllHost]> ∅), true)
  end.
Definition Exposable (definition : string) : bool := (resolveRuntimeEnv definition).2.

(** A port that a definition resolves to is a port, and the text it is supplied
    as reads back as that port. *)
Lemma resolved_port definition port env : resolveRuntimeEnv definition = (port, env, true) ->
  1 <= port <= 65535 /\ (env !! envHTTPPort ≫= atoi) = Some port /\ env !! envHTTPHost = Some bindAllHost /\ dom env = {[envHTTPPort; envHTTPHost]}.
Proof.
  unfold resolveRuntimeEnv. destruct (env_decl definition) as [entries|]; [|done]. destruct (negb _); [done|]. intros [= <- <-].
  assert (forall p, 1 <= p <= 65535 -> 1 <= foldl entry_port p entries <= 65535) as Hp.
  { clear. induction entries as [|e entries IH]; intros p Hp; cbn [foldl]; [done|]. apply IH. unfold entry_port.
    destruct (negb _); [done|]. destruct (ee_Default e ≫= _) as [q|]; [|done]. destruct (Z.ltb_spec 0 q), (Z.leb_spec q 65535); cbn; lia. }
  specialize (Hp defaultImplicitPort ltac:(by unfold defaultImplicitPort)). split_and!; [lia|lia| |by rewrite lookup_insert_ne, lookup_insert_eq by done|].
  - rewrite lookup_insert_eq. cbn [mbind option_bind]. apply atoi_itoa. unfold in_int64, int64_min, int64_max. lia.
  - rewrite !dom_insert_L, dom_empty_L. set_solver.
Qed.

(** A deploy is let through exactly when every required variable that is not the
    orchestrator's own is provided. *)
Lemma nothing_missing definition provided :
  missingRequiredEnv definition provided = [] <->
  forall ev, ev ∈ declaredEnvVars definition -> ev_Required ev = true -> ev_Name ev ∈ provided.
Proof.
  unfold missingRequiredEnv. split.
  - intros Hnil ev Hev Hreq. destruct (decide (ev_Name ev ∈ provided)) as [|Hn]; [done|]. exfalso.
    assert (ev_Name ev ∈ sort_strings (map ev_Name (List.filter (fun ev => ev_Required ev && negb (bool_decide (ev_Name ev ∈ provided))) (declaredEnvVars definition)))) as Hin; [|by rewrite Hnil in Hin; apply elem_of_nil in Hin].
    rewrite sort_strings_perm. apply list_elem_of_fmap. exists ev. split; [done|]. apply list_elem_of_In, filter_In. split; [by apply list_elem_of_In|].
    by rewrite Hreq, bool_decide_eq_false_2.
  - intros H. assert (List.filter (fun ev => ev_Required ev && negb (bool_decide (ev_Name ev ∈ provided))) (declaredEnvVars definition) = []) as ->; [|done].
    destruct (List.filter _ _) as [|ev l] eqn:E; [done|]. exfalso. assert (In ev (ev :: l)) as Hin by by left. rewrite <-E in Hin.
    apply filter_In in Hin as [Hin [Hreq Hn]%andb_prop]. rewrite bool_decide_eq_true_2 in Hn; [done|]. apply H; [by apply list_elem_of_In|done].
Qed.
End envports.

(** ** The keys of a .env file

    Trimming does not see a carriage return at the end, which the runtime's
    scanner takes off. *)
Lemma drop_prefix_snoc p l a : l <> [] -> (forall q b, p = b :: q -> a ∉ q) ->
  drop_prefix p (l ++ [a]) = (fun r => r ++ [a])%list <$> drop_prefix p l.
Proof.
  revert l. induction p as [|b p IH]; intros [|c l] Hne Hp; cbn; try done. destruct (Ascii.eqb b c); [|done].
  pose proof (Hp p b eq_refl) as Ha. destruct l as [|d l].
  - destruct p as [|e p]; [done|]. cbn. destruct (Ascii.eqb_spec e a) as [->|]; [by destruct Ha; left|done].
  - apply IH; [done|]. intros q f ->. intros Hq. apply Ha. by right.
Qed.
Lemma strip_any_snoc l a seps : l <> [] -> (forall p q b, p ∈ seps -> p = b :: q -> a ∉ q) ->
  strip_any seps (l ++ [a]) = (fun r => r ++ [a])%list <$> strip_any seps l.
Proof.
  intros Hne. induction seps as [|p seps IH]; intros Hs; cbn; [done|].
  rewrite drop_prefix_snoc; [|done|intros q b ->; apply (Hs (b :: q) q b); [by left|done]].
  destruct (drop_prefix p l); cbn; [done|]. apply IH. intros p' q b Hp'. apply Hs. by right.
Qed.
Definition no_return (p : list ascii) : bool := match p with [] => true | _ :: q => bool_decide (return_byte ∉ q) end.
Lemma white_no_return p q b : p ∈ white_space -> p = b :: q -> return_byte ∉ q.
Proof.
  intros Hp ->. assert (forallb no_return white_space = true) as H by (vm_compute; reflexivity).
  rewrite forallb_forall in H. specialize (H (b :: q)). rewrite <-list_elem_of_In in H. specialize (H Hp). by apply bool_decide_eq_true in H.
Qed.
Lemma trim_front_return n l : (List.length l <= n)%nat ->
  trim_front (S n) white_space (l ++ [return_byte]) = match trim_front n white_space l with [] => [] | f => (f ++ [return_byte])%list end.
Proof.
  revert l. induction n as [|n IH]; intros l Hn.
  { destruct l; [|cbn in Hn; lia]. vm_compute. reflexivity. }
  destruct l as [|c l].
  { change (trim_front (S (S n)) white_space [return_byte] = match trim_front (S n) white_space [] with [] => [] | f => (f ++ [return_byte])%list end).
    assert (strip_any white_space [return_byte] = Some []) as H1 by (vm_compute; reflexivity). assert (strip_any white_space [] = None) as H2 by (vm_compute; reflexivity).
    cbn [trim_front]. by rewrite H1, H2. }
  change (trim_front (S (S n)) white_space ((c :: l) ++ [return_byte])) with
    (match strip_any white_space ((c :: l) ++ [return_byte]) with Some r => trim_front (S n) white_space r | None => ((c :: l) ++ [return_byte])%list end).
  rewrite strip_any_snoc; [|done|apply white_no_return]. cbn [trim_front]. destruct (strip_any white_space (c :: l)) as [r|] eqn:E; cbn [fmap option_fmap option_map]; [|done].
  apply IH. apply strip_any_some in E as (p & Hp & Hl). assert (p <> []) as Hne.
  { intros ->. assert (forallb (fun p : list ascii => match p with [] => false | _ => true end) white_space = true) as H by (vm_compute; reflexivity).
    rewrite forallb_forall in H. specialize (H []). rewrite <-list_elem_of_In in H. by specialize (H Hp). }
  apply (f_equal List.length) in Hl. rewrite length_app in Hl. destruct p; [done|]. cbn in *. lia.
Qed.
Definition trim_back (l : list ascii) : list ascii := rev (trim_front (List.length l) (map (@rev ascii) white_space) (rev l)).
Lemma trim_back_return l : trim_back (l ++ [return_byte]) = trim_back l.
Proof.
  unfold trim_back. rewrite rev_app_distr, length_app. cbn [List.length rev app]. rewrite Nat.add_1_r. cbn [trim_front].
  assert (forall x, strip_any (map (@rev ascii) white_space) (return_byte :: x) = Some x) as H by (intros x; reflexivity). by rewrite H.
Qed.
Lemma trim_return l : trim_list (l ++ [return_byte]) = trim_list l.
Proof.
  change (trim_back (trim_front (List.length (l ++ [return_byte])) white_space (l ++ [return_byte])) = trim_back (trim_front (List.length l) white_space l)).
  rewrite length_app, Nat.add_1_r, trim_front_return by done.
  destruct (trim_front (List.length l) white_space l) as [|c f]; [done|]. apply trim_back_return.
Qed.
Lemma ends_with_split s c : ends_with s c = true -> s = (trim_suffix_byte s c ++ String c "")%string.
Proof.
  induction s as [|a s IH]; [done|]. destruct s as [|b s]; [intros H; cbn in *; apply Ascii.eqb_eq in H as ->; by rewrite Ascii.eqb_refl|].
  intros H. specialize (IH H). change (trim_suffix_byte (String a (String b s)) c) with (String a (trim_suffix_byte (String b s) c)).
  rewrite cons_app. by f_equal.
Qed.
Lemma trim_suffix_none s c : ends_with s c = false -> trim_suffix_byte s c = s.
Proof.
  induction s as [|a s IH]; [done|]. destruct s as [|b s]; [cbn; by intros ->|]. intros H. specialize (IH H).
  change (trim_suffix_byte (String a (String b s)) c) with (String a (trim_suffix_byte (String b s) c)). by rewrite IH.
Qed.
Lemma TrimSpace_return s : TrimSpace (trim_suffix_byte s return_byte) = TrimSpace s.
Proof.
  destruct (ends_with s return_byte) eqn:E; [|by rewrite trim_suffix_none]. apply ends_with_split in E.
  generalize dependent (trim_suffix_byte s return_byte). intros t ->.
  unfold TrimSpace. rewrite list_ascii_app. cbn [list_ascii_of_string]. by rewrite trim_return.
Qed.

Lemma cut_index s c : cut s (String c "") = match index_byte s c with Some i => Some (str_take i s, str_drop (S i) s) | None => None end.
Proof.
  induction s as [|a s IH]; [done|]. cbn [cut index_byte has_prefix]. assert (has_prefix s "" = true) as -> by by destruct s. rewrite Ascii.eqb_sym, andb_true_r. destruct (Ascii.eqb a c); [done|].
  rewrite IH. destruct (index_byte s c); done.
Qed.

(** One line that the runtime reads gives its key. *)
Lemma line_key_read text : String.eqb (TrimSpace text) "" || has_prefix (TrimSpace text) "#" = false -> forall key value,
  cut (TrimPrefix (TrimSpace text) "export ") "=" = Some (key, value) -> TrimSpace key <> "" -> env_line_key text = Some (TrimSpace key).
Proof.
  intros Hraw key value Hcut Hne. unfold env_line_key. rewrite Hraw. rewrite cut_index in Hcut.
  set (line := TrimPrefix (TrimSpace text) "export ") in *. destruct (index_byte line "=") as [[|eq]|]; [|injection Hcut as <- <-|done].
  - injection Hcut as <- <-. destruct Hne. by destruct line.
  - change (TrimSpace (str_take (S eq) line) <> "") in Hne. by rewrite (proj2 (String.eqb_neq _ _) Hne).
Qed.
Lemma line_key_skipped text : String.eqb (TrimSpace text) "" || has_prefix (TrimSpace text) "#" = true -> env_line_key text = None.
Proof. intros H. unfold env_line_key. by rewrite H. Qed.
Lemma line_key_return text : env_line_key (trim_suffix_byte text return_byte) = env_line_key text.
Proof. unfold env_line_key. by rewrite TrimSpace_return. Qed.

Lemma parse_lines_keys lines : forall line values values', parse_lines line lines values = Ok values' ->
  dom values' = list_to_set (omap env_line_key lines) ∪ dom values.
Proof.
  induction lines as [|text lines IH]; intros line values values'; cbn [parse_lines]; [intros [= <-]; cbn; set_solver|].
  unfold token. destruct (_ <? _); [|done].
  assert (omap env_line_key (text :: lines) = (match env_line_key (trim_suffix_byte text return_byte) with Some k => [k] | None => [] end ++ omap env_line_key lines)%list) as ->
    by (rewrite line_key_return; cbn; by destruct (env_line_key text)).
  set (raw := trim_suffix_byte text return_byte). destruct (String.eqb (TrimSpace raw) "" || has_prefix (TrimSpace raw) "#") eqn:Eraw.
  { rewrite line_key_skipped by done. apply IH. }
  destruct (cut (TrimPrefix (TrimSpace raw) "export ") "=") as [[key value]|] eqn:Ecut; [|done]. destruct (String.eqb_spec (TrimSpace key) "") as [|Hne]; [done|]. intros Hp%IH.
  rewrite (line_key_read raw Eraw key value Ecut Hne). rewrite Hp, dom_insert_L. cbn [app list_to_set]. set_solver.
Qed.
Lemma last_empty_keys lines : omap env_line_key (drop_last_empty lines) = omap env_line_key lines.
Proof.
  induction lines as [|text lines IH]; [done|]. destruct lines as [|text' lines].
  - cbn. destruct (String.eqb_spec text "") as [->|]; [done|]. done.
  - change (drop_last_empty (text :: text' :: lines)) with (text :: drop_last_empty (text' :: lines)). cbn [omap list_omap] in *. by rewrite IH.
Qed.

(** C18: the check before a deploy reads a .env file as the runtime will.  On any
    file the runtime loads, the names the orchestrator counts as provided are
    exactly the names the runtime reads from it - comments, [export], spaces and
    line ends included - so a deploy is neither refused for a variable the pod
    would have had nor let through for one it will not. *)
Theorem env_keys_agree content values : Parse content = Ok values -> parseDotEnvKeys content = dom values.
Proof.
  unfold Parse, scan_lines, parseDotEnvKeys. intros H%parse_lines_keys. rewrite H, last_empty_keys, dom_empty_L. set_solver.
Qed.
Definition env_sample : string := "export A = 'x y'" ++ String return_byte (String line_feed "# B=1").
Definition sample_values : gmap string string := match Parse env_sample with Ok values => values | Err _ => ∅ end.
Lemma env_keys_agree_witness : Parse env_sample = Ok sample_values /\ parseDotEnvKeys env_sample = dom sample_values.
Proof.
  assert (Parse env_sample = Ok sample_values) as H by (vm_compute; reflexivity). split; [exact H|]. exact (env_keys_agree env_sample sample_values H).
Defined.
Example sample_keys : elements (parseDotEnvKeys env_sample) = ["A"].
Proof. vm_compute. reflexivity. Qed.
