(* ===== verification/Deployment.v ===== *)
(** Deployments: [internal/deployment/service.go], [types.go], [errors.go] and
    [reconcile.go] of the orchestrator.

    The database and the cluster are one state.  What the service calls on them
    is the class [Platform]: a read is a function of the state, a write changes it
    and may fail.  [meanwhile] is what other requests do between two calls of this
    one.  The rows hold settings and metadata as records: [encoding/json] keeps
    them.  Logs are left out; a clock reading is an argument. *)
From S2P Require Import Prelude GoStr GoTime Dotenv EnvPorts RuntimeVersion Slug.
From Stdlib Require Import String Ascii.
#[local] Open Scope string_scope.
#[local] Open Scope Z_scope.

(** ** errors.go *)
Definition ErrNotFound : goerr := ErrMsg "deployment not found".
Definition ErrIntegrationNotFound : goerr := ErrMsg "integration not found".
Definition ErrPodNotFound : goerr := ErrMsg "pod not found".
Definition ErrUnavailable : goerr := ErrMsg "deployments unavailable".
Definition ErrExternalUnavailable : goerr := ErrMsg "external endpoints unavailable: no base domain configured".
Definition ErrRunnerUnavailable : goerr := ErrMsg "requested runner is not configured on this installation".
Definition ErrInvalidRuntimeVersion : goerr := ErrMsg "unsupported runtime version".
Definition ErrInvalidRunner : goerr := ErrMsg "unknown runner".
Definition ErrInvalidSubdomain : goerr := ErrMsg "invalid external subdomain".
Definition ErrInvalidSlug : goerr := ErrMsg "invalid deployment slug".
Definition ErrSlugTaken : goerr := ErrMsg "deployment slug already in use".
Definition ErrSubdomainTaken : goerr := ErrMsg "external subdomain already in use".
Definition ErrSecretNotFound : goerr := ErrMsg "referenced secret not found".
Definition ErrReservedEnvVar : goerr := ErrMsg "environment variable is reserved".
Definition ErrMissingRequiredEnv : goerr := ErrMsg "required environment variables are not set".
Definition ErrSnapshotRequired : goerr := ErrMsg "a version tag is required to deploy".
Definition ErrSnapshotNotFound : goerr := ErrMsg "selected version tag not found".
Definition ErrSnapshotMismatch : goerr := ErrMsg "version tag does not belong to this integration".
Definition ErrRolloutTopologyChange : goerr := ErrMsg "version tag changes the HTTP source; undeploy and redeploy instead".
Definition IdentityRefusedError (reason : string) : goerr := ErrMsg ("the deployment cannot be lent an identity: " ++ reason).

(** ** types.go *)
Definition ExposeExternal : string := "external".
Definition RuntimeLatest : string := "latest".
Definition StatusPending : string := "pending".
Definition KindEnv : string := "env".
Record Settings : Type := mkSettings {
  st_Replicas : Z; st_Slug : string; st_Expose : string; st_Subdomain : string; st_Env : gmap string EnvBinding; st_Tracing : bool;
  st_Access : list string; st_Runner : string; st_SnapshotID : string; st_RuntimeVersion : string }.
Definition External (s : Settings) : bool := String.eqb (st_Expose s) ExposeExternal.
Record Metadata : Type := mkMetadata {
  md_Name : string; md_Slug : string; md_InternalURL : string; md_ExternalURL : string; md_SnapshotID : string; md_Tag : string;
  md_RuntimeImage : string; md_RuntimeVersion : string; md_RolledOutAt : option Z }.
Record Status : Type := mkStatus { su_Phase : string; su_Pods : list string; su_RuntimeImage : string }.
Definition phase_only (phase : string) : Status := mkStatus phase [] "".
Record Deployment : Type := mkDeployment {
  dp_ID : string; dp_IntegrationID : string; dp_Status : string; dp_Settings : Settings; dp_Metadata : Metadata; dp_LastUpdated : Z; dp_Detail : Status }.
Definition with_status (st : Status) (d : Deployment) : Deployment :=
  mkDeployment (dp_ID d) (dp_IntegrationID d) (su_Phase st) (dp_Settings d) (dp_Metadata d) (dp_LastUpdated d) st.
Definition with_settings (s : Settings) (d : Deployment) : Deployment :=
  mkDeployment (dp_ID d) (dp_IntegrationID d) (dp_Status d) s (dp_Metadata d) (dp_LastUpdated d) (dp_Detail d).
Definition with_metadata (m : Metadata) (d : Deployment) : Deployment :=
  mkDeployment (dp_ID d) (dp_IntegrationID d) (dp_Status d) (dp_Settings d) m (dp_LastUpdated d) (dp_Detail d).
(** [Runtime]: the image the pods run and the release it is. *)
Definition Runtime (d : Deployment) : string * string :=
  let image := if negb (String.eqb (su_RuntimeImage (dp_Detail d)) "") then su_RuntimeImage (dp_Detail d) else md_RuntimeImage (dp_Metadata d) in
  let version := ImageTag image in
  if negb (String.eqb version "") then (image, version)
  else if negb (String.eqb (md_RuntimeVersion (dp_Metadata d)) "") then (image, md_RuntimeVersion (dp_Metadata d))
  else (image, ImageTag (md_RuntimeImage (dp_Metadata d))).

(** [RolloutChange]: what is absent is kept. *)
Record RolloutChange : Type := mkChange {
  rc_SnapshotID : string; rc_Env : option (gmap string EnvBinding); rc_Tracing : option bool; rc_Runner : option string; rc_Runtime : option string }.

Record Integration : Type := mkIntegration { in_Name : string; in_Definition : string }.
Record Snapshot : Type := mkSnapshot { sn_ID : string; sn_IntegrationID : string; sn_Tag : string; sn_Definition : string }.
Record Resource : Type := mkResource { rs_Kind : string; rs_Content : string }.

Inductive Runner : Type := RunnerStandard | RunnerAgentic.
Definition runner_name (r : Runner) : string := match r with RunnerStandard => "standard" | RunnerAgentic => "agentic" end.
Definition ParseRunner (s : string) : option Runner :=
  if String.eqb s "" || String.eqb s "standard" then Some RunnerStandard else if String.eqb s "agentic" then Some RunnerAgentic else None.

Record Spec : Type := mkSpec {
  sp_ID : string; sp_IntegrationID : string; sp_Name : string; sp_Version : string; sp_SnapshotID : string; sp_Definition : string; sp_Replicas : Z;
  sp_Slug : string; sp_Port : Z; sp_Env : gmap string string; sp_SecretEnv : gmap string string; sp_Expose : bool; sp_Subdomain : string;
  sp_Tracing : bool; sp_Runner : Runner; sp_RuntimePin : string; sp_Token : string }.
(** [int32(n)]. *)
Definition wrap32 (z : Z) : Z := (z + 2 ^ 31) `mod` 2 ^ 32 - 2 ^ 31.

(** What minting an identity comes to. *)
Inductive mint : Type := Minted (token : string) | Refused (reason : string) | MintError (e : goerr).

(** ** What the service calls *)
Class Platform (S : Type) : Type := {
  (* the repository *)
  repo_Create : string -> string -> Settings -> Metadata -> SM S Deployment;
  repo_Get : S -> string -> res Deployment;
  repo_ListAll : S -> res (list Deployment);
  repo_ListByIntegration : S -> string -> res (list Deployment);
  repo_IntegrationIDBySlug : S -> string -> res (option string);
  repo_IntegrationIDBySubdomain : S -> string -> res (option string);
  repo_UpdateStatus : string -> string -> SM S unit;
  repo_UpdateSettings : string -> Settings -> SM S unit;
  repo_UpdateMetadataAndSettings : string -> Metadata -> Settings -> SM S unit;
  repo_Delete : string -> SM S unit;
  (* the other stores; an [None] is their not-found error *)
  integrations_Get : S -> string -> res (option Integration);
  snapshots_Get : S -> string -> res (option Snapshot);
  snapshots_ListResources : S -> string -> res (list Resource);
  resources_ListByIntegration : S -> string -> res (list Resource);
  (* the cluster *)
  kube_Apply : Spec -> SM S unit;
  kube_Rollout : Spec -> SM S unit;
  kube_Status : S -> string -> res Status;
  kube_PodLogs : S -> string -> bool -> Z -> res string;
  kube_Scale : string -> Z -> SM S unit;
  kube_Delete : string -> SM S unit;
  kube_DeleteInternalService : string -> SM S unit;
  kube_SecretKeyExists : S -> string -> res bool;
  kube_DeploymentIDs : S -> res (gset string * bool);
  kube_DeploymentExists : S -> string -> res bool;
  kube_InternalURL : string -> Z -> string;
  kube_ExternalURL : string -> string;
  kube_ExternalEnabled : bool;
  kube_RunnerEnabled : Runner -> bool;
  kube_RunnerImage : Runner -> string -> string;
  kube_RuntimeVersion : string;
  (* identities *)
  identities_MintMachine : string -> string -> list string -> S -> S * mint;
  (* the releases of [supported.json], and what others do in between *)
  supported_releases : list string;
  meanwhile : S -> S }.

(** [Service]: what it was wired with. *)
Record Service (S : Type) : Type := mkService {
  sv_kube : bool; sv_snapshots : bool; sv_resources : bool; sv_identities : bool; sv_cleaners : list (string -> SM S unit) }.
Arguments mkService {S}. Arguments sv_kube {S}. Arguments sv_snapshots {S}. Arguments sv_resources {S}. Arguments sv_identities {S}. Arguments sv_cleaners {S}.

Definition read {S A} (f : S -> res A) : SM S A := fun s => (s, f s).
Definition guard_err {S} (b : bool) (e : goerr) : SM S unit := if b then fail e else mret tt.
(** A call whose error is only logged. *)
Definition best_effort {S} (m : SM S unit) : SM S unit := fun s => ((m s).1, Ok tt).
Definition interlude {S} `{!Platform S} : SM S unit := modify meanwhile.

Section service.
Context {S : Type} {PF : Platform S} {DY : DefinitionYAML} (sv : Service S).

(** *** Identities, runners, releases *)
Definition identityFor (callerToken deploymentID : string) (access : list string) : SM S string :=
  if negb (sv_identities sv) then mret ""
  else if String.eqb callerToken "" then fail (ErrMsg "this deployment needs an identity and the request carried no credential to mint it with")
  else fun s => match identities_MintMachine callerToken deploymentID access s with
                | (s, Minted token) => (s, Ok token)
                | (s, Refused reason) => (s, Err (IdentityRefusedError reason))
                | (s, MintError e) => (s, Err (ErrWrap "lend the deployment an identity: " e ""))
                end.
Definition resolveRunner (name : string) : res Runner :=
  match ParseRunner name with
  | None => Err (ErrWrap "" ErrInvalidRunner (": " ++ quote name))
  | Some runner => if negb (kube_RunnerEnabled runner) then Err (ErrWrap "" ErrRunnerUnavailable (": " ++ quote (runner_name runner))) else Ok runner
  end.
Definition CurrentRuntime : string := if negb (sv_kube sv) then "" else Current kube_RuntimeVersion (kube_RunnerImage RunnerStandard "").
Definition runtimeVersion (pin : string) : string := if negb (String.eqb pin "") then pin else kube_RuntimeVersion.
Definition parseRuntimePin (requested : string) : res string :=
  let requested := TrimSpace requested in
  if String.eqb requested "" || String.eqb requested RuntimeLatest then Ok ""
  else if negb (CanPin supported_releases requested CurrentRuntime) then Err (ErrWrap "" ErrInvalidRuntimeVersion (": " ++ quote requested))
  else Ok requested.
Definition RunnerAvailable (name : string) : bool :=
  if negb (sv_kube sv) then false else match ParseRunner name with None => false | Some r => kube_RunnerEnabled r end.

(** *** Snapshots, bindings, .env keys *)
Definition resolveSnapshot (integrationID snapshotID : string) : SM S Snapshot :=
  guard_err (String.eqb snapshotID "") ErrSnapshotRequired ≫= fun _ =>
  found ← read (fun s => snapshots_Get s snapshotID);
  match found with
  | None => fail ErrSnapshotNotFound
  | Some snap => if negb (String.eqb (sn_IntegrationID snap) integrationID) then fail ErrSnapshotMismatch else mret snap
  end.

Definition reserved_env (name : string) : bool := String.eqb name envHTTPPort || String.eqb name envHTTPHost || String.eqb name envObservabilityURL.
Definition binding_secret (b : EnvBinding) : option string := if negb (String.eqb (eb_Secret b) "") then Some (eb_Secret b) else None.
Definition binding_literal (b : EnvBinding) : option string :=
  if negb (String.eqb (eb_Secret b) "") || String.eqb (eb_Value b) "" then None else Some (eb_Value b).
(** The secrets are looked up in the order [range] gives them. *)
Fixpoint secrets_exist (keys : list string) : SM S unit :=
  match keys with
  | [] => mret tt
  | key :: keys => ok ← read (fun s => kube_SecretKeyExists s key); if (ok : bool) then secrets_exist keys else fail ErrSecretNotFound
  end.
Definition resolveEnvBindings (runtimeEnv : gmap string string) (bindings : gmap string EnvBinding) : SM S (gmap string string * gmap string string) :=
  if existsb reserved_env (map fst (map_to_list bindings)) then fail ErrReservedEnvVar
  else
    let secret := omap binding_secret bindings in
    secrets_exist (map snd (map_to_list secret)) ≫= fun _ => mret (omap binding_literal bindings ∪ runtimeEnv, secret).

Definition addEnvKeys (dst : gset string) (r : Resource) : gset string :=
  if String.eqb (rs_Kind r) KindEnv then dst ∪ parseDotEnvKeys (rs_Content r) else dst.
Definition snapshotEnvFileKeys (snapshotID : string) : SM S (gset string) :=
  if negb (sv_snapshots sv) || String.eqb snapshotID "" then mret ∅
  else resources ← read (fun s => snapshots_ListResources s snapshotID); mret (foldl addEnvKeys ∅ resources).
Definition liveEnvFileKeys (integrationID : string) : SM S (gset string) :=
  if negb (sv_resources sv) then mret ∅
  else resources ← read (fun s => resources_ListByIntegration s integrationID); mret (foldl addEnvKeys ∅ resources).
Definition required_env_set (definition snapID : string) (env : gmap string EnvBinding) : SM S unit :=
  fileKeys ← snapshotEnvFileKeys snapID;
  let missing := missingRequiredEnv definition (providedEnvKeys env ∪ fileKeys) in
  guard_err (negb (bool_decide (missing = []))) (ErrWrap "" ErrMissingRequiredEnv (": " ++ join ", " missing)).

(** *** Addresses *)
Definition claimed_in (s : S) (slug : string) : res bool :=
  match repo_IntegrationIDBySlug s slug with Err e => Err e | Ok None => Ok false | Ok (Some _) => Ok true end.
Definition allocate_slug (base : string) : SM S string := fun s => (s, allocateSlug (claimed_in s) base).
Definition resolveSlug (chosen base : string) : SM S string :=
  if String.eqb chosen "" then allocate_slug base
  else
    let slug := slugify chosen in
    guard_err (String.eqb slug "") ErrInvalidSlug ≫= fun _ =>
    found ← read (fun s => claimed_in s slug);
    if (found : bool) then fail ErrSlugTaken else mret slug.
Definition addressFree (slug : string) (external : bool) : SM S bool :=
  found ← read (fun s => claimed_in s slug);
  if (found : bool) then mret false
  else if negb external then mret true
  else owner ← read (fun s => repo_IntegrationIDBySubdomain s slug); mret (match owner with None => true | Some _ => false end).
Definition ensureSubdomainUnique (integrationID subdomain : string) : SM S unit :=
  if String.eqb subdomain "" then mret tt
  else owner ← read (fun s => repo_IntegrationIDBySubdomain s subdomain);
       match owner with
       | Some o => guard_err (negb (String.eqb o integrationID)) ErrSubdomainTaken
       | None => mret tt
       end.

(** *** Status *)
Definition status_refresh (id cached : string) : SM S Status :=
  if negb (sv_kube sv) then mret (phase_only cached)
  else fun s => match kube_Status s id with
                | Err _ => (s, Ok (phase_only cached))
                | Ok status => if negb (String.eqb (su_Phase status) cached) then ((repo_UpdateStatus id (su_Phase status) s).1, Ok status) else (s, Ok status)
                end.
Definition applyRefresh (d : Deployment) : SM S Deployment :=
  st ← status_refresh (dp_ID d) (dp_Status d); mret (with_status st d).

(** *** Deploy *)
Definition the_integration (integrationID : string) : SM S Integration :=
  found ← read (fun s => integrations_Get s integrationID);
  match found with None => fail ErrIntegrationNotFound | Some it => mret it end.
Definition at_least_one (replicas : Z) : Z := if replicas <? 1 then 1 else replicas.
(** The external endpoint a deploy asks for, checked before anything is made:
    whether there is one, its subdomain and its URL. *)
Definition deploy_endpoint (integrationID : string) (settings : Settings) (networked : bool) (slug : string) : SM S (bool * string * string) :=
  if negb (External settings) then mret (false, "", "")
  else if negb kube_ExternalEnabled then fail ErrExternalUnavailable
  else if negb networked then mret (false, "", "")
  else
    let subdomain := slugify (if String.eqb (st_Subdomain settings) "" then slug else st_Subdomain settings) in
    guard_err (String.eqb subdomain "") ErrInvalidSubdomain ≫= fun _ =>
    ensureSubdomainUnique integrationID subdomain ≫= fun _ => mret (true, subdomain, kube_ExternalURL subdomain).

(** What a deploy has settled before it writes its row. *)
Record plan : Type := mkPlan { pl_settings : Settings; pl_metadata : Metadata; pl_spec : string -> string -> Spec }.
Definition plan_deploy (integrationID : string) (settings : Settings) (now : Z) : SM S plan :=
  it ← the_integration integrationID;
  chosen ← (if sv_snapshots sv then snap ← resolveSnapshot integrationID (st_SnapshotID settings); mret (sn_Definition snap, sn_ID snap, sn_Tag snap)
            else mret (in_Definition it, "", ""));
  let '(definition, snapID, snapTag) := chosen in
  let replicas := at_least_one (st_Replicas settings) in
  let '(port, runtimeEnv, networked) := resolveRuntimeEnv definition in
  envs ← resolveEnvBindings runtimeEnv (st_Env settings);
  required_env_set definition snapID (st_Env settings) ≫= fun _ =>
  slug ← (if (networked : bool) then resolveSlug (st_Slug settings) (slugify (in_Name it)) else mret "");
  endpoint ← deploy_endpoint integrationID settings networked slug;
  let '(external, subdomain, externalURL) := endpoint in
  runner ← lift (resolveRunner (st_Runner settings));
  pin ← lift (parseRuntimePin (st_RuntimeVersion settings));
  mret (mkPlan
    (mkSettings replicas "" (if (external : bool) then ExposeExternal else "") (if external then subdomain else "") (st_Env settings) (st_Tracing settings)
       (st_Access settings) (st_Runner settings) snapID pin)
    (mkMetadata (in_Name it) slug (if networked then kube_InternalURL slug port else "") externalURL snapID snapTag (kube_RunnerImage runner pin)
       (runtimeVersion pin) (Some now))
    (fun id token => mkSpec id integrationID (in_Name it) snapTag snapID definition (wrap32 replicas) slug port (fst envs) (snd envs) external subdomain
       (st_Tracing settings) runner pin token)).

(** What is undone when an identity cannot be minted, and when the cluster refuses. *)
Definition undo_row (id : string) : SM S unit := best_effort (repo_Delete id).
Definition undo_deploy (id slug : string) : SM S unit :=
  best_effort (kube_Delete id) ≫= fun _ =>
  (if negb (String.eqb slug "") then best_effort (kube_DeleteInternalService slug) else mret tt) ≫= fun _ => undo_row id.
Definition Deploy (callerToken integrationID : string) (settings : Settings) (now : Z) : SM S Deployment :=
  guard_err (negb (sv_kube sv)) ErrUnavailable ≫= fun _ =>
  p ← plan_deploy integrationID settings now;
  interlude ≫= fun _ =>
  dep ← repo_Create integrationID StatusPending (pl_settings p) (pl_metadata p);
  token ← attempt (identityFor callerToken (dp_ID dep) (st_Access settings));
  match token with
  | Err e => undo_row (dp_ID dep) ≫= fun _ => fail e
  | Ok token =>
      applied ← attempt (kube_Apply (pl_spec p (dp_ID dep) token));
      match applied with
      | Err e => undo_deploy (dp_ID dep) (md_Slug (pl_metadata p)) ≫= fun _ => fail e
      | Ok _ => applyRefresh dep
      end
  end.

(** *** The choices for a deploy *)
Record DeployOptions : Type := mkOptions {
  do_Networked : bool; do_SuggestedSlug : string; do_EnvVars : list EnvVarDecl; do_EnvProvidedKeys : list string;
  do_SlugChecked : bool; do_Slug : string; do_SlugValid : bool; do_SlugAvailable : bool }.
Definition Service_DeployOptions (integrationID candidate : string) (external : bool) (snapshotID : string) : SM S DeployOptions :=
  it ← the_integration integrationID;
  definition ← (if sv_snapshots sv && negb (String.eqb snapshotID "") then snap ← resolveSnapshot integrationID snapshotID; mret (sn_Definition snap)
                else mret (in_Definition it));
  let networked := Exposable definition in
  fileKeys ← (if negb (String.eqb snapshotID "") then snapshotEnvFileKeys snapshotID else liveEnvFileKeys integrationID);
  let opts := mkOptions networked "" (declaredEnvVars definition) (sort_strings (elements fileKeys)) in
  if negb networked then mret (opts false "" false false)
  else if negb (String.eqb candidate "") then
    let slug := slugify candidate in
    if String.eqb slug "" then mret (opts true slug false false)
    else free ← addressFree slug external; mret (opts true slug true free)
  else slug ← allocate_slug (slugify (in_Name it)); mret (mkOptions networked slug (declaredEnvVars definition) (sort_strings (elements fileKeys)) false "" false false).

(** *** Scale, rollout, reads, undeploy *)
Definition with_replicas (n : Z) (s : Settings) : Settings :=
  mkSettings n (st_Slug s) (st_Expose s) (st_Subdomain s) (st_Env s) (st_Tracing s) (st_Access s) (st_Runner s) (st_SnapshotID s) (st_RuntimeVersion s).
Definition Service_Scale (id : string) (replicas : Z) : SM S Deployment :=
  guard_err (negb (sv_kube sv)) ErrUnavailable ≫= fun _ =>
  let replicas := at_least_one replicas in
  dep ← read (fun s => repo_Get s id);
  kube_Scale id (wrap32 replicas) ≫= fun _ =>
  let settings := with_replicas replicas (dp_Settings dep) in
  repo_UpdateSettings id settings ≫= fun _ => applyRefresh (with_settings settings dep).

(** The stored settings with a change made to them; a pin is still to be read. *)
Definition changed_settings (c : RolloutChange) (pin snapID : string) (s : Settings) : Settings :=
  mkSettings (st_Replicas s) (st_Slug s) (st_Expose s) (st_Subdomain s) (default (st_Env s) (rc_Env c)) (default (st_Tracing s) (rc_Tracing c))
    (st_Access s) (default (st_Runner s) (rc_Runner c)) snapID pin.
Definition rolled_metadata (image version snapID tag : string) (now : Z) (m : Metadata) : Metadata :=
  mkMetadata (md_Name m) (md_Slug m) (md_InternalURL m) (md_ExternalURL m) snapID tag image version (Some now).
Definition Rollout (callerToken id : string) (change : RolloutChange) (now : Z) : SM S Deployment :=
  guard_err (negb (sv_kube sv)) ErrUnavailable ≫= fun _ =>
  guard_err (negb (sv_snapshots sv)) ErrSnapshotRequired ≫= fun _ =>
  dep ← read (fun s => repo_Get s id);
  let snapshotID := if String.eqb (rc_SnapshotID change) "" then st_SnapshotID (dp_Settings dep) else rc_SnapshotID change in
  snap ← resolveSnapshot (dp_IntegrationID dep) snapshotID;
  pin ← (match rc_Runtime change with None => mret (st_RuntimeVersion (dp_Settings dep)) | Some requested => lift (parseRuntimePin requested) end);
  let settings := changed_settings change pin (sn_ID snap) (dp_Settings dep) in
  let meta := dp_Metadata dep in
  let '(port, runtimeEnv, networked) := resolveRuntimeEnv (sn_Definition snap) in
  guard_err (negb (Bool.eqb networked (negb (String.eqb (md_Slug meta) "")))) ErrRolloutTopologyChange ≫= fun _ =>
  envs ← resolveEnvBindings runtimeEnv (st_Env settings);
  required_env_set (sn_Definition snap) (sn_ID snap) (st_Env settings) ≫= fun _ =>
  runner ← lift (resolveRunner (st_Runner settings));
  token ← identityFor callerToken (dp_ID dep) (st_Access settings);
  kube_Rollout (mkSpec (dp_ID dep) (dp_IntegrationID dep) (md_Name meta) (sn_Tag snap) (sn_ID snap) (sn_Definition snap)
    (wrap32 (at_least_one (st_Replicas settings))) (md_Slug meta) port (fst envs) (snd envs) (External settings) (st_Subdomain settings)
    (st_Tracing settings) runner (st_RuntimeVersion settings) token) ≫= fun _ =>
  let meta := rolled_metadata (kube_RunnerImage runner (st_RuntimeVersion settings)) (runtimeVersion (st_RuntimeVersion settings)) (sn_ID snap) (sn_Tag snap) now meta in
  recorded ← attempt (repo_UpdateMetadataAndSettings id meta settings);
  match recorded with
  | Err e => fail (ErrWrap ("rollout " ++ id ++ ": pods rolled to " ++ sn_Tag snap ++
               " but recording it failed, so the stored deployment is behind them; retry the rollout: ") e "")
  | Ok _ => applyRefresh (with_settings settings (with_metadata meta dep))
  end.

Definition IntegrationOf (id : string) : SM S string := dep ← read (fun s => repo_Get s id); mret (dp_IntegrationID dep).
Definition Service_Get (id : string) : SM S Deployment := dep ← read (fun s => repo_Get s id); applyRefresh dep.
Definition PodLogs (id podName : string) (follow : bool) (tail : Z) : SM S string :=
  guard_err (negb (sv_kube sv)) ErrUnavailable ≫= fun _ =>
  dep ← read (fun s => repo_Get s id);
  st ← read (fun s => kube_Status s id);
  if negb (bool_decide (podName ∈ su_Pods st)) then fail ErrPodNotFound else read (fun s => kube_PodLogs s podName follow tail).
Fixpoint refresh_all (ds : list Deployment) : SM S (list Deployment) :=
  match ds with [] => mret [] | d :: ds => d ← applyRefresh d; ds ← refresh_all ds; mret (d :: ds) end.
Definition ListByIntegration (integrationID : string) : SM S (list Deployment) := ds ← read (fun s => repo_ListByIntegration s integrationID); refresh_all ds.
Definition Service_List : SM S (list Deployment) := ds ← read repo_ListAll; refresh_all (rev ds).

Fixpoint clean_all (cleaners : list (string -> SM S unit)) (id : string) : SM S unit :=
  match cleaners with [] => mret tt | c :: cs => best_effort (c id) ≫= fun _ => clean_all cs id end.
(** What goes with a deployment that is gone: its internal Service, its entries in
    the stores. *)
Definition forget_deployment (d : Deployment) : SM S unit :=
  let slug := md_Slug (dp_Metadata d) in
  (if negb (String.eqb slug "") then best_effort (kube_DeleteInternalService slug) else mret tt) ≫= fun _ => clean_all (sv_cleaners sv) (dp_ID d).
Definition Undeploy (id : string) : SM S unit :=
  guard_err (negb (sv_kube sv)) ErrUnavailable ≫= fun _ =>
  dep ← read (fun s => repo_Get s id);
  kube_Delete id ≫= fun _ => repo_Delete id ≫= fun _ => forget_deployment dep.

(** ** reconcile.go *)
Definition reconcileGrace : Z := 5 * 60 * Second.
Record Reconciled : Type := mkReconciled { rd_RowsDeleted : Z; rd_WorkloadsDeleted : Z }.
Definition removeOrphanedRow (row : Deployment) : SM S bool :=
  deleted ← attempt (repo_Delete (dp_ID row));
  match deleted with Err _ => mret false | Ok _ => forget_deployment row ≫= fun _ => mret true end.
Definition sweep_row (live_ : gset string) (cutoff : Z) (row : Deployment) (n : Z) : SM S Z :=
  if bool_decide (dp_ID row ∈ live_) then mret n
  else if cutoff <? dp_LastUpdated row then mret n
  else
    exists_ ← attempt (read (fun s => kube_DeploymentExists s (dp_ID row)));
    match exists_ with
    | Err _ | Ok true => mret n
    | Ok false => removed ← removeOrphanedRow row; mret (if (removed : bool) then n + 1 else n)
    end.
Fixpoint sweep_rows (live_ : gset string) (cutoff : Z) (rows : list Deployment) (n : Z) : SM S Z :=
  match rows with [] => mret n | row :: rows => interlude ≫= fun _ => n ← sweep_row live_ cutoff row n; sweep_rows live_ cutoff rows n end.
(** The workloads no row names, in the order [range] gives them. *)
Fixpoint sweep_workloads (known : gset string) (ids : list string) (n : Z) : SM S Z :=
  match ids with
  | [] => mret n
  | id :: ids =>
      if bool_decide (id ∈ known) then sweep_workloads known ids n
      else interlude ≫= fun _ =>
           deleted ← attempt (kube_Delete id);
           sweep_workloads known ids (match deleted with Ok _ => n + 1 | Err _ => n end)
  end.
Definition Reconcile (now : Z) : SM S Reconciled :=
  if negb (sv_kube sv) then mret (mkReconciled 0 0)
  else
    listing ← read kube_DeploymentIDs;
    let '(live_, trusted) := listing in
    if negb (trusted : bool) then mret (mkReconciled 0 0)
    else
      interlude ≫= fun _ =>
      rows ← read repo_ListAll;
      n ← sweep_rows live_ (now - reconcileGrace) rows 0;
      m ← sweep_workloads (list_to_set (map dp_ID rows)) (elements live_) 0;
      mret (mkReconciled n m).
End service.
