(* ===== verification/DeployLaws.v ===== *)
(** What the deployment service of [Deployment] needs of the database and the
    cluster, and what its operations keep. *)
From S2P Require Import Prelude GoStr GoTime Dotenv EnvPorts RuntimeVersion Slug Deployment.
From Stdlib Require Import String Ascii.
#[local] Open Scope string_scope.
#[local] Open Scope Z_scope.

(** ** The state, seen as rows, workloads and internal Services *)
Class PlatformView (S : Type) : Type := {
  rows : S -> gmap string Deployment;
  workloads : S -> gset string;
  addresses : S -> gset string }.
Definition row_slug (d : Deployment) : string := md_Slug (dp_Metadata d).

Record same {S} `{!PlatformView S} (s s' : S) : Prop := mkSame {
  same_rows : rows s' = rows s; same_workloads : workloads s' = workloads s; same_addresses : addresses s' = addresses s }.
#[global] Instance same_preorder {S} `{!PlatformView S} : PreOrder (same (S := S)).
Proof. split; [by intros s|]. intros s1 s2 s3 [H1 H2 H3] [K1 K2 K3]. split; congruence. Qed.

(** A write of one row: it fails and changes nothing, or finds the row and leaves
    it as [P] says. *)
Definition updates {S} `{!PlatformView S} (id : string) (P : Deployment -> Deployment -> Prop) (m : SM S unit) : Prop := forall s s' r, m s = (s', r) ->
  match r with
  | Err _ => same s s'
  | Ok _ => exists d d', rows s !! id = Some d /\ rows s' = <[id := d']> (rows s) /\ dp_ID d' = dp_ID d /\ P d d' /\
              workloads s' = workloads s /\ addresses s' = addresses s
  end.

(** The laws: what each call does to rows, workloads and addresses when nothing
    else happens meanwhile. *)
Class PlatformLaws (S : Type) `{!Platform S} `{!PlatformView S} : Prop := {
  meanwhile_same : forall s, same s (meanwhile s);
  create_law : forall integ st set md s s' r, repo_Create integ st set md s = (s', r) ->
    match r with
    | Err _ => same s s'
    | Ok d => rows s !! dp_ID d = None /\ (dp_ID d ∉ workloads s) /\ rows s' = <[dp_ID d := d]> (rows s) /\ dp_IntegrationID d = integ /\
                dp_Settings d = set /\ dp_Metadata d = md /\ workloads s' = workloads s /\ addresses s' = addresses s
    end;
  get_law : forall s id d, repo_Get s id = Ok d -> rows s !! id = Some d;
  slug_law : forall s slug o, slug <> "" -> repo_IntegrationIDBySlug s slug = Ok o ->
    (o = None <-> forall id d, rows s !! id = Some d -> row_slug d <> slug);
  list_law : forall s ds, (forall id d, rows s !! id = Some d -> dp_ID d = id) -> repo_ListAll s = Ok ds -> NoDup (map dp_ID ds) /\ forall d, d ∈ ds <-> rows s !! dp_ID d = Some d;
  status_law : forall id phase, updates id (fun d d' => dp_Settings d' = dp_Settings d /\ dp_Metadata d' = dp_Metadata d) (repo_UpdateStatus id phase);
  settings_law : forall id set, updates id (fun d d' => dp_Settings d' = set /\ dp_Metadata d' = dp_Metadata d) (repo_UpdateSettings id set);
  metadata_law : forall id md set, updates id (fun d d' => dp_Settings d' = set /\ dp_Metadata d' = md) (repo_UpdateMetadataAndSettings id md set);
  row_delete_law : forall id s s' r, repo_Delete id s = (s', r) ->
    match r with
    | Err _ => same s s' /\ rows s !! id = None
    | Ok _ => rows s' = delete id (rows s) /\ workloads s' = workloads s /\ addresses s' = addresses s
    end;
  (** A deploy that fails may have made some of what it makes. *)
  apply_law : forall spec s s' r, kube_Apply spec s = (s', r) -> rows s' = rows s /\
    (workloads s ⊆ workloads s' /\ workloads s' ⊆ {[sp_ID spec]} ∪ workloads s) /\
    (addresses s ⊆ addresses s' /\ addresses s' ⊆ (if String.eqb (sp_Slug spec) "" then ∅ else {[sp_Slug spec]}) ∪ addresses s) /\
    (is_ok r = true -> sp_ID spec ∈ workloads s' /\ (sp_Slug spec <> "" -> sp_Slug spec ∈ addresses s'));
  rollout_law : forall spec s, same s (kube_Rollout spec s).1;
  scale_law : forall id n s, same s (kube_Scale id n s).1;
  (** Deleting what is not there is no error. *)
  workload_delete_law : forall id s s' r, kube_Delete id s = (s', r) -> rows s' = rows s /\ addresses s' = addresses s /\
    (workloads s ∖ {[id]} ⊆ workloads s' /\ workloads s' ⊆ workloads s) /\ (is_ok r = true -> id ∉ workloads s');
  address_delete_law : forall slug s s' r, kube_DeleteInternalService slug s = (s', r) -> rows s' = rows s /\ workloads s' = workloads s /\
    (addresses s ∖ {[slug]} ⊆ addresses s' /\ addresses s' ⊆ addresses s) /\ (is_ok r = true -> slug ∉ addresses s');
  ids_law : forall s ids, kube_DeploymentIDs s = Ok (ids, true) -> ids = workloads s;
  exists_law : forall s id b, kube_DeploymentExists s id = Ok b -> (b = true <-> id ∈ workloads s);
  mint_law : forall token id access s, same s (identities_MintMachine token id access s).1 }.
(** The cluster does what it is told to take down. *)
Class Reliable (S : Type) `{!Platform S} : Prop := {
  delete_works : forall id s, is_ok (kube_Delete id s).2 = true;
  address_delete_works : forall slug s, is_ok (kube_DeleteInternalService slug s).2 = true;
  exists_works : forall s id, is_ok (kube_DeploymentExists s id) = true }.

Lemma effort_split {S B} (m : SM S unit) (f : unit -> SM S B) s s' r : (best_effort m ≫= f) s = (s', r) -> exists s1 a, m s = (s1, a) /\ f tt s1 = (s', r).
Proof. unfold mbind, SM_bind, best_effort. destruct (m s) as [s1 a] eqn:E. cbn. intros H. by exists s1, a. Qed.

Lemma effort_run {S B} (m : SM S unit) (f : unit -> SM S B) s : (best_effort m ≫= f) s = f tt (m s).1.
Proof. done. Qed.

(** ** What does not touch the platform *)
Definition keeps {S A} `{!PlatformView S} (m : SM S A) : Prop := forall s, same s (m s).1.
Lemma keeps_run {S A} `{!PlatformView S} (m : SM S A) s s' r : keeps m -> m s = (s', r) -> same s s'.
Proof. intros H E. specialize (H s). by rewrite E in H. Qed.
Create HintDb keep.
Section keeps.
Context {S : Type} {PV : PlatformView S}.
Lemma steady_ret {A} (a : A) : keeps (S := S) (mret a). Proof. intros s. by cbn. Qed.
Lemma steady_fail {A} e : keeps (S := S) (A := A) (fail e). Proof. intros s. by cbn. Qed.
Lemma keeps_read {A} (f : S -> res A) : keeps (read f). Proof. intros s. by cbn. Qed.
Lemma steady_lift {A} (r : res A) : keeps (S := S) (lift r). Proof. intros s. by cbn. Qed.
Lemma keeps_guard b e : keeps (S := S) (guard_err b e). Proof. intros s. by destruct b. Qed.
Lemma steady_bind {A B} (m : SM S A) (f : A -> SM S B) : keeps m -> (forall a, keeps (f a)) -> keeps (m ≫= f).
Proof.
  intros Hm Hf s. specialize (Hm s). unfold mbind, SM_bind. destruct (m s) as [s1 [a|e]]; [|done]. etransitivity; [exact Hm|apply Hf].
Qed.
Lemma keeps_if {A} (b : bool) (m n : SM S A) : keeps m -> keeps n -> keeps (if b then m else n). Proof. by destruct b. Qed.
Lemma keeps_option {A B} (o : option A) (f : A -> SM S B) (n : SM S B) : (forall a, keeps (f a)) -> keeps n -> keeps (match o with Some a => f a | None => n end).
Proof. intros. by destruct o. Qed.
End keeps.
#[export] Hint Resolve steady_ret steady_fail keeps_read steady_lift keeps_guard steady_bind keeps_if keeps_option : keep.
Ltac keep := repeat first [apply steady_ret|apply steady_fail|apply keeps_read|apply steady_lift|apply keeps_guard|apply keeps_if|apply keeps_option
                          |(apply steady_bind; [|intros ?])|done|match goal with |- context [let '(_, _) := ?x in _] => destruct x end|progress cbv zeta|intros ?].

Section platform.
Context {S : Type} {PF : Platform S} {PV : PlatformView S} {PL : PlatformLaws S} {DY : DefinitionYAML} (sv : Service S).

Lemma interlude_keeps : keeps (S := S) interlude. Proof. intros s. apply meanwhile_same. Qed.
Lemma mint_keeps token id access : keeps (identityFor sv token id access).
Proof.
  unfold identityFor. apply keeps_if; [keep|]. apply keeps_if; [keep|]. intros s. pose proof (mint_law token id access s) as H.
  by destruct (identities_MintMachine token id access s) as [s1 []].
Qed.
Lemma secrets_keep keys : keeps (S := S) (secrets_exist keys).
Proof. induction keys; cbn; keep. Qed.
Lemma resolve_snapshot_keeps integ id : keeps (S := S) (resolveSnapshot integ id). Proof. unfold resolveSnapshot. keep. Qed.
Lemma bindings_keep env bs : keeps (S := S) (resolveEnvBindings env bs). Proof. unfold resolveEnvBindings. keep. apply secrets_keep. Qed.
Lemma required_keeps definition snap env : keeps (required_env_set sv definition snap env). Proof. unfold required_env_set, snapshotEnvFileKeys. keep. Qed.
Lemma allocate_keeps base : keeps (S := S) (allocate_slug base). Proof. intros s. by cbn. Qed.
Lemma resolve_slug_keeps chosen base : keeps (S := S) (resolveSlug chosen base). Proof. unfold resolveSlug. keep. Qed.
Lemma subdomain_keeps integ sub : keeps (S := S) (ensureSubdomainUnique integ sub). Proof. unfold ensureSubdomainUnique. keep. Qed.
Lemma endpoint_keeps integ set networked slug : keeps (S := S) (deploy_endpoint integ set networked slug).
Proof. unfold deploy_endpoint. keep. Qed.
Lemma integration_keeps id : keeps (S := S) (the_integration id). Proof. unfold the_integration. keep. Qed.
Lemma plan_keeps integ set now : keeps (plan_deploy sv integ set now).
Proof.
  unfold plan_deploy. apply steady_bind; [apply integration_keeps|intros it].
  apply steady_bind; [apply keeps_if; [apply steady_bind; [apply resolve_snapshot_keeps|keep]|keep]|intros [[definition snapID] snapTag]].
  cbv zeta. destruct (resolveRuntimeEnv definition) as [[port env] networked].
  apply steady_bind; [apply bindings_keep|intros envs]. apply steady_bind; [apply required_keeps|intros _].
  apply steady_bind; [apply keeps_if; [apply resolve_slug_keeps|keep]|intros slug]. apply steady_bind; [apply endpoint_keeps|intros [[external sub] url]]. keep.
Qed.
Lemma cleaning_keeps cs id : Forall (fun c : string -> SM S unit => forall id, keeps (c id)) cs -> keeps (clean_all cs id).
Proof.
  induction 1 as [|c cs Hc _ IH]; cbn; [keep|]. apply steady_bind; [|done]. intros s. unfold best_effort. cbn. apply Hc.
Qed.

(** ** The address a deploy settles on *)
Definition free_slug (s : S) (slug : string) : Prop :=
  is_label slug = true /\ (String.length slug <= maxSlug)%nat /\ forall id d, rows s !! id = Some d -> row_slug d <> slug.
Lemma label_full slug : is_label slug = true -> slug <> "".
Proof. by intros H ->. Qed.
Lemma unclaimed_free s slug : is_label slug = true -> (String.length slug <= maxSlug)%nat -> claimed_in s slug = Ok false -> free_slug s slug.
Proof.
  intros Hl Hlen Hc. split_and!; [done..|]. unfold claimed_in in Hc. destruct (repo_IntegrationIDBySlug s slug) as [[o|]|] eqn:E; try done.
  apply (slug_law s slug None) in E as [Hf _]; [|by apply label_full]. by apply Hf.
Qed.
Lemma resolve_slug_free chosen name s s' slug : resolveSlug chosen (slugify name) s = (s', Ok slug) -> free_slug s slug /\ same s s'.
Proof.
  intros H. split; [|by apply (keeps_run _ _ _ _ (resolve_slug_keeps chosen (slugify name)) H)]. revert H. unfold resolveSlug. destruct (String.eqb chosen "").
  - intros [= _ H]. destruct (allocated_ok _ _ _ (slugify_label name) H) as (? & ? & ?). by apply unclaimed_free.
  - intros [(s1 & [] & H1 & H)|(e & _ & ?)]%bind_split; [|done]. unfold guard_err in H1. destruct (String.eqb_spec (slugify chosen) "") as [|Hne]; [done|]. injection H1 as <-.
    apply bind_split in H as [(s2 & found & H2 & H)|(e & _ & ?)]; [|done]. injection H2 as <- H2. destruct found; [done|]. injection H as _ <-.
    destruct (slugify_label chosen) as [[|Hl] Hlen]; [done|]. by apply unclaimed_free.
Qed.

Lemma plan_slug integ set now s s' p : plan_deploy sv integ set now s = (s', Ok p) ->
  (md_Slug (pl_metadata p) = "" \/ free_slug s (md_Slug (pl_metadata p))) /\
  forall id token, sp_ID (pl_spec p id token) = id /\ sp_Slug (pl_spec p id token) = md_Slug (pl_metadata p).
Proof.
  unfold plan_deploy. intros [(s1 & it & H1 & H)|(e & _ & ?)]%bind_split; [|done]. apply (keeps_run _ _ _ _ (integration_keeps integ)) in H1.
  apply bind_split in H as [(s2 & [[definition snapID] snapTag] & H2 & H)|(e & _ & ?)]; [|done].
  assert (same s s2) as H02. { etransitivity; [exact H1|]. eapply keeps_run; [|exact H2]. keep. }
  cbv zeta in H. destruct (resolveRuntimeEnv definition) as [[port env] networked].
  apply bind_split in H as [(s3 & envs & H3 & H)|(e & _ & ?)]; [|done]. apply (keeps_run _ _ _ _ (bindings_keep _ _)) in H3.
  apply bind_split in H as [(s4 & [] & H4 & H)|(e & _ & ?)]; [|done]. apply (keeps_run _ _ _ _ (required_keeps _ _ _)) in H4.
  assert (same s s4) as H04 by (etransitivity; [exact H02|]; by etransitivity).
  apply bind_split in H as [(s5 & slug & H5 & H)|(e & _ & ?)]; [|done].
  assert (slug = "" \/ free_slug s slug) as Hslug.
  { destruct networked; [right|left; by injection H5 as _ <-]. apply resolve_slug_free in H5 as [(Hl & Hlen & Hf) _].
    split_and!; [done..|]. by rewrite <-(same_rows _ _ H04). }
  apply bind_split in H as [(s6 & [[external sub] url] & _ & H)|(e & _ & ?)]; [|done].
  apply bind_split in H as [(s7 & runner & _ & H)|(e & _ & ?)]; [|done].
  apply bind_split in H as [(s8 & pin & _ & H)|(e & _ & ?)]; [|done]. injection H as _ <-. by split.
Qed.

(** ** The invariant

    Every workload and every internal Service belongs to a deployment, and no two
    deployments have one address. *)
Record deployed_ok (s : S) : Prop := {
  ok_ids : forall id d, rows s !! id = Some d -> dp_ID d = id;
  ok_workloads : workloads s ⊆ dom (rows s);
  ok_addresses : forall slug, slug ∈ addresses s -> slug <> "" /\ exists id d, rows s !! id = Some d /\ row_slug d = slug;
  ok_labels : forall id d, rows s !! id = Some d -> is_slug (row_slug d);
  ok_unique : forall i j d e, rows s !! i = Some d -> rows s !! j = Some e -> row_slug d = row_slug e -> row_slug d <> "" -> i = j }.

Lemma same_ok s s' : same s s' -> deployed_ok s -> deployed_ok s'.
Proof. intros [H1 H2 H3] [A B C D E]. split; rewrite ?H1, ?H2, ?H3; done. Qed.

(** A row rewritten under the same name and address. *)
Lemma update_ok id (P : Deployment -> Deployment -> Prop) m s s' r : updates id P m -> (forall d d', P d d' -> rows s !! id = Some d -> row_slug d' = row_slug d) ->
  m s = (s', r) -> deployed_ok s -> deployed_ok s'.
Proof.
  intros Hu HP Hm Hok. specialize (Hu _ _ _ Hm). destruct r as [u|e]; [|by eapply same_ok].
  destruct Hu as (d & d' & Hd & Hr & Hid & Hp & Hw & Ha). pose proof (HP _ _ Hp Hd) as Hs. destruct Hok as [A B C D E].
  assert (forall i e, rows s' !! i = Some e -> exists e0, rows s !! i = Some e0 /\ row_slug e = row_slug e0 /\ dp_ID e = dp_ID e0) as Hback.
  { intros i e. rewrite Hr. intros [[<- <-]|[_ He]]%lookup_insert_Some; [by exists d|by exists e]. }
  split.
  - intros i e (e0 & He & _ & ->)%Hback. by apply A.
  - rewrite Hw, Hr, dom_insert_L. set_solver.
  - intros slug. rewrite Ha. intros (Hne & i & e & He & Hslug)%C. split; [done|]. destruct (decide (i = id)) as [->|].
    + exists id, d'. rewrite Hr, lookup_insert_eq. split; [done|]. rewrite Hs. congruence.
    + exists i, e. by rewrite Hr, lookup_insert_ne.
  - intros i e (e0 & He & -> & _)%Hback. by eapply D.
  - intros i j e f (e0 & He & -> & _)%Hback (f0 & Hf & -> & _)%Hback. by apply E.
Qed.

Lemma refresh_ok id cached s : deployed_ok s -> deployed_ok (status_refresh sv id cached s).1.
Proof.
  intros Hok. unfold status_refresh. destruct (negb (sv_kube sv)); [done|]. destruct (kube_Status s id); [|done]. destruct (negb _); [|done]. cbn.
  destruct (repo_UpdateStatus id (su_Phase a) s) as [s' r] eqn:E. eapply update_ok; [apply status_law| |exact E|done].
  intros d d' [_ Hm] _. unfold row_slug. by rewrite Hm.
Qed.
Lemma refresh_never_fails id cached s : is_ok (status_refresh sv id cached s).2 = true.
Proof. unfold status_refresh. destruct (negb _); [done|]. destruct (kube_Status s id); [|done]. by destruct (negb _). Qed.
Lemma apply_refresh_run d s : exists s' d', applyRefresh sv d s = (s', Ok d') /\ s' = (status_refresh sv (dp_ID d) (dp_Status d) s).1.
Proof.
  unfold applyRefresh. pose proof (refresh_never_fails (dp_ID d) (dp_Status d) s) as H. destruct (status_refresh sv (dp_ID d) (dp_Status d) s) as [s1 [st|e]] eqn:E; [|done].
  rewrite (SM_bind_ok _ _ _ _ _ E). by exists s1, (with_status st d).
Qed.

(** ** Deploy *)
Lemma undo_row_run id s d : rows s !! id = Some d ->
  exists s', undo_row id s = (s', Ok tt) /\ rows s' = delete id (rows s) /\ workloads s' = workloads s /\ addresses s' = addresses s.
Proof.
  intros Hd. unfold undo_row, best_effort. destruct (repo_Delete id s) as [s' r] eqn:E. apply row_delete_law in E. exists s'. split; [done|].
  destruct r as [u|e]; [done|]. destruct E as [_ E]. congruence.
Qed.
Lemma undo_deploy_run `{!Reliable S} id slug s d : rows s !! id = Some d ->
  exists s', undo_deploy id slug s = (s', Ok tt) /\ rows s' = delete id (rows s) /\ workloads s' = workloads s ∖ {[id]} /\
    addresses s' = (if String.eqb slug "" then addresses s else addresses s ∖ {[slug]}).
Proof.
  intros Hd. unfold undo_deploy. rewrite effort_run. pose proof (delete_works id s) as K1. destruct (kube_Delete id s) as [s1 r1] eqn:E1. cbn [fst snd] in *.
  apply workload_delete_law in E1 as (R1 & A1 & [W1 W1'] & N1). specialize (N1 K1).
  assert (workloads s1 = workloads s ∖ {[id]}) as HW by set_solver. clear W1 W1' N1 K1.
  destruct (String.eqb slug ""); cbn [negb].
  - destruct (undo_row_run id s1 d) as (s' & H1 & H2 & H3 & H4); [by rewrite R1|]. exists s'. rewrite (SM_bind_ok (mret tt) _ s1 s1 tt eq_refl), H1.
    split_and!; [done| | |]; congruence.
  - rewrite effort_run. pose proof (address_delete_works slug s1) as K2. destruct (kube_DeleteInternalService slug s1) as [s2 r2] eqn:E2. cbn [fst snd] in *.
    apply address_delete_law in E2 as (R2 & W2 & [A2 A2'] & N2). specialize (N2 K2).
    assert (addresses s2 = addresses s ∖ {[slug]}) as HA by (rewrite <-A1; set_solver).
    destruct (undo_row_run id s2 d) as (s' & H1 & H2 & H3 & H4); [by rewrite R2, R1|]. exists s'. split_and!; [done| | |]; congruence.
Qed.

(** What was added and is taken away again. *)
Lemma added_taken_away (x : string) (w w' : gset string) : x ∉ w -> w ⊆ w' -> w' ⊆ {[x]} ∪ w -> w' ∖ {[x]} = w.
Proof. set_solver. Qed.
(** A deploy that went through: its row, and what was applied for it. *)
Lemma deploy_split `{!Reliable S} token integ set now s s' r : deployed_ok s -> Deploy sv token integ set now s = (s', r) ->
  match r with Err _ => same s s' | Ok _ => deployed_ok s' end.
Proof.
  intros Hok. unfold Deploy. intros [(s0 & [] & H0 & H)|(e & H0 & ->)]%bind_split; [|apply (keeps_run _ _ _ _ (keeps_guard _ _) H0)].
  apply (keeps_run _ _ _ _ (keeps_guard _ _)) in H0.
  apply bind_split in H as [(s1 & p & Hp & H)|(e & Hp & ->)]; [|etransitivity; [exact H0|apply (keeps_run _ _ _ _ (plan_keeps _ _ _) Hp)]].
  assert (same s s1) as H01 by (etransitivity; [exact H0|apply (keeps_run _ _ _ _ (plan_keeps _ _ _) Hp)]).
  destruct (plan_slug _ _ _ _ _ _ Hp) as [Hslug Hspec]. clear Hp.
  apply bind_split in H as [(s2 & [] & H2 & H)|(e & H2 & ->)]; [|by injection H2 as _ ?].
  apply (keeps_run _ _ _ _ interlude_keeps) in H2. assert (same s s2) as H02 by (by etransitivity). clear H2 H01.
  set (slug := md_Slug (pl_metadata p)) in *.
  assert (slug = "" \/ free_slug s slug) as Hfree by (destruct Hslug as [?|(? & ? & Hf)]; [by left|right; split_and!; [done..|]; by rewrite <-(same_rows _ _ H0)]).
  clear Hslug H0 s0.
  apply bind_split in H as [(s3 & dep & H3 & H)|(e & H3 & ->)]; apply create_law in H3; [|by etransitivity].
  destruct H3 as (Hnew & Hnew' & Hrows & Hinteg & Hset & Hmd & Hw & Ha). destruct H02 as [R2 W2 A2].
  assert (slug <> "" -> slug ∉ addresses s) as Hna.
  { intros Hne Hin. destruct (ok_addresses s Hok slug Hin) as (_ & i & d & Hi & Hd). destruct Hfree as [|(_ & _ & Hf)]; [done|]. by apply (Hf i d). }
  apply attempt_split in H as (s4 & tok & H4 & H). apply (keeps_run _ _ _ _ (mint_keeps _ _ _)) in H4. destruct H4 as [R4 W4 A4].
  destruct tok as [tok|e].
  2:{ apply bind_split in H as [(s5 & [] & H5 & H)|(e' & H5 & ->)].
      - injection H as <- <-. destruct (undo_row_run (dp_ID dep) s4 dep) as (s6 & H6 & R6 & W6 & A6); [by rewrite R4, Hrows, lookup_insert_eq|].
        rewrite H6 in H5. injection H5 as <-. split; [|congruence..]. rewrite R6, R4, Hrows, delete_insert_id by done. done.
      - destruct (undo_row_run (dp_ID dep) s4 dep) as (s6 & H6 & _); [by rewrite R4, Hrows, lookup_insert_eq|]. congruence. }
  apply attempt_split in H as (s5 & applied & H5 & H). destruct (Hspec (dp_ID dep) tok) as [Hid Hsl]. apply apply_law in H5 as (R5 & [W5 W5'] & [A5 A5'] & Hdone).
  rewrite Hid in *. rewrite Hsl in *.
  assert (rows s5 = <[dp_ID dep := dep]> (rows s)) as R05 by congruence.
  assert (dp_ID dep ∉ workloads s) as Hnw by by rewrite <-W2. assert (rows s !! dp_ID dep = None) as Hnr by by rewrite <-R2.
  destruct applied as [u|e].
  2:{ apply bind_split in H as [(s6 & [] & H6 & H)|(e' & H6 & ->)].
      - injection H as <- <-. destruct (undo_deploy_run (dp_ID dep) slug s5 dep) as (s7 & H7 & R7 & W7 & A7); [by rewrite R05, lookup_insert_eq|].
        rewrite H7 in H6. injection H6 as <-. split.
        + by rewrite R7, R05, delete_insert_id.
        + rewrite W7. rewrite W4, Hw, W2 in W5, W5'. by apply added_taken_away.
        + rewrite A7. rewrite A4, Ha, A2 in A5, A5'. destruct (String.eqb_spec slug "") as [He|Hne]; [|by apply added_taken_away; auto].
          rewrite (left_id_L ∅ (∪)) in A5'. by apply set_eq_subseteq.
      - destruct (undo_deploy_run (dp_ID dep) slug s5 dep) as (s7 & H7 & _); [by rewrite R05, lookup_insert_eq|]. congruence. }
  destruct (apply_refresh_run dep s5) as (s6 & d' & H6 & ->). rewrite H6 in H. injection H as <- <-. apply refresh_ok.
  rewrite W4, Hw, W2 in W5, W5'. rewrite A4, Ha, A2 in A5, A5'. assert (row_slug dep = slug) as Hrs by (unfold row_slug; by rewrite Hmd).
  destruct Hok as [B1 B2 B3 B4 B5]. split; rewrite ?R05.
  - intros i d [[<- <-]|[_ Hd]]%lookup_insert_Some; [done|by apply B1].
  - rewrite dom_insert_L. etransitivity; [exact W5'|]. by apply union_mono_l.
  - intros a Haddr. assert (a ∈ addresses s \/ (slug <> "" /\ a = slug)) as [Hin|[Hne ->]].
    { specialize (A5' a Haddr). destruct (String.eqb_spec slug "") as [He|Hne]; set_solver. }
    + destruct (B3 a Hin) as (Hne & i & d & Hi & Hd). split; [done|]. exists i, d. split; [|done]. rewrite lookup_insert_ne by congruence. done.
    + split; [done|]. exists (dp_ID dep), dep. by rewrite lookup_insert_eq.
  - intros i d [[<- <-]|[_ Hd]]%lookup_insert_Some; [|by eapply B4]. rewrite Hrs. destruct Hfree as [->|(? & ? & _)]; [split; [by left|by apply Nat.leb_le]|split; [by right|done]].
  - assert (forall j e, rows s !! j = Some e -> row_slug e = slug -> slug <> "" -> False) as Hclash.
    { intros j e He Hes Hne. destruct Hfree as [|(_ & _ & Hf)]; [done|]. by apply (Hf j e). }
    intros i j d e [[<- <-]|[Hi Hd]]%lookup_insert_Some [[<- <-]|[Hj He]]%lookup_insert_Some; rewrite ?Hrs; [done| | |by apply B5].
    + intros Hes Hne. exfalso. by eapply Hclash.
    + intros Hds Hne. exfalso. eapply Hclash; [done|done|congruence].
Qed.

End platform.
