(* ===== verification/Reconciled.v ===== *)
(** The operations of [Deployment] over a life of the platform: the invariant of
    [DeployLaws] kept by all of them, and what the reconcile sweep repairs. *)
From S2P Require Import Prelude GoStr GoTime Dotenv EnvPorts RuntimeVersion Slug Deployment DeployLaws.
From Stdlib Require Import String Ascii.
#[local] Open Scope string_scope.
#[local] Open Scope Z_scope.

Section operations.
Context {S : Type} {PF : Platform S} {PV : PlatformView S} {PL : PlatformLaws S} {RE : Reliable S} {DY : DefinitionYAML} (sv : Service S).
(** The stores that are cleaned after a deployment hold nothing seen here. *)
Context (cleaners_keep : Forall (fun c : string -> SM S unit => forall id, keeps (c id)) (sv_cleaners sv)).

(** ** A deployment taken away *)
Lemma forget_run d s : exists s', forget_deployment sv d s = (s', Ok tt) /\ rows s' = rows s /\ workloads s' = workloads s /\
  addresses s' = (if String.eqb (row_slug d) "" then addresses s else addresses s ∖ {[row_slug d]}).
Proof.
  assert (forall s, exists s', clean_all (sv_cleaners sv) (dp_ID d) s = (s', Ok tt) /\ same s s') as Hclean.
  { intros s0. pose proof (cleaning_keeps _ (dp_ID d) cleaners_keep s0) as H. destruct (clean_all (sv_cleaners sv) (dp_ID d) s0) as [s' r] eqn:E. exists s'.
    split; [|done]. f_equal. clear -E. revert s0 E. induction (sv_cleaners sv) as [|c cs IH]; intros s0; cbn [clean_all]; [by intros [= <- <-]|].
    rewrite effort_run. apply IH. }
  unfold forget_deployment. fold (row_slug d). destruct (String.eqb (row_slug d) "") eqn:Es; cbn [negb].
  - destruct (Hclean s) as (s' & H1 & [H2 H3 H4]). exists s'. rewrite (SM_bind_ok (mret tt) _ s s tt eq_refl). by split_and!.
  - rewrite effort_run. pose proof (address_delete_works (row_slug d) s) as K. destruct (kube_DeleteInternalService (row_slug d) s) as [s1 r] eqn:E. cbn [fst snd] in *.
    apply address_delete_law in E as (R1 & W1 & [A1 A1'] & N1). specialize (N1 K). destruct (Hclean s1) as (s' & H1 & [H2 H3 H4]). exists s'.
    split_and!; [done|congruence|congruence|]. rewrite H4. set_solver.
Qed.
Lemma remove_ok id d s s1 s2 r : deployed_ok s -> rows s !! id = Some d -> id ∉ workloads s -> repo_Delete id s = (s1, Ok tt) ->
  forget_deployment sv d s1 = (s2, r) -> deployed_ok s2.
Proof.
  intros Hok Hd Hw Hdel Hf. apply row_delete_law in Hdel as (R1 & W1 & A1). destruct (forget_run d s1) as (s2' & Hf' & R2 & W2 & A2).
  rewrite Hf in Hf'. injection Hf' as <- _. destruct Hok as [B1 B2 B3 B4 B5]. rewrite R1 in R2. rewrite W1 in W2. rewrite A1 in A2. split; rewrite ?R2, ?W2, ?A2.
  - intros i e [_ He]%lookup_delete_Some. by apply B1.
  - rewrite dom_delete_L. set_solver.
  - intros a Ha. assert (a ∈ addresses s /\ (a = row_slug d -> a = "")) as [Hin Hne].
    { destruct (String.eqb_spec (row_slug d) "") as [->|]; [done|]. apply elem_of_difference in Ha as [? Hn]. split; [done|]. intros ->. set_solver. }
    destruct (B3 a Hin) as (Hn & i & e & Hi & He). split; [done|]. exists i, e. split; [|done]. rewrite lookup_delete_ne; [done|].
    intros <-. rewrite Hd in Hi. injection Hi as ->. auto.
  - intros i e [_ He]%lookup_delete_Some. by eapply B4.
  - intros i j e f [_ He]%lookup_delete_Some [_ Hf']%lookup_delete_Some. by apply B5.
Qed.
Lemma shrink_ok s s' : deployed_ok s -> rows s' = rows s -> addresses s' = addresses s -> workloads s' ⊆ workloads s -> deployed_ok s'.
Proof. intros [B1 B2 B3 B4 B5] R A W. split; rewrite ?R, ?A; try done. set_solver. Qed.

Lemma undeploy_ok id s : deployed_ok s -> deployed_ok (Undeploy sv id s).1.
Proof.
  intros Hok. destruct (Undeploy sv id s) as [s' r] eqn:E. cbn. revert E. unfold Undeploy.
  intros [(s0 & [] & H0 & H)|(e & H0 & _)]%bind_split; apply (keeps_run _ _ _ _ (keeps_guard _ _)) in H0; [|by eapply same_ok].
  apply (same_ok _ _ H0) in Hok. clear H0 s.
  apply bind_split in H as [(s1 & dep & H1 & H)|(e & H1 & _)]; [|by injection H1 as <-]. injection H1 as <- Hget. apply get_law in Hget.
  apply bind_split in H as [(s1 & [] & H1 & H)|(e & H1 & _)]; pose proof (workload_delete_law _ _ _ _ H1) as (R1 & A1 & [_ W1] & N1); [|by eapply shrink_ok].
  specialize (N1 eq_refl). pose proof (shrink_ok _ _ Hok R1 A1 W1) as Hok1. rewrite <-R1 in Hget.
  apply bind_split in H as [(s2 & [] & H2 & H)|(e & H2 & _)]; [|apply row_delete_law in H2 as [H2 _]; by eapply same_ok].
  by eapply (remove_ok id dep s1 s2 s' r).
Qed.

(** ** Changes of a deployment that stays *)
Lemma applied_ok d s s' r : applyRefresh sv d s = (s', r) -> deployed_ok s -> deployed_ok s'.
Proof. intros H Hok. destruct (apply_refresh_run sv d s) as (s1 & d' & H1 & Hs). rewrite H in H1. injection H1 as <- _. rewrite Hs. by apply refresh_ok. Qed.
Lemma scale_ok id n s : deployed_ok s -> deployed_ok (Service_Scale sv id n s).1.
Proof.
  intros Hok. destruct (Service_Scale sv id n s) as [s' r] eqn:E. cbn. revert E. unfold Service_Scale. cbv zeta.
  intros [(s0 & [] & H0 & H)|(e & H0 & _)]%bind_split; apply (keeps_run _ _ _ _ (keeps_guard _ _)) in H0; [|by eapply same_ok].
  apply (same_ok _ _ H0) in Hok. clear H0 s.
  apply bind_split in H as [(s1 & dep & H1 & H)|(e & H1 & _)]; [|by injection H1 as <-]. injection H1 as <- Hget.
  apply bind_split in H as [(s1 & [] & H1 & H)|(e & H1 & _)]; pose proof (scale_law id (wrap32 (at_least_one n)) s0) as K1; rewrite H1 in K1; cbn in K1; [|by eapply same_ok].
  apply (same_ok _ _ K1) in Hok.
  apply bind_split in H as [(s2 & [] & H2 & H)|(e & H2 & _)].
  - eapply applied_ok; [exact H|]. eapply update_ok; [apply settings_law| |exact H2|done]. intros d d' [_ Hm] _. unfold row_slug. by rewrite Hm.
  - eapply update_ok; [apply settings_law| |exact H2|done]. intros d d' [_ Hm] _. unfold row_slug. by rewrite Hm.
Qed.
Lemma rollout_ok token id change now s : deployed_ok s -> deployed_ok (Rollout sv token id change now s).1.
Proof.
  intros Hok. destruct (Rollout sv token id change now s) as [s' r] eqn:E. cbn. revert E. unfold Rollout.
  intros [(s0 & [] & H0 & H)|(e & H0 & _)]%bind_split; apply (keeps_run _ _ _ _ (keeps_guard _ _)) in H0; [|by eapply same_ok].
  apply bind_split in H as [(s1 & [] & H1 & H)|(e & H1 & _)]; apply (keeps_run _ _ _ _ (keeps_guard _ _)) in H1; [|eapply same_ok; [|done]; by etransitivity].
  apply (same_ok _ _ H0) in Hok. apply (same_ok _ _ H1) in Hok. clear H0 H1 s s0. rename s1 into s.
  apply bind_split in H as [(s1 & dep & H1 & H)|(e & H1 & _)]; [|by injection H1 as <-]. injection H1 as <- Hget. apply get_law in Hget. cbv zeta in H.
  assert (forall s1 A (m : SM S A) s2 x, same s s1 -> keeps m -> m s1 = (s2, x) -> same s s2) as Hstep
    by (intros * Hs Hm He; etransitivity; [exact Hs|by eapply keeps_run]).
  apply bind_split in H as [(s2 & snap & H2 & H)|(e & H2 & _)]; apply (Hstep _ _ _ _ _ (reflexivity s) (resolve_snapshot_keeps _ _)) in H2; [|by eapply same_ok].
  apply bind_split in H as [(s3 & pin & H3 & H)|(e & H3 & _)]; (eapply Hstep in H3; [|exact H2|destruct (rc_Runtime change); [apply steady_lift|apply steady_ret]]); [|by eapply same_ok].
  destruct (resolveRuntimeEnv (sn_Definition snap)) as [[port env] networked].
  apply bind_split in H as [(s4 & [] & H4 & H)|(e & H4 & _)]; apply (Hstep _ _ _ _ _ H3 (keeps_guard _ _)) in H4; [|by eapply same_ok].
  apply bind_split in H as [(s5 & envs & H5 & H)|(e & H5 & _)]; apply (Hstep _ _ _ _ _ H4 (bindings_keep _ _)) in H5; [|by eapply same_ok].
  apply bind_split in H as [(s6 & [] & H6 & H)|(e & H6 & _)]; apply (Hstep _ _ _ _ _ H5 (required_keeps _ _ _ _)) in H6; [|by eapply same_ok].
  apply bind_split in H as [(s7 & runner & H7 & H)|(e & H7 & _)]; apply (Hstep _ _ _ _ _ H6 (steady_lift _)) in H7; [|by eapply same_ok].
  apply bind_split in H as [(s8 & tok & H8 & H)|(e & H8 & _)]; apply (Hstep _ _ _ _ _ H7 (mint_keeps _ _ _ _)) in H8; [|by eapply same_ok].
  apply bind_split in H as [(s9 & [] & H9 & H)|(e & H9 & _)]; (eapply (Hstep _ _ _ _ _ H8) in H9; [|intros x; apply rollout_law]); [|by eapply same_ok].
  apply attempt_split in H as (s10 & rec & H10 & H). apply (same_ok _ _ H9) in Hok.
  assert (deployed_ok s10) as Hok10.
  { eapply update_ok; [apply metadata_law| |exact H10|done]. intros d d' [_ Hm] Hd. unfold row_slug. rewrite Hm. cbn.
    rewrite (same_rows _ _ H9), Hget in Hd. by injection Hd as ->. }
  destruct rec as [u|e]; [by eapply applied_ok|]. by injection H as <- _.
Qed.
Lemma refresh_all_ok ds s : deployed_ok s -> deployed_ok (refresh_all sv ds s).1.
Proof.
  revert s. induction ds as [|d ds IH]; intros s Hok; cbn [refresh_all]; [done|].
  destruct ((d0 ← applyRefresh sv d; ds0 ← refresh_all sv ds; mret (d0 :: ds0)) s) as [s' r] eqn:E. cbn.
  apply bind_split in E as [(s1 & d' & H1 & H)|(e & H1 & _)]; apply applied_ok in H1; try done. specialize (IH s1 H1).
  apply bind_split in H as [(s2 & ds' & H2 & H)|(e & H2 & _)]; rewrite H2 in IH; [by injection H as <- _|done].
Qed.

(** ** The sweep *)
Definition stale (live_ : gset string) (cutoff : Z) (d : Deployment) : bool := negb (bool_decide (dp_ID d ∈ live_)) && negb (cutoff <? dp_LastUpdated d).
(** A listing of rows that is still right. *)
Definition listed (s : S) (ds : list Deployment) : Prop := NoDup (map dp_ID ds) /\ forall d, d ∈ ds -> rows s !! dp_ID d = Some d.

Lemma sweep_row_run live_ cutoff d n s : live_ = workloads s -> rows s !! dp_ID d = Some d ->
  exists s', sweep_row sv live_ cutoff d n s = (s', Ok (if stale live_ cutoff d then n + 1 else n)) /\
    rows s' = (if stale live_ cutoff d then delete (dp_ID d) (rows s) else rows s) /\ workloads s' = workloads s /\ (deployed_ok s -> deployed_ok s').
Proof.
  intros Hl Hd. unfold sweep_row, stale. rewrite !Hl. destruct (bool_decide_reflect (dp_ID d ∈ workloads s)) as [|Hn]; cbn [negb andb]; [by exists s|].
  destruct (cutoff <? dp_LastUpdated d); cbn [negb]; [by exists s|].
  assert (attempt (read (fun s => kube_DeploymentExists s (dp_ID d))) s = (s, Ok (kube_DeploymentExists s (dp_ID d)))) as Ha by done.
  rewrite (SM_bind_ok _ _ _ _ _ Ha). pose proof (exists_works s (dp_ID d)) as K. destruct (kube_DeploymentExists s (dp_ID d)) as [b|e] eqn:Eb; [|done].
  apply exists_law in Eb. destruct b; [by destruct Hn; apply Eb|]. unfold removeOrphanedRow.
  destruct (repo_Delete (dp_ID d) s) as [s1 [u|e]] eqn:E1; [|apply row_delete_law in E1 as [_ E1]; congruence]. destruct u.
  pose proof (row_delete_law _ _ _ _ E1) as (R1 & W1 & A1). destruct (forget_run d s1) as (s2 & H2 & R2 & W2 & A2). exists s2.
  assert ((deleted ← attempt (repo_Delete (dp_ID d)); match deleted with Err _ => mret false | Ok _ => forget_deployment sv d ≫= fun _ => mret true end) s = (s2, Ok true)) as Hr.
  { rewrite (bind_attempt _ _ _ _ _ E1). by rewrite (SM_bind_ok _ _ _ _ _ H2). }
  rewrite (SM_bind_ok _ _ _ _ _ Hr). split_and!; [done|congruence|congruence|]. intros Hok. by eapply (remove_ok (dp_ID d) d s s1 s2).
Qed.

Lemma interlude_run (s : S) : exists s', interlude s = (s', Ok tt) /\ same s s'.
Proof. exists (meanwhile s). split; [done|]. apply meanwhile_same. Qed.

Lemma sweep_rows_run live_ cutoff ds : forall n s, live_ = workloads s -> listed s ds ->
  exists s', sweep_rows sv live_ cutoff ds n s = (s', Ok (n + Z.of_nat (List.length (List.filter (stale live_ cutoff) ds)))) /\
    (forall id, rows s' !! id = match rows s !! id with Some d => if bool_decide (id ∈ map dp_ID ds) && stale live_ cutoff d then None else Some d | None => None end) /\
    workloads s' = workloads s /\ (deployed_ok s -> deployed_ok s').
Proof.
  induction ds as [|d ds IH]; intros n s Hl [Hnd Hds]; cbn [sweep_rows].
  { exists s. split_and!; [cbn; by rewrite Z.add_0_r| |done|done]. intros id. destruct (rows s !! id); [|done]. by rewrite bool_decide_eq_false_2 by apply not_elem_of_nil. }
  destruct (interlude_run s) as (s1 & E1 & [R1 W1 A1]). rewrite (SM_bind_ok _ _ _ _ _ E1).
  assert (rows s1 !! dp_ID d = Some d) as Hd by (rewrite R1; apply Hds; by left).
  destruct (sweep_row_run live_ cutoff d n s1) as (s2 & E2 & R2 & W2 & O2); [by rewrite W1|done|]. rewrite (SM_bind_ok _ _ _ _ _ E2).
  apply NoDup_cons in Hnd as [Hnew Hnd].
  assert (forall e, e ∈ ds -> dp_ID e <> dp_ID d) as Hne by (intros e He Heq; apply Hnew; rewrite <-Heq; apply list_elem_of_fmap; by exists e).
  destruct (IH (if stale live_ cutoff d then n + 1 else n) s2) as (s3 & E3 & R3 & W3 & O3); [congruence| |].
  { split; [done|]. intros e He. rewrite R2. destruct (stale _ _ d); [rewrite lookup_delete_ne by (intros Heq; by apply (Hne e))|]; rewrite R1; apply Hds; by right. }
  exists s3. rewrite E3. split_and!.
  - f_equal. f_equal. cbn [List.filter]. destruct (stale live_ cutoff d); cbn [List.length]; lia.
  - intros id. rewrite R3, R2. destruct (decide (id = dp_ID d)) as [->|Hid].
    + rewrite <-R1, Hd. rewrite (bool_decide_eq_true_2 (dp_ID d ∈ map dp_ID (d :: ds))) by by left. cbn [andb].
      destruct (stale live_ cutoff d) eqn:Est; [by rewrite lookup_delete_eq|]. rewrite Hd. rewrite Est. by rewrite andb_false_r.
    + rewrite <-R1. assert ((if stale live_ cutoff d then delete (dp_ID d) (rows s1) else rows s1) !! id = rows s1 !! id) as ->
        by (destruct (stale _ _ d); [by rewrite lookup_delete_ne|done]).
      destruct (rows s1 !! id) as [e|]; [|done].
      assert (bool_decide (id ∈ map dp_ID ds) = bool_decide (id ∈ map dp_ID (d :: ds))) as ->; [|done].
      apply bool_decide_ext. cbn [map]. rewrite elem_of_cons. tauto.
  - congruence.
  - intros Hok. apply O3, O2. by eapply same_ok; [split|].
Qed.

Lemma filter_empty {A} (f : A -> bool) l : (forall x, x ∈ l -> f x = false) -> List.filter f l = [].
Proof. induction l as [|x l IH]; intros H; cbn; [done|]. rewrite H by by left. apply IH. intros y Hy. apply H. by right. Qed.
Lemma cutoff_split cutoff d : (cutoff <? dp_LastUpdated d) = true \/ (cutoff <? dp_LastUpdated d) = false.
Proof. destruct (cutoff <? dp_LastUpdated d); auto. Qed.
Definition orphan (known : gset string) (id : string) : bool := negb (bool_decide (id ∈ known)).
Lemma sweep_workloads_run known ids : forall n s,
  exists s', sweep_workloads known ids n s = (s', Ok (n + Z.of_nat (List.length (List.filter (orphan known) ids)))) /\
    rows s' = rows s /\ addresses s' = addresses s /\ workloads s' = workloads s ∖ list_to_set (List.filter (orphan known) ids).
Proof.
  induction ids as [|id ids IH]; intros n s; cbn [sweep_workloads List.filter]; [exists s; split_and!; [by cbn; rewrite Z.add_0_r|done|done|cbn; set_solver]|].
  assert (bool_decide (id ∈ known) = negb (orphan known id)) as -> by (unfold orphan; by rewrite negb_involutive).
  destruct (orphan known id); cbn [negb]; [|apply IH].
  destruct (interlude_run s) as (s1 & E1 & [R1 W1 A1]). rewrite (SM_bind_ok _ _ _ _ _ E1).
  pose proof (delete_works id s1) as K. destruct (kube_Delete id s1) as [s2 r2] eqn:E2. cbn [snd] in K. rewrite (bind_attempt _ _ _ _ _ E2).
  pose proof (workload_delete_law _ _ _ _ E2) as (R2 & A2 & [W2 W2'] & N2). specialize (N2 K). destruct r2 as [u|e]; [|done].
  destruct (IH (n + 1) s2) as (s3 & E3 & R3 & A3 & W3). exists s3. rewrite E3. split_and!; [|congruence|congruence|].
  - f_equal. f_equal. cbn [List.length]. lia.
  - rewrite W3. cbn [list_to_set]. set_solver.
Qed.

Definition reconcile_counts (now : Z) (s : S) (ds : list Deployment) : Reconciled :=
  mkReconciled (Z.of_nat (List.length (List.filter (stale (workloads s) (now - reconcileGrace)) ds)))
    (Z.of_nat (List.length (List.filter (orphan (list_to_set (map dp_ID ds))) (elements (workloads s))))).
Lemma reconcile_run now s ids ds : sv_kube sv = true -> kube_DeploymentIDs s = Ok (ids, true) -> repo_ListAll (meanwhile s) = Ok ds ->
  (forall id d, rows s !! id = Some d -> dp_ID d = id) ->
  exists s', Reconcile sv now s = (s', Ok (reconcile_counts now s ds)) /\
    (forall id, rows s' !! id = match rows s !! id with Some d => if stale (workloads s) (now - reconcileGrace) d then None else Some d | None => None end) /\
    workloads s' = workloads s ∩ dom (rows s) /\ (deployed_ok s -> deployed_ok s').
Proof.
  intros Hk Hids Hds Hid. pose proof (ids_law _ _ Hids) as Hw. pose proof (meanwhile_same s) as [R1 W1 A1]. unfold Reconcile. rewrite Hk. cbn [negb].
  assert (read kube_DeploymentIDs s = (s, Ok (ids, true))) as E0 by (unfold read; by rewrite Hids). rewrite (SM_bind_ok _ _ _ _ _ E0). cbn [negb].
  rewrite (SM_bind_ok interlude _ s (meanwhile s) tt eq_refl).
  assert (read repo_ListAll (meanwhile s) = (meanwhile s, Ok ds)) as E1 by (unfold read; by rewrite Hds). rewrite (SM_bind_ok _ _ _ _ _ E1). subst ids.
  destruct (list_law _ _ ltac:(by rewrite R1) Hds) as [Hnd Hin].
  destruct (sweep_rows_run (workloads s) (now - reconcileGrace) ds 0 (meanwhile s)) as (s2 & E2 & R2 & W2 & O2); [done|split; [done|by intros d ?%Hin]|].
  rewrite (SM_bind_ok _ _ _ _ _ E2).
  destruct (sweep_workloads_run (list_to_set (map dp_ID ds)) (elements (workloads s)) 0 s2) as (s3 & E3 & R3 & A3 & W3).
  rewrite (SM_bind_ok _ _ _ _ _ E3). exists s3. rewrite !Z.add_0_l. split; [done|].
  assert (forall id, id ∈ map dp_ID ds <-> id ∈ dom (rows s)) as Hdom.
  { intros id. rewrite elem_of_dom. split.
    - intros (d & -> & Hd)%list_elem_of_fmap. apply Hin in Hd. rewrite R1 in Hd. by eexists.
    - intros [d Hd]. apply list_elem_of_fmap. exists d. pose proof (Hid _ _ Hd) as <-. split; [done|]. apply Hin. by rewrite R1. }
  split_and!.
  - intros id. rewrite R3, R2, R1. destruct (rows s !! id) as [d|] eqn:Hd; [|done]. rewrite bool_decide_eq_true_2; [done|]. apply Hdom, elem_of_dom. by eexists.
  - rewrite W3, W2, W1. apply set_eq. intros id. rewrite elem_of_difference, elem_of_intersection, elem_of_list_to_set.
    rewrite list_elem_of_In, filter_In, <-list_elem_of_In, elem_of_elements. unfold orphan. rewrite negb_true_iff, bool_decide_eq_false, elem_of_list_to_set, Hdom.
    destruct (decide (id ∈ dom (rows s))); tauto.
  - intros Hok. eapply shrink_ok; [|exact R3|exact A3|]; [|rewrite W3; set_solver]. apply O2. by eapply same_ok; [split|].
Qed.
(** A sweep that does not see the cluster, or the rows, removes nothing. *)
Lemma reconcile_untrusted now s ids : sv_kube sv = true -> kube_DeploymentIDs s = Ok (ids, false) -> Reconcile sv now s = (s, Ok (mkReconciled 0 0)).
Proof.
  intros Hk Hids. unfold Reconcile. rewrite Hk. cbn [negb]. assert (read kube_DeploymentIDs s = (s, Ok (ids, false))) as E0 by (unfold read; by rewrite Hids).
  by rewrite (SM_bind_ok _ _ _ _ _ E0).
Qed.
Lemma reconcile_blind now s e : sv_kube sv = true -> kube_DeploymentIDs s = Err e -> Reconcile sv now s = (s, Err e).
Proof.
  intros Hk Hids. unfold Reconcile. rewrite Hk. cbn [negb]. assert (read kube_DeploymentIDs s = (s, Err e)) as E0 by (unfold read; by rewrite Hids).
  by rewrite (SM_bind_err _ _ _ _ _ E0).
Qed.
Lemma reconcile_unlisted now s ids e : sv_kube sv = true -> kube_DeploymentIDs s = Ok (ids, true) -> repo_ListAll (meanwhile s) = Err e ->
  Reconcile sv now s = (meanwhile s, Err e).
Proof.
  intros Hk Hids Hds. unfold Reconcile. rewrite Hk. cbn [negb]. assert (read kube_DeploymentIDs s = (s, Ok (ids, true))) as E0 by (unfold read; by rewrite Hids).
  rewrite (SM_bind_ok _ _ _ _ _ E0). cbn [negb]. rewrite (SM_bind_ok interlude _ s (meanwhile s) tt eq_refl).
  assert (read repo_ListAll (meanwhile s) = (meanwhile s, Err e)) as E1 by (unfold read; by rewrite Hds). by rewrite (SM_bind_err _ _ _ _ _ E1).
Qed.
Lemma reconcile_ok now s : deployed_ok s -> deployed_ok (Reconcile sv now s).1.
Proof.
  intros Hok. destruct (sv_kube sv) eqn:Hk; [|unfold Reconcile; by rewrite Hk].
  destruct (kube_DeploymentIDs s) as [[ids []]|e] eqn:Hids; [|by rewrite (reconcile_untrusted _ _ _ Hk Hids)|by rewrite (reconcile_blind _ _ _ Hk Hids)].
  destruct (repo_ListAll (meanwhile s)) as [ds|e] eqn:Hds.
  - destruct (reconcile_run now s ids ds Hk Hids Hds (ok_ids s Hok)) as (s' & -> & _ & _ & H). by apply H.
  - rewrite (reconcile_unlisted _ _ _ _ Hk Hids Hds). eapply same_ok; [apply meanwhile_same|done].
Qed.

End operations.
