(* ===== verification/DeployMem.v ===== *)
(** A database and a cluster in memory: [internal/deployment/repo.go] as its SQL
    says, and a cluster that does what it is told.  It keeps the laws of
    [DeployLaws] and [DeployShared], so their theorems are about something. *)
From S2P Require Import Prelude Order GoStr GoTime Dotenv EnvPorts RuntimeVersion Slug Deployment DeployLaws.
From Stdlib Require Import String Ascii.
#[local] Open Scope string_scope.
#[local] Open Scope Z_scope.

Record mem : Type := mkMem {
  mm_rows : gmap string Deployment; mm_work : gset string; mm_addr : gset string; mm_used : gset string; mm_clock : Z; mm_torn : list (string * bool) }.
Definition mem_empty : mem := mkMem ∅ ∅ ∅ ∅ 0 [].
Definition put_rows (rs : gmap string Deployment) (m : mem) : mem := mkMem rs (mm_work m) (mm_addr m) (mm_used m) (mm_clock m) (mm_torn m).

(** ** repo.go, on the table of deployments *)
Definition fresh_id (m : mem) : string := fresh (mm_used m ∪ dom (mm_rows m) ∪ mm_work m).
Definition mem_Create (integrationID status : string) (settings : Settings) (metadata : Metadata) : SM mem Deployment := fun m =>
  let id := fresh_id m in
  let d := mkDeployment id integrationID status settings metadata (mm_clock m) (phase_only "") in
  (mkMem (<[id := d]> (mm_rows m)) (mm_work m) (mm_addr m) ({[id]} ∪ mm_used m) (mm_clock m) (mm_torn m), Ok d).
Definition mem_Get (m : mem) (id : string) : res Deployment := match mm_rows m !! id with Some d => Ok d | None => Err ErrNotFound end.
Definition updated_before (a b : Deployment) : bool := dp_LastUpdated a <? dp_LastUpdated b.
(** A row as a scan reads it: its id is its key. *)
Definition scanned (kv : string * Deployment) : Deployment :=
  let '(id, d) := kv in mkDeployment id (dp_IntegrationID d) (dp_Status d) (dp_Settings d) (dp_Metadata d) (dp_LastUpdated d) (dp_Detail d).
Definition mem_rows (m : mem) : list Deployment := map scanned (map_to_list (mm_rows m)).
Definition mem_ListAll (m : mem) : res (list Deployment) := Ok (sort_by updated_before (mem_rows m)).
Definition mem_ListByIntegration (m : mem) (integrationID : string) : res (list Deployment) :=
  Ok (sort_by (fun a b => updated_before b a) (List.filter (fun d => String.eqb (dp_IntegrationID d) integrationID) (mem_rows m))).
(** [integrationIDByMetaField]: the row that the query comes to first. *)
Definition integrationIDByField (field : Deployment -> string) (m : mem) (value : string) : res (option string) :=
  if String.eqb value "" then Ok None else Ok (dp_IntegrationID <$> List.find (fun d => String.eqb (field d) value) (mem_rows m)).
Definition mem_BySlug : mem -> string -> res (option string) := integrationIDByField (fun d => md_Slug (dp_Metadata d)).
Definition mem_BySubdomain : mem -> string -> res (option string) := integrationIDByField (fun d => st_Subdomain (dp_Settings d)).
(** An [UPDATE ... WHERE id]: the row's time moves with it. *)
Definition updated_at (now : Z) (d : Deployment) : Deployment :=
  mkDeployment (dp_ID d) (dp_IntegrationID d) (dp_Status d) (dp_Settings d) (dp_Metadata d) now (dp_Detail d).
Definition mem_update (f : Deployment -> Deployment) (id : string) : SM mem unit := fun m =>
  match mm_rows m !! id with
  | None => (m, Err ErrNotFound)
  | Some d => (put_rows (<[id := updated_at (mm_clock m) (f d)]> (mm_rows m)) m, Ok tt)
  end.
Definition mem_UpdateStatus (id status : string) : SM mem unit :=
  mem_update (fun d => mkDeployment (dp_ID d) (dp_IntegrationID d) status (dp_Settings d) (dp_Metadata d) (dp_LastUpdated d) (dp_Detail d)) id.
Definition mem_UpdateSettings (id : string) (settings : Settings) : SM mem unit := mem_update (with_settings settings) id.
Definition mem_UpdateMetadata (id : string) (metadata : Metadata) : SM mem unit := mem_update (with_metadata metadata) id.
Definition mem_UpdateMetadataAndSettings (id : string) (metadata : Metadata) (settings : Settings) : SM mem unit :=
  mem_update (fun d => with_settings settings (with_metadata metadata d)) id.
Definition mem_DeleteRow (id : string) : SM mem unit := fun m =>
  match mm_rows m !! id with None => (m, Err ErrNotFound) | Some _ => (mkMem (delete id (mm_rows m)) (mm_work m) (mm_addr m) ({[id]} ∪ mm_used m) (mm_clock m) (mm_torn m), Ok tt) end.
(** [SecretReferenced]. *)
Definition mem_SecretReferenced (m : mem) (name : string) : bool :=
  if String.eqb name "" then false
  else existsb (fun d => existsb (fun kv => String.eqb (eb_Secret kv.2) name) (map_to_list (st_Env (dp_Settings d)))) (mem_rows m).

(** ** The cluster: more than ten replicas are more than it has room for *)
Definition mem_Apply (spec : Spec) : SM mem unit := fun m =>
  let m := mkMem (mm_rows m) ({[sp_ID spec]} ∪ mm_work m) (if String.eqb (sp_Slug spec) "" then mm_addr m else {[sp_Slug spec]} ∪ mm_addr m)
             ({[sp_ID spec]} ∪ mm_used m) (mm_clock m) (mm_torn m) in
  (m, if 10 <? sp_Replicas spec then Err (ErrMsg "quota exceeded") else Ok tt).
Definition mem_DeleteWorkload (id : string) : SM mem unit := fun m =>
  (mkMem (mm_rows m) (mm_work m ∖ {[id]}) (mm_addr m) ({[id]} ∪ mm_used m) (mm_clock m) (mm_torn m ++ [(id, bool_decide (id ∈ dom (mm_rows m)))])%list, Ok tt).
Definition mem_DeleteService (slug : string) : SM mem unit := fun m =>
  (mkMem (mm_rows m) (mm_work m) (mm_addr m ∖ {[slug]}) (mm_used m) (mm_clock m) (mm_torn m), Ok tt).
Definition stays : SM mem unit := fun m => (m, Ok tt).

(** [others] is what other requests do in between. *)
Definition mem_platform (others : mem -> mem) : Platform mem := {|
  repo_Create := mem_Create; repo_Get := mem_Get; repo_ListAll := mem_ListAll; repo_ListByIntegration := mem_ListByIntegration;
  repo_IntegrationIDBySlug := mem_BySlug; repo_IntegrationIDBySubdomain := mem_BySubdomain;
  repo_UpdateStatus := mem_UpdateStatus; repo_UpdateSettings := mem_UpdateSettings; repo_UpdateMetadataAndSettings := mem_UpdateMetadataAndSettings;
  repo_Delete := mem_DeleteRow;
  integrations_Get _ id := Ok (Some (mkIntegration "Order Intake" id)); snapshots_Get _ _ := Ok None; snapshots_ListResources _ _ := Ok [];
  resources_ListByIntegration _ _ := Ok [];
  kube_Apply := mem_Apply; kube_Rollout _ := stays; kube_Status m id := Ok (phase_only (if bool_decide (id ∈ mm_work m) then "running" else "failed"));
  kube_PodLogs _ _ _ _ := Ok ""; kube_Scale _ _ := stays; kube_Delete := mem_DeleteWorkload; kube_DeleteInternalService := mem_DeleteService;
  kube_SecretKeyExists _ _ := Ok true; kube_DeploymentIDs m := Ok (mm_work m, true); kube_DeploymentExists m id := Ok (bool_decide (id ∈ mm_work m));
  kube_InternalURL slug port := "http://octo-int-" ++ slug ++ ":" ++ itoa port; kube_ExternalURL sub := "https://" ++ sub ++ ".example.com";
  kube_ExternalEnabled := true; kube_RunnerEnabled _ := true; kube_RunnerImage _ pin := WithTag "octo-runtime:0.11.14" (if String.eqb pin "" then "0.11.14" else pin);
  kube_RuntimeVersion := "0.11.14"; identities_MintMachine _ _ _ m := (m, Minted "token"); supported_releases := ["0.11.14"; "0.11.13"]; meanwhile := others |}.
#[export] Instance mem_view : PlatformView mem := { rows := mm_rows; workloads := mm_work; addresses := mm_addr }.

Lemma mem_update_law (P : Deployment -> Deployment -> Prop) f id : (forall d, dp_ID (f d) = dp_ID d) -> (forall d now, P d (updated_at now (f d))) ->
  updates (S := mem) id P (mem_update f id).
Proof.
  intros Hid HP m m' r. unfold mem_update. destruct (mm_rows m !! id) as [d|] eqn:E; intros [= <- <-]; [|done].
  exists d, (updated_at (mm_clock m) (f d)). split_and!; try done. apply Hid.
Qed.
Lemma fresh_id_new m : (fresh_id m ∉ mm_used m) /\ (fresh_id m ∉ dom (mm_rows m)) /\ (fresh_id m ∉ mm_work m).
Proof. pose proof (is_fresh (mm_used m ∪ dom (mm_rows m) ∪ mm_work m)) as H. unfold fresh_id. set_solver. Qed.
Lemma scanned_keyed m id d : (forall id d, mm_rows m !! id = Some d -> dp_ID d = id) -> mm_rows m !! id = Some d -> scanned (id, d) = d.
Proof. intros Hid Hd. pose proof (Hid _ _ Hd) as <-. by destruct d. Qed.
Lemma mem_rows_elem m d : (forall id d, mm_rows m !! id = Some d -> dp_ID d = id) -> d ∈ mem_rows m <-> mm_rows m !! dp_ID d = Some d.
Proof.
  intros Hid. unfold mem_rows. split.
  - intros ([id e] & -> & He%elem_of_map_to_list)%list_elem_of_fmap. rewrite (scanned_keyed m id e) by done. by rewrite (Hid _ _ He).
  - intros Hd. apply list_elem_of_fmap. exists (dp_ID d, d). split; [by rewrite (scanned_keyed m)|]. by apply elem_of_map_to_list.
Qed.
Lemma mem_rows_ids m : map dp_ID (mem_rows m) = map fst (map_to_list (mm_rows m)).
Proof. unfold mem_rows. rewrite map_map. apply map_ext. by intros [id d]. Qed.
Lemma mem_slug_law m slug o : slug <> "" -> mem_BySlug m slug = Ok o -> (o = None <-> forall id d, mm_rows m !! id = Some d -> row_slug d <> slug).
Proof.
  intros Hne. unfold mem_BySlug, integrationIDByField. rewrite (proj2 (String.eqb_neq _ _) Hne). intros [= <-].
  destruct (List.find _ (mem_rows m)) as [d|] eqn:E; cbn; split; try done.
  - apply find_some in E as [Hin Hs%String.eqb_eq]. intros H. exfalso. apply list_elem_of_In, list_elem_of_fmap in Hin as ([id e] & -> & He%elem_of_map_to_list).
    by apply (H id e).
  - intros _ id d Hd Hs. pose proof (find_none _ _ E (scanned (id, d))) as Hf. cbn in Hf. unfold row_slug in Hs. rewrite Hs, String.eqb_refl in Hf.
    enough (true = false) by done. apply Hf, list_elem_of_In, list_elem_of_fmap. exists (id, d). split; [done|]. by apply elem_of_map_to_list.
Qed.
Lemma mem_laws (others : mem -> mem) : (forall m, same m (others m)) -> PlatformLaws mem (Platform0 := mem_platform others).
Proof.
  intros Hothers. split; cbn [repo_Create repo_Get repo_ListAll repo_IntegrationIDBySlug repo_UpdateStatus repo_UpdateSettings repo_UpdateMetadataAndSettings repo_Delete
    kube_Apply kube_Rollout kube_Scale kube_Delete kube_DeleteInternalService kube_DeploymentIDs kube_DeploymentExists identities_MintMachine meanwhile mem_platform].
  - done.
  - intros integ st set md m m' r [= <- <-]. cbn. destruct (fresh_id_new m) as (_ & H1 & H2). split_and!; try done. by apply not_elem_of_dom.
  - intros m id d. unfold mem_Get. cbn. destruct (mm_rows m !! id); [by intros [= ->]|done].
  - intros m slug o Hne H. by apply mem_slug_law.
  - intros m ds Hid [= <-]. cbn in *. split.
    + rewrite (Permutation_map dp_ID (sort_by_perm updated_before (mem_rows m))), mem_rows_ids. apply NoDup_fst_map_to_list.
    + intros d. rewrite sort_by_perm. by apply mem_rows_elem.
  - intros id phase. by apply mem_update_law.
  - intros id set. by apply mem_update_law.
  - intros id md set. by apply mem_update_law.
  - intros id m m' r. unfold mem_DeleteRow. cbn. destruct (mm_rows m !! id) eqn:E; by intros [= <- <-].
  - intros spec m m' r [= <- <-]. cbn. split_and!; try done; try set_solver.
    + destruct (String.eqb _ _); set_solver.
    + destruct (String.eqb _ _); set_solver.
    + intros _. split; [set_solver|]. intros Hne. rewrite (proj2 (String.eqb_neq _ _) Hne). set_solver.
  - done.
  - done.
  - intros id m m' r [= <- <-]. cbn. split_and!; try done; set_solver.
  - intros slug m m' r [= <- <-]. cbn. split_and!; try done; set_solver.
  - by intros m ids [= <-].
  - intros m id b [= <-]. apply bool_decide_eq_true.
  - done.
Qed.
Lemma mem_reliable (others : mem -> mem) : Reliable mem (Platform0 := mem_platform others).
Proof. by split. Qed.

(** A definition with one HTTP source. *)
#[export] Instance one_http_source : DefinitionYAML := {
  env_decl _ := Some []; http_decl _ := Some (mkHttpDecl [] [Some (mkSource "" "http")]) }.
Definition mem_service : Service mem := mkService true false false false [].
Definition wanted_settings (replicas : Z) (slug : string) : Settings := mkSettings replicas slug "" "" ∅ false [] "" "" "".
Lemma mem_empty_ok : deployed_ok mem_empty.
Proof. split; cbn; try done; set_solver. Qed.
