(* ===== verification/DeployLife.v ===== *)
(** The life of a platform: any requests one after another, and a sweep with
    other requests going on. *)
From S2P Require Import Prelude Order GoStr GoTime Dotenv EnvPorts RuntimeVersion Slug Deployment DeployLaws Reconciled DeployMem.
From Stdlib Require Import String Ascii.
#[local] Open Scope string_scope.
#[local] Open Scope Z_scope.

(** ** One request after another *)
Inductive request : Type :=
  | RDeploy (token integrationID : string) (settings : Settings) (now : Z)
  | RScale (id : string) (replicas : Z)
  | RRollout (token id : string) (change : RolloutChange) (now : Z)
  | RUndeploy (id : string)
  | RGet (id : string)
  | RListByIntegration (integrationID : string)
  | RList
  | RReconcile (now : Z).

Section life.
Context {S : Type} {PF : Platform S} {DY : DefinitionYAML} (sv : Service S).
Definition serve (s : S) (q : request) : S :=
  match q with
  | RDeploy token integ settings now => (Deploy sv token integ settings now s).1
  | RScale id n => (Service_Scale sv id n s).1
  | RRollout token id change now => (Rollout sv token id change now s).1
  | RUndeploy id => (Undeploy sv id s).1
  | RGet id => (Service_Get sv id s).1
  | RListByIntegration integ => (ListByIntegration sv integ s).1
  | RList => (Service_List sv s).1
  | RReconcile now => (Reconcile sv now s).1
  end.

Context {PV : PlatformView S} {PL : PlatformLaws S} {RE : Reliable S}.
Context (cleaners_keep : Forall (fun c : string -> SM S unit => forall id, keeps (c id)) (sv_cleaners sv)).
Lemma deploy_ok token integ settings now s : deployed_ok s -> deployed_ok (Deploy sv token integ settings now s).1.
Proof.
  intros Hok. destruct (Deploy sv token integ settings now s) as [s' r] eqn:E. pose proof (deploy_split sv token integ settings now s s' r Hok E) as H.
  destruct r; [done|]. by eapply same_ok.
Qed.
Lemma read_refresh_ok {A} (f : S -> res A) (g : A -> SM S Deployment) s : (forall a s, deployed_ok s -> deployed_ok (g a s).1) -> deployed_ok s ->
  deployed_ok ((read f ≫= g) s).1.
Proof. intros Hg Hok. unfold mbind, SM_bind, read. destruct (f s); [by apply Hg|done]. Qed.
Lemma serve_ok s q : deployed_ok s -> deployed_ok (serve s q).
Proof.
  intros Hok. destruct q; cbn [serve].
  - by apply deploy_ok.
  - by apply scale_ok.
  - by apply rollout_ok.
  - by apply undeploy_ok.
  - unfold Service_Get. apply read_refresh_ok; [|done]. intros d s0 H0. destruct (applyRefresh sv d s0) as [s1 r] eqn:E. by eapply applied_ok.
  - unfold ListByIntegration, mbind, SM_bind, read. destruct (repo_ListByIntegration s integrationID); [by apply refresh_all_ok|done].
  - unfold Service_List, mbind, SM_bind, read. destruct (repo_ListAll s); [by apply refresh_all_ok|done].
  - by apply reconcile_ok.
Qed.
Lemma serve_all_ok qs : forall s, deployed_ok s -> deployed_ok (foldl serve s qs).
Proof. induction qs as [|q qs IH]; intros s Hok; cbn; [done|]. by apply IH, serve_ok. Qed.

End life.

(** ** A sweep beside other requests

    [used] is every id that a deployment was ever made with; [torn] the workloads
    the sweep itself took down, each with whether a row named it at that moment. *)
Class SharedView (S : Type) : Type := { used : S -> gset string; torn : S -> list (string * bool) }.
(** No id comes back: a row that is gone stays gone. *)
Record later {S} `{!PlatformView S} `{!SharedView S} (s s' : S) : Prop := mkLater {
  later_used : used s ⊆ used s';
  later_rows : forall id, id ∈ used s -> id ∈ dom (rows s') -> id ∈ dom (rows s) }.
#[global] Instance later_preorder {S} `{!PlatformView S} `{!SharedView S} : PreOrder (later (S := S)).
Proof. split; [by intros s|]. intros s1 s2 s3 [U1 R1] [U2 R2]. split; [set_solver|]. intros id Hu Hr. apply R1; [done|]. apply R2; [set_solver|done]. Qed.
Record beside {S} `{!PlatformView S} `{!SharedView S} (s s' : S) : Prop := mkBeside { beside_later : later s s'; beside_torn : torn s' = torn s }.
#[global] Instance beside_preorder {S} `{!PlatformView S} `{!SharedView S} : PreOrder (beside (S := S)).
Proof. split; [by intros s; split|]. intros s1 s2 s3 [L1 T1] [L2 T2]. split; [by etransitivity|congruence]. Qed.

(** What others do between two calls may be anything that reuses no id; a listing
    of the cluster may be old. *)
Class SharedLaws (S : Type) `{!Platform S} `{!PlatformView S} `{!SharedView S} : Prop := {
  meanwhile_beside : forall s, beside s (meanwhile s);
  listed_used : forall s ids trusted, kube_DeploymentIDs s = Ok (ids, trusted) -> ids ⊆ used s;
  listed_rows : forall s ds, repo_ListAll s = Ok ds -> forall id, id ∈ dom (rows s) -> id ∈ map dp_ID ds;
  row_delete_beside : forall id s, beside s (repo_Delete id s).1;
  address_delete_beside : forall slug s, beside s (kube_DeleteInternalService slug s).1;
  workload_delete_torn : forall id s, later s (kube_Delete id s).1 /\ torn (kube_Delete id s).1 = (torn s ++ [(id, bool_decide (id ∈ dom (rows s)))])%list }.

Section shared.
Context {S : Type} {PF : Platform S} {PV : PlatformView S} {SV : SharedView S} {SL : SharedLaws S} {DY : DefinitionYAML} (sv : Service S).
Context (cleaners_beside : Forall (fun c : string -> SM S unit => forall id s, beside s (c id s).1) (sv_cleaners sv)).
Definition goes_beside {A} (m : SM S A) : Prop := forall s, beside s (m s).1.

Lemma beside_bind {A B} (m : SM S A) (f : A -> SM S B) : goes_beside m -> (forall a, goes_beside (f a)) -> goes_beside (m ≫= f).
Proof.
  intros Hm Hf s. specialize (Hm s). unfold mbind, SM_bind. destruct (m s) as [s1 [a|e]]; [|done]. etransitivity; [exact Hm|apply Hf].
Qed.
Lemma beside_ret {A} (a : A) : goes_beside (mret a). Proof. intros s. by cbn. Qed.
Lemma beside_effort (m : SM S unit) : goes_beside m -> goes_beside (best_effort m). Proof. intros H s. apply H. Qed.
Lemma beside_attempt {A} (m : SM S A) : goes_beside m -> goes_beside (attempt m).
Proof. intros H s. specialize (H s). unfold attempt. by destruct (m s). Qed.
Lemma beside_interlude : goes_beside interlude. Proof. intros s. apply meanwhile_beside. Qed.
Lemma beside_if {A} (b : bool) (m n : SM S A) : goes_beside m -> goes_beside n -> goes_beside (if b then m else n). Proof. by destruct b. Qed.
Lemma clean_beside cs id : Forall (fun c : string -> SM S unit => forall id s, beside s (c id s).1) cs -> goes_beside (clean_all cs id).
Proof. induction 1 as [|c cs Hc _ IH]; cbn; [apply beside_ret|]. apply beside_bind; [apply beside_effort; intros s; apply Hc|done]. Qed.
Lemma forget_beside d : goes_beside (forget_deployment sv d).
Proof.
  unfold forget_deployment. apply beside_bind; [|intros _; by apply clean_beside]. apply beside_if; [|apply beside_ret].
  apply beside_effort. intros s. apply address_delete_beside.
Qed.
Lemma sweep_row_beside live_ cutoff d n : goes_beside (sweep_row sv live_ cutoff d n).
Proof.
  unfold sweep_row. apply beside_if; [apply beside_ret|]. apply beside_if; [apply beside_ret|].
  apply beside_bind; [apply beside_attempt; by intros s|intros [[]|e]]; [apply beside_ret| |apply beside_ret].
  apply beside_bind; [|intros b; apply beside_ret]. unfold removeOrphanedRow.
  apply beside_bind; [apply beside_attempt; intros s; apply row_delete_beside|intros [u|e]]; [|apply beside_ret].
  apply beside_bind; [apply forget_beside|intros _; apply beside_ret].
Qed.
Lemma sweep_rows_beside live_ cutoff ds : forall n, goes_beside (sweep_rows sv live_ cutoff ds n).
Proof.
  induction ds as [|d ds IH]; intros n; cbn [sweep_rows]; [apply beside_ret|].
  apply beside_bind; [apply beside_interlude|intros _]. apply beside_bind; [apply sweep_row_beside|apply IH].
Qed.

(** Ids without a row, of deployments made before: none of them gets one. *)
Definition gone (known : gset string) (ids : list string) (s : S) : Prop := forall id, id ∈ ids -> id ∉ known -> id ∈ used s /\ id ∉ dom (rows s).
Lemma gone_later known ids s s' : gone known ids s -> later s s' -> gone known ids s'.
Proof. intros Hg [Hu Hr] id Hin Hk. destruct (Hg id Hin Hk) as [H1 H2]. split; [set_solver|]. intros H. by apply H2, Hr. Qed.
Lemma sweep_workloads_torn known ids : forall n s, gone known ids s ->
  exists new, torn (sweep_workloads known ids n s).1 = (torn s ++ new)%list /\ Forall (fun p => p.2 = false) new.
Proof.
  induction ids as [|id ids IH]; intros n s Hg; cbn [sweep_workloads]; [exists []; by rewrite app_nil_r|].
  assert (gone known ids s) as Hg' by (intros id' Hin; apply Hg; by right).
  destruct (bool_decide_reflect (id ∈ known)) as [|Hk]; [by apply IH|].
  rewrite (SM_bind_ok interlude _ s (meanwhile s) tt eq_refl). pose proof (meanwhile_beside s) as [L1 T1]. set (s1 := meanwhile s) in *.
  destruct (workload_delete_torn id s1) as [L2 T2]. destruct (kube_Delete id s1) as [s2 r2] eqn:E2. cbn [fst] in *. rewrite (bind_attempt _ _ _ _ _ E2).
  destruct (gone_later _ _ _ _ Hg L1 id ltac:(by left) Hk) as [_ Hno]. rewrite bool_decide_eq_false_2 in T2 by done.
  assert (gone known ids s2) as Hg2 by (eapply gone_later; [exact Hg'|by etransitivity]).
  destruct (IH (match r2 with Ok _ => n + 1 | Err _ => n end) s2 Hg2) as (new & Hn & Hf). exists ((id, false) :: new).
  rewrite Hn, T2, T1, <-app_assoc. split; [done|]. by constructor.
Qed.

Lemma reconcile_torn now s s' r : Reconcile sv now s = (s', r) -> exists new, torn s' = (torn s ++ new)%list /\ Forall (fun p => p.2 = false) new.
Proof.
  unfold Reconcile. destruct (negb (sv_kube sv)); [intros [= <- _]; exists []; by rewrite app_nil_r|].
  intros [(s0 & [live_ trusted] & H0 & H)|(e & H0 & _)]%bind_split; [|injection H0 as <- _; exists []; by rewrite app_nil_r].
  injection H0 as <- Hids. apply listed_used in Hids. destruct trusted; cbn [negb] in H; [|injection H as <- _; exists []; by rewrite app_nil_r].
  rewrite (SM_bind_ok interlude _ s (meanwhile s) tt eq_refl) in H. pose proof (meanwhile_beside s) as B1. set (s1 := meanwhile s) in *.
  apply bind_split in H as [(s2 & ds & H2 & H)|(e & H2 & _)]; [|injection H2 as <- _; exists []; rewrite app_nil_r; split; [apply B1|constructor]].
  injection H2 as <- Hds. pose proof (listed_rows _ _ Hds) as Hlisted.
  assert (gone (list_to_set (map dp_ID ds)) (elements live_) s1) as Hg.
  { intros id Hin%elem_of_elements Hk. split; [apply (later_used _ _ (beside_later _ _ B1)); set_solver|]. intros Hd. apply Hk, elem_of_list_to_set. by apply Hlisted. }
  pose proof (sweep_rows_beside live_ (now - reconcileGrace) ds 0 s1) as B2.
  apply bind_split in H as [(s3 & n & H3 & H)|(e & H3 & _)]; rewrite H3 in B2; cbn in B2.
  - destruct (sweep_workloads_torn (list_to_set (map dp_ID ds)) (elements live_) 0 s3) as (new & Hn & Hf); [eapply gone_later; [exact Hg|apply B2]|].
    exists new. split; [|done]. rewrite <-(beside_torn _ _ B1), <-(beside_torn _ _ B2), <-Hn.
    apply bind_split in H as [(s4 & m & H4 & H)|(e & H4 & _)]; rewrite H4; [by injection H as <- _|done].
  - exists []. rewrite app_nil_r. split; [|constructor]. rewrite (beside_torn _ _ B2). apply B1.
Qed.

(** C7: a sweep never takes down a deployment that exists.  Whatever else is
    deployed, undeployed or rolled out between any two calls of a sweep, and
    however old the cluster's listing is: every workload the sweep takes down is
    one that no row names at that moment. *)
Theorem sweep_spares_the_living now s s' r id had_row :
  torn s = [] -> Reconcile sv now s = (s', r) -> (id, had_row) ∈ torn s' -> had_row = false.
Proof.
  intros Ht H Hin. destruct (reconcile_torn _ _ _ _ H) as (new & Hn & Hf). rewrite Ht in Hn. cbn in Hn. rewrite Hn in Hin.
  rewrite Forall_forall in Hf. by specialize (Hf _ Hin).
Qed.
End shared.

(** ** The memory of [DeployMem] keeps these laws *)
#[export] Instance mem_shared : SharedView mem := { used m := mm_used m ∪ dom (mm_rows m) ∪ mm_work m; torn := mm_torn }.
Lemma mem_beside m rs work addr us clock : mm_used m ⊆ us -> dom rs ⊆ dom (mm_rows m) -> dom (mm_rows m) ⊆ dom rs ∪ us -> work ⊆ mm_work m -> mm_work m ⊆ work ∪ us ->
  beside m (mkMem rs work addr us clock (mm_torn m)).
Proof. intros H1 H2 H3 H4 H5. split; [|done]. split; cbn; set_solver. Qed.
Lemma mem_shared_laws (others : mem -> mem) : (forall m, beside m (others m)) -> SharedLaws mem (Platform0 := mem_platform others).
Proof.
  intros Ho. split; cbn [meanwhile kube_DeploymentIDs repo_ListAll repo_Delete kube_DeleteInternalService kube_Delete mem_platform].
  - done.
  - intros m ids t [= <- _]. cbn. set_solver.
  - intros m ds [= <-] id Hid. cbn in Hid. rewrite (sort_by_perm updated_before (mem_rows m)), mem_rows_ids.
    apply elem_of_dom in Hid as [d Hd]. apply list_elem_of_fmap. exists (id, d). split; [done|]. by apply elem_of_map_to_list.
  - intros id m. unfold mem_DeleteRow. destruct (mm_rows m !! id) eqn:E; cbn [fst]; [|reflexivity]. apply mem_beside; rewrite ?dom_delete_L; try set_solver.
    intros x Hx. destruct (decide (x = id)); set_solver.
  - intros slug m. cbn [mem_DeleteService fst]. apply mem_beside; set_solver.
  - intros id m. split; [|done]. split; cbn; [|set_solver]. intros x Hx. destruct (decide (x = id)); set_solver.
Qed.

(** ** Histories *)
Module Histories.
Definition nobody_else (m : mem) : mem := m.
Definition calm : Platform mem := mem_platform nobody_else.
Lemma calm_laws : PlatformLaws mem (Platform0 := calm). Proof. by apply mem_laws. Qed.
Lemma calm_reliable : Reliable mem (Platform0 := calm). Proof. apply mem_reliable. Qed.
#[local] Existing Instances calm calm_laws calm_reliable.
Definition nothing_to_clean : Forall (fun c : string -> SM mem unit => forall id, keeps (c id)) (sv_cleaners mem_service) := List.Forall_nil _.
(** One deployment, called "intake". *)
Definition one : mem := (Deploy mem_service "tok" "orders" (wanted_settings 2 "Intake!") 100 mem_empty).1.
Lemma one_ok : deployed_ok one.
Proof. exact (deploy_ok mem_service _ _ _ _ mem_empty mem_empty_ok). Qed.
(** A day: two deploys that want one name, a scale, a read, an undeploy, a deploy
    that takes the name again, a sweep. *)
Definition day : list request :=
  [RDeploy "tok" "orders" (wanted_settings 2 "intake") 100; RDeploy "tok" "orders" (wanted_settings 1 "intake") 110; RDeploy "tok" "orders" (wanted_settings 1 "") 120;
   RScale "0" 3; RGet "0"; RUndeploy "0"; RDeploy "tok" "billing" (wanted_settings 1 "intake") 200; RReconcile 1000].
(** A row that lost its workload long ago, one made just now, a workload without a row. *)
Definition drifted : mem :=
  put_rows (<["old" := mkDeployment "old" "orders" "running" (wanted_settings 1 "") (mkMetadata "" "" "" "" "" "" "" "" None) 0 (phase_only "")]>
           (<["new" := mkDeployment "new" "orders" "pending" (wanted_settings 1 "") (mkMetadata "" "" "" "" "" "" "" "" None) (390 * Second) (phase_only "")]> (mm_rows one)))
    (mkMem ∅ ({["lost"]} ∪ mm_work one) (mm_addr one) (mm_used one) 0 []).
Lemma drifted_keyed id d : rows drifted !! id = Some d -> dp_ID d = id.
Proof.
  cbn. intros [[<- <-]|[_ [[<- <-]|[_ H]]%lookup_insert_Some]]%lookup_insert_Some; [done|done|]. exact (ok_ids one one_ok id d H).
Qed.
End Histories.

Module Races.
(** Another deploy between any two calls. *)
Definition newcomer (m : mem) : mem :=
  let '(m, d) := mem_Create "billing" StatusPending (wanted_settings 1 "") (mkMetadata "" "" "" "" "" "" "" "" None) m in
  match d with
  | Ok d => (mem_Apply (mkSpec (dp_ID d) "billing" "" "" "" "" 1 "" 0 ∅ ∅ false "" false RunnerStandard "" "") m).1
  | Err _ => m
  end.
Lemma newcomer_beside m : beside m (newcomer m).
Proof.
  pose proof (fresh_id_new m) as (H1 & H2 & H3). split; [|done]. split; cbn; [set_solver|]. intros id Hu. rewrite dom_insert_L. set_solver.
Qed.
Definition busy : Platform mem := mem_platform newcomer.
Lemma busy_laws : SharedLaws mem (Platform0 := busy). Proof. apply mem_shared_laws, newcomer_beside. Qed.
#[local] Existing Instances busy busy_laws.
Definition no_cleaners : Forall (fun c : string -> SM mem unit => forall id s, beside s (c id s).1) (sv_cleaners mem_service) := List.Forall_nil _.
Definition one_lost : mem := mkMem ∅ {["lost"]} ∅ ∅ 0 [].
Lemma sweep_spares_the_living_witness : exists s' r had_row,
  Reconcile mem_service 1000 one_lost = (s', r) /\ List.length (elements (workloads s')) = 3%nat /\ ("lost", had_row) ∈ torn s' /\ had_row = false.
Proof.
  destruct (Reconcile mem_service 1000 one_lost) as [s' r] eqn:E. exists s', r.
  assert (List.length (elements (workloads s')) = 3%nat /\ torn s' = [("lost", false)]) as [Hw Ht]
    by (change s' with (((s', r) : mem * _).1); rewrite <-E; vm_compute; split; reflexivity).
  exists false. assert (("lost", false) ∈ torn s') as Hin by (rewrite Ht; by left). split; [reflexivity|]. split; [exact Hw|]. split; [exact Hin|].
  exact (sweep_spares_the_living mem_service no_cleaners 1000 one_lost s' r "lost" false eq_refl E Hin).
Defined.

(** Two deploys that look for a name at once: the other one is done between this
    one's look and its insert, and both have the name. *)
Definition rival_deploy (m : mem) : mem := (Deploy (PF := mem_platform Histories.nobody_else) mem_service "tok" "orders" (wanted_settings 1 "") 100 m).1.
Example two_deploys_take_one_name :
  map (fun kv => row_slug kv.2) (map_to_list (mm_rows (Deploy (PF := mem_platform rival_deploy) mem_service "tok" "orders" (wanted_settings 1 "") 100 mem_empty).1))
  = ["order-intake"; "order-intake"].
Proof. vm_compute. reflexivity. Qed.
(** Two deployments of one integration may have one subdomain. *)
Definition outside (sub : string) : Settings := mkSettings 1 "" ExposeExternal sub ∅ false [] "" "" "".
Example one_integration_one_subdomain_twice :
  let '(m, r) := foldl (fun st q => Deploy (PF := mem_platform Histories.nobody_else) mem_service "tok" "orders" q 100 st.1)
                   (mem_empty, Err ErrNotFound) [outside "shop"; outside "shop"] in
  is_ok r = true /\ map (fun kv => st_Subdomain (dp_Settings kv.2)) (map_to_list (mm_rows m)) = ["shop"; "shop"].
Proof. vm_compute. split; reflexivity. Qed.
End Races.
